(* ===== verification/_CoqProject ===== *)
-Q . S2P
Prelude.v
GoFloat.v
SlidingWindow.v
Json.v
Geth.v
Rpc.v
RpcText.v
Reader.v
Rewriter.v
RateLimiter.v
Backend.v
ConsensusTracker.v
ConsensusPoller.v
BackendGroup.v
Cache.v
Ws.v
Server.v
Wire.v
MockServer.v
Start.v
Limits.v
Bytes.v
Signer.v
Pms.v
TxProxy.v
Ufm.v
RoundTrip.v
Acceptance.v
AcceptanceTests.v
Mon.v
CciStats.v
ConductorOps.v
Tags.v
Apps.v
Metrics.v
Clients.v
Services.v
Schedule.v
Mains.v
