(* ===== verification/Prelude.v ===== *)
(** * The services of ethereum-optimism/infra

    proxyd (src/proxyd) is a JSON-RPC proxy in front of groups of Ethereum
    nodes. The HTTP server checks, rate limits and caches requests and cuts a
    request set into batches for backend groups. A group chooses an order of its
    backends, rewrites block tags for its consensus and fails over; a backend
    performs the exchange, with retries, and measures its health in sliding
    windows. A poller watches the backends of a consensus aware group and agrees
    on a latest, safe and finalized block, which a tracker keeps, in memory or
    shared by several proxyd through Redis. WebSocket connections are proxied
    with a whitelist of methods. At its start all of this is put together from
    a configuration.

    op-signer (src/op-signer) signs transactions and block payloads for the
    clients of its configuration with keys of a cloud KMS. peer-mgmt-service
    (src/peer-mgmt-service) polls the nodes of a network and connects those
    that are not connected. op-txproxy (src/op-txproxy) passes conditional
    transactions to a block builder, within a limit of their cost.

    op-ufm (src/op-ufm) sends transactions through the providers of a network
    and measures when the others see them. op-nat (src/op-nat) runs acceptance
    tests against a network. op-conductor-mon (src/op-conductor-mon) exports the
    state of the conductors of a cluster, and op-conductor-ops
    (src/op-conductor-ops) is the tool that changes it. cci-stats (src/cci-stats)
    copies the results of CI pipelines to a database, and the scripts of src/ops
    tag releases. The programs share no state.

    ** Files

    - [Prelude]: results with panics ([go]), the state monad [M] over them and
      its relational reasoning ([respects], [total], [returns], [run_step]),
      record updates, lemmas on lists, integers and strings.
    - [GoFloat]: float64 as SpecFloat's binary64, exactness below 2^53.
    - [SlidingWindow]: pkg/avg-sliding-window/sliding.go.
    - [Json], [Geth], [Rpc]: JSON texts and values as encoding/json reads them;
      the go-ethereum types the code decodes (an interface with laws); rpc.go,
      errors.go and the errors of backend.go. [RpcText]: the texts that requests
      and responses are written as, and what reading them gives.
    - [Reader]: reader.go under io.ReadAll.
    - [Rewriter]: rewriter.go.
    - [RateLimiter]: frontend_rate_limiter.go.
    - [Backend]: backend.go, type Backend: options, health, doForward, Forward,
      ForwardRPC, sortBatchRPCResponse.
    - [ConsensusTracker]: consensus_tracker.go.
    - [ConsensusPoller]: consensus_poller.go.
    - [BackendGroup]: backend.go, type BackendGroup.
    - [Cache]: cache.go and methods.go.
    - [Ws]: backend.go, type WSProxier and ProxyWS; string_set.go.
    - [Server]: server.go. [Wire]: what a backend sends against what the server
      reads, and the reverse.
    - [MockServer]: tools/mockserver, the mock backend of the tests.
    - [Start]: proxyd.go, config.go, redis.go and tls.go: the checks of a
      configuration and the server, groups, limiters, caches and pollers made
      of it.
    - [Limits]: backend.go, type LimitedHTTPClient, with the semaphore that all
      backends share.
    - [Bytes]: big-endian numbers, CRC-32C and the DER encodings of encoding/asn1
      that op-signer reads.
    - [Signer]: op-signer/service (auth.go, config.go, errors.go, service.go) and
      its provider/cloudkms.go.
    - [Pms]: peer-mgmt-service/pkg: config/config.go, pms/network.go, pms/poll.go,
      pms/scheduler.go and the networks of service/service.go. The state of a
      network is [NetworkState]; the calls made of nodes and the reports are
      recorded beside it ([pms]).
    - [TxProxy]: op-txproxy/conditional_txs.go.
    - [Ufm]: op-ufm/pkg: config/config.go, provider/tx_pool.go, provider.go and
      heartbeat.go, and the pools that service/service.go makes. The heartbeats
      of a network are the step relation [hb_step] over its pool, a step per
      critical section; [RoundTrip] is provider/roundtrip.go.
    - [Acceptance]: the engine of op-nat (validator.go, test.go, suite.go, gate.go,
      nat.go, metrics.go); [AcceptanceTests]: its configuration, networks,
      wallets, and every test, suite and gate under validators.
    - [Mon]: op-conductor-mon/pkg: config, monitor, metrics and the client.
    - [CciStats]: cci-stats/pkg: service/service.go and db/db.go over the tables
      of db/db.sql.
    - [ConductorOps]: the Python files of op-conductor-ops; exceptions and exits
      are values of [exn], the sequencer objects that networks share are a store.
    - [Tags]: ops/tag-service and ops/ci-tag-docker-release.
    - [Apps]: op-signer/app.go, config.go and client/client.go, and
      op-txproxy/txproxy.go: the servers from start to stop, over a host with
      a set of running servers, and the client of the signer.
    - [Metrics]: the metrics of proxyd, peer-mgmt-service, op-ufm and op-nat and
      the functions that record them; [Clients]: the clients of op-ufm and
      peer-mgmt-service that measure calls of a library.
    - [Services]: the HTTP servers of the programs as goroutines, with the step
      relation [step], from Start to Shutdown.
    - [Schedule]: the goroutines that call a handler at an interval: op-ufm
      provider.go, scheduler.go of op-conductor-mon and of peer-mgmt-service,
      PollerAsyncHandler and the heartbeats of the Redis tracker in proxyd.
    - [Mains]: the main functions of proxyd, op-ufm, op-conductor-mon,
      peer-mgmt-service, cci-stats and kmstool, and the flags and actions of op-nat,
      op-signer and op-txproxy.

    Definitions have the names of the functions they model, with a prefix where a name
    is used twice ([Memory_Take] is MemoryFrontendRateLimiter.Take). A method
    that changes its receiver takes and returns it, or runs in a state monad
    over it; a pointer shared by several calls is part of that state (the
    requests a backend rewrites are [st_reqs], the backends of a group are the
    map [g_store]). [Panic] is a Go panic.

    ** What the theorems show

    - [Server]: a set of requests that is answered has a response for every
      request at its place, from the server, the cache, an error or the same
      place of a call to the method's group; the batches hold each accepted
      request once and no ID twice; minibatches partition a batch within the
      size limit; a request is accepted only when all limiters granted it; one
      that is not admitted changes nothing.
    - [BackendGroup]: one response per request, in the order of the requests;
      overridden responses keep their positions; failover, multicall and the
      order of backends.
    - [Backend]: the number of exchanges is bounded, batch responses are sorted
      into the order of the requests.
    - [ConsensusPoller]: the tags of a backend stay ordered in every
      interleaving of polling rounds and do not go back without a ban;
      candidates are eligible; the group's block is the highest agreed one.
    - [ConsensusTracker]: a leader's state reaches its followers, a takeover is
      not behind, heartbeats do not panic.
    - [Rewriter]: what is forwarded names no moving tag, no block beyond the
      consensus and no range over the limit.
    - [RateLimiter]: exactly min(max, calls) calls of a key and interval are
      granted, in every interleaving (memory) or run (Redis).
    - [SlidingWindow]: sum, count and average are those of the points of the
      last window length.
    - [Cache]: a hit is the result of an earlier write for the same call; what
      is written is read back.
    - [Ws] and [Server]: only whitelisted messages reach the backend of a
      WebSocket connection, unchanged.
    - [Start]: a server that starts has groups of known backends for all its
      mappings, a consensus poller exactly where it is configured, and limits
      within what was checked.
    - [Signer]: what is signed was allowed to the client of the certificate, with
      that client's key, and is what was asked for; a signature that is returned
      verifies, recovers the public key and is in canonical form.
    - [Pms]: a tick asks for exactly the connections that are missing, in the
      order of unprotect, unblock, disconnect, connect and protect; the registry
      of identities names the nodes that have them; ticks return when nodes
      announce an address.
    - [TxProxy]: what reaches the block builder has passed every check, and a
      refused transaction costs nothing of the limit.
    - [Ufm] and [RoundTrip]: a transaction leaves the pool of its network only
      after all other providers have seen it, and awaits one as long as it is
      there, in every interleaving of heartbeats and sends; a round trip ends,
      sends only after the cool down and with consecutive nonces.
    - [Acceptance] and [AcceptanceTests]: the verdict of a run is that of all its
      tests; what a passing gate has observed of the networks; the polling for
      confirmations.
    - [Mon]: what the gauges show after a tick.
    - [CciStats]: a report without an error has stored every pipeline from the
      cutoff on whose workflows are over; a pipeline is written as a whole or not
      at all, and writing it again changes nothing ([ingest_again]).
    - [ConductorOps]: which requests the commands that move the active sequencer
      make, after which checks, and when they succeed.
    - [Tags]: a new release is later than all tags of its service.
    - [Apps]: the servers that run after a start and a stop, failed or not.
    - [Metrics]: metrics are registered without a clash, and every recording has
      a value for each label of its metric, but for two functions.
    - [Clients]: a measuring client gives what the library gives and records
      one sample.
    - [Services]: after a shutdown no server listens, in every interleaving.
    - [Schedule]: the runs of a loop follow one another and are paced by its
      interval; one that waits when it is shut down ends, unless its timer has
      fired as well.
    - [Limits]: no more exchanges are under way than the limit, no unit of it is
      lost, and a call that gave up is counted and was not sent.
    - [Wire]: what one proxyd sends to another, requests and responses, is read
      as what was sent.
    - [MockServer]: every request that a template matches is answered with
      the last one, under the ID of the request.
    - [Mains]: services start only with a validated configuration; the exit status of
      cci-stats is that of its report unless it was interrupted.
    - [Reader]: reading through the limit ends with the body or the error.

    The theorems [clear_then_evict_wraps], [redis_limit_resets],
    [empty_filter_panics], [broken_response_never_returns],
    [retry_loses_translation], [stale_leader_never_recovers],
    [silent_candidates_agree], [malformed_answers_panic],
    [max_value_unchecked], [not_found_is_seen], [failed_dial_panics],
    [poll_without_head], [stopped_while_running], [gate_without_errors],
    [block_payload_never_signed], [txproxy_leaves_rpc], [cert_path_given],
    [transaction_pool_never_full], [resolved_state_labels],
    [send_error_counted_twice], [pollers_outlive_shutdown],
    [tracker_outlives_shutdown], [ticks_after_shutdown], [zero_interval_spins],
    [negative_limit_blocks], [blockless_request_panics], [filled_level_unused],
    [interrupted_run_succeeds] and the runs at the end of
    [AcceptanceTests], [Mon], [CciStats], [ConductorOps], [Tags], [Services] and
    [MockServer] state what the code does where that is not what it means to do.

    ** Interfaces

    Code outside of src is a class of operations with a class of laws,
    and an instance for the witnesses: the linked hash map of the windows, the
    types of go-ethereum, the environment of a backend (clock, HTTP exchange
    under its semaphore, jitter, sleep), Redis and redsync, the LRU list,
    snappy, SHA-256, map iteration and shuffles (any permutation), the
    WebSocket connections, the transaction codec, the deadline of a request, the
    environment of a start, PEM, the KMS and secp256k1, the RPC clients of the
    peer manager, the limiter and types of conditional transactions, the Ethereum
    clients and keys of op-ufm and op-nat, the conductor, CircleCI, the
    PostgreSQL driver, the HTTP library of Python, git, gcloud and semver, Prometheus,
    the servers of a host, the weighted semaphore, the YAML reader of the mock server,
    and the command line library.

    ** Bounds

    - Integers are [Z]; uint64, int and time.Duration wrap where the code can
      reach the bound (block numbers, window counts, limits), with the bound as
      a hypothesis where it cannot (2^53 for the sums of a window, 2^63 calls
      of a limiter).
    - [read_body] has fuel for the length of the body and is total
      ([read_body_total]); the search for a consensus block has fuel, and the
      theorem gives the amount that is enough; JSON parsing is bounded by the
      length of the text.
    - The loops of a round trip have fuel, and [round_trip_ends] gives the amount
      that is enough for the timeouts of the configuration; the pages of
      [fetchPipelines] have fuel for their number.
    - sort.Slice is an insertion sort; where its result is used, every sort
      gives the same.

    ** Not modelled

    - Logging. The models of the components of proxyd leave out the calls that
      record metrics; what these calls do is in [Metrics].
    - The TLS handshakes, CORS and the routers, and decoding of the TOML and YAML
      files.
    - Concurrency: the memory limiter is modelled at its critical sections. A
      round of the poller and a call of a multicall are taken as a whole, in
      any order. The Redis limiter reads the clock once per call.
    - JSON: number literals are kept as written; bytes over 127 are copied.
      TrimSpace is that of ASCII spaces.
    - Goroutines of op-ufm are modelled between their critical sections; the
      pools of goroutines of cci-stats run their tasks one after the other, in
      any order; the threads of op-conductor-ops run in any order.
    - The handlers of the metrics and health checks; the main functions of op-nat,
      op-signer and op-txproxy, which hand their flags and actions to the command
      line library; MockedHandler.Serve, which listens. A listener of proxyd
      that fails ends the process, which [Services] takes as the end of its
      goroutine.
    - The generated mocks of op-signer and its script for local certificates, and
      the text form of a duration in op-ufm, a call of the standard library. *)
From stdpp Require Import base numbers list gmap strings fin_maps sorting.

Set Default Goal Selector "!".

(** ** Outcomes of Go code: a value, or a run-time panic *)

Inductive go (A : Type) : Type :=
| Ret (a : A)
| Panic (why : string).
Arguments Ret {A} a.
Arguments Panic {A} why.

#[export] Instance go_ret : MRet go := @Ret.
#[export] Instance go_bind : MBind go := λ A B f m,
  match m with Ret a => f a | Panic why => Panic why end.

(** Code that threads a state and may panic. *)
Definition M (S A : Type) : Type := S → go (A * S).

#[export] Instance M_ret {S} : MRet (M S) := λ A a s, Ret (a, s).
#[export] Instance M_bind {S} : MBind (M S) := λ A B f m s,
  match m s with Ret (a, s') => f a s' | Panic why => Panic why end.

Definition m_panic {S A} (why : string) : M S A := λ _, Panic why.
Definition m_get {S} : M S S := λ s, Ret (s, s).
Definition m_gets {S A} (f : S → A) : M S A := λ s, Ret (f s, s).
Definition m_modify {S} (f : S → S) : M S unit := λ s, Ret (tt, f s).
Definition m_lift {S A} (m : go A) : M S A := λ s, a ← m; Ret (a, s).

(** ** Reasoning about runs *)

(** Every run of [m] that returns relates the states around it by [R]. *)
Definition respects {S A} (R : S → S → Prop) (m : M S A) : Prop :=
  ∀ s a s', m s = Ret (a, s') → R s s'.

Lemma respects_ret {S A} (R : S → S → Prop) `{!Reflexive R} (a : A) : respects R (mret a).
Proof. intros s a' s' [= <- <-]. done. Qed.

Lemma respects_bind {S A B} (R : S → S → Prop) `{!Transitive R} (m : M S A) (f : A → M S B) :
  respects R m → (∀ a, respects R (f a)) → respects R (m ≫= f).
Proof.
  intros Hm Hf s b s'. unfold mbind, M_bind. destruct (m s) as [[a s1]|] eqn:E; [|done].
  intros E'. transitivity s1; [by eapply Hm|by eapply Hf].
Qed.

Lemma respects_seq {S A B} (R1 R2 R : S → S → Prop) (m : M S A) (f : A → M S B) :
  (∀ x y z, R1 x y → R2 y z → R x z) → respects R1 m → (∀ a, respects R2 (f a)) → respects R (m ≫= f).
Proof.
  intros HR Hm Hf s b s'. unfold mbind, M_bind. destruct (m s) as [[a s1]|] eqn:E; [|done].
  intros E'. eapply HR; [by eapply Hm|by eapply Hf].
Qed.

Lemma respects_gets {S A} (R : S → S → Prop) `{!Reflexive R} (f : S → A) : respects R (m_gets f).
Proof. intros s a' s' [= <- <-]. done. Qed.

Lemma respects_lift {S A} (R : S → S → Prop) `{!Reflexive R} (m : go A) : respects R (m_lift m).
Proof. intros s a' s'. unfold m_lift. destruct m; [|done]. by intros [= <- <-]. Qed.

Lemma respects_panic {S A} (R : S → S → Prop) why : respects R (m_panic why : M S A).
Proof. done. Qed.

Lemma M_bind_Ret {S A B} (m : M S A) (f : A → M S B) s b s' :
  (m ≫= f) s = Ret (b, s') → ∃ a s1, m s = Ret (a, s1) ∧ f a s1 = Ret (b, s').
Proof. unfold mbind, M_bind. destruct (m s) as [[a s1]|]; [eauto|done]. Qed.

Lemma go_bind_Ret {A B} (m : go A) (f : A → go B) b :
  (m ≫= f) = Ret b → ∃ a, m = Ret a ∧ f a = Ret b.
Proof. destruct m; [eauto|done]. Qed.

(** The first step of a run that returned. *)
Tactic Notation "run_step" ident(H) ident(a) ident(s) simple_intropattern(Ha) :=
  apply M_bind_Ret in H as (a & s & Ha & H).

Lemma M_bind_eq {S A B} (m : M S A) (f : A → M S B) s :
  (m ≫= f) s = match m s with Ret (a, s') => f a s' | Panic why => Panic why end.
Proof. done. Qed.

Lemma M_bind_run {S A B} (m : M S A) (f : A → M S B) s a s1 :
  m s = Ret (a, s1) → (m ≫= f) s = f a s1.
Proof. unfold mbind, M_bind. by intros ->. Qed.

(** A run that panics. *)
Definition panics {S A} (m : M S A) (s : S) : Prop := ∃ why, m s = Panic why.

Lemma panics_bind {S A B} (m : M S A) (f : A → M S B) s :
  (∀ a s1, m s = Ret (a, s1) → panics (f a) s1) → panics (m ≫= f) s.
Proof.
  intros Hf. unfold panics, mbind, M_bind in *. destruct (m s) as [[a s1]|why] eqn:E; [by apply Hf|by eexists].
Qed.

Lemma panics_run {S A B} (m : M S A) (f : A → M S B) s a s1 :
  m s = Ret (a, s1) → panics (f a) s1 → panics (m ≫= f) s.
Proof. intros E Hf. apply panics_bind. intros a' s1'. rewrite E. by intros [= <- <-]. Qed.

(** Whether a computation returned, and with what. *)
Definition returned {A} (m : go A) : option A := match m with Ret a => Some a | Panic _ => None end.

Lemma returned_Ret {A} (m : go A) : is_Some (returned m) → ∃ a, m = Ret a.
Proof. destruct m as [a|]; [eauto|by intros []]. Qed.

Lemma returned_fst {A S B} (m : go (A * S)) (f : A * S → B) b :
  f <$> returned m = Some b → ∃ a s, m = Ret (a, s) ∧ f (a, s) = b.
Proof. destruct m as [[a s]|]; [|done]. intros [= <-]. eauto. Qed.

(** Code that never panics. *)
Definition total {S A} (m : M S A) : Prop := ∀ s, ∃ a s', m s = Ret (a, s').

Lemma total_ret {S A} (a : A) : total (mret a : M S A).
Proof. intros s. by exists a, s. Qed.
Lemma total_gets {S A} (f : S → A) : total (m_gets f).
Proof. intros s. by exists (f s), s. Qed.
Lemma total_bind {S A B} (m : M S A) (f : A → M S B) : total m → (∀ a, total (f a)) → total (m ≫= f).
Proof.
  intros Hm Hf s. destruct (Hm s) as (a & s1 & E). rewrite (M_bind_run _ _ _ _ _ E). apply Hf.
Qed.

(** A run that returns [a]. *)
Definition returns {S A} (m : M S A) (s : S) (a : A) : Prop := ∃ s', m s = Ret (a, s').

Lemma returns_bind {S A B} (m : M S A) (f : A → M S B) s b : total m →
  (∀ a s1, m s = Ret (a, s1) → returns (f a) s1 b) → returns (m ≫= f) s b.
Proof. intros Hm Hf. destruct (Hm s) as (a & s1 & E). unfold returns. rewrite (M_bind_run _ _ _ _ _ E). by apply Hf. Qed.

Lemma returns_run {S A B} (m : M S A) (f : A → M S B) s a b : returns m s a →
  (∀ s1, m s = Ret (a, s1) → returns (f a) s1 b) → returns (m ≫= f) s b.
Proof. intros [s1 E] Hf. unfold returns. rewrite (M_bind_run _ _ _ _ _ E). by apply Hf. Qed.

(** A pass over a list. *)
Fixpoint m_for {S A} (f : A → M S unit) (l : list A) : M S unit :=
  match l with [] => mret tt | x :: l => _ ← f x; m_for f l end.

Lemma respects_for {S A} (R : S → S → Prop) `{!Reflexive R, !Transitive R} (f : A → M S unit) l :
  (∀ x, x ∈ l → respects R (f x)) → respects R (m_for f l).
Proof.
  induction l as [|x l IH]; intros Hf; cbn; [by apply respects_ret|].
  apply respects_bind; [done|apply Hf; by left|intros _; apply IH; intros y Hy; apply Hf; by right].
Qed.

(** From a state with [I], the computation returns and ends with [I]. *)
Definition secure {S A} (I : S → Prop) (m : M S A) : Prop := ∀ s, I s → ∃ a s', m s = Ret (a, s') ∧ I s'.

Lemma secure_bind {S A B} (I : S → Prop) (m : M S A) (f : A → M S B) :
  secure I m → (∀ a, secure I (f a)) → secure I (m ≫= f).
Proof.
  intros Hm Hf s Hs. destruct (Hm s Hs) as (a & s1 & E & Hs1). rewrite (M_bind_run _ _ _ _ _ E). by apply Hf.
Qed.
Lemma secure_ret {S A} (I : S → Prop) (a : A) : secure I (mret a : M S A).
Proof. intros s Hs. by exists a, s. Qed.
Lemma secure_gets {S A} (I : S → Prop) (f : S → A) : secure I (m_gets f).
Proof. intros s Hs. by eexists _, _. Qed.
Lemma secure_for {S A} (I : S → Prop) (f : A → M S unit) l : (∀ x, secure I (f x)) → secure I (m_for f l).
Proof. intros Hf. induction l as [|x l IH]; cbn; [apply secure_ret|]. by apply secure_bind. Qed.

(** What holds after a run: [Q] of the result and the state, or [E] of the panic. *)
Definition wp {S A} (E : string → Prop) (m : M S A) (s : S) (Q : A → S → Prop) : Prop :=
  match m s with Ret (a, s') => Q a s' | Panic why => E why end.

Lemma wp_ret {S A} E (a : A) (s : S) Q : Q a s → wp E (mret a) s Q.
Proof. done. Qed.
Lemma wp_gets {S A} E (f : S → A) (s : S) (Q : A → S → Prop) : Q (f s) s → wp E (m_gets f) s Q.
Proof. done. Qed.
Lemma wp_modify {S} E (f : S → S) (s : S) (Q : unit → S → Prop) : Q tt (f s) → wp E (m_modify f) s Q.
Proof. done. Qed.
Lemma wp_bind {S A B} E (m : M S A) (f : A → M S B) (s : S) Q :
  wp E m s (λ a s', wp E (f a) s' Q) → wp E (m ≫= f) s Q.
Proof. unfold wp, mbind, M_bind. by destruct (m s) as [[a s']|]. Qed.
Lemma wp_mono {S A} E (m : M S A) (s : S) (Q R : A → S → Prop) :
  wp E m s Q → (∀ a s', Q a s' → R a s') → wp E m s R.
Proof. unfold wp. destruct (m s) as [[a s']|]; auto. Qed.
Lemma wp_for {S A} E (I : list A → S → Prop) (f : A → M S unit) l s :
  (∀ pre x post s, l = pre ++ x :: post → I pre s → wp E (f x) s (λ _ s', I (pre ++ [x]) s')) →
  I [] s → wp E (m_for f l) s (λ _ s', I l s').
Proof.
  intros Hf. assert (∀ k pre s, l = pre ++ k → I pre s → wp E (m_for f k) s (λ _ s', I l s')) as Hk; [|by apply Hk].
  clear s. induction k as [|x k IH]; intros pre s Hl Hs; cbn [m_for].
  - apply wp_ret. by rewrite Hl, app_nil_r.
  - apply wp_bind. eapply wp_mono; [exact (Hf pre x k s Hl Hs)|]. intros u s1 Hs1. apply (IH (pre ++ [x])); [|done]. by rewrite <- app_assoc.
Qed.
Lemma wp_run {S A} E (m : M S A) (s : S) Q a s' : wp E m s Q → m s = Ret (a, s') → Q a s'.
Proof. unfold wp. intros Hw Hr. by rewrite Hr in Hw. Qed.

Create HintDb respects.
#[export] Hint Resolve respects_ret respects_gets respects_lift respects_panic : respects.

(** Walks through a computation, down to its calls. *)
Ltac respects_tac := repeat first
  [ solve [eauto with respects typeclass_instances]
  | apply respects_bind; [exact _| |intros]
  | match goal with
    | |- respects _ (match ?x with _ => _ end) => destruct x
    | |- respects _ (let _ := _ in _) => cbv zeta
    end ].

(** ** Record update: [{{ r with f := v }}]

    [Eta R] is the constructor of [R] applied to the projections of a value. *)

Class Eta (R : Type) := eta : R → R.

Ltac set_field r f v :=
  let t := eval hnf in (eta r) in
  let t := eval pattern (f r) in t in
  match t with ?g _ => let u := eval cbv beta in (g v) in exact u end.

Notation "{{ r 'with' f := v }}" := (ltac:(set_field r f v))
  (at level 0, r at level 99, f at level 9, v at level 99, only parsing).

(** ** Machine integers *)

Local Open Scope Z_scope.

Definition two64 : Z := 2 ^ 64.
Definition two63 : Z := 2 ^ 63.

(** The value a [uint64] (or [uint]) holds after an operation. *)
Definition u64 (z : Z) : Z := z `mod` two64.
(** The conversion [int64(x)]. *)
Definition i64 (z : Z) : Z := let r := z `mod` two64 in if r <? two63 then r else r - two64.
Definition is_u64 (z : Z) : Prop := 0 ≤ z < two64.

(** ** Time: nanoseconds since the zero [time.Time] *)

Definition Second : Z := 1000000000.
Definition Millisecond : Z := 1000000.
Definition Minute : Z := 60 * Second.

(** [t.Round(d)]: the multiple of [d] nearest to [t], half way up. *)
Definition time_Round (t d : Z) : Z :=
  if d <=? 0 then t
  else let r := t `mod` d in if r + r <? d then t - r else t + (d - r).

(** [t.Truncate(d)]. *)
Definition time_Truncate (t d : Z) : Z := if d <=? 0 then t else t - t `mod` d.

(** [t.Unix()]: whole seconds since 1970. *)
Definition time_Unix (t : Z) : Z := t `div` Second - 62135596800.

(** ** Lists *)

Fixpoint Zsum (l : list Z) : Z :=
  match l with [] => 0 | x :: l => x + Zsum l end.

Lemma Zsum_app (l k : list Z) : Zsum (l ++ k) = Zsum l + Zsum k.
Proof. induction l as [|x l IH]; csimpl; lia. Qed.

(** The sum of a list split by a decidable predicate. *)
Lemma Zsum_filter {A} (P : A → Prop) `{∀ x, Decision (P x)} (f : A → Z) (l : list A) :
  Zsum (f <$> l) = Zsum (f <$> filter P l) + Zsum (f <$> filter (λ x, ¬ P x) l).
Proof.
  induction l as [|x l IH]; [done|].
  rewrite !filter_cons, fmap_cons. csimpl. rewrite IH.
  destruct (decide (P x)), (decide (¬ P x)); try done; csimpl; lia.
Qed.

Lemma Zsum_abs_filter {A} (P : A → Prop) `{∀ x, Decision (P x)} (f : A → Z) (l : list A) :
  Zsum ((λ x, Z.abs (f x)) <$> filter P l) ≤ Zsum ((λ x, Z.abs (f x)) <$> l).
Proof.
  induction l as [|x l IH]; [done|]. rewrite filter_cons.
  destruct (decide (P x)); csimpl; lia.
Qed.

Lemma Zsum_abs_le {A} (f : A → Z) (l : list A) :
  Z.abs (Zsum (f <$> l)) ≤ Zsum ((λ x, Z.abs (f x)) <$> l).
Proof. induction l as [|x l IH]; csimpl; lia. Qed.

Lemma length_filter_split {A} (P : A → Prop) `{∀ x, Decision (P x)} (l : list A) :
  (length l = length (filter P l) + length (filter (λ x, ¬ P x) l))%nat.
Proof.
  induction l as [|x l IH]; [done|]. rewrite !filter_cons.
  destruct (decide (P x)), (decide (¬ P x)); try done; csimpl; lia.
Qed.

Lemma filter_ext_in {A} (P Q : A → Prop) `{∀ x, Decision (P x), ∀ x, Decision (Q x)} (l : list A) :
  (∀ x, x ∈ l → P x ↔ Q x) → filter P l = filter Q l.
Proof.
  induction l as [|x l IH]; intros Hl; [done|]. rewrite !filter_cons.
  rewrite IH by (intros; apply Hl; by right).
  pose proof (Hl x ltac:(by left)). destruct (decide (P x)), (decide (Q x)); naive_solver.
Qed.

Lemma filter_all {A} (P : A → Prop) `{∀ x, Decision (P x)} (l : list A) :
  (∀ x, x ∈ l → P x) → filter P l = l.
Proof.
  induction l as [|x l IH]; intros Hl; [done|].
  rewrite filter_cons_True by (apply Hl; by left). f_equal. apply IH. intros. apply Hl. by right.
Qed.

Lemma filter_none {A} (P : A → Prop) `{∀ x, Decision (P x)} (l : list A) :
  (∀ x, x ∈ l → ¬ P x) → filter P l = [].
Proof.
  induction l as [|x l IH]; intros Hl; [done|].
  rewrite filter_cons_False by (apply Hl; by left). apply IH. intros. apply Hl. by right.
Qed.

Lemma Forall_mp {A} (P Q : A → Prop) (l : list A) :
  Forall (λ x, P x → Q x) l → Forall P l → Forall Q l.
Proof. induction 1; inversion_clear 1; constructor; auto. Qed.

(** ** Facts about the machine integers and the clock *)

Create HintDb go_int.

Lemma two64_pos : 0 < two64.
Proof. done. Qed.

Lemma u64_small (z : Z) : is_u64 z → u64 z = z.
Proof. unfold is_u64, u64. intros. by apply Z.mod_small. Qed.

Lemma u64_range (z : Z) : is_u64 (u64 z).
Proof. unfold is_u64, u64. apply Z.mod_pos_bound, two64_pos. Qed.
#[export] Hint Resolve u64_range : go_int.

Lemma i64_small (z : Z) : 0 ≤ z < two63 → i64 z = z.
Proof.
  unfold i64, two63, two64. intros Hz. rewrite Z.mod_small by lia.
  destruct (Z.ltb_spec z (2 ^ 63)); lia.
Qed.

(** The uint64 difference [a - b]: exact when it does not underflow, shifted by 2^64 when it does. *)
Lemma u64_sub (a b : Z) : is_u64 a → is_u64 b →
  u64 (a - b) = if b <=? a then a - b else a - b + two64.
Proof.
  unfold is_u64, u64. intros Ha Hb. destruct (Z.leb_spec b a).
  - rewrite Z.mod_small; lia.
  - rewrite <-(Z.mod_add _ 1), Z.mul_1_l by (pose proof two64_pos; lia). rewrite Z.mod_small; lia.
Qed.

Lemma time_Round_mono (d s t : Z) : s ≤ t → time_Round s d ≤ time_Round t d.
Proof.
  unfold time_Round. intros Hst. destruct (Z.leb_spec d 0); [done|].
  pose proof (Z.mod_pos_bound s d ltac:(lia)). pose proof (Z.mod_pos_bound t d ltac:(lia)).
  pose proof (Z.div_mod s d ltac:(lia)). pose proof (Z.div_mod t d ltac:(lia)).
  assert (s `div` d ≤ t `div` d) by (apply Z.div_le_mono; lia).
  assert (s `div` d = t `div` d ∨ d * (s `div` d) + d ≤ d * (t `div` d)) as [E|E] by nia;
    [rewrite E in *|];
    destruct (Z.ltb_spec (s `mod` d + s `mod` d) d), (Z.ltb_spec (t `mod` d + t `mod` d) d); lia.
Qed.

(** Rounding moves an instant by at most half of the unit. *)
Lemma time_Round_near (d t : Z) : 0 < d → 2 * Z.abs (time_Round t d - t) ≤ d.
Proof.
  unfold time_Round. intros Hd. destruct (Z.leb_spec d 0); [lia|].
  pose proof (Z.mod_pos_bound t d Hd).
  destruct (Z.ltb_spec (t `mod` d + t `mod` d) d); lia.
Qed.

(** ** Strings *)

Lemma string_app_inj (a b c : string) : a +:+ b = a +:+ c → b = c.
Proof. induction a as [|x a IH]; [done|]. intros [= Heq]. auto. Qed.

#[local] Open Scope string_scope.
#[local] Arguments String.append : simpl nomatch.

(** Texts joined at a colon come apart at the last one. *)
Definition colon : Ascii.ascii := Ascii.ascii_of_nat 58.
Fixpoint has_colon (s : string) : bool :=
  match s with "" => false | String c s => Ascii.eqb c colon || has_colon s end.

Lemma has_colon_app a b : has_colon (a +:+ b) = has_colon a || has_colon b.
Proof. induction a as [|c a IH]; [done|]. cbn. rewrite IH. apply orb_assoc. Qed.

Lemma colon_split a b x y : has_colon x = false → has_colon y = false →
  a +:+ ":" +:+ x = b +:+ ":" +:+ y → a = b ∧ x = y.
Proof.
  intros Hx Hy. revert b. induction a as [|c a IH]; intros [|c' b]; cbn.
  - by intros [= ->].
  - intros [= <- ->]. by rewrite has_colon_app in Hx; cbn in Hx; rewrite orb_true_r in Hx.
  - intros [= -> <-]. by rewrite has_colon_app in Hy; cbn in Hy; rewrite orb_true_r in Hy.
  - intros [= <- [-> ->]%IH]. done.
Qed.

(** Orders that the program does not determine: map iteration and shuffles. *)
Class Order (W : Type) := permute : ∀ {A : Type}, list A → W → list A * W.
Class OrderSpec (W : Type) `{Order W} := permute_perm : ∀ {A : Type} (l : list A) w, (permute l w).1 ≡ₚ l.

(** strings.ToLower on ASCII letters. *)
Fixpoint to_lower (s : string) : string :=
  match s with
  | "" => ""
  | String c s =>
      let n := Ascii.nat_of_ascii c in
      String (if (65 <=? n)%nat && (n <=? 90)%nat then Ascii.ascii_of_nat (n + 32) else c) (to_lower s)
  end.

(** The message of the first condition that holds. *)
Fixpoint first_error (checks : list (bool * string)) : option string :=
  match checks with
  | [] => None
  | (b, message) :: checks => if (b : bool) then Some message else first_error checks
  end.

Lemma first_error_None checks : first_error checks = None ↔ Forall (λ c, c.1 = false) checks.
Proof.
  induction checks as [|[[] m] checks IH]; cbn; [by split|split; [done|by inversion 1]|].
  rewrite IH, Forall_cons. naive_solver.
Qed.

(** The label that the services make of an error: its letters, with underscores for spaces,
    and two underscores as one. *)
Definition underscore : Ascii.ascii := Ascii.ascii_of_nat 95.
Fixpoint letters (s : string) : string :=
  match s with
  | "" => ""
  | String c s =>
      let n := Ascii.nat_of_ascii c in
      if ((65 <=? n)%nat && (n <=? 90)%nat) || ((97 <=? n)%nat && (n <=? 122)%nat) then String c (letters s)
      else if (n =? 32)%nat then String underscore (letters s)
      else letters s
  end.
Fixpoint single_underscores (s : string) : string :=
  match s with
  | String c (String d s as t) =>
      if (Ascii.eqb c underscore && Ascii.eqb d underscore)%bool then String c (single_underscores s)
      else String c (single_underscores t)
  | String c s => String c (single_underscores s)
  | "" => ""
  end.
Definition error_label (err : string) : string := single_underscores (letters err).

(** errors.Join of two errors, an error being what it says: the messages on a line each. *)
Definition newline : string := String (Ascii.ascii_of_nat 10) "".
Definition Join (a b : option string) : option string :=
  match a, b with
  | None, _ => b
  | _, None => a
  | Some a, Some b => Some (a +:+ newline +:+ b)
  end.

(** An error is passed on with a prefix. *)
Definition wrap (prefix : string) (err : option string) : option string := (λ e, prefix +:+ e) <$> err.
