(* ===== verification/GoFloat.v ===== *)
(** Go's [float64], as IEEE-754 binary64 computed by the Standard Library's
    [SpecFloat] (53-bit mantissa, round to nearest even), and the exactness of
    its arithmetic and comparisons on integers below 2^53.  The sliding windows
    and the health checks of proxyd compute with these operations. *)
From Stdlib Require Import ZArith Lia Bool SpecFloat.
Local Open Scope Z_scope.

Abbreviation float64 := spec_float.

(** The operators [+], [-], [/] and [<=] on float64. *)
Definition fadd : float64 -> float64 -> float64 := SFadd 53 1024.
Definition fsub : float64 -> float64 -> float64 := SFsub 53 1024.
Definition fdiv : float64 -> float64 -> float64 := SFdiv 53 1024.
Definition fleb : float64 -> float64 -> bool := SFleb.
Definition fltb : float64 -> float64 -> bool := SFltb.
(** The conversion [float64(n)] of an integer. *)
Definition f_of_Z (n : Z) : float64 := binary_normalize 53 1024 n 0 false.
(** The conversion of a float64 to an integer type: truncation toward zero. *)
Definition f_trunc (f : float64) : Z :=
  match f with
  | S754_finite s m e =>
      let a := if 0 <=? e then Zpos m * 2 ^ e else Zpos m / 2 ^ (- e) in
      if s then - a else a
  | _ => 0
  end.

#[global] Arguments f_of_Z : simpl never.
#[global] Arguments fadd : simpl never.
#[global] Arguments fsub : simpl never.
#[global] Arguments fdiv : simpl never.

(** ** Exactness on integers below 2^53 *)

Lemma iter_xO (m d : positive) : Zpos (Pos.iter xO m d) = Zpos m * 2 ^ Zpos d.
Proof.
  induction d using Pos.peano_ind.
  - cbn. lia.
  - rewrite Pos.iter_succ, Pos2Z.inj_xO, IHd, Pos2Z.inj_succ, Z.pow_succ_r by lia. lia.
Qed.

Lemma digits2_log2 (m : positive) : Zpos (digits2_pos m) = Z.log2 (Zpos m) + 1.
Proof.
  induction m; cbn [digits2_pos].
  - rewrite Pos2Z.inj_succ, IHm. change (Zpos m~1) with (2 * Zpos m + 1).
    rewrite Z.log2_succ_double by lia. lia.
  - rewrite Pos2Z.inj_succ, IHm. change (Zpos m~0) with (2 * Zpos m).
    rewrite Z.log2_double by lia. lia.
  - reflexivity.
Qed.

Lemma Zdigits2_shift (m k : Z) : 0 < m -> 0 <= k ->
  Zdigits2 (m * 2 ^ k) = Z.log2 m + 1 + k.
Proof.
  intros Hm Hk. assert (0 < m * 2 ^ k) as H by (apply Z.mul_pos_pos; [lia|apply Z.pow_pos_nonneg; lia]).
  destruct (m * 2 ^ k) as [|p|p] eqn:E; try lia.
  cbn [Zdigits2]. rewrite digits2_log2, <- E, Z.log2_mul_pow2 by lia. lia.
Qed.

Lemma shr_iter (m : Z) (p : positive) : 0 < m ->
  iter_pos shr_1 p (Build_shr_record (m * 2 ^ Zpos p) false false) = Build_shr_record m false false.
Proof.
  revert m. induction p; intros m Hm.
  - change (Zpos p~1) with (2 * Zpos p + 1).
    rewrite Z.pow_add_r, Z.pow_1_r by lia.
    replace (2 * Zpos p) with (Zpos p + Zpos p) by lia. rewrite Z.pow_add_r by lia.
    cbn [iter_pos].
    set (q := 2 ^ Zpos p) in *.
    assert (0 < q) by (apply Z.pow_pos_nonneg; lia).
    replace (m * (q * q * 2)) with (2 * (m * q * q)) by lia.
    replace (shr_1 _) with (Build_shr_record (m * q * q) false false).
    + rewrite IHp by nia. apply IHp; lia.
    + assert (0 < m * q * q) by nia. destruct (m * q * q); try lia. reflexivity.
  - change (Zpos p~0) with (2 * Zpos p).
    replace (2 * Zpos p) with (Zpos p + Zpos p) by lia. rewrite Z.pow_add_r by lia.
    cbn [iter_pos]. assert (0 < 2 ^ Zpos p) by (apply Z.pow_pos_nonneg; lia).
    rewrite Z.mul_assoc, IHp by nia. apply IHp; lia.
  - cbn [iter_pos]. replace (m * 2 ^ 1) with (2 * m) by lia.
    destruct m; try lia. reflexivity.
Qed.

Lemma fexp_small (d : Z) : 0 < d -> fexp 53 1024 d = d - 53.
Proof. intros. unfold fexp, emin. lia. Qed.

Lemma shr_fexp_id (m : Z) : 0 < m < 2 ^ 53 ->
  let M := m * 2 ^ (52 - Z.log2 m) in
  shr_fexp 53 1024 M (Z.log2 m - 52) loc_Exact = (Build_shr_record M false false, Z.log2 m - 52).
Proof.
  intros Hm M. unfold shr_fexp, M.
  assert (Z.log2 m < 53) by (apply Z.log2_lt_pow2; lia).
  pose proof (Z.log2_nonneg m).
  rewrite Zdigits2_shift by lia.
  rewrite fexp_small by lia.
  replace (_ - _ - _) with 0 by lia. reflexivity.
Qed.

Lemma binary_round_exact (s : bool) (m k : Z) (p : positive) :
  0 < m < 2 ^ 53 -> 0 <= k -> Zpos p = m * 2 ^ k ->
  binary_round 53 1024 s p (- k) =
  S754_finite s (Z.to_pos (m * 2 ^ (52 - Z.log2 m))) (Z.log2 m - 52).
Proof.
  intros Hm Hk Hp.
  assert (Hl : Z.log2 m < 53) by (apply Z.log2_lt_pow2; lia).
  pose proof (Z.log2_nonneg m) as Hl0.
  assert (HM : 0 < m * 2 ^ (52 - Z.log2 m)).
  { apply Z.mul_pos_pos; [lia|]. apply Z.pow_pos_nonneg; lia. }
  assert (Hfin : forall mz ez, 
    shr_fexp 53 1024 (Zpos mz) ez loc_Exact =
      (Build_shr_record (m * 2 ^ (52 - Z.log2 m)) false false, Z.log2 m - 52) ->
    binary_round_aux 53 1024 s (Zpos mz) ez loc_Exact =
      S754_finite s (Z.to_pos (m * 2 ^ (52 - Z.log2 m))) (Z.log2 m - 52)).
  { intros mz ez H. unfold binary_round_aux. rewrite H. cbn [shr_m loc_of_shr_record round_nearest_even].
    rewrite (shr_fexp_id m Hm). cbn [shr_m].
    destruct (m * 2 ^ (52 - Z.log2 m)) as [|q|q] eqn:E; try lia.
    destruct (Z.leb_spec (Z.log2 m - 52) (1024 - 53)); [reflexivity|lia]. }
  unfold binary_round.
  change (Z.pos (digits2_pos p)) with (Zdigits2 (Zpos p)).
  rewrite Hp, Zdigits2_shift by lia.
  replace (Z.log2 m + 1 + k + - k) with (Z.log2 m + 1) by lia.
  rewrite fexp_small by lia.
  unfold shl_align.
  destruct (Z.log2 m + 1 - 53 - - k) as [|n|n] eqn:En.
  - apply Hfin. rewrite Hp. replace k with (52 - Z.log2 m) by lia.
    replace (- (52 - Z.log2 m)) with (Z.log2 m - 52) by lia. apply shr_fexp_id; assumption.
  - apply Hfin. rewrite Hp. unfold shr_fexp. rewrite Zdigits2_shift by lia.
    rewrite fexp_small by lia.
    replace (_ - _ - _) with (Zpos n) by lia. cbn [shr shr_record_of_loc].
    replace (m * 2 ^ k) with (m * 2 ^ (52 - Z.log2 m) * 2 ^ Zpos n).
    2:{ rewrite <- Z.mul_assoc, <- Z.pow_add_r by lia. do 2 f_equal. lia. }
    rewrite shr_iter by lia. f_equal. lia.
  - apply Hfin. rewrite iter_xO, Hp.
    replace (m * 2 ^ k * 2 ^ Zpos n) with (m * 2 ^ (52 - Z.log2 m)).
    2:{ rewrite <- Z.mul_assoc, <- Z.pow_add_r by lia. do 2 f_equal. lia. }
    replace (Z.log2 m + 1 - 53) with (Z.log2 m - 52) by lia. apply shr_fexp_id; assumption.
Qed.

Definition f_exact (n : Z) : Prop := Z.abs n < 2 ^ 53.

(** The mantissa and exponent of the integer [n]. *)
Definition f_mant (n : Z) : Z := Z.abs n * 2 ^ (52 - Z.log2 (Z.abs n)).
Definition f_expo (n : Z) : Z := Z.log2 (Z.abs n) - 52.

Lemma normalize_exact (n k : Z) : n <> 0 -> f_exact n -> 0 <= k ->
  binary_normalize 53 1024 (n * 2 ^ k) (- k) false =
  S754_finite (n <? 0) (Z.to_pos (f_mant n)) (f_expo n).
Proof.
  intros Hn Hx Hk. unfold f_exact in Hx. pose proof (Z.pow_pos_nonneg 2 k ltac:(lia) Hk) as Hp.
  unfold f_mant, f_expo.
  destruct (n * 2 ^ k) as [|p|p] eqn:E; [nia| |].
  - cbn [binary_normalize]. destruct (Z.ltb_spec n 0); [nia|].
    apply binary_round_exact; [lia|lia|]. rewrite Z.abs_eq; lia.
  - cbn [binary_normalize]. destruct (Z.ltb_spec n 0); [|nia].
    apply binary_round_exact; [lia|lia|]. nia.
Qed.

Lemma f_of_Z_finite (n : Z) : n <> 0 -> f_exact n ->
  f_of_Z n = S754_finite (n <? 0) (Z.to_pos (f_mant n)) (f_expo n).
Proof.
  intros Hn Hx. unfold f_of_Z. rewrite <- (normalize_exact n 0) by (auto; lia).
  rewrite Z.pow_0_r, Z.mul_1_r. reflexivity.
Qed.

Lemma f_log2_bound (n : Z) : f_exact n -> 0 <= Z.log2 (Z.abs n) <= 52.
Proof.
  unfold f_exact. intros H. split; [apply Z.log2_nonneg|].
  destruct (Z.eq_dec n 0) as [->|Hn]; [cbn; lia|].
  apply Z.lt_succ_r. apply Z.log2_lt_pow2; lia.
Qed.

Lemma f_mant_pos (n : Z) : n <> 0 -> f_exact n -> 0 < f_mant n.
Proof.
  intros Hn Hx. unfold f_mant. pose proof (f_log2_bound n Hx).
  apply Z.mul_pos_pos; [lia|apply Z.pow_pos_nonneg; lia].
Qed.

(** Aligning the mantissa of [n] on the exponent [- k] gives [|n| * 2^k]. *)
Lemma shl_align_exact (n k : Z) : n <> 0 -> f_exact n -> - k <= f_expo n ->
  cond_Zopp (n <? 0) (Zpos (fst (shl_align (Z.to_pos (f_mant n)) (f_expo n) (- k)))) = n * 2 ^ k.
Proof.
  intros Hn Hx Hk. pose proof (f_mant_pos n Hn Hx). pose proof (f_log2_bound n Hx).
  assert (H1 : Zpos (fst (shl_align (Z.to_pos (f_mant n)) (f_expo n) (- k))) = Z.abs n * 2 ^ k).
  { unfold shl_align. destruct (- k - f_expo n) as [|p|p] eqn:E; cbn [fst].
    - rewrite Z2Pos.id by lia. unfold f_mant, f_expo in *. do 2 f_equal. lia.
    - lia.
    - rewrite iter_xO, Z2Pos.id by lia. unfold f_mant, f_expo in *.
      rewrite <- Z.mul_assoc, <- Z.pow_add_r by lia. do 2 f_equal. lia. }
  rewrite H1. destruct (Z.ltb_spec n 0); cbn [cond_Zopp]; [|rewrite Z.abs_eq by lia; lia].
  rewrite Z.abs_neq by lia. lia.
Qed.

Lemma f_of_Z_0 : f_of_Z 0 = S754_zero false.
Proof. reflexivity. Qed.

Section exact.
Variables a b : Z.
Hypothesis Ha : f_exact a.
Hypothesis Hb : f_exact b.

Lemma f_min_expo : a <> 0 -> b <> 0 -> 
  exists k, 0 <= k /\ Z.min (f_expo a) (f_expo b) = - k /\ - k <= f_expo a /\ - k <= f_expo b.
Proof.
  intros _ _. exists (- Z.min (f_expo a) (f_expo b)).
  pose proof (f_log2_bound a Ha). pose proof (f_log2_bound b Hb). unfold f_expo. lia.
Qed.

Lemma normalize_of_Z (n k : Z) : f_exact n -> 0 <= k ->
  binary_normalize 53 1024 (n * 2 ^ k) (- k) false = f_of_Z n.
Proof.
  intros Hx Hk. destruct (Z.eq_dec n 0) as [->|Hn]; [reflexivity|].
  rewrite normalize_exact, f_of_Z_finite by auto. reflexivity.
Qed.

(** Addition of integers below 2^53 is exact. *)
Lemma fadd_exact : f_exact (a + b) -> fadd (f_of_Z a) (f_of_Z b) = f_of_Z (a + b).
Proof.
  intros Hs. destruct (Z.eq_dec a 0) as [->|Na].
  { rewrite f_of_Z_0. destruct (Z.eq_dec b 0) as [->|Nb]; [reflexivity|].
    rewrite Z.add_0_l, (f_of_Z_finite b) by auto. reflexivity. }
  destruct (Z.eq_dec b 0) as [->|Nb].
  { rewrite f_of_Z_0, Z.add_0_r, (f_of_Z_finite a) by auto. reflexivity. }
  destruct (f_min_expo Na Nb) as (k & Hk & Hmin & H1 & H2).
  rewrite (f_of_Z_finite a), (f_of_Z_finite b) by auto.
  unfold fadd, SFadd. rewrite Hmin, !shl_align_exact by auto.
  rewrite <- Z.mul_add_distr_r. apply normalize_of_Z; auto.
Qed.

(** Subtraction of integers below 2^53 is exact. *)
Lemma fsub_exact : f_exact (a - b) -> fsub (f_of_Z a) (f_of_Z b) = f_of_Z (a - b).
Proof.
  intros Hs. destruct (Z.eq_dec b 0) as [->|Nb].
  { rewrite f_of_Z_0, Z.sub_0_r. destruct (Z.eq_dec a 0) as [->|Na]; [reflexivity|].
    rewrite (f_of_Z_finite a) by auto. reflexivity. }
  destruct (Z.eq_dec a 0) as [->|Na].
  { rewrite f_of_Z_0, Z.sub_0_l in *. rewrite (f_of_Z_finite b), (f_of_Z_finite (- b)) by (auto; lia).
    unfold fsub, SFsub, f_mant, f_expo. rewrite Z.abs_opp. f_equal.
    destruct (Z.ltb_spec b 0), (Z.ltb_spec (- b) 0); auto; lia. }
  destruct (f_min_expo Na Nb) as (k & Hk & Hmin & H1 & H2).
  rewrite (f_of_Z_finite a), (f_of_Z_finite b) by auto.
  unfold fsub, SFsub. rewrite Hmin, !shl_align_exact by auto.
  rewrite <- Z.mul_sub_distr_r. apply normalize_of_Z; auto.
Qed.
End exact.

Lemma f_compare_pos (a b : Z) : 0 < a -> 0 < b -> f_exact a -> f_exact b ->
  match f_expo a ?= f_expo b with
  | Lt => Lt | Gt => Gt
  | Eq => Pos.compare_cont Eq (Z.to_pos (f_mant a)) (Z.to_pos (f_mant b))
  end = (a ?= b).
Proof.
  intros Ha Hb Xa Xb. pose proof (f_mant_pos a ltac:(lia) Xa). pose proof (f_mant_pos b ltac:(lia) Xb).
  pose proof (f_log2_bound a Xa) as La. pose proof (f_log2_bound b Xb) as Lb.
  pose proof (Z.log2_spec a Ha) as Sa. pose proof (Z.log2_spec b Hb) as Sb.
  unfold f_expo, f_mant in *. rewrite !Z.abs_eq in * by lia.
  destruct (Z.compare_spec (Z.log2 a - 52) (Z.log2 b - 52)) as [E|E|E]; symmetry.
  - change (Pos.compare_cont Eq ?x ?y) with (Zpos x ?= Zpos y). rewrite !Z2Pos.id by lia.
    replace (Z.log2 b) with (Z.log2 a) by lia.
    rewrite !(Z.mul_comm _ (2 ^ _)), <- Zmult_compare_compat_l; [reflexivity|].
    apply Z.lt_gt, Z.pow_pos_nonneg; lia.
  - apply Z.compare_lt_iff. destruct (Z.lt_ge_cases a b); [assumption|].
    assert (Z.log2 b <= Z.log2 a) by (apply Z.log2_le_mono; lia). lia.
  - apply Z.compare_gt_iff. destruct (Z.lt_ge_cases b a); [assumption|].
    assert (Z.log2 a <= Z.log2 b) by (apply Z.log2_le_mono; lia). lia.
Qed.

(** Integers below 2^53 are ordered as floats the way they are as integers. *)
Lemma f_compare_exact (a b : Z) : f_exact a -> f_exact b ->
  SFcompare (f_of_Z a) (f_of_Z b) = Some (a ?= b).
Proof.
  intros Xa Xb.
  destruct (Z.eq_dec a 0) as [->|Na], (Z.eq_dec b 0) as [->|Nb]; [reflexivity| | |];
    rewrite ?f_of_Z_0, ?(f_of_Z_finite a), ?(f_of_Z_finite b) by auto; cbn [SFcompare].
  - f_equal. destruct (Z.ltb_spec b 0); symmetry; [apply Z.compare_gt_iff|apply Z.compare_lt_iff]; lia.
  - f_equal. destruct (Z.ltb_spec a 0); symmetry; [apply Z.compare_lt_iff|apply Z.compare_gt_iff]; lia.
  - f_equal. destruct (Z.ltb_spec a 0), (Z.ltb_spec b 0).
    + rewrite <- (Z.compare_opp b a).
      rewrite <- (f_compare_pos (- b) (- a)); unfold f_exact in *; try lia.
      assert (Em : forall n, f_mant (- n) = f_mant n) by (intros; unfold f_mant; rewrite Z.abs_opp; auto).
      assert (Ee : forall n, f_expo (- n) = f_expo n) by (intros; unfold f_expo; rewrite Z.abs_opp; auto).
      rewrite !Em, !Ee. rewrite (Z.compare_antisym (f_expo b) (f_expo a)).
      destruct (f_expo b ?= f_expo a) eqn:E; cbn [CompOpp]; auto.
      change (Pos.compare_cont Eq ?x ?y) with (Pos.compare x y).
      rewrite (Pos.compare_antisym (Z.to_pos (f_mant b))), CompOpp_involutive. reflexivity.
    + symmetry. apply Z.compare_lt_iff. lia.
    + symmetry. apply Z.compare_gt_iff. lia.
    + apply f_compare_pos; auto; lia.
Qed.

Lemma fleb_exact (a b : Z) : f_exact a -> f_exact b -> fleb (f_of_Z a) (f_of_Z b) = (a <=? b).
Proof.
  intros Xa Xb. unfold fleb, SFleb. rewrite f_compare_exact by auto. unfold Z.leb.
  destruct (a ?= b); reflexivity.
Qed.

Lemma f_trunc_exact (a : Z) : f_exact a -> f_trunc (f_of_Z a) = a.
Proof.
  intros Xa. destruct (Z.eq_dec a 0) as [->|Na]; [reflexivity|].
  rewrite f_of_Z_finite by auto. cbn [f_trunc].
  pose proof (f_mant_pos a Na Xa). pose proof (f_log2_bound a Xa).
  rewrite Z2Pos.id by lia. unfold f_mant, f_expo in *.
  assert (E : (if 0 <=? Z.log2 (Z.abs a) - 52
    then Z.abs a * 2 ^ (52 - Z.log2 (Z.abs a)) * 2 ^ (Z.log2 (Z.abs a) - 52)
    else Z.abs a * 2 ^ (52 - Z.log2 (Z.abs a)) / 2 ^ (- (Z.log2 (Z.abs a) - 52))) = Z.abs a).
  { destruct (Z.leb_spec 0 (Z.log2 (Z.abs a) - 52)).
    - replace (Z.log2 (Z.abs a)) with 52 by lia. lia.
    - replace (- (Z.log2 (Z.abs a) - 52)) with (52 - Z.log2 (Z.abs a)) by lia.
      apply Z.div_mul, Z.pow_nonzero; lia. }
  rewrite E. destruct (Z.ltb_spec a 0); lia.
Qed.
