(* ===== verification/SlidingWindow.v ===== *)
(** The moving average of [proxyd/pkg/avg-sliding-window/sliding.go].

    Data points are rounded to buckets of [bucketSize] and kept for
    [windowLength].  The buckets live in an ordered map of the third-party
    package gods/linkedhashmap, which is an interface here ([LinkedHashMap]
    and its laws [LinkedHashMapSpec]).  The clock of the window is the reading
    each operation takes as an argument.

    The specification is a list of points [(key, value)]: adding a point in the
    window appends it, advancing the clock drops the points that are too old.
    [repr] relates a window to the list it stands for, and the operations
    preserve it, as long as the values are integers whose absolute values sum
    to less than 2^53 (proxyd adds the value 1 and latencies in nanoseconds). *)
From stdpp Require Import base numbers list gmap strings fin_maps sorting.
From S2P Require Import Prelude.
From S2P Require Import GoFloat.

Local Open Scope Z_scope.

(** type bucket *)
Record bucket := mk_bucket { b_sum : float64; b_qty : Z }.

(** ** The ordered map of the third-party package *)

(** What the window uses of linkedhashmap.Map, with instants as keys. *)
Class LinkedHashMap (LM : Type) := {
  lm_New : LM;
  lm_Get : LM → Z → option bucket;
  lm_Put : LM → Z → bucket → LM;
  lm_Remove : LM → Z → LM;
  lm_Keys : LM → list Z;
  lm_Size : LM → nat;
}.

(** Association lists in insertion order: the documented contents of the map. *)
Fixpoint assoc_get (l : list (Z * bucket)) (k : Z) : option bucket :=
  match l with
  | [] => None
  | p :: l => if decide (p.1 = k) then Some p.2 else assoc_get l k
  end.
Fixpoint assoc_put (l : list (Z * bucket)) (k : Z) (b : bucket) : list (Z * bucket) :=
  match l with
  | [] => [(k, b)]
  | p :: l => if decide (p.1 = k) then (k, b) :: l else p :: assoc_put l k b
  end.
Definition assoc_remove (l : list (Z * bucket)) (k : Z) : list (Z * bucket) :=
  filter (λ p, p.1 ≠ k) l.

(** Put keeps the place of a key it already holds and appends a new one, and
    Keys are in insertion order. *)
Class LinkedHashMapSpec (LM : Type) `{LinkedHashMap LM} := {
  lm_view : LM → list (Z * bucket);
  lm_view_New : lm_view lm_New = [];
  lm_view_Get m k : lm_Get m k = assoc_get (lm_view m) k;
  lm_view_Put m k b : lm_view (lm_Put m k b) = assoc_put (lm_view m) k b;
  lm_view_Remove m k : lm_view (lm_Remove m k) = assoc_remove (lm_view m) k;
  lm_view_Keys m : lm_Keys m = (lm_view m).*1;
  lm_view_Size m : lm_Size m = length (lm_view m);
}.

(** ** The window *)

Section window.
Context {LM : Type} `{HLM : LinkedHashMap LM}.

(** type AvgSlidingWindow *)
Record AvgSlidingWindow := mk_window {
  bucketSize : Z;
  windowLength : Z;
  buckets : LM;
  qty : Z;
  sum : float64;
}.

Definition SlidingWindowOpts : Type := AvgSlidingWindow → AvgSlidingWindow.

Definition WithWindowLength (len : Z) : SlidingWindowOpts := λ sw,
  mk_window (bucketSize sw) len (buckets sw) (qty sw) (sum sw).

Definition WithBucketSize (size : Z) : SlidingWindowOpts := λ sw,
  mk_window size (windowLength sw) (buckets sw) (qty sw) (sum sw).

Definition NewSlidingWindow (opts : list SlidingWindowOpts) : AvgSlidingWindow :=
  let sw := foldl (λ sw opt, opt sw) (mk_window 0 0 lm_New 0 (f_of_Z 0)) opts in
  let sw := if bucketSize sw =? 0 then WithBucketSize Second sw else sw in
  if windowLength sw =? 0 then WithWindowLength (5 * Minute) sw else sw.

Definition inWindow (now : Z) (sw : AvgSlidingWindow) (t : Z) : bool :=
  let now := time_Round now (bucketSize sw) in
  let windowStart := now - windowLength sw in
  (windowStart <? t) && negb (now <? t).

(** The loop of advance: evict from the oldest key on, stop at the first key
    inside the window. *)
Fixpoint advance_loop (windowStart : Z) (keys : list Z) (sw : AvgSlidingWindow) : AvgSlidingWindow :=
  match keys with
  | [] => sw
  | k :: keys =>
      if windowStart <? k then sw
      else match lm_Get (buckets sw) k with
           | None => sw (* unreachable: k is one of the keys of the map *)
           | Some b =>
               let bs := lm_Remove (buckets sw) k in
               let sw :=
                 if (0 <? lm_Size bs)%nat
                 then mk_window (bucketSize sw) (windowLength sw) bs
                        (u64 (qty sw - b_qty b)) (fsub (sum sw) (b_sum b))
                 else mk_window (bucketSize sw) (windowLength sw) bs 0 (f_of_Z 0) in
               advance_loop windowStart keys sw
           end
  end.

Definition advance (now : Z) (sw : AvgSlidingWindow) : AvgSlidingWindow :=
  let now := time_Round now (bucketSize sw) in
  let windowStart := now - windowLength sw in
  advance_loop windowStart (lm_Keys (buckets sw)) sw.

(** [now] is the clock reading of advance, [now'] the later one of inWindow. *)
Definition AddWithTime (now now' t : Z) (val : float64) (sw : AvgSlidingWindow) : AvgSlidingWindow :=
  let sw := advance now sw in
  let key := time_Round t (bucketSize sw) in
  if negb (inWindow now' sw key) then sw
  else
    let b := default (mk_bucket (f_of_Z 0) 0) (lm_Get (buckets sw) key) in
    let bsum := b_sum b in
    let b := mk_bucket (fadd bsum val) (u64 (b_qty b + 1)) in
    let wsum := sum sw in
    mk_window (bucketSize sw) (windowLength sw) (lm_Put (buckets sw) key b)
      (u64 (qty sw + 1)) (fadd (fsub wsum bsum) (b_sum b)).

Definition Add (t now now' : Z) (val : float64) (sw : AvgSlidingWindow) : AvgSlidingWindow :=
  AddWithTime now now' t val sw.

Definition Incr (t now now' : Z) (sw : AvgSlidingWindow) : AvgSlidingWindow :=
  Add t now now' (f_of_Z 1) sw.

Definition Avg (now : Z) (sw : AvgSlidingWindow) : float64 * AvgSlidingWindow :=
  let sw := advance now sw in
  (if qty sw =? 0 then f_of_Z 0 else fdiv (sum sw) (f_of_Z (qty sw)), sw).

Definition Sum (now : Z) (sw : AvgSlidingWindow) : float64 * AvgSlidingWindow :=
  let sw := advance now sw in (sum sw, sw).

Definition Count (now : Z) (sw : AvgSlidingWindow) : Z * AvgSlidingWindow :=
  let sw := advance now sw in (qty sw, sw).

Definition Clear (sw : AvgSlidingWindow) : AvgSlidingWindow :=
  mk_window (bucketSize sw) (windowLength sw) (buckets sw) 0 (f_of_Z 0).

End window.
Arguments AvgSlidingWindow LM : clear implicits.

(** The association lists themselves are such a map. *)
#[export] Instance assoc_map : LinkedHashMap (list (Z * bucket)) := {|
  lm_New := []; lm_Get := assoc_get; lm_Put := assoc_put; lm_Remove := assoc_remove;
  lm_Keys := λ m, m.*1; lm_Size := length;
|}.
#[export] Instance assoc_map_spec : LinkedHashMapSpec (list (Z * bucket)).
Proof. by exists id. Defined.

(** ** The specification: a list of points *)

(** The points of a bucket, and the bucket they make. *)
Definition pts_at (k : Z) (pts : list (Z * Z)) : list (Z * Z) := filter (λ p, p.1 = k) pts.
Definition pts_sum (pts : list (Z * Z)) : Z := Zsum (snd <$> pts).
Definition pts_abs (pts : list (Z * Z)) : Z := Zsum ((λ p, Z.abs p.2) <$> pts).
Definition bucket_of (pts : list (Z * Z)) (k : Z) : bucket :=
  mk_bucket (f_of_Z (pts_sum (pts_at k pts))) (Z.of_nat (length (pts_at k pts))).
Definition pts_after (start : Z) (pts : list (Z * Z)) : list (Z * Z) :=
  filter (λ p, start < p.1) pts.

(** Points few and small enough for the float64 sum and the uint count. *)
Definition pts_ok (pts : list (Z * Z)) : Prop :=
  pts_abs pts < 2 ^ 53 ∧ Z.of_nat (length pts) < two64.

Lemma pts_ok_filter (P : Z * Z → Prop) `{∀ x, Decision (P x)} pts :
  pts_ok pts → pts_ok (filter P pts).
Proof.
  intros [H1 H2]. split.
  - pose proof (Zsum_abs_filter P snd pts). unfold pts_abs in *. lia.
  - pose proof (length_filter P pts). lia.
Qed.

Lemma pts_exact pts : pts_ok pts → f_exact (pts_sum pts).
Proof.
  intros [H _]. unfold f_exact, pts_sum. pose proof (Zsum_abs_le snd pts). unfold pts_abs in H. lia.
Qed.

Lemma pts_ok_at k pts : pts_ok pts → pts_ok (pts_at k pts).
Proof. apply pts_ok_filter. Qed.

Lemma pts_at_ne k k' pts : k ≠ k' → pts_at k' (filter (λ p, p.1 ≠ k) pts) = pts_at k' pts.
Proof.
  intros Hne. unfold pts_at. rewrite list_filter_filter. apply list_filter_iff.
  intros x. naive_solver.
Qed.

Lemma pts_at_app k pts pts' : pts_at k (pts ++ pts') = pts_at k pts ++ pts_at k pts'.
Proof. apply filter_app. Qed.

Lemma pts_at_absent k pts : k ∉ pts.*1 → pts_at k pts = [].
Proof.
  intros Hk. apply filter_none. intros p Hp <-. apply Hk. by apply list_elem_of_fmap_2.
Qed.

(** Removing the bucket of a key removes its points from the sum and the count. *)
Lemma pts_sum_remove k pts :
  pts_sum pts - pts_sum (pts_at k pts) = pts_sum (filter (λ p, p.1 ≠ k) pts).
Proof. unfold pts_sum, pts_at. rewrite (Zsum_filter (λ p, p.1 = k) snd pts). lia. Qed.

Lemma pts_len_remove k pts :
  Z.of_nat (length pts) - Z.of_nat (length (pts_at k pts)) =
  Z.of_nat (length (filter (λ p, p.1 ≠ k) pts)).
Proof. unfold pts_at. rewrite (length_filter_split (λ p, p.1 = k) pts). lia. Qed.

Section refinement.
Context {LM : Type} `{LinkedHashMapSpec LM}.
Implicit Types sw : AvgSlidingWindow LM.

(** The buckets hold the points, key by key, oldest key first. *)
Definition view_ok (m : LM) (ks : list Z) (pts : list (Z * Z)) : Prop :=
  StronglySorted Z.lt ks ∧ (∀ k, k ∈ ks ↔ k ∈ pts.*1) ∧
  lm_view m = (λ k, (k, bucket_of pts k)) <$> ks.

(** A window stands for a list of points. *)
Definition repr sw (pts : list (Z * Z)) : Prop :=
  (∃ ks, view_ok (buckets sw) ks pts) ∧ pts_ok pts ∧
  qty sw = Z.of_nat (length pts) ∧ sum sw = f_of_Z (pts_sum pts).

(** *** Buckets and points *)

Lemma assoc_get_map (f : Z → bucket) (ks : list Z) k :
  assoc_get ((λ k, (k, f k)) <$> ks) k = if decide (k ∈ ks) then Some (f k) else None.
Proof.
  induction ks as [|k' ks IH]; [done|]. csimpl.
  rewrite IH. repeat case_decide; set_solver.
Qed.

Lemma assoc_remove_map (f : Z → bucket) (ks : list Z) k :
  assoc_remove ((λ k, (k, f k)) <$> ks) k = (λ k, (k, f k)) <$> filter (λ k', k' ≠ k) ks.
Proof.
  unfold assoc_remove. induction ks as [|k' ks IH]; csimpl; [done|].
  rewrite !filter_cons. simpl. case_decide; csimpl; by rewrite IH.
Qed.

(** Putting the bucket of a key that is not smaller than the others. *)
Lemma assoc_put_map (f g : Z → bucket) (ks : list Z) k :
  StronglySorted Z.lt ks → Forall (λ k', k' ≤ k) ks → (∀ k', k' ≠ k → g k' = f k') →
  ∃ ks', StronglySorted Z.lt ks' ∧ (∀ k', k' ∈ ks' ↔ k' ∈ ks ∨ k' = k) ∧
    assoc_put ((λ k, (k, f k)) <$> ks) k (g k) = (λ k, (k, g k)) <$> ks'.
Proof.
  intros Hs Hle Hfg. induction Hs as [|k' ks Hs IH Hk']; csimpl.
  { exists [k]. split_and!; [by repeat constructor|set_solver|done]. }
  apply Forall_cons in Hle as [Hle1 Hle]. case_decide as Hd.
  - subst k'. assert (ks = []) as ->.
    { destruct ks as [|k' ks]; [done|]. apply Forall_cons in Hk' as [? _], Hle as [? _]. lia. }
    exists [k]. split_and!; [by repeat constructor|set_solver|done].
  - destruct (IH Hle) as (ks' & Hs' & Hin & Hput). exists (k' :: ks').
    split_and!; [constructor; [done|]|set_solver|csimpl; by rewrite Hput, Hfg].
    apply Forall_forall. intros j [Hj| ->]%Hin; [|lia].
    by apply (proj1 (Forall_forall _ _) Hk').
Qed.

Lemma bucket_of_absent k pts : k ∉ pts.*1 → bucket_of pts k = mk_bucket (f_of_Z 0) 0.
Proof. intros Hk. unfold bucket_of. by rewrite (pts_at_absent k pts). Qed.

(** The bucket of a key, an empty one when there is none. *)
Lemma view_get m ks pts k : view_ok m ks pts →
  default (mk_bucket (f_of_Z 0) 0) (lm_Get m k) = bucket_of pts k.
Proof.
  intros (_ & Hin & Hv). rewrite lm_view_Get, Hv, assoc_get_map. case_decide as Hk; [done|].
  symmetry. apply bucket_of_absent. by rewrite <-Hin.
Qed.

(** Evicting the oldest key drops its points. *)
Lemma view_remove m k ks pts : view_ok m (k :: ks) pts →
  view_ok (lm_Remove m k) ks (filter (λ p, p.1 ≠ k) pts).
Proof.
  intros (Hs & Hin & Hv). apply StronglySorted_inv in Hs as [Hs Hk].
  assert (Hne : ∀ k', k' ∈ ks → k' ≠ k).
  { intros k' Hk' ->. pose proof (proj1 (Forall_forall _ _) Hk k Hk'). simpl in *. lia. }
  split_and!; [done| |].
  - intros k'. split.
    + intros Hk'. pose proof (Hne k' Hk').
      assert (k' ∈ pts.*1) as (p & -> & Hp)%list_elem_of_fmap by (apply Hin; by right).
      apply list_elem_of_fmap. exists p. split; [done|]. by apply list_elem_of_filter.
    + intros (p & -> & [Hp1 Hp2]%list_elem_of_filter)%list_elem_of_fmap.
      assert (p.1 ∈ k :: ks) by (apply Hin; by apply list_elem_of_fmap_2). set_solver.
  - rewrite lm_view_Remove, Hv, assoc_remove_map. rewrite filter_cons_False by naive_solver.
    rewrite filter_all by auto. apply list_fmap_ext. intros i k' Hk'%list_elem_of_lookup_2.
    f_equal. unfold bucket_of. by rewrite pts_at_ne by (pose proof (Hne k' Hk'); done).
Qed.

Lemma repr_advance_loop start ks sw pts :
  view_ok (buckets sw) ks pts → repr sw pts →
  repr (advance_loop start ks sw) (pts_after start pts).
Proof.
  revert sw pts. induction ks as [|k ks IH]; intros sw pts Hv (Hvk & Hok & Hq & Hs).
  { assert (pts = []) as ->; [|done]. destruct pts as [|p pts]; [done|].
    destruct Hv as (_ & Hin & _). specialize (Hin p.1). set_solver. }
  csimpl. destruct (Z.ltb_spec start k) as [Hk|Hk].
  - unfold pts_after. rewrite filter_all; [done|]. intros p Hp.
    destruct Hv as (Hs' & Hin & _). apply StronglySorted_inv in Hs' as [_ Hall].
    assert (p.1 ∈ k :: ks) as [->|Hp']%elem_of_cons by (apply Hin; by apply list_elem_of_fmap_2).
    { done. }
    pose proof (proj1 (Forall_forall _ _) Hall _ Hp'). simpl in *. lia.
  - pose proof (view_remove _ _ _ _ Hv) as Hv'.
    pose proof (view_get _ _ _ k Hv) as Hg.
    destruct (lm_Get (buckets sw) k) as [b|] eqn:Eg.
    2:{ destruct Hv as (_ & Hin & Hv). rewrite lm_view_Get, Hv, assoc_get_map in Eg.
        case_decide; [done|set_solver]. }
    simpl in Hg. subst b.
    assert (Hpts : pts_after start pts = pts_after start (filter (λ p, p.1 ≠ k) pts)).
    { unfold pts_after. rewrite list_filter_filter. apply list_filter_iff. intros p. lia. }
    rewrite Hpts. apply IH; [by destruct (0 <? _)%nat|].
    pose proof (pts_ok_filter (λ p, p.1 ≠ k) pts Hok) as Hok'.
    assert (Hsize : lm_Size (lm_Remove (buckets sw) k) = length ks).
    { destruct Hv' as (_ & _ & Hv'). by rewrite lm_view_Size, Hv', length_fmap. }
    rewrite Hsize. destruct ks as [|k' ks]; csimpl.
    + assert (filter (λ p, p.1 ≠ k) pts = []) as Enil.
      { destruct Hv' as (_ & Hin & _). destruct (filter _ pts) as [|p l]; [done|].
        specialize (Hin p.1). set_solver. }
      rewrite Enil in *. split_and!; [by exists []|done..].
    + split_and!; [by exists (k' :: ks)|done| |]; simpl.
      * rewrite Hq, pts_len_remove. apply u64_small. destruct Hok'. unfold is_u64. lia.
      * rewrite Hs, fsub_exact, pts_sum_remove; [done|by apply pts_exact| |].
        { apply pts_exact. by apply pts_ok_filter. }
        rewrite pts_sum_remove. by apply pts_exact.
Qed.

(** Advancing the clock drops exactly the points that left the window. *)
Lemma repr_advance now sw pts : repr sw pts →
  repr (advance now sw) (pts_after (time_Round now (bucketSize sw) - windowLength sw) pts).
Proof.
  intros Hr. pose proof Hr as ((ks & Hv) & _). unfold advance.
  destruct Hv as (Hs & Hin & Hv). apply repr_advance_loop; [|done].
  rewrite lm_view_Keys, Hv, <-list_fmap_compose, list_fmap_id. done.
Qed.

Lemma advance_loop_config start ks sw :
  bucketSize (advance_loop start ks sw) = bucketSize sw ∧
  windowLength (advance_loop start ks sw) = windowLength sw.
Proof.
  revert sw. induction ks as [|k ks IH]; intros sw; csimpl; [done|].
  destruct (start <? k); [done|]. destruct (lm_Get _ _); [|done].
  destruct (IH (if (0 <? lm_Size (lm_Remove (buckets sw) k))%nat
    then mk_window (bucketSize sw) (windowLength sw) (lm_Remove (buckets sw) k)
           (u64 (qty sw - b_qty b)) (fsub (sum sw) (b_sum b))
    else mk_window (bucketSize sw) (windowLength sw) (lm_Remove (buckets sw) k) 0 (f_of_Z 0))) as [-> ->].
  by destruct (0 <? _)%nat.
Qed.

Lemma advance_bucketSize now sw : bucketSize (advance now sw) = bucketSize sw.
Proof. apply advance_loop_config. Qed.

Lemma advance_windowLength now sw : windowLength (advance now sw) = windowLength sw.
Proof. apply advance_loop_config. Qed.

Lemma pts_sum_snoc pts k v : pts_sum (pts ++ [(k, v)]) = pts_sum pts + v.
Proof. unfold pts_sum. rewrite fmap_app, Zsum_app. csimpl. lia. Qed.

Lemma pts_abs_snoc pts k v : pts_abs (pts ++ [(k, v)]) = pts_abs pts + Z.abs v.
Proof. unfold pts_abs. rewrite fmap_app, Zsum_app. csimpl. lia. Qed.

Lemma pts_abs_nonneg pts : 0 ≤ pts_abs pts.
Proof. unfold pts_abs. induction pts; csimpl; lia. Qed.

Lemma pts_ok_app_l pts pts' : pts_ok (pts ++ pts') → pts_ok pts.
Proof.
  unfold pts_ok, pts_abs. rewrite fmap_app, Zsum_app, length_app.
  pose proof (pts_abs_nonneg pts') as Hn. unfold pts_abs in Hn. lia.
Qed.

Lemma pts_ok_value pts k v : pts_ok (pts ++ [(k, v)]) → f_exact v.
Proof.
  intros [Hok _]. rewrite pts_abs_snoc in Hok. pose proof (pts_abs_nonneg pts).
  unfold f_exact. lia.
Qed.

(** Adding a value to the bucket of its key. *)
Lemma bucket_of_snoc pts k v : pts_ok (pts ++ [(k, v)]) →
  bucket_of (pts ++ [(k, v)]) k =
  mk_bucket (fadd (b_sum (bucket_of pts k)) (f_of_Z v)) (u64 (b_qty (bucket_of pts k) + 1)).
Proof.
  intros Hok. assert (Hok' : pts_ok (pts_at k (pts ++ [(k, v)]))) by by apply pts_ok_at.
  assert (E : pts_at k (pts ++ [(k, v)]) = pts_at k pts ++ [(k, v)]).
  { rewrite pts_at_app. f_equal. unfold pts_at. by rewrite filter_cons_True. }
  unfold bucket_of. rewrite E in *. cbn [b_sum b_qty]. f_equal.
  - rewrite pts_sum_snoc, fadd_exact; [done| | |].
    + apply pts_exact. by apply pts_ok_app_l in Hok'.
    + by apply pts_ok_value in Hok.
    + rewrite <-(pts_sum_snoc _ k). by apply pts_exact.
  - destruct Hok' as [_ Hlen]. rewrite length_app in *. csimpl in *.
    rewrite u64_small; [lia|]. unfold is_u64. lia.
Qed.

Lemma view_put m ks pts k v : view_ok m ks pts → (∀ p, p ∈ pts → p.1 ≤ k) →
  ∃ ks, view_ok (lm_Put m k (bucket_of (pts ++ [(k, v)]) k)) ks (pts ++ [(k, v)]).
Proof.
  intros (Hsort & Hin & Hv) Hle.
  destruct (assoc_put_map (bucket_of pts) (bucket_of (pts ++ [(k, v)])) ks k Hsort)
    as (ks' & Hs' & Hin' & Hput).
  - apply Forall_forall. intros k' Hk'%Hin. apply list_elem_of_fmap in Hk' as (p & -> & Hp). auto.
  - intros k' Hk'. unfold bucket_of. rewrite pts_at_app.
    rewrite (pts_at_absent k' [(k, v)]), app_nil_r; [done|]. set_solver.
  - exists ks'. split_and!; [done| |by rewrite lm_view_Put, Hv].
    intros k'. rewrite Hin', Hin, fmap_app. set_solver.
Qed.

(** A point in the window is appended, any other one is dropped. *)
Lemma repr_add now now' t v sw pts :
  let start := time_Round now (bucketSize sw) - windowLength sw in
  let key := time_Round t (bucketSize sw) in
  repr sw pts → pts_ok (pts_after start pts ++ [(key, v)]) → (∀ p, p ∈ pts → p.1 ≤ key) →
  repr (AddWithTime now now' t (f_of_Z v) sw)
    (pts_after start pts ++ if inWindow now' sw key then [(key, v)] else []).
Proof.
  intros start key Hr Hok Hle. pose proof (repr_advance now sw pts Hr) as Hr'. fold start in Hr'.
  assert (HinW : inWindow now' (advance now sw) key = inWindow now' sw key).
  { unfold inWindow. by rewrite advance_bucketSize, advance_windowLength. }
  unfold AddWithTime. rewrite advance_bucketSize. fold key. rewrite HinW.
  destruct (inWindow now' sw key) eqn:Ein; csimpl; [|by rewrite app_nil_r].
  destruct Hr' as ((ks & Hv) & Hok' & Hq & Hs). rewrite (view_get _ _ _ key Hv).
  pose proof (bucket_of_snoc _ _ _ Hok) as Hb. rewrite <-Hb.
  split_and!; cbn [buckets qty sum].
  - apply (view_put _ ks); [done|]. intros p [_ ?]%list_elem_of_filter. auto.
  - done.
  - destruct Hok as [_ Hlen]. rewrite Hq, length_app in *. csimpl in *.
    rewrite u64_small; [lia|]. unfold is_u64. lia.
  - rewrite Hs. cbn [b_sum bucket_of]. pose proof (pts_exact _ Hok).
    pose proof (pts_sum_remove key (pts_after start pts)) as Hrem.
    assert (f_exact (pts_sum (filter (λ p, p.1 ≠ key) (pts_after start pts)))).
    { apply pts_exact. by apply pts_ok_filter. }
    rewrite fsub_exact, Hrem by (rewrite ?Hrem; auto using pts_exact, pts_ok_at).
    assert (Hat : pts_sum (pts_at key (pts_after start pts ++ [(key, v)])) =
      pts_sum (pts_at key (pts_after start pts)) + v).
    { rewrite pts_at_app, <-(pts_sum_snoc _ key). do 2 f_equal.
      unfold pts_at. by rewrite filter_cons_True. }
    assert (f_exact (pts_sum (pts_at key (pts_after start pts)) + v)).
    { rewrite <-Hat. by apply pts_exact, pts_ok_at. }
    rewrite (fadd_exact _ v) by (eauto using pts_exact, pts_ok_at, pts_ok_value).
    rewrite pts_sum_snoc in *. rewrite fadd_exact; [f_equal; lia|done..|].
    by replace (_ + _) with (pts_sum (pts_after start pts) + v) by lia.
Qed.

(** *** Runs of a window *)

(** An operation with the clock readings it makes. *)
Inductive window_op :=
| OpAdd (t now now' v : Z)
| OpRead (now : Z).

Definition exec_op (o : window_op) sw : AvgSlidingWindow LM :=
  match o with
  | OpAdd t now now' v => Add t now now' (f_of_Z v) sw
  | OpRead now => (Sum now sw).2
  end.

Definition exec (ops : list window_op) sw : AvgSlidingWindow LM :=
  foldl (λ sw o, exec_op o sw) sw ops.

(** The readings never go back. *)
Definition op_mono (last : Z) (o : window_op) : Prop :=
  match o with OpAdd t now now' _ => last ≤ t ≤ now ∧ now ≤ now' | OpRead now => last ≤ now end.
Definition op_last (o : window_op) : Z :=
  match o with OpAdd _ _ now' _ => now' | OpRead now => now end.
Fixpoint clock_mono (last : Z) (ops : list window_op) : Prop :=
  match ops with [] => True | o :: ops => op_mono last o ∧ clock_mono (op_last o) ops end.
Definition clock_last (last : Z) (ops : list window_op) : Z := foldl (λ _ o, op_last o) last ops.

(** Every point added, at its rounded instant. *)
Definition op_points (bs : Z) (o : window_op) : list (Z * Z) :=
  match o with OpAdd t _ _ v => [(time_Round t bs, v)] | OpRead _ => [] end.
Definition points (bs : Z) (ops : list window_op) : list (Z * Z) := ops ≫= op_points bs.

(** [pts] is what is left of the history [hist] at the reading [last]. *)
Definition covers (bs len last : Z) (hist pts : list (Z * Z)) : Prop :=
  (∀ now, last ≤ now →
    pts_after (time_Round now bs - len) pts = pts_after (time_Round now bs - len) hist) ∧
  (∀ p, p ∈ pts → p.1 ≤ time_Round last bs) ∧
  pts_abs pts ≤ pts_abs hist ∧ (length pts ≤ length hist)%nat.

Lemma pts_after_after a b pts : a ≤ b → pts_after b (pts_after a pts) = pts_after b pts.
Proof.
  intros Hab. unfold pts_after. rewrite list_filter_filter. apply list_filter_iff. intros p. lia.
Qed.

Lemma pts_after_app a pts pts' : pts_after a (pts ++ pts') = pts_after a pts ++ pts_after a pts'.
Proof. apply filter_app. Qed.

Lemma exec_op_step o sw hist pts last :
  repr sw pts → covers (bucketSize sw) (windowLength sw) last hist pts → op_mono last o →
  pts_ok (hist ++ op_points (bucketSize sw) o) →
  ∃ pts', repr (exec_op o sw) pts' ∧
    covers (bucketSize sw) (windowLength sw) (op_last o) (hist ++ op_points (bucketSize sw) o) pts'.
Proof.
  set (bs := bucketSize sw). set (len := windowLength sw).
  intros Hr (Hc & Hle & Habs & Hlen) Hm Hok. destruct o as [t now now' v|now]; simpl in *.
  - destruct Hm as [[Hm1 Hm2] Hm3].
    set (start := time_Round now bs - len). set (key := time_Round t bs) in *.
    pose proof (time_Round_mono bs _ _ Hm1) as Hk1. pose proof (time_Round_mono bs _ _ Hm2) as Hk2.
    pose proof (time_Round_mono bs _ _ Hm3) as Hk3. fold key in Hk1, Hk2.
    assert (Hafter : pts_abs (pts_after start pts) ≤ pts_abs pts ∧
      (length (pts_after start pts) ≤ length pts)%nat).
    { split; [apply Zsum_abs_filter|apply length_filter]. }
    pose proof Hok as [Hok1 Hok2]. rewrite pts_abs_snoc in Hok1. rewrite length_app in Hok2. simpl in Hok2.
    assert (Hnew : pts_ok (pts_after start pts ++ [(key, v)])).
    { split; [rewrite pts_abs_snoc; lia|rewrite length_app; simpl; lia]. }
    eexists. split.
    { apply repr_add; [done|done|]. intros p Hp. specialize (Hle p Hp). fold bs key. lia. }
    fold bs len start key.
    assert (Hin : inWindow now' sw key = (time_Round now' bs - len <? key)).
    { unfold inWindow. fold bs len. destruct (Z.ltb_spec (time_Round now' bs) key); [lia|].
      by rewrite andb_true_r. }
    rewrite Hin. split_and!.
    + intros n Hn. pose proof (time_Round_mono bs _ _ Hn) as Hk4. rewrite !pts_after_app.
      rewrite pts_after_after by (unfold start; lia). rewrite Hc by lia. f_equal.
      destruct (Z.ltb_spec (time_Round now' bs - len) key); [done|].
      symmetry. apply filter_none. intros p ->%list_elem_of_singleton. simpl. lia.
    + intros p [Hp|Hp]%elem_of_app.
      * apply list_elem_of_filter in Hp as [_ Hp]. specialize (Hle p Hp). lia.
      * destruct (_ <? _); [|set_solver]. apply list_elem_of_singleton in Hp as ->. simpl. lia.
    + rewrite pts_abs_snoc. destruct (_ <? _); [rewrite pts_abs_snoc|rewrite app_nil_r]; lia.
    + rewrite !length_app. simpl. destruct (_ <? _); simpl; lia.
  - exists (pts_after (time_Round now bs - len) pts). rewrite app_nil_r in *. split.
    { by apply repr_advance. }
    split_and!.
    + intros n Hn. pose proof (time_Round_mono bs _ _ Hn). rewrite pts_after_after, Hc by lia. done.
    + intros p [_ Hp]%list_elem_of_filter. specialize (Hle p Hp).
      pose proof (time_Round_mono bs _ _ Hm). lia.
    + pose proof (Zsum_abs_filter (λ p, time_Round now bs - len < p.1) snd pts).
      unfold pts_abs, pts_after in *. lia.
    + pose proof (length_filter (λ p, time_Round now bs - len < p.1) pts). unfold pts_after. lia.
Qed.

Lemma exec_op_config o sw :
  bucketSize (exec_op o sw) = bucketSize sw ∧ windowLength (exec_op o sw) = windowLength sw.
Proof.
  destruct o as [t now now' v|now]; simpl; [|by rewrite advance_bucketSize, advance_windowLength].
  unfold Add, AddWithTime. destruct (negb _); simpl;
    by rewrite advance_bucketSize, advance_windowLength.
Qed.

Lemma exec_repr ops sw hist pts last :
  repr sw pts → covers (bucketSize sw) (windowLength sw) last hist pts → clock_mono last ops →
  pts_ok (hist ++ points (bucketSize sw) ops) →
  ∃ pts', repr (exec ops sw) pts' ∧
    covers (bucketSize sw) (windowLength sw) (clock_last last ops)
      (hist ++ points (bucketSize sw) ops) pts'.
Proof.
  revert sw hist pts last. induction ops as [|o ops IH]; intros sw hist pts last Hr Hc Hm Hok; simpl in *.
  { exists pts. by rewrite app_nil_r. }
  destruct Hm as [Hm1 Hm2]. rewrite app_assoc in Hok |- *.
  destruct (exec_op_config o sw) as [Hb Hw].
  destruct (exec_op_step o sw hist pts last Hr Hc Hm1) as (pts1 & Hr1 & Hc1).
  { by apply pts_ok_app_l in Hok. }
  rewrite <-Hb, <-Hw in Hc1. rewrite <-Hb in Hok.
  destruct (IH (exec_op o sw) _ pts1 (op_last o) Hr1 Hc1 Hm2 Hok) as (pts2 & Hr2 & Hc2).
  exists pts2. rewrite Hb, Hw in Hc2. done.
Qed.

Lemma exec_config ops sw :
  bucketSize (exec ops sw) = bucketSize sw ∧ windowLength (exec ops sw) = windowLength sw.
Proof.
  revert sw. induction ops as [|o ops IH]; intros sw; simpl; [done|].
  destruct (IH (exec_op o sw)) as [-> ->]. apply exec_op_config.
Qed.

(** A window the constructor returns is empty. *)
Lemma repr_new bs len : repr (NewSlidingWindow [WithBucketSize bs; WithWindowLength len]) [].
Proof.
  assert (∀ bs len, repr (mk_window bs len lm_New 0 (f_of_Z 0)) []).
  { intros. split_and!; [|done..]. exists []. split_and!; [constructor|set_solver|apply lm_view_New]. }
  unfold NewSlidingWindow. simpl. destruct (bs =? 0); simpl; destruct (len =? 0); apply H1.
Qed.

(** The window after a run from a new window, once read at [now]: the points of
    the run whose rounded instant is at most [windowLength] old. *)
Lemma exec_window ops bs len last now :
  let sw := NewSlidingWindow [WithBucketSize bs; WithWindowLength len] in
  clock_mono last ops → clock_last last ops ≤ now → pts_ok (points (bucketSize sw) ops) →
  repr (advance now (exec ops sw))
    (pts_after (time_Round now (bucketSize sw) - windowLength sw) (points (bucketSize sw) ops)).
Proof.
  intros sw Hm Hnow Hok.
  destruct (exec_repr ops sw [] [] last (repr_new bs len)) as (pts & Hr & Hc & _); [|done..|].
  { split_and!; [done|set_solver|done|done]. }
  destruct (exec_config ops sw) as [Hb Hw]. pose proof (repr_advance now _ _ Hr) as Hr'.
  rewrite Hb, Hw, Hc in Hr' by done. done.
Qed.

(** The count of a window that was cleared while [c] points were in its
    buckets, as the eviction goes on. *)
Lemma advance_loop_cleared start ks sw pts c :
  view_ok (buckets sw) ks pts → pts_after start pts ≠ [] →
  qty sw = u64 (Z.of_nat (length pts) - c) → pts_ok pts →
  qty (advance_loop start ks sw) = u64 (Z.of_nat (length (pts_after start pts)) - c).
Proof.
  revert sw pts. induction ks as [|k ks IH]; intros sw pts Hv Hne Hq Hok.
  { destruct Hne. assert (pts = []) as ->; [|done]. destruct pts as [|p pts]; [done|].
    destruct Hv as (_ & Hin & _). specialize (Hin p.1). set_solver. }
  pose proof (view_get _ _ _ k Hv) as Hg. pose proof Hv as (Hs & Hin & Hview). csimpl.
  destruct (Z.ltb_spec start k) as [Hk|Hk].
  - unfold pts_after. rewrite filter_all; [done|]. intros p Hp.
    assert (p.1 ∈ k :: ks) as [->|Hp']%elem_of_cons by (apply Hin; by apply list_elem_of_fmap_2); [done|].
    apply StronglySorted_inv in Hs as [_ Hall].
    pose proof (proj1 (Forall_forall _ _) Hall _ Hp'). simpl in *. lia.
  - assert (Hpts : pts_after start pts = pts_after start (filter (λ p, p.1 ≠ k) pts)).
    { unfold pts_after. rewrite list_filter_filter. apply list_filter_iff. intros p. lia. }
    destruct (lm_Get (buckets sw) k) as [b|] eqn:Eg.
    2:{ rewrite lm_view_Get, Hview, assoc_get_map in Eg. case_decide; [done|set_solver]. }
    simpl in Hg. subst b. pose proof (view_remove _ _ _ _ Hv) as Hv'.
    assert (Hsize : (0 <? lm_Size (lm_Remove (buckets sw) k))%nat = true).
    { apply Nat.ltb_lt. pose proof Hv' as (_ & Hin' & Hview'). rewrite lm_view_Size, Hview', length_fmap.
      destruct ks as [|k' ks]; [|simpl; lia]. destruct Hne. rewrite Hpts.
      destruct (filter _ pts) as [|p l]; [done|]. specialize (Hin' p.1). set_solver. }
    rewrite Hsize, Hpts. apply IH; simpl; [done|by rewrite <-Hpts| |by apply pts_ok_filter].
    rewrite Hq, <-(pts_len_remove k pts). unfold u64. rewrite Zminus_mod_idemp_l. f_equal. lia.
Qed.


(** Clear zeroes the count and the sum but leaves the buckets in place, so
    the evictions that follow subtract from zero: as long as some point is left
    in the window, Count wraps around below zero by the number of evicted
    points. *)
Theorem clear_then_evict_wraps sw pts now :
  let recent := pts_after (time_Round now (bucketSize sw) - windowLength sw) pts in
  repr sw pts → recent ≠ [] →
  (Count now (Clear sw)).1 = u64 (Z.of_nat (length recent) - Z.of_nat (length pts)).
Proof.
  intros recent ((ks & Hv) & Hok & _) Hne. simpl. unfold advance. simpl.
  assert (Hks : lm_Keys (buckets sw) = ks).
  { destruct Hv as (_ & _ & Hv). by rewrite lm_view_Keys, Hv, <-list_fmap_compose, list_fmap_id. }
  rewrite Hks. apply advance_loop_cleared; simpl; [done..| |done]. by rewrite Z.sub_diag.
Qed.

End refinement.


(** Two points, a Clear, and the eviction of the first: the count is 2^64 - 1. *)
Example clear_then_evict_wraps_witness :
  let sw := exec [OpAdd 0 0 0 1; OpAdd (40 * Second) (40 * Second) (40 * Second) 1]
    (NewSlidingWindow (LM := list (Z * bucket)) [WithBucketSize Second; WithWindowLength Minute]) in
  (Count (80 * Second) (Clear sw)).1 = 2 ^ 64 - 1.
Proof.
  intros sw. apply (clear_then_evict_wraps sw [(0, 1); (40 * Second, 1)] (80 * Second)); [|by vm_compute].
  split_and!; [|by vm_compute..]. exists [0; 40 * Second].
  split_and!; [|set_solver|by vm_compute]. repeat constructor.
Defined.
