(* ===== verification/Json.v ===== *)
(** The part of Go's encoding/json the sources rely on: a parser and a printer
    of JSON texts, generic values ([interface{}]), and their round trip.

    Texts and Go strings are byte strings.  A parsed object is kept the way the
    sources see a [map[string]interface{}]: keys sorted (the order Marshal
    prints them in), the last of several equal keys wins.  Number literals are
    kept as they are written, bytes from 128 on are copied. *)
From stdpp Require Import base numbers list strings sorting sets.
From S2P Require Import Prelude.
From Stdlib Require Import Ascii.

Local Open Scope string_scope.
#[local] Arguments String.append : simpl nomatch.

Inductive json : Type :=
| JNull
| JBool (b : bool)
| JNum (lit : string)
| JStr (s : string)
| JArr (l : list json)
| JObj (m : list (string * json)).

(** ** Characters *)

Definition chr (n : nat) : ascii := ascii_of_nat n.
Definition is_ws (c : ascii) : bool :=
  let n := nat_of_ascii c in (n =? 32)%nat || (n =? 9)%nat || (n =? 10)%nat || (n =? 13)%nat.
Definition is_digit (c : ascii) : bool :=
  let n := nat_of_ascii c in (48 <=? n)%nat && (n <=? 57)%nat.
Definition lower (c : ascii) : ascii :=
  let n := nat_of_ascii c in if (65 <=? n)%nat && (n <=? 90)%nat then chr (n + 32) else c.
Definition quote : ascii := chr 34.
Definition backslash : ascii := chr 92.

Fixpoint skip_ws (s : string) : string :=
  match s with
  | String c s' => if is_ws c then skip_ws s' else s
  | "" => ""
  end.

(** ** Strings *)

Definition hex_digit (n : nat) : ascii := if (n <? 10)%nat then chr (48 + n) else chr (87 + n).
Definition unhex (c : ascii) : option nat :=
  let n := nat_of_ascii c in
  if (48 <=? n)%nat && (n <=? 57)%nat then Some (n - 48)%nat
  else if (97 <=? n)%nat && (n <=? 102)%nat then Some (n - 87)%nat
  else if (65 <=? n)%nat && (n <=? 70)%nat then Some (n - 55)%nat
  else None.

Definition hex4 (a b c d : ascii) : option N :=
  a ← unhex a; b ← unhex b; c ← unhex c; d ← unhex d;
  Some (N.of_nat (((a * 16 + b) * 16 + c) * 16 + d)).

(** The UTF-8 bytes of a code point. *)
Definition byteN (n : N) : ascii := ascii_of_N n.
Definition utf8 (r : N) (rest : string) : string :=
  if (r <? 128)%N then String (byteN r) rest
  else if (r <? 2048)%N then
    String (byteN (192 + r / 64)) (String (byteN (128 + r mod 64)) rest)
  else if (r <? 65536)%N then
    String (byteN (224 + r / 4096)) (String (byteN (128 + r / 64 mod 64))
      (String (byteN (128 + r mod 64)) rest))
  else
    String (byteN (240 + r / 262144)) (String (byteN (128 + r / 4096 mod 64))
      (String (byteN (128 + r / 64 mod 64)) (String (byteN (128 + r mod 64)) rest))).

Definition is_high (r : N) : bool := (55296 <=? r)%N && (r <? 56320)%N.
Definition is_low (r : N) : bool := (56320 <=? r)%N && (r <? 57344)%N.
Definition rune_error : N := 65533.

Definition unescape (e : ascii) : option ascii :=
  match nat_of_ascii e with
  | 34 => Some quote | 92 => Some backslash | 47 => Some (chr 47)
  | 98 => Some (chr 8) | 102 => Some (chr 12) | 110 => Some (chr 10)
  | 114 => Some (chr 13) | 116 => Some (chr 9) | _ => None
  end%nat.

(** The body of a string literal, up to its closing quote. [hi] is a pending
    high surrogate. *)
Fixpoint parse_chars (hi : option N) (s : string) : option (string * string) :=
  let flush (r : string * string) : string * string :=
    match hi with Some _ => (utf8 rune_error r.1, r.2) | None => r end in
  match s with
  | "" => None
  | String c s1 =>
      if Ascii.eqb c quote then Some (flush ("", s1))
      else if Ascii.eqb c backslash then
        match s1 with
        | "" => None
        | String e s2 =>
            if Ascii.eqb e (chr 117) then
              match s2 with
              | String a (String b (String c (String d s3))) =>
                  match hex4 a b c d with
                  | None => None
                  | Some r =>
                      if is_high r then flush <$> parse_chars (Some r) s3
                      else if is_low r then
                        match hi with
                        | Some h =>
                            (λ '(t, rest), (utf8 (65536 + (h - 55296) * 1024 + (r - 56320)) t, rest))
                              <$> parse_chars None s3
                        | None => (λ '(t, rest), (utf8 rune_error t, rest)) <$> parse_chars None s3
                        end
                      else (λ '(t, rest), flush (utf8 r t, rest)) <$> parse_chars None s3
                  end
              | _ => None
              end
            else match unescape e with
                 | None => None
                 | Some u => (λ '(t, rest), flush (String u t, rest)) <$> parse_chars None s2
                 end
        end
      else if (nat_of_ascii c <? 32)%nat then None
      else (λ '(t, rest), flush (String c t, rest)) <$> parse_chars None s1
  end.

(** How Marshal writes one byte of a string, HTML characters escaped. *)
Definition escape_char (c : ascii) (rest : string) : string :=
  let n := nat_of_ascii c in
  if (n =? 34)%nat || (n =? 92)%nat then String backslash (String c rest)
  else if (n =? 8)%nat then String backslash (String (chr 98) rest)
  else if (n =? 12)%nat then String backslash (String (chr 102) rest)
  else if (n =? 10)%nat then String backslash (String (chr 110) rest)
  else if (n =? 13)%nat then String backslash (String (chr 114) rest)
  else if (n =? 9)%nat then String backslash (String (chr 116) rest)
  else if (n <? 32)%nat || (n =? 60)%nat || (n =? 62)%nat || (n =? 38)%nat then
    String backslash (String (chr 117) (String (chr 48) (String (chr 48)
      (String (hex_digit (n / 16)) (String (hex_digit (n mod 16)) rest)))))
  else String c rest.

Fixpoint escape (s rest : string) : string :=
  match s with "" => rest | String c s => escape_char c (escape s rest) end.

Definition print_str (s rest : string) : string := String quote (escape s (String quote rest)).

Lemma parse_chars_char (c : ascii) (t : string) :
  parse_chars None (escape_char c t) = (λ '(s, r), (String c s, r)) <$> parse_chars None t.
Proof. destruct c as [[] [] [] [] [] [] [] []]; reflexivity. Qed.

Lemma parse_chars_escape (s rest : string) :
  parse_chars None (escape s (String quote rest)) = Some (s, rest).
Proof.
  induction s as [|c s IH]; [done|]. cbn [escape]. by rewrite parse_chars_char, IH.
Qed.

(** ** Numbers *)

Fixpoint take_digits (s : string) : string * string :=
  match s with
  | String c s' =>
      if is_digit c then let '(d, r) := take_digits s' in (String c d, r) else ("", s)
  | "" => ("", "")
  end.

Definition head_is (n : nat) (s : string) : bool :=
  match s with String c _ => (nat_of_ascii c =? n)%nat | "" => false end.
Definition tail (s : string) : string := match s with String _ s => s | "" => "" end.

(** The optional parts of a number: each takes its text off the input. *)
Definition num_int (s : string) : option (string * string) :=
  match s with
  | String c s' =>
      if (nat_of_ascii c =? 48)%nat then Some (String c "", s')
      else if is_digit c then Some (take_digits s) else None
  | "" => None
  end.
Definition num_frac (s : string) : option (string * string) :=
  if head_is 46 s then
    let '(d, r) := take_digits (tail s) in
    if String.eqb d "" then None else Some (String (chr 46) d, r)
  else Some ("", s).
Definition num_exp (s : string) : option (string * string) :=
  match s with
  | String e s1 =>
      if (nat_of_ascii e =? 101)%nat || (nat_of_ascii e =? 69)%nat then
        let '(sgn, s2) :=
          match s1 with
          | String c s2 =>
              if (nat_of_ascii c =? 43)%nat || (nat_of_ascii c =? 45)%nat
              then (String c "", s2) else ("", s1)
          | "" => ("", "")
          end in
        let '(d, r) := take_digits s2 in
        if String.eqb d "" then None else Some (String e (sgn +:+ d), r)
      else Some ("", s)
  | "" => Some ("", "")
  end.

Definition parse_num (s : string) : option (string * string) :=
  let '(sgn, s0) := if head_is 45 s then (String (chr 45) "", tail s) else ("", s) in
  '(i, s1) ← num_int s0;
  '(f, s2) ← num_frac s1;
  '(e, s3) ← num_exp s2;
  Some (sgn +:+ i +:+ f +:+ e, s3).

(** ** Objects as maps *)

Fixpoint obj_get (m : list (string * json)) (k : string) : option json :=
  match m with
  | [] => None
  | (k', v) :: m => if String.eqb k k' then Some v else obj_get m k
  end.

Fixpoint obj_set (m : list (string * json)) (k : string) (v : json) : list (string * json) :=
  match m with
  | [] => [(k, v)]
  | (k', v') :: m' =>
      match String.compare k k' with
      | Eq => (k, v) :: m'
      | Lt => (k, v) :: m
      | Gt => (k', v') :: obj_set m' k v
      end
  end.

Definition obj_of (kvs : list (string * json)) : list (string * json) :=
  foldl (λ m kv, obj_set m kv.1 kv.2) [] kvs.

(** ** Values *)

Fixpoint strip (lit s : string) : option string :=
  match lit, s with
  | "", _ => Some s
  | String a lit, String b s => if Ascii.eqb a b then strip lit s else None
  | _, "" => None
  end.
Definition expect (lit : string) (v : json) (s : string) : option (json * string) :=
  (λ r, (v, r)) <$> strip lit s.

Fixpoint parse_value (n : nat) (s : string) : option (json * string) :=
  match n with
  | O => None
  | S n =>
      match skip_ws s with
      | "" => None
      | String c s' =>
          match nat_of_ascii c with
          | 34%nat => (λ '(t, r), (JStr t, r)) <$> parse_chars None s'
          | 91%nat =>
              if head_is 93 (skip_ws s') then Some (JArr [], tail (skip_ws s'))
              else (λ '(l, r), (JArr l, r)) <$> parse_elems n s'
          | 123%nat =>
              if head_is 125 (skip_ws s') then Some (JObj [], tail (skip_ws s'))
              else (λ '(m, r), (JObj (obj_of m), r)) <$> parse_members n s'
          | 110%nat => expect "ull" JNull s'
          | 116%nat => expect "rue" (JBool true) s'
          | 102%nat => expect "alse" (JBool false) s'
          | _ => (λ '(l, r), (JNum l, r)) <$> parse_num (String c s')
          end
      end
  end
with parse_elems (n : nat) (s : string) : option (list json * string) :=
  match n with
  | O => None
  | S n =>
      '(v, r) ← parse_value n s;
      let r := skip_ws r in
      if head_is 44 r then (λ '(l, r), (v :: l, r)) <$> parse_elems n (tail r)
      else if head_is 93 r then Some ([v], tail r)
      else None
  end
with parse_members (n : nat) (s : string) : option (list (string * json) * string) :=
  match n with
  | O => None
  | S n =>
      let s := skip_ws s in
      if negb (head_is 34 s) then None
      else
        '(k, r) ← parse_chars None (tail s);
        let r := skip_ws r in
        if negb (head_is 58 r) then None
        else
          '(v, r) ← parse_value n (tail r);
          let r := skip_ws r in
          if head_is 44 r then (λ '(m, r), ((k, v) :: m, r)) <$> parse_members n (tail r)
          else if head_is 125 r then Some ([(k, v)], tail r)
          else None
  end.

(** Every value takes at least one byte and two calls. *)
Definition fuel (s : string) : nat := 2 * String.length s + 2.

(** json.Unmarshal into an [interface{}]. *)
Definition json_parse (s : string) : option json :=
  '(v, r) ← parse_value (fuel s) s;
  if String.eqb (skip_ws r) "" then Some v else None.

(** json.Marshal of an [interface{}]. *)
Fixpoint print_value (v : json) (rest : string) {struct v} : string :=
  match v with
  | JNull => "null" +:+ rest
  | JBool true => "true" +:+ rest
  | JBool false => "false" +:+ rest
  | JNum lit => lit +:+ rest
  | JStr s => print_str s rest
  | JArr l =>
      String (chr 91)
        ((fix elems (l : list json) : string :=
            match l with
            | [] => String (chr 93) rest
            | [v] => print_value v (String (chr 93) rest)
            | v :: l => print_value v (String (chr 44) (elems l))
            end) l)
  | JObj m =>
      String (chr 123)
        ((fix members (m : list (string * json)) : string :=
            match m with
            | [] => String (chr 125) rest
            | [(k, v)] => print_str k (String (chr 58) (print_value v (String (chr 125) rest)))
            | (k, v) :: m =>
                print_str k (String (chr 58) (print_value v (String (chr 44) (members m))))
            end) m)
  end.
Definition json_marshal (v : json) : string := print_value v "".
Arguments json_marshal : simpl never.

(** Texts written with single quotes, for examples. *)
Fixpoint jtext (s : string) : string :=
  match s with
  | "" => ""
  | String c s => String (if (nat_of_ascii c =? 39)%nat then quote else c) (jtext s)
  end.

Example json_parse_ex :
  json_parse (jtext " { 'b' : [1, -2.5e+3 , 'x\u0041\n'], 'a':{}, 'b2':null, 'b2':true} ") =
  Some (JObj [("a", JObj []);
              ("b", JArr [JNum "1"; JNum "-2.5e+3"; JStr ("xA" +:+ String (chr 10) "")]);
              ("b2", JBool true)]).
Proof. reflexivity. Qed.

Example json_marshal_ex :
  json_marshal (JObj [("a", JArr [JNum "1"; JStr "<"]); ("b", JNull)]) =
  jtext "{'a':[1,'\u003c'],'b':null}".
Proof. reflexivity. Qed.

(** ** Induction on values *)

Section json_ind.
Variable P : json → Prop.
Hypothesis HNull : P JNull.
Hypothesis HBool : ∀ b, P (JBool b).
Hypothesis HNum : ∀ l, P (JNum l).
Hypothesis HStr : ∀ s, P (JStr s).
Hypothesis HArr : ∀ l, Forall P l → P (JArr l).
Hypothesis HObj : ∀ m, Forall (λ kv, P kv.2) m → P (JObj m).

Fixpoint json_nested_ind (v : json) : P v :=
  match v with
  | JNull => HNull
  | JBool b => HBool b
  | JNum l => HNum l
  | JStr s => HStr s
  | JArr l => HArr l
      ((fix go l : Forall P l :=
          match l with
          | [] => Forall_nil_2 _
          | v :: l => Forall_cons_2 _ _ _ (json_nested_ind v) (go l)
          end) l)
  | JObj m => HObj m
      ((fix go m : Forall (λ kv, P kv.2) m :=
          match m with
          | [] => Forall_nil_2 _
          | kv :: m => Forall_cons_2 _ _ _ (json_nested_ind kv.2) (go m)
          end) m)
  end.
End json_ind.

(** ** The round trip *)

(** A value the parser can produce: number literals are JSON numbers, the keys
    of an object are sorted and distinct. *)
Definition keys_sorted (m : list (string * json)) : Prop :=
  StronglySorted (λ k k', String.compare k k' = Lt) m.*1.

Fixpoint wf_json (v : json) : Prop :=
  match v with
  | JNum l => parse_num l = Some (l, "")
  | JArr l => (fix all l := match l with [] => True | v :: l => wf_json v ∧ all l end) l
  | JObj m => keys_sorted m ∧
      (fix all (m : list (string * json)) :=
         match m with [] => True | (_, v) :: m => wf_json v ∧ all m end) m
  | _ => True
  end.

Lemma wf_json_arr l : wf_json (JArr l) ↔ Forall wf_json l.
Proof. simpl. induction l as [|v l IH]; [done|]. rewrite Forall_cons, <-IH. done. Qed.

Lemma wf_json_obj m : wf_json (JObj m) ↔ keys_sorted m ∧ Forall (λ kv, wf_json kv.2) m.
Proof.
  simpl. apply and_iff_compat_l. induction m as [|[k v] m IH]; [done|].
  rewrite Forall_cons, <-IH. done.
Qed.

(** Calls needed to parse a value back. *)
Fixpoint need (v : json) : nat :=
  match v with
  | JArr l => S ((fix go l := match l with [] => O | v :: l => S (need v + go l) end) l)
  | JObj m =>
      S ((fix go (m : list (string * json)) :=
            match m with [] => O | (_, v) :: m => S (need v + go m) end) m)
  | _ => 1
  end.

(** What can follow a value in a text. *)
Definition delim (rest : string) : bool :=
  match rest with
  | "" => true
  | String c _ => let n := nat_of_ascii c in (n =? 44)%nat || (n =? 93)%nat || (n =? 125)%nat
  end.

Lemma str_app_assoc (a b c : string) : (a +:+ b) +:+ c = a +:+ (b +:+ c).
Proof. induction a as [|x a IH]; [done|]. cbn. by f_equal. Qed.

Lemma str_app_nil (a : string) : a +:+ "" = a.
Proof. induction a as [|x a IH]; [done|]. cbn. by f_equal. Qed.

Lemma str_app_length (a b : string) : String.length (a +:+ b) = (String.length a + String.length b)%nat.
Proof. induction a as [|x a IH]; [done|]. cbn. by f_equal. Qed.

Lemma delim_not (rest : string) : delim rest →
  take_digits rest = ("", rest) ∧ head_is 46 rest = false ∧ num_exp rest = Some ("", rest).
Proof.
  destruct rest as [|c rest]; [done|].
  destruct c as [[] [] [] [] [] [] [] []]; intros H; first [solve [destruct H]|repeat split].
Qed.

Section num_app.
Variable rest : string.
Hypothesis Hrest : delim rest.

Lemma take_digits_app s d r : take_digits s = (d, r) → take_digits (s +:+ rest) = (d, r +:+ rest).
Proof.
  revert d r. induction s as [|c s IH]; intros d r; simpl.
  - intros [= <- <-]. by apply delim_not.
  - destruct (is_digit c); [|by intros [= <- <-]].
    destruct (take_digits s) as [d' r'] eqn:E. intros [= <- <-]. by rewrite (IH d' r').
Qed.

Lemma num_int_app s d r : num_int s = Some (d, r) → num_int (s +:+ rest) = Some (d, r +:+ rest).
Proof.
  destruct s as [|c s]; [done|]. cbn [num_int String.append].
  destruct (_ =? _)%nat; [by intros [= <- <-]|]. destruct (is_digit c) eqn:Ec; [|done].
  intros [= E]. f_equal. by apply (take_digits_app (String c s)).
Qed.

Lemma num_frac_app s d r : num_frac s = Some (d, r) → num_frac (s +:+ rest) = Some (d, r +:+ rest).
Proof.
  destruct (delim_not rest Hrest) as (_ & H46 & _). unfold num_frac.
  destruct s as [|c s]; simpl; [intros [= <- <-]; by rewrite H46|].
  destruct (_ =? _)%nat; [|by intros [= <- <-]].
  destruct (take_digits s) as [d' r'] eqn:E. rewrite (take_digits_app s d' r' E).
  destruct (String.eqb d' ""); [done|]. by intros [= <- <-].
Qed.

Lemma num_exp_app s d r : num_exp s = Some (d, r) → num_exp (s +:+ rest) = Some (d, r +:+ rest).
Proof.
  destruct (delim_not rest Hrest) as (_ & _ & He). unfold num_exp at 1.
  destruct s as [|c s]; [by intros [= <- <-]|]. cbn [num_exp String.append].
  destruct (_ || _); [|by intros [= <- <-]].
  destruct s as [|c' s]; [done|]. cbn [String.append]. destruct (_ || _) eqn:Es.
  - destruct (take_digits s) as [d' r'] eqn:E. rewrite (take_digits_app s d' r' E).
    destruct (String.eqb d' ""); [done|]. by intros [= <- <-].
  - destruct (take_digits (String c' s)) as [d' r'] eqn:E.
    change (String c' (s +:+ rest)) with (String c' s +:+ rest).
    rewrite (take_digits_app _ d' r' E). destruct (String.eqb d' ""); [done|]. by intros [= <- <-].
Qed.

Lemma parse_num_app s l r : parse_num s = Some (l, r) → parse_num (s +:+ rest) = Some (l, r +:+ rest).
Proof.
  unfold parse_num. destruct s as [|c s]; [done|]. cbn [head_is tail String.append].
  assert (Hmain : ∀ sgn s0,
    ('(i, s1) ← num_int s0; '(f, s2) ← num_frac s1; '(e, s3) ← num_exp s2;
      Some (sgn +:+ i +:+ f +:+ e, s3)) = Some (l, r) →
    ('(i, s1) ← num_int (s0 +:+ rest); '(f, s2) ← num_frac s1; '(e, s3) ← num_exp s2;
      Some (sgn +:+ i +:+ f +:+ e, s3)) = Some (l, r +:+ rest)).
  { intros sgn s0. destruct (num_int s0) as [[i s1]|] eqn:E1; [|done].
    rewrite (num_int_app _ _ _ E1). simpl.
    destruct (num_frac s1) as [[f s2]|] eqn:E2; [|done]. rewrite (num_frac_app _ _ _ E2). simpl.
    destruct (num_exp s2) as [[e s3]|] eqn:E3; [|done]. rewrite (num_exp_app _ _ _ E3). simpl.
    by intros [= <- <-]. }
  destruct (_ =? _)%nat; [apply (Hmain _ s)|apply (Hmain _ (String c s))].
Qed.
End num_app.

(** A number starts with a sign or a digit: no other kind of value does. *)
Lemma parse_value_dispatch n c s : is_digit c || (nat_of_ascii c =? 45)%nat →
  parse_value (S n) (String c s) = (λ '(l, r), (JNum l, r)) <$> parse_num (String c s).
Proof. destruct c as [[] [] [] [] [] [] [] []]; first [done | intros _; reflexivity]. Qed.

Lemma parse_num_head c l r : parse_num (String c l) = Some r → is_digit c || (nat_of_ascii c =? 45)%nat.
Proof.
  unfold parse_num. cbn [head_is]. destruct (nat_of_ascii c =? 45)%nat eqn:E.
  { intros _. by rewrite orb_true_r. }
  cbn [num_int]. destruct (nat_of_ascii c =? 48)%nat eqn:E48.
  { apply Nat.eqb_eq in E48. unfold is_digit. by rewrite E48. }
  by destruct (is_digit c).
Qed.

Lemma parse_value_num n l rest : parse_num l = Some (l, "") → delim rest →
  parse_value (S n) (l +:+ rest) = Some (JNum l, rest).
Proof.
  intros Hl Hr. pose proof (parse_num_app rest Hr _ _ _ Hl) as Hp.
  destruct l as [|c l]; [done|]. change (String c l +:+ rest) with (String c (l +:+ rest)) in *.
  rewrite parse_value_dispatch by (by apply parse_num_head in Hl). by rewrite Hp.
Qed.

(** The inner loops of the printer and of [need]. *)
Fixpoint print_elems (l : list json) (rest : string) : string :=
  match l with
  | [] => String (chr 93) rest
  | [v] => print_value v (String (chr 93) rest)
  | v :: l => print_value v (String (chr 44) (print_elems l rest))
  end.
Fixpoint print_members (m : list (string * json)) (rest : string) : string :=
  match m with
  | [] => String (chr 125) rest
  | [(k, v)] => print_str k (String (chr 58) (print_value v (String (chr 125) rest)))
  | (k, v) :: m => print_str k (String (chr 58) (print_value v (String (chr 44) (print_members m rest))))
  end.
Fixpoint need_elems (l : list json) : nat :=
  match l with [] => O | v :: l => S (need v + need_elems l) end.
Fixpoint need_members (m : list (string * json)) : nat :=
  match m with [] => O | (_, v) :: m => S (need v + need_members m) end.

Lemma print_elems_cons v v' l rest :
  print_elems (v :: v' :: l) rest = print_value v (String (chr 44) (print_elems (v' :: l) rest)).
Proof. done. Qed.

Lemma print_members_cons k v kv m rest :
  print_members ((k, v) :: kv :: m) rest =
  print_str k (String (chr 58) (print_value v (String (chr 44) (print_members (kv :: m) rest)))).
Proof. done. Qed.

Lemma print_value_arr l rest : print_value (JArr l) rest = String (chr 91) (print_elems l rest).
Proof.
  cbn [print_value]. f_equal. induction l as [|v [|v' l] IH]; [done..|].
  rewrite print_elems_cons, <-IH. done.
Qed.

Lemma print_value_obj m rest : print_value (JObj m) rest = String (chr 123) (print_members m rest).
Proof.
  cbn [print_value]. f_equal. induction m as [|[k v] [|[k' v'] m] IH]; [done..|].
  rewrite print_members_cons, <-IH. done.
Qed.

Lemma need_arr l : need (JArr l) = S (need_elems l).
Proof. done. Qed.

Lemma need_obj m : need (JObj m) = S (need_members m).
Proof. done. Qed.

(** The first character of a printed value is neither blank nor a closing bracket. *)
Definition starts (s : string) : Prop :=
  match s with
  | "" => False
  | String c _ => is_ws c = false ∧ nat_of_ascii c ≠ 93%nat ∧ nat_of_ascii c ≠ 125%nat
  end.

Lemma print_value_starts v rest : wf_json v → starts (print_value v rest).
Proof.
  destruct v as [|[]|l|s|l|m]; intros Hwf; [done..| |done|done|done].
  simpl in *. destruct l as [|c l]; [done|]. apply parse_num_head in Hwf.
  destruct c as [[] [] [] [] [] [] [] []]; first [solve [destruct Hwf]|done].
Qed.

Lemma starts_skip s : starts s → skip_ws s = s ∧ head_is 93 s = false ∧ head_is 125 s = false.
Proof.
  destruct s as [|c s]; [done|]. intros (H1 & H2 & H3). cbn [skip_ws]. rewrite H1.
  cbn [head_is]. by rewrite !(proj2 (Nat.eqb_neq _ _)).
Qed.

Lemma print_str_skip k rest : skip_ws (print_str k rest) = print_str k rest.
Proof. done. Qed.

(** Inserting past the end of a sorted object appends. *)
Lemma obj_set_snoc m k v : Forall (λ k', String.compare k' k = Lt) m.*1 →
  obj_set m k v = (m ++ [(k, v)])%list.
Proof.
  induction m as [|[k' v'] m IH]; intros Hm; [done|]. apply Forall_cons in Hm as [Hk Hm]. simpl in *.
  rewrite String.compare_antisym, Hk. simpl. by rewrite IH.
Qed.

Lemma obj_of_sorted m : keys_sorted m → obj_of m = m.
Proof.
  unfold obj_of. intros Hs.
  assert (H : ∀ m1, (∀ k1 k, k1 ∈ m1.*1 → k ∈ m.*1 → String.compare k1 k = Lt) →
    foldl (λ m kv, obj_set m kv.1 kv.2) m1 m = (m1 ++ m)%list); [|apply (H []); set_solver].
  induction m as [|[k v] m IH]; intros m1 Hlt; simpl; [by rewrite app_nil_r|].
  unfold keys_sorted in Hs. apply StronglySorted_inv in Hs as [Hs Hk].
  rewrite obj_set_snoc.
  - rewrite IH, <-app_assoc; [done|done|]. intros k1 k2 H1 H2. rewrite fmap_app in H1.
    apply elem_of_app in H1 as [H1| ->%list_elem_of_singleton].
    + apply Hlt; [done|by right].
    + by apply (proj1 (Forall_forall _ _) Hk).
  - apply Forall_forall. intros k1 H1. apply Hlt; [done|by left].
Qed.

(** Steps of the parser on the punctuation the printer writes. *)
Lemma skip_ws_punct n s : n ∈ [44; 58; 93; 125]%nat → skip_ws (String (chr n) s) = String (chr n) s.
Proof.
  rewrite !elem_of_cons, elem_of_nil. by intros [->|[->|[->|[->|[]]]]].
Qed.

Lemma head_is_chr n m s : (n < 256)%nat → head_is m (String (chr n) s) = (n =? m)%nat.
Proof. intros Hn. cbn [head_is]. unfold chr. by rewrite nat_ascii_embedding. Qed.

Lemma head_is_quote s : head_is 34 (String quote s) = true.
Proof. done. Qed.

Ltac json_step :=
  repeat progress (
    cbn [negb tail Nat.eqb mbind option_bind];
    rewrite ?skip_ws_punct by (rewrite !elem_of_cons; naive_solver);
    rewrite ?head_is_quote, ?head_is_chr by lia).

(** The text of [v], whatever delimiter follows it, parses as [u]. *)
Definition parses_as (v u : json) : Prop := ∀ n rest,
  (need v ≤ n)%nat → delim rest → parse_value n (print_value v rest) = Some (u, rest).
Definition member_as (a b : string * json) : Prop := a.1 = b.1 ∧ parses_as a.2 b.2.
Definition parses_back (v : json) : Prop := parses_as v v.

Lemma parse_elems_print l us n rest :
  l ≠ [] → Forall2 parses_as l us → (need_elems l ≤ n)%nat →
  parse_elems n (print_elems l rest) = Some (us, rest).
Proof.
  intros Hne Hpb. revert n Hne. induction Hpb as [|v u l us Hv Hpb IH]; intros n Hne Hn; [done|].
  cbn [need_elems] in Hn. destruct n as [|n]; [lia|]. cbn [parse_elems]. destruct Hpb as [|v' u' l us].
  - cbn [print_elems]. rewrite Hv by (done || lia). json_step. done.
  - rewrite print_elems_cons, Hv by (done || lia). json_step.
    rewrite IH by (done || lia). done.
Qed.

Lemma parse_members_print m us n rest :
  m ≠ [] → Forall2 member_as m us → (need_members m ≤ n)%nat →
  parse_members n (print_members m rest) = Some (us, rest).
Proof.
  intros Hne Hpb. revert n Hne. induction Hpb as [|[k v] [k' u] m us [Hk Hv] Hpb IH]; intros n Hne Hn; [done|].
  simpl in Hk, Hv. subst k'. cbn [need_members] in Hn.
  destruct n as [|n]; [lia|]. cbn [parse_members]. destruct Hpb as [|[k' v'] [] m us];
    [cbn [print_members]|rewrite print_members_cons]; rewrite print_str_skip; unfold print_str;
    json_step; rewrite parse_chars_escape; json_step; rewrite Hv by (done || lia); json_step; [done|].
  rewrite IH by (done || lia). done.
Qed.

(** The members of an object may stand in any order. *)
Lemma parse_obj_print m us : Forall2 member_as m us → parses_as (JObj m) (JObj (obj_of us)).
Proof.
  intros Hpb n rest Hn Hd. rewrite need_obj in Hn. destruct n as [|n]; [lia|]. rewrite print_value_obj.
  change (parse_value (S n) (String (chr 123) (print_members m rest))) with
    (if head_is 125 (skip_ws (print_members m rest)) then Some (JObj [], tail (skip_ws (print_members m rest)))
     else (λ '(m, r), (JObj (obj_of m), r)) <$> parse_members n (print_members m rest)).
  destruct m as [|[k v] m]; [by inversion Hpb|].
  assert (∃ t, print_members ((k, v) :: m) rest = print_str k t) as [t Ht].
  { destruct m as [|kv m]; eexists; [reflexivity|apply print_members_cons]. }
  rewrite Ht, print_str_skip, <-Ht.
  assert (head_is 125 (print_members ((k, v) :: m) rest) = false) as -> by (by rewrite Ht).
  by rewrite (parse_members_print _ us) by (done || lia).
Qed.

(** What Marshal prints, Unmarshal reads back: every value the parser can
    produce is recovered from its text, whatever delimiter follows it, with the
    fuel the parser gives itself. *)
Lemma parse_print v : wf_json v → parses_back v.
Proof.
  induction v as [|b|l|s|l IH|m IH] using json_nested_ind; intros Hwf n rest Hn Hd.
  - destruct n; [simpl in Hn; lia|]. done.
  - destruct n; [simpl in Hn; lia|]. by destruct b.
  - destruct n; [simpl in Hn; lia|]. by apply parse_value_num.
  - destruct n; [simpl in Hn; lia|]. cbn [print_value]. unfold print_str.
    change (parse_value (S n) (String quote (escape s (String quote rest)))) with
      ((λ '(t, r), (JStr t, r)) <$> parse_chars None (escape s (String quote rest))).
    by rewrite parse_chars_escape.
  - rewrite need_arr in Hn. destruct n as [|n]; [lia|]. rewrite print_value_arr.
    change (parse_value (S n) (String (chr 91) (print_elems l rest))) with
      (if head_is 93 (skip_ws (print_elems l rest)) then Some (JArr [], tail (skip_ws (print_elems l rest)))
       else (λ '(l, r), (JArr l, r)) <$> parse_elems n (print_elems l rest)).
    apply wf_json_arr in Hwf. destruct l as [|v l]; [done|].
    assert (Hst : starts (print_elems (v :: l) rest)).
    { apply Forall_cons in Hwf as [Hv _]. destruct l; by apply print_value_starts. }
    apply starts_skip in Hst as (-> & -> & _).
    rewrite (parse_elems_print _ (v :: l)); [done|done|apply Forall_Forall2_diag; exact (Forall_mp _ _ _ IH Hwf)|lia].
  - apply wf_json_obj in Hwf as [Hs Hwf]. rewrite (parse_obj_print m m); [by rewrite obj_of_sorted| |done|done].
    apply Forall_Forall2_diag. eapply Forall_impl; [exact (Forall_mp _ _ _ IH Hwf)|]. by intros kv Hkv.
Qed.

(** A printed value is long enough for the fuel of the parser. *)
Lemma print_str_length k rest : (String.length rest + 2 ≤ String.length (print_str k rest))%nat.
Proof.
  unfold print_str. cbn [String.length]. assert (H : ∀ r, (String.length r ≤ String.length (escape k r))%nat).
  { intros r. induction k as [|c k IH]; [done|]. cbn [escape]. unfold escape_char.
    repeat case_match; cbn [String.length]; lia. }
  specialize (H (String quote rest)). cbn [String.length] in H. lia.
Qed.

Definition long_enough (v : json) : Prop := ∀ rest,
  (need v + 2 * String.length rest ≤ 2 * String.length (print_value v rest))%nat.

Lemma print_elems_length l rest : Forall long_enough l →
  (need_elems l + 2 * String.length rest ≤ 2 * String.length (print_elems l rest))%nat.
Proof.
  induction l as [|v [|v' l] IH]; intros Hl; [cbn; lia| |].
  - apply Forall_cons in Hl as [Hv _]. cbn [need_elems print_elems].
    specialize (Hv (String (chr 93) rest)). cbn [String.length] in Hv. lia.
  - apply Forall_cons in Hl as [Hv Hl]. rewrite print_elems_cons. specialize (IH Hl).
    specialize (Hv (String (chr 44) (print_elems (v' :: l) rest))). cbn [String.length] in Hv.
    cbn [need_elems] in *. lia.
Qed.

Lemma print_members_length m rest : Forall (λ kv, long_enough kv.2) m →
  (need_members m + 2 * String.length rest ≤ 2 * String.length (print_members m rest))%nat.
Proof.
  induction m as [|[k v] [|kv m] IH]; intros Hm; [cbn; lia| |].
  - apply Forall_cons in Hm as [Hv _]. cbn [need_members print_members].
    specialize (Hv (String (chr 125) rest)). cbn [String.length snd] in Hv.
    pose proof (print_str_length k (String (chr 58) (print_value v (String (chr 125) rest)))) as Hs.
    cbn [String.length] in Hs. lia.
  - apply Forall_cons in Hm as [Hv Hm]. rewrite print_members_cons. specialize (IH Hm).
    set (t := print_members (kv :: m) rest) in *.
    specialize (Hv (String (chr 44) t)). cbn [String.length snd] in Hv.
    pose proof (print_str_length k (String (chr 58) (print_value v (String (chr 44) t)))) as Hs.
    cbn [String.length] in Hs. change (need_members ((k, v) :: kv :: m)) with
      (S (need v + need_members (kv :: m))). lia.
Qed.

Lemma print_value_length v : wf_json v → long_enough v.
Proof.
  induction v as [|b|l|s|l IH|m IH] using json_nested_ind; intros Hwf rest.
  - simpl. lia.
  - destruct b; simpl; lia.
  - cbn [print_value need]. rewrite str_app_length. destruct l; [done|]. cbn [String.length]. lia.
  - cbn [print_value need]. pose proof (print_str_length s rest). lia.
  - rewrite need_arr, print_value_arr. cbn [String.length]. apply wf_json_arr in Hwf.
    pose proof (print_elems_length l rest (Forall_mp _ _ _ IH Hwf)). lia.
  - rewrite need_obj, print_value_obj. cbn [String.length]. apply wf_json_obj in Hwf as [_ Hwf].
    pose proof (print_members_length m rest (Forall_mp _ _ _ IH Hwf)). lia.
Qed.

Lemma json_roundtrip v : wf_json v → json_parse (json_marshal v) = Some v.
Proof.
  intros Hwf. unfold json_parse, json_marshal.
  pose proof (print_value_length v Hwf "") as Hlen. cbn [String.length] in Hlen.
  rewrite (parse_print v Hwf _ ""); [done| |done]. unfold fuel. lia.
Qed.

(** Printing in front of a text. *)
Definition prints_front (v : json) : Prop := ∀ a b, print_value v (a +:+ b) = print_value v a +:+ b.

Lemma escape_app s a b : escape s (a +:+ b) = escape s a +:+ b.
Proof.
  induction s as [|c s IH]; [done|]. cbn [escape]. rewrite IH. unfold escape_char.
  by repeat match goal with |- context [if ?x then _ else _] => destruct x end.
Qed.

Lemma print_str_app s a b : print_str s (a +:+ b) = print_str s a +:+ b.
Proof. unfold print_str. change (String quote (a +:+ b)) with (String quote a +:+ b). by rewrite escape_app. Qed.

Lemma print_elems_app l a b : Forall prints_front l → print_elems l (a +:+ b) = print_elems l a +:+ b.
Proof.
  induction l as [|v [|v' l] IH]; intros Hl; [done|..]; apply Forall_cons in Hl as [Hv Hl].
  - cbn [print_elems]. change (String (chr 93) (a +:+ b)) with (String (chr 93) a +:+ b). apply Hv.
  - rewrite !print_elems_cons, IH by done.
    change (String (chr 44) (?x +:+ b)) with (String (chr 44) x +:+ b). apply Hv.
Qed.

Lemma print_members_app m a b : Forall (λ kv, prints_front kv.2) m →
  print_members m (a +:+ b) = print_members m a +:+ b.
Proof.
  induction m as [|[k v] [|kv m] IH]; intros Hm; [done|..]; apply Forall_cons in Hm as [Hv Hm]; simpl in Hv.
  - cbn [print_members]. change (String (chr 125) (a +:+ b)) with (String (chr 125) a +:+ b). rewrite Hv.
    change (String (chr 58) (?x +:+ b)) with (String (chr 58) x +:+ b). apply print_str_app.
  - rewrite !print_members_cons, IH by done.
    change (String (chr 44) (?x +:+ b)) with (String (chr 44) x +:+ b). rewrite Hv.
    change (String (chr 58) (?x +:+ b)) with (String (chr 58) x +:+ b). apply print_str_app.
Qed.

Lemma print_value_app v : prints_front v.
Proof.
  induction v as [|b0|l|s|l IH|m IH] using json_nested_ind; intros a b.
  - done.
  - by destruct b0.
  - cbn [print_value]. by rewrite str_app_assoc.
  - apply print_str_app.
  - rewrite !print_value_arr, print_elems_app by done. done.
  - rewrite !print_value_obj, print_members_app by done. done.
Qed.

Lemma print_value_marshal v rest : print_value v rest = json_marshal v +:+ rest.
Proof. apply (print_value_app v "" rest). Qed.

(** ** What the parser produces is well formed *)

(** Digits end where the text has none. *)
Definition no_digit (t : string) : Prop := take_digits t = ("", t).

Lemma take_digits_again s d r t : take_digits s = (d, r) → no_digit t → take_digits (d +:+ t) = (d, t).
Proof.
  revert d r. induction s as [|c s IH]; intros d r; simpl; [by intros [= <- <-]|].
  destruct (is_digit c) eqn:Ec; [|by intros [= <- <-]].
  destruct (take_digits s) as [d' r'] eqn:E. intros [= <- <-] Ht. simpl.
  by rewrite Ec, (IH d' r').
Qed.

Lemma num_int_again s i r t : num_int s = Some (i, r) → no_digit t → num_int (i +:+ t) = Some (i, t).
Proof.
  destruct s as [|c s]; [done|]. cbn [num_int]. destruct (_ =? _)%nat eqn:E0.
  { intros [= <- <-] _. simpl. by rewrite E0. }
  destruct (is_digit c) eqn:Ec; [|done]. intros [= E] Ht. simpl in E. rewrite Ec in E.
  destruct (take_digits s) as [d' r'] eqn:E'. injection E as <- <-.
  simpl. rewrite E0, Ec, (take_digits_again _ _ _ _ E' Ht). done.
Qed.

Lemma num_frac_again s f r t : num_frac s = Some (f, r) → no_digit t → head_is 46 t = false →
  num_frac (f +:+ t) = Some (f, t) ∧ no_digit (f +:+ t).
Proof.
  unfold num_frac. destruct (head_is 46 s) eqn:Es.
  - destruct (take_digits (tail s)) as [d r'] eqn:Ed. destruct (String.eqb d "") eqn:E0; [done|].
    intros [= <- <-] Ht _. simpl. rewrite (take_digits_again _ _ _ _ Ed Ht), E0. done.
  - intros [= <- <-] Ht Hh. simpl. rewrite Hh. done.
Qed.

Lemma num_exp_digits c sgn d : ((nat_of_ascii c =? 101)%nat || (nat_of_ascii c =? 69)%nat) = true →
  take_digits d = (d, "") → d ≠ "" →
  sgn = "" ∨ (∃ x, sgn = String x "" ∧ ((nat_of_ascii x =? 43)%nat || (nat_of_ascii x =? 45)%nat)) →
  num_exp (String c (sgn +:+ d)) = Some (String c (sgn +:+ d), "").
Proof.
  intros Hc Hd Hne [->|(x & -> & Hx)]; cbn [num_exp String.append]; rewrite Hc.
  - destruct d as [|y d]; [done|]. cbv beta iota.
    destruct ((nat_of_ascii y =? 43)%nat || (nat_of_ascii y =? 45)%nat) eqn:Hy; [|by rewrite Hd].
    exfalso. simpl in Hd. destruct (is_digit y) eqn:Ey; [|done]. unfold is_digit in Ey.
    apply orb_true_iff in Hy as [Hy%Nat.eqb_eq|Hy%Nat.eqb_eq]; by rewrite Hy in Ey.
  - apply Is_true_true in Hx. cbv beta iota. rewrite Hx, Hd. by destruct d.
Qed.

Lemma num_exp_again s e r : num_exp s = Some (e, r) →
  num_exp e = Some (e, "") ∧ no_digit e ∧ head_is 46 e = false.
Proof.
  destruct s as [|c s]; [by intros [= <- <-]|]. cbn [num_exp].
  destruct (_ || _) eqn:Ec; [|by intros [= <- <-]].
  destruct (match s with "" => _ | String _ _ => _ end) as [sgn s2] eqn:Esgn.
  destruct (take_digits s2) as [d r'] eqn:Ed. destruct (String.eqb d "") eqn:E0; [done|].
  intros [= <- <-]. assert (Hnd : is_digit c = false ∧ (nat_of_ascii c =? 46)%nat = false).
  { apply orb_true_iff in Ec as [Ec%Nat.eqb_eq|Ec%Nat.eqb_eq]; unfold is_digit; by rewrite Ec. }
  destruct Hnd as [Hnd H46]. split_and!; [|unfold no_digit; simpl; by rewrite Hnd|by simpl].
  pose proof (take_digits_again _ _ _ "" Ed eq_refl) as Hd. rewrite str_app_nil in Hd.
  apply num_exp_digits; [done..|by apply String.eqb_neq|].
  destruct s as [|x s]; [injection Esgn as <- <-; by left|].
  destruct (_ || _) eqn:Ex in Esgn; injection Esgn as <- <-; [right|by left].
  exists x. by rewrite Ex.
Qed.

Lemma parse_num_again s l r : parse_num s = Some (l, r) → parse_num l = Some (l, "").
Proof.
  unfold parse_num. destruct (if head_is 45 s then _ else _) as [sgn s0] eqn:Esgn. simpl.
  destruct (num_int s0) as [[i s1]|] eqn:Ei; [|done]. simpl.
  destruct (num_frac s1) as [[f s2]|] eqn:Ef; [|done]. simpl.
  destruct (num_exp s2) as [[e s3]|] eqn:Ee; [|done]. simpl. intros [= <- <-].
  apply num_exp_again in Ee as (Ee & He & He'). destruct (num_frac_again _ _ _ e Ef He He') as [Ef' Hf].
  pose proof (num_int_again _ _ _ _ Ei Hf) as Ei'. clear Ei Ef.
  assert (Hh : head_is 45 (i +:+ f +:+ e) = false).
  { revert Ei'. clear. destruct (i +:+ f +:+ e) as [|c t]; [done|]. simpl.
    destruct (nat_of_ascii c =? 45)%nat eqn:E; [|done]. apply Nat.eqb_eq in E.
    unfold is_digit. by rewrite E. }
  assert (Hgo : ('(i', t1) ← num_int (i +:+ f +:+ e); '(f', t2) ← num_frac t1; '(e', t3) ← num_exp t2;
    Some (sgn +:+ i' +:+ f' +:+ e', t3)) = Some (sgn +:+ i +:+ f +:+ e, "")).
  { rewrite Ei'. simpl. rewrite Ef'. simpl. by rewrite Ee. }
  destruct (head_is 45 s); injection Esgn as <- <-; simpl; [exact Hgo|]. by rewrite Hh.
Qed.

Lemma string_compare_trans a b c :
  String.compare a b = Lt → String.compare b c = Lt → String.compare a c = Lt.
Proof.
  revert b c. induction a as [|x a IH]; intros [|y b] [|z c]; simpl; try done.
  unfold Ascii.compare. intros Hab Hbc.
  destruct (N.compare_spec (N_of_ascii x) (N_of_ascii y)) as [E1|E1|E1] in Hab; [..|done];
  destruct (N.compare_spec (N_of_ascii y) (N_of_ascii z)) as [E2|E2|E2] in Hbc; try done.
  - rewrite E1, E2, N.compare_refl. by eapply IH.
  - by rewrite E1, (proj2 (N.compare_lt_iff _ _) E2).
  - by rewrite <-E2, (proj2 (N.compare_lt_iff _ _) E1).
  - by rewrite (proj2 (N.compare_lt_iff (N_of_ascii x) (N_of_ascii z))) by lia.
Qed.

Lemma string_compare_gt a b : String.compare a b = Gt → String.compare b a = Lt.
Proof. intros H. by rewrite String.compare_antisym, H. Qed.

Lemma obj_set_keys m k v : ∀ k', k' ∈ (obj_set m k v).*1 → k' = k ∨ k' ∈ m.*1.
Proof.
  induction m as [|[k1 v1] m IH]; intros k'; csimpl.
  - set_solver.
  - destruct (String.compare k k1) eqn:E; csimpl; set_solver.
Qed.

Lemma obj_set_sorted m k v : keys_sorted m → keys_sorted (obj_set m k v).
Proof.
  unfold keys_sorted. induction m as [|[k1 v1] m IH]; csimpl; intros Hs.
  { repeat constructor. }
  apply StronglySorted_inv in Hs as [Hs Hall].
  destruct (String.compare k k1) eqn:E; csimpl.
  - apply String.compare_eq_iff in E as ->. by constructor.
  - constructor; [by constructor|]. constructor; [done|].
    eapply Forall_impl; [exact Hall|]. intros k' Hk'. by eapply string_compare_trans.
  - constructor; [by apply IH|]. apply Forall_forall. intros k' [->|Hk']%obj_set_keys.
    + by apply string_compare_gt.
    + rewrite Forall_forall in Hall. by apply Hall.
Qed.

Lemma obj_set_forall (P : json → Prop) m k v :
  P v → Forall (λ kv, P kv.2) m → Forall (λ kv, P kv.2) (obj_set m k v).
Proof.
  intros Hv. induction m as [|[k1 v1] m IH]; simpl; intros Hm; [by repeat constructor|].
  apply Forall_cons in Hm as [H1 Hm]. destruct (String.compare k k1); repeat constructor; auto.
Qed.

Lemma obj_of_wf kvs : Forall (λ kv, wf_json kv.2) kvs → wf_json (JObj (obj_of kvs)).
Proof.
  intros Hk. apply wf_json_obj. unfold obj_of.
  assert (H0 : keys_sorted [] ∧ Forall (λ kv : string * json, wf_json kv.2) [])
    by (split; [apply SSorted_nil|by apply Forall_nil]).
  revert H0. generalize (@nil (string * json)). induction Hk as [|kv kvs Hkv _ IH]; intros m [Hs Hf]; [done|].
  simpl. apply IH. split; [by apply obj_set_sorted|by apply (obj_set_forall wf_json)].
Qed.

Lemma expect_inv lit v s v' r : expect lit v s = Some (v', r) → v' = v.
Proof. unfold expect. destruct (strip lit s); [|done]. by intros [= <- <-]. Qed.

(** Splits a successful option computation into its steps. *)
Ltac inv_opt := repeat match goal with
  | H : (_ <$> ?o) = Some _ |- _ => destruct o as [[]|] eqn:?; [simpl in H; simplify_eq|discriminate H]
  | H : (_ ← ?o; _) = Some _ |- _ => destruct o as [[]|] eqn:?; [simpl in H|discriminate H]
  | H : (if ?b then _ else _) = Some _ |- _ => destruct b eqn:?; simplify_eq
  end.

Lemma parse_value_wf n :
  (∀ s v r, parse_value n s = Some (v, r) → wf_json v) ∧
  (∀ s l r, parse_elems n s = Some (l, r) → Forall wf_json l) ∧
  (∀ s m r, parse_members n s = Some (m, r) → Forall (λ kv, wf_json kv.2) m).
Proof.
  induction n as [|n (IHv & IHe & IHm)]; [done|]. split_and!.
  - intros s v r. cbn [parse_value]. destruct (skip_ws s) as [|c t]; [done|].
    assert (Hnum : (λ '(l, r), (JNum l, r)) <$> parse_num (String c t) = Some (v, r) → wf_json v).
    { intros H. inv_opt. by eapply parse_num_again. }
    repeat match goal with |- (match ?x with O => _ | S _ => _ end) = _ → _ =>
      destruct x; try exact Hnum end; intros H;
      try (apply expect_inv in H as ->; exact I); inv_opt; try exact I.
    + apply wf_json_arr. eauto.
    + apply wf_json_obj. split; [apply SSorted_nil|by apply Forall_nil].
    + apply obj_of_wf. eauto.
  - intros s l r H. cbn [parse_elems] in H. inv_opt; repeat constructor; eauto.
  - intros s m r H. cbn [parse_members] in H. cbv zeta in H. inv_opt; repeat constructor; simpl; eauto.
Qed.

Lemma json_parse_wf s v : json_parse s = Some v → wf_json v.
Proof. unfold json_parse. intros H. inv_opt. by eapply parse_value_wf. Qed.
