(* ===== verification/Geth.v ===== *)
(** What the sources use of go-ethereum, as an interface: quantities
    (common/hexutil) and block numbers or hashes (rpc), with the behaviour
    those packages document as laws, and an instance. *)
From stdpp Require Import base numbers list strings sets.
From S2P Require Import Prelude Json.
From Stdlib Require Import Ascii.

Local Open Scope string_scope.
Local Open Scope Z_scope.
#[local] Arguments String.append : simpl nomatch.

(** [rpc.BlockNumberOrHash]; a block number is an int64, some of them tags, a
    hash is what its Hex method prints. *)
Record BlockNumberOrHash := mk_bnh {
  bnh_BlockNumber : option Z; bnh_BlockHash : option string; bnh_RequireCanonical : bool
}.

Definition BlockNumberOrHashWithNumber (n : Z) : BlockNumberOrHash := mk_bnh (Some n) None false.

Class Geth := {
  EncodeUint64 : Z → string;
  (** [None] is an error. *)
  DecodeUint64 : string → option Z;
  (** [hexutil.Uint64.UnmarshalJSON] on the text of a value. *)
  Uint64_UnmarshalJSON : string → option Z;
  PendingBlockNumber : Z;
  EarliestBlockNumber : Z;
  LatestBlockNumber : Z;
  SafeBlockNumber : Z;
  FinalizedBlockNumber : Z;
  (** [BlockNumber.String]. *)
  bn_String : Z → string;
  (** [BlockNumberOrHash.UnmarshalJSON] on a text; [None] is an error. *)
  bnh_UnmarshalJSON : string → option BlockNumberOrHash;
  (** The value json.Marshal prints for a [BlockNumberOrHash]. *)
  bnh_json : BlockNumberOrHash → json;
}.

Class GethSpec `{Geth} := {
  Decode_Encode n : is_u64 n → DecodeUint64 (EncodeUint64 n) = Some n;
  Decode_empty : DecodeUint64 "" = None;
  Decode_range s n : DecodeUint64 s = Some n → is_u64 n;
  Uint64_roundtrip n : is_u64 n → Uint64_UnmarshalJSON (json_marshal (JStr (EncodeUint64 n))) = Some n;
  (** Tags are no quantities. *)
  tags_distinct : NoDup [PendingBlockNumber; EarliestBlockNumber; LatestBlockNumber; SafeBlockNumber; FinalizedBlockNumber];
  tags_nonpos : PendingBlockNumber ≤ 0 ∧ EarliestBlockNumber ≤ 0 ∧ LatestBlockNumber < 0 ∧
    SafeBlockNumber < 0 ∧ FinalizedBlockNumber < 0;
  Unmarshal_latest : bnh_UnmarshalJSON (json_marshal (JStr "latest")) =
    Some (BlockNumberOrHashWithNumber LatestBlockNumber);
  Unmarshal_earliest : bnh_UnmarshalJSON (json_marshal (JStr "earliest")) =
    Some (BlockNumberOrHashWithNumber EarliestBlockNumber);
  Unmarshal_pending : bnh_UnmarshalJSON (json_marshal (JStr "pending")) =
    Some (BlockNumberOrHashWithNumber PendingBlockNumber);
  (** A quoted quantity that fits an int64 is that block number. *)
  Unmarshal_quantity n : 0 ≤ n < two63 →
    bnh_UnmarshalJSON (json_marshal (JStr (EncodeUint64 n))) = Some (BlockNumberOrHashWithNumber n);
  (** A quoted text that decodes as a quantity and as a block number is the same number. *)
  Unmarshal_number s n m : DecodeUint64 s = Some n →
    bnh_UnmarshalJSON (json_marshal (JStr s)) = Some m → bnh_BlockNumber m = Some n ∧ n < two63;
  (** A block number that is no tag marshals to a value that reads back. *)
  Unmarshal_Marshal n : 0 ≤ n < two63 →
    bnh_UnmarshalJSON (json_marshal (bnh_json (BlockNumberOrHashWithNumber n))) =
      Some (BlockNumberOrHashWithNumber n);
  bnh_json_wf n : 0 ≤ n < two63 → wf_json (bnh_json (BlockNumberOrHashWithNumber n));
}.

(** ** An instance *)

Fixpoint hex_go (n : nat) (z : Z) (acc : string) : string :=
  match n with
  | O => acc
  | S n =>
      let acc := String (hex_digit (Z.to_nat (z `mod` 16))) acc in
      if z <? 16 then acc else hex_go n (z `div` 16) acc
  end.
Definition hex_encode (z : Z) : string := "0x" +:+ hex_go 16 z "".

Fixpoint hex_val (s : string) (acc : Z) : option Z :=
  match s with
  | "" => Some acc
  | String c s => match unhex c with Some d => hex_val s (16 * acc + Z.of_nat d) | None => None end
  end.
Definition hex_decode (s : string) : option Z :=
  match s with
  | String z (String x (String c t as ds)) =>
      if (nat_of_ascii z =? 48)%nat && ((nat_of_ascii x =? 120)%nat || (nat_of_ascii x =? 88)%nat) then
        if (nat_of_ascii c =? 48)%nat && negb (String.eqb t "") then None
        else
          v ← hex_val ds 0; if v <? two64 then Some v else None
      else None
  | _ => None
  end.

Definition tag_name (z : Z) : option string :=
  if z =? -1 then Some "pending" else if z =? 0 then Some "earliest"
  else if z =? -2 then Some "latest" else if z =? -3 then Some "finalized"
  else if z =? -4 then Some "safe" else None.

Definition bn_text (z : Z) : string := default (hex_encode z) (tag_name z).

Definition bn_of_text (s : string) : option Z :=
  if String.eqb s "earliest" then Some 0
  else if String.eqb s "latest" then Some (-2)
  else if String.eqb s "pending" then Some (-1)
  else if String.eqb s "finalized" then Some (-3)
  else if String.eqb s "safe" then Some (-4)
  else v ← hex_decode s; if v <? two63 then Some v else None.

(** A hash, in the form Hex prints it. *)
Fixpoint hex_lower (s : string) : string :=
  match s with "" => "" | String c s => String (lower c) (hex_lower s) end.

Definition bnh_of_json (v : json) : option BlockNumberOrHash :=
  match v with
  | JNull => Some (mk_bnh None None false)
  | JStr s =>
      if (String.length s =? 66)%nat then Some (mk_bnh None (Some (hex_lower s)) false)
      else BlockNumberOrHashWithNumber <$> bn_of_text s
  | JObj m =>
      n ← match obj_get m "blockNumber" with
          | Some (JStr s) => Some <$> bn_of_text s
          | Some JNull | None => Some None
          | _ => None
          end;
      h ← match obj_get m "blockHash" with
          | Some (JStr s) => if (String.length s =? 66)%nat then Some (Some (hex_lower s)) else None
          | Some JNull | None => Some None
          | _ => None
          end;
      c ← match obj_get m "requireCanonical" with
          | Some (JBool b) => Some b
          | Some JNull | None => Some false
          | _ => None
          end;
      match n, h with Some _, Some _ => None | _, _ => Some (mk_bnh n h c) end
  | _ => None
  end.

Definition bnh_to_json (b : BlockNumberOrHash) : json :=
  JObj ((match bnh_BlockHash b with Some h => [("blockHash", JStr h)] | None => [] end) ++
    (match bnh_BlockNumber b with Some n => [("blockNumber", JStr (bn_text n))] | None => [] end) ++
    (if bnh_RequireCanonical b then [("requireCanonical", JBool true)] else []))%list.

#[export] Instance geth : Geth := {|
  EncodeUint64 := hex_encode;
  DecodeUint64 := hex_decode;
  Uint64_UnmarshalJSON s :=
    match json_parse s with
    | Some (JStr t) => if String.eqb t "" then Some 0 else hex_decode t
    | _ => None
    end;
  PendingBlockNumber := -1;
  EarliestBlockNumber := 0;
  LatestBlockNumber := -2;
  SafeBlockNumber := -4;
  FinalizedBlockNumber := -3;
  bn_String := bn_text;
  bnh_UnmarshalJSON s := v ← json_parse s; bnh_of_json v;
  bnh_json := bnh_to_json;
|}.

Lemma unhex_hex_digit d : (d < 16)%nat → unhex (hex_digit d) = Some d.
Proof. intros Hd. do 16 (destruct d as [|d]; [done|]). lia. Qed.

Lemma hex_val_app a b x : hex_val (a +:+ b) x = y ← hex_val a x; hex_val b y.
Proof. revert x. induction a as [|c a IH]; intros x; [done|]. cbn. destruct (unhex c); [apply IH|done]. Qed.

Lemma hex_go_spec n z acc : 0 ≤ z < 16 ^ Z.of_nat (S n) →
  ∃ c t, hex_go (S n) z acc = String c (t +:+ acc) ∧ hex_val (String c t) 0 = Some z ∧
    (nat_of_ascii c = 48%nat → t = "") ∧ (String.length t ≤ n)%nat.
Proof.
  revert z acc. induction n as [|n IH]; intros z acc Hz.
  - assert (z < 16) by (change (16 ^ Z.of_nat 1) with 16 in Hz; lia).
    assert (Hm : z `mod` 16 = z) by (apply Z.mod_small; lia).
    exists (hex_digit (Z.to_nat z)), "". cbn [hex_go]. rewrite Hm.
    destruct (Z.ltb_spec z 16); [|lia]. split_and!; [done| |done|simpl; lia].
    cbn [hex_val]. rewrite unhex_hex_digit by lia. f_equal. lia.
  - assert (Hd : (Z.to_nat (z `mod` 16) < 16)%nat) by (pose proof (Z.mod_pos_bound z 16); lia).
    assert (Hmod : Z.of_nat (Z.to_nat (z `mod` 16)) = z `mod` 16) by (pose proof (Z.mod_pos_bound z 16); lia).
    change (hex_go (S (S n)) z acc) with
      (let acc := String (hex_digit (Z.to_nat (z `mod` 16))) acc in
       if z <? 16 then acc else hex_go (S n) (z `div` 16) acc). cbv zeta.
    destruct (Z.ltb_spec z 16) as [Hlt|Hge].
    + exists (hex_digit (Z.to_nat (z `mod` 16))), "". split_and!; [done| |done|simpl; lia].
      cbn [hex_val]. rewrite unhex_hex_digit by done. rewrite Hmod, Z.mod_small by lia. f_equal; lia.
    + destruct (IH (z `div` 16) (String (hex_digit (Z.to_nat (z `mod` 16))) acc)) as (c & t & E & Hv & H0 & Hlen).
      { split; [apply Z.div_pos; lia|]. apply Z.div_lt_upper_bound; [lia|].
        replace (16 * 16 ^ Z.of_nat (S n)) with (16 ^ Z.of_nat (S (S n))); [lia|].
        rewrite (Nat2Z.inj_succ (S n)), Z.pow_succ_r by lia. done. }
      exists c, (t +:+ String (hex_digit (Z.to_nat (z `mod` 16))) ""). split_and!.
      * rewrite E, str_app_assoc. done.
      * change (String c (t +:+ ?x)) with (String c t +:+ x). rewrite hex_val_app, Hv.
        cbn [mbind option_bind hex_val]. rewrite unhex_hex_digit by done. rewrite Hmod.
        f_equal. pose proof (Z.div_mod z 16). lia.
      * intros Hc. exfalso. specialize (H0 Hc). subst t. cbn [hex_val] in Hv. unfold unhex in Hv.
        rewrite Hc in Hv. simpl in Hv. injection Hv as Hv. pose proof (Z.div_le_lower_bound z 16 1). lia.
      * rewrite str_app_length. simpl. lia.
Qed.

Lemma hex_encode_spec n : is_u64 n →
  ∃ c t, hex_encode n = String (chr 48) (String (chr 120) (String c t)) ∧
    hex_val (String c t) 0 = Some n ∧ (nat_of_ascii c = 48%nat → t = "") ∧ (String.length t ≤ 15)%nat.
Proof.
  intros Hn. destruct (hex_go_spec 15 n "") as (c & t & E & H); [exact Hn|].
  exists c, t. unfold hex_encode. rewrite E, str_app_nil. done.
Qed.

Lemma hex_decode_encode n : is_u64 n → hex_decode (hex_encode n) = Some n.
Proof.
  intros Hn. destruct (hex_encode_spec n Hn) as (c & t & -> & Hv & H0 & _). cbn [hex_decode].
  assert (Hc : (nat_of_ascii c =? 48)%nat && negb (String.eqb t "") = false).
  { destruct (Nat.eqb_spec (nat_of_ascii c) 48) as [Hc|]; [|done]. by rewrite H0. }
  rewrite Hc, Hv. simpl. unfold is_u64 in Hn. by destruct (Z.ltb_spec n two64); [|lia].
Qed.

Lemma hex_val_nonneg s acc n : 0 ≤ acc → hex_val s acc = Some n → 0 ≤ n.
Proof.
  revert acc. induction s as [|c s IH]; intros acc Ha; cbn; [by intros [= <-]|].
  destruct (unhex c) as [d|]; [|done]. apply IH. lia.
Qed.

Lemma hex_decode_range s n : hex_decode s = Some n → is_u64 n.
Proof.
  destruct s as [|z [|x [|c t]]]; try done. cbn [hex_decode].
  destruct (_ && _); [|done]. destruct (_ && _); [done|].
  destruct (hex_val (String c t) 0) as [v|] eqn:Hv; [|done]. simpl.
  destruct (Z.ltb_spec v two64); [|done]. intros [= <-]. apply hex_val_nonneg in Hv; [|lia]. by split.
Qed.

Lemma bn_of_hex n : 0 ≤ n < two63 → bn_of_text (hex_encode n) = Some n.
Proof.
  intros Hn. assert (Hu : is_u64 n) by (unfold is_u64, two64, two63 in *; lia).
  unfold bn_of_text. rewrite hex_decode_encode by done.
  destruct (hex_encode_spec n Hu) as (c & t & -> & _). cbn [mbind option_bind].
  simpl. by destruct (Z.ltb_spec n two63); [|lia].
Qed.

Lemma bn_of_bn_text n : 0 ≤ n < two63 → bn_of_text (bn_text n) = Some n.
Proof.
  intros Hn. unfold bn_text, tag_name. destruct (Z.eqb_spec n (-1)); [lia|].
  destruct (Z.eqb_spec n 0) as [->|]; [reflexivity|]. destruct (Z.eqb_spec n (-2)); [lia|].
  destruct (Z.eqb_spec n (-3)); [lia|]. destruct (Z.eqb_spec n (-4)); [lia|]. by apply bn_of_hex.
Qed.

Lemma bn_of_text_decode s n z : hex_decode s = Some n → bn_of_text s = Some z → z = n ∧ n < two63.
Proof.
  intros Hs. unfold bn_of_text.
  repeat match goal with |- context [String.eqb s ?t] =>
    destruct (String.eqb_spec s t); [subst; vm_compute in Hs; discriminate Hs|] end.
  rewrite Hs. simpl. destruct (Z.ltb_spec n two63); [|done]. by intros [= <-].
Qed.

Lemma hex_val_ge s acc v : 0 ≤ acc → hex_val s acc = Some v → acc * 16 ^ Z.of_nat (String.length s) ≤ v.
Proof.
  revert acc. induction s as [|c s IH]; intros acc Ha.
  - intros [= <-]. simpl. lia.
  - cbn [hex_val String.length]. destruct (unhex c) as [d|]; [|done]. intros Hv.
    apply IH in Hv; [|lia]. rewrite Nat2Z.inj_succ, Z.pow_succ_r by lia.
    pose proof (Z.pow_nonneg 16 (Z.of_nat (String.length s))). nia.
Qed.

(** A quantity is too short to be a hash. *)
Lemma hex_decode_short s n : hex_decode s = Some n → String.length s ≠ 66%nat.
Proof.
  destruct s as [|z [|x [|c t]]]; try done. cbn [hex_decode]. intros Hs Hlen. cbn [String.length] in Hlen.
  assert (Ht : String.length t = 63%nat) by lia. destruct (_ && _); [|done].
  destruct (_ && _) eqn:E0; [done|]. destruct (hex_val (String c t) 0) as [v|] eqn:Hv; [|done].
  simpl in Hs. destruct (Z.ltb_spec v two64); [|done]. cbn [hex_val] in Hv.
  destruct (unhex c) as [d|] eqn:Hd; [|done]. apply hex_val_ge in Hv; [|lia]. rewrite Ht in Hv.
  destruct d as [|d]; [|unfold two64 in *; lia]. destruct t; [done|]. rewrite andb_true_r in E0.
  unfold unhex in Hd. repeat case_match; simplify_eq; apply Nat.eqb_neq in E0; 
    repeat match goal with H : (_ && _) = true |- _ => apply andb_true_iff in H as [?%Nat.leb_le ?%Nat.leb_le] end; lia.
Qed.

Lemma with_number_wf n : wf_json (bnh_to_json (BlockNumberOrHashWithNumber n)).
Proof. cbn. split; [|done]. repeat constructor. Qed.

#[export] Instance geth_spec : GethSpec.
Proof.
  split; try done.
  - apply hex_decode_encode.
  - apply hex_decode_range.
  - intros n Hn. cbn [Uint64_UnmarshalJSON geth EncodeUint64]. rewrite json_roundtrip by done.
    rewrite hex_decode_encode by done. by destruct (hex_encode_spec n Hn) as (c & t & -> & _).
  - by apply (bool_decide_unpack _).
  - intros n Hn. cbn [bnh_UnmarshalJSON geth EncodeUint64]. rewrite json_roundtrip by done.
    cbn [mbind option_bind bnh_of_json].
    destruct (hex_encode_spec n) as (c & t & E & _ & _ & Hlen); [unfold is_u64, two64, two63 in *; lia|].
    rewrite bn_of_hex by done. rewrite E. cbn [String.length].
    destruct (Nat.eqb_spec (S (S (S (String.length t)))) 66); [lia|done].
  - intros s n m Hs. cbn [bnh_UnmarshalJSON geth]. rewrite json_roundtrip by done. cbn [mbind option_bind bnh_of_json].
    destruct (Nat.eqb_spec (String.length s) 66); [by destruct (hex_decode_short s n)|].
    destruct (bn_of_text s) as [z|] eqn:E; [|done]. intros [= <-]. simpl.
    by destruct (bn_of_text_decode s n z) as [-> ?].
  - intros n Hn. cbn [bnh_UnmarshalJSON geth bnh_json].
    rewrite json_roundtrip by apply with_number_wf. cbn -[bn_of_text bn_text].
    by rewrite bn_of_bn_text by done.
  - intros n _. apply with_number_wf.
Qed.
