(* ===== verification/Rpc.v ===== *)
(** JSON-RPC messages and errors of proxyd: rpc.go, errors.go, the error
    variables and JSON helpers of backend.go.  encoding/json's rules for
    structs (field matching, raw messages, nulls) are modelled here on top of
    the generic values of Json. *)
From stdpp Require Import base numbers list gmap strings pretty.
From S2P Require Import Prelude Json Geth.
From Stdlib Require Import Ascii.

Local Open Scope string_scope.
Local Open Scope Z_scope.
#[local] Arguments String.append : simpl nomatch.

(** ** Errors *)

Record RPCErr := mk_RPCErr { Code : Z; Message : string; Data : string; HTTPErrorCode : Z }.

Definition JSONRPCVersion : string := "2.0".
Definition JSONRPCErrorInternal : Z := -32000.
Definition notFoundRpcError : Z := -32601.

(** The package variables that hold an [*RPCErr]; they are told apart by
    address, not by contents. *)
Inductive rpc_var :=
| ErrParseErr | ErrInternal | ErrMethodNotWhitelisted | ErrBackendOffline | ErrNoBackends
| ErrBackendOverCapacity | ErrBackendBadResponse | ErrTooManyBatchRequests | ErrGatewayTimeout
| ErrOverRateLimit | ErrOverSenderRateLimit | ErrNotHealthy | ErrBlockOutOfRange
| ErrRequestBodyTooLarge | ErrBackendResponseTooLarge.
#[export] Instance rpc_var_eq_dec : EqDecision rpc_var.
Proof. solve_decision. Defined.

Definition rpc_var_value (v : rpc_var) : RPCErr :=
  match v with
  | ErrParseErr => mk_RPCErr (-32700) "parse error" "" 400
  | ErrInternal => mk_RPCErr JSONRPCErrorInternal "internal error" "" 500
  | ErrMethodNotWhitelisted => mk_RPCErr notFoundRpcError "rpc method is not whitelisted" "" 403
  | ErrBackendOffline => mk_RPCErr (JSONRPCErrorInternal - 10) "backend offline" "" 503
  | ErrNoBackends =>
      mk_RPCErr (JSONRPCErrorInternal - 11) "no backend is currently healthy to serve traffic" "" 503
  | ErrBackendOverCapacity => mk_RPCErr (JSONRPCErrorInternal - 12) "backend is over capacity" "" 429
  | ErrBackendBadResponse =>
      mk_RPCErr (JSONRPCErrorInternal - 13) "backend returned an invalid response" "" 500
  | ErrTooManyBatchRequests =>
      mk_RPCErr (JSONRPCErrorInternal - 14) "too many RPC calls in batch request" "" 0
  | ErrGatewayTimeout => mk_RPCErr (JSONRPCErrorInternal - 15) "gateway timeout" "" 504
  | ErrOverRateLimit => mk_RPCErr (JSONRPCErrorInternal - 16) "over rate limit" "" 429
  | ErrOverSenderRateLimit =>
      mk_RPCErr (JSONRPCErrorInternal - 17) "sender is over rate limit" "" 429
  | ErrNotHealthy =>
      mk_RPCErr (JSONRPCErrorInternal - 18) "backend is currently not healthy to serve traffic" "" 503
  | ErrBlockOutOfRange => mk_RPCErr (JSONRPCErrorInternal - 19) "block is out of range" "" 400
  | ErrRequestBodyTooLarge => mk_RPCErr (JSONRPCErrorInternal - 21) "request body too large" "" 413
  | ErrBackendResponseTooLarge =>
      mk_RPCErr (JSONRPCErrorInternal - 20) "backend response too large" "" 500
  end.

(** The package variables made with errors.New. *)
Inductive plain_var :=
| ErrBackendUnexpectedJSONRPC | ErrConsensusGetReceiptsCantBeBatched
| ErrConsensusGetReceiptsInvalidTarget | ErrRewriteBlockOutOfRange | ErrRewriteRangeTooLarge
| ErrLimitReaderOverLimit | DeadlineExceeded.
#[export] Instance plain_var_eq_dec : EqDecision plain_var.
Proof. solve_decision. Defined.

Definition plain_var_text (v : plain_var) : string :=
  match v with
  | ErrBackendUnexpectedJSONRPC => "backend returned an unexpected JSON-RPC response"
  | ErrConsensusGetReceiptsCantBeBatched => "consensus_getReceipts cannot be batched"
  | ErrConsensusGetReceiptsInvalidTarget => "unsupported consensus_receipts_target"
  | ErrRewriteBlockOutOfRange => "block is out of range"
  | ErrRewriteRangeTooLarge => "block range is too large"
  | ErrLimitReaderOverLimit => "over read limit"
  | DeadlineExceeded => "context deadline exceeded"
  end.

(** A Go [error] value. *)
Inductive error :=
| EVar (v : rpc_var)
| EPlain (v : plain_var)
| ERPC (e : RPCErr)
| ENew (msg : string)
| EWrap (msg : string) (e : error).

(** The type assertion to a pointer to [RPCErr]. *)
Definition as_RPCErr (e : error) : option RPCErr :=
  match e with EVar v => Some (rpc_var_value v) | ERPC e => Some e | _ => None end.

Definition wrapErr (e : error) (msg : string) : error := EWrap msg e.

Fixpoint error_Error (e : error) : string :=
  match e with
  | EVar v => Message (rpc_var_value v)
  | EPlain v => plain_var_text v
  | ERPC e => Message e
  | ENew msg => msg
  | EWrap msg e => msg +:+ " " +:+ error_Error e
  end.

(** [errors.Is] with a package variable as target: along the wraps. *)
Fixpoint errors_Is (e : error) (v : rpc_var) : bool :=
  match e with EVar v' => bool_decide (v' = v) | EWrap _ e => errors_Is e v | _ => false end.
Fixpoint errors_Is_plain (e : error) (v : plain_var) : bool :=
  match e with EPlain v' => bool_decide (v' = v) | EWrap _ e => errors_Is_plain e v | _ => false end.

Definition ErrInvalidRequest (msg : string) : error := ERPC (mk_RPCErr (-32600) msg "" 400).
Definition ErrInvalidParams (msg : string) : RPCErr := mk_RPCErr (-32602) msg "" 400.

Definition RPCErr_Clone (r : RPCErr) : RPCErr := mk_RPCErr (Code r) (Message r) "" (HTTPErrorCode r).

(** ** Requests and responses *)

(** A [json.RawMessage] is its text, "" when nil. *)
Record RPCReq := mk_RPCReq {
  rq_JSONRPC : string; rq_Method : string; rq_Params : string; rq_ID : string
}.

(** What the sources put in the [interface{}] of a result. *)
Inductive any :=
| ANil
| AJson (v : json)
| AUint64 (n : Z)
| AReceipts (method : string) (result : any).

Record RPCRes := mk_RPCRes {
  rs_JSONRPC : string; rs_Result : any; rs_Error : option RPCErr; rs_ID : string
}.

Definition IsError (r : RPCRes) : bool := match rs_Error r with Some _ => true | None => false end.

(** [NewRPCErrorRes] keeps the address of an [*RPCErr]; nobody writes through
    it, so its contents are kept. *)
Definition NewRPCErrorRes (id : string) (err : error) : RPCRes :=
  let rpcErr := match as_RPCErr err with
    | Some rr => rr
    | None => mk_RPCErr JSONRPCErrorInternal (error_Error err) "" 0
    end in
  mk_RPCRes JSONRPCVersion ANil (Some rpcErr) id.

Definition NewRPCRes (id : string) (result : any) : RPCRes :=
  mk_RPCRes JSONRPCVersion result None id.

(** ** Raw texts of parsed values *)

Definition take_text (s r : string) : string := String.substring 0 (String.length s - String.length r) s.

(** A value, its text and the rest. *)
Definition raw_value (s : string) : option (string * json * string) :=
  let s := skip_ws s in
  '(v, r) ← parse_value (fuel s) s;
  Some (take_text s r, v, r).

Fixpoint raw_members (n : nat) (s : string) : option (list (string * (string * json)) * string) :=
  match n with
  | O => None
  | S n =>
      let s := skip_ws s in
      if negb (head_is 34 s) then None
      else
        '(k, r) ← parse_chars None (tail s);
        let r := skip_ws r in
        if negb (head_is 58 r) then None
        else
          '(raw, v, r) ← raw_value (tail r);
          let r := skip_ws r in
          if head_is 44 r then
            '(m, r) ← raw_members n (tail r); Some ((k, (raw, v)) :: m, r)
          else if head_is 125 r then Some ([(k, (raw, v))], tail r)
          else None
  end.

Fixpoint raw_elems (n : nat) (s : string) : option (list (string * json) * string) :=
  match n with
  | O => None
  | S n =>
      '(raw, v, r) ← raw_value s;
      let r := skip_ws r in
      if head_is 44 r then '(l, r) ← raw_elems n (tail r); Some ((raw, v) :: l, r)
      else if head_is 93 r then Some ([(raw, v)], tail r)
      else None
  end.

(** The shapes json.Unmarshal tells apart at the top of a text. *)
Inductive top :=
| TNull
| TObj (ms : list (string * (string * json)))
| TArr (es : list (string * json))
| TOther (v : json).

Definition at_end (r : string) : bool := String.eqb (skip_ws r) "".

Definition json_top (s : string) : option top :=
  let s := skip_ws s in
  if head_is 123 s then
    let t := skip_ws (tail s) in
    if head_is 125 t then (if at_end (tail t) then Some (TObj []) else None)
    else '(ms, r) ← raw_members (String.length s) (tail s); if at_end r then Some (TObj ms) else None
  else if head_is 91 s then
    let t := skip_ws (tail s) in
    if head_is 93 t then (if at_end (tail t) then Some (TArr []) else None)
    else '(es, r) ← raw_elems (String.length s) (tail s); if at_end r then Some (TArr es) else None
  else
    v ← json_parse s;
    match v with JNull => Some TNull | _ => Some (TOther v) end.

(** Field names match up to case folding; besides the ASCII letters only the
    long s and the Kelvin sign fold to a letter of a field name. *)
Fixpoint fold_name (s : string) : string :=
  match s with
  | "" => ""
  | String a s2 =>
      match s2 with
      | "" => String (lower a) ""
      | String b s3 =>
          if (nat_of_ascii a =? 197)%nat && (nat_of_ascii b =? 191)%nat then String (chr 115) (fold_name s3)
          else match s3 with
            | String c s4 =>
                if (nat_of_ascii a =? 226)%nat && (nat_of_ascii b =? 132)%nat && (nat_of_ascii c =? 170)%nat
                then String (chr 107) (fold_name s4) else String (lower a) (fold_name s2)
            | "" => String (lower a) (fold_name s2)
            end
      end
  end.

(** Decoding the members of an object into a struct, one field at a time;
    [None] is a type mismatch. *)
Definition decode_members {A} (field : string → string → json → A → option A)
    (ms : list (string * (string * json))) (a : A) : option A :=
  foldl (λ acc '(k, (raw, v)), a ← acc; field (fold_name k) raw v a) (Some a) ms.

(** A [string] field. *)
Definition dec_string (v : json) (old : string) : option string :=
  match v with JStr s => Some s | JNull => Some old | _ => None end.

(** An [int] field: the literal must be an integer in range. *)
Fixpoint digits_val (s : string) (acc : Z) : option Z :=
  match s with
  | "" => Some acc
  | String c s => if is_digit c then digits_val s (10 * acc + (Z.of_nat (nat_of_ascii c) - 48)) else None
  end.
Definition int_literal (lit : string) : option Z :=
  let '(neg, ds) := if head_is 45 lit then (true, tail lit) else (false, lit) in
  n ← digits_val ds 0;
  let n := if neg : bool then - n else n in
  if (- two63 <=? n) && (n <? two63) then Some n else None.
Definition dec_int (v : json) (old : Z) : option Z :=
  match v with JNum l => int_literal l | JNull => Some old | _ => None end.

(** An [interface{}] field. *)
Definition dec_any (v : json) : any := match v with JNull => ANil | _ => AJson v end.

(** ** Unmarshalling requests and responses *)

Definition req_field (k raw : string) (v : json) (r : RPCReq) : option RPCReq :=
  if String.eqb k "jsonrpc" then
    s ← dec_string v (rq_JSONRPC r); Some (mk_RPCReq s (rq_Method r) (rq_Params r) (rq_ID r))
  else if String.eqb k "method" then
    s ← dec_string v (rq_Method r); Some (mk_RPCReq (rq_JSONRPC r) s (rq_Params r) (rq_ID r))
  else if String.eqb k "params" then
    Some (mk_RPCReq (rq_JSONRPC r) (rq_Method r) raw (rq_ID r))
  else if String.eqb k "id" then
    Some (mk_RPCReq (rq_JSONRPC r) (rq_Method r) (rq_Params r) raw)
  else Some r.

Definition unmarshal_RPCReq (body : string) : option RPCReq :=
  t ← json_top body;
  match t with
  | TNull => Some (mk_RPCReq "" "" "" "")
  | TObj ms => decode_members req_field ms (mk_RPCReq "" "" "" "")
  | _ => None
  end.

(** The members of an object that is itself a member, from its text. *)
Definition obj_members (raw : string) : option (list (string * (string * json))) :=
  t ← json_top raw; match t with TObj ms => Some ms | _ => None end.

Definition err_field (k raw : string) (v : json) (e : RPCErr) : option RPCErr :=
  if String.eqb k "code" then
    n ← dec_int v (Code e); Some (mk_RPCErr n (Message e) (Data e) (HTTPErrorCode e))
  else if String.eqb k "message" then
    s ← dec_string v (Message e); Some (mk_RPCErr (Code e) s (Data e) (HTTPErrorCode e))
  else if String.eqb k "data" then
    s ← dec_string v (Data e); Some (mk_RPCErr (Code e) (Message e) s (HTTPErrorCode e))
  else Some e.

(** A pointer to [RPCErr]: null clears it, an object is decoded into it. *)
Definition dec_err (raw : string) (v : json) (old : option RPCErr) : option (option RPCErr) :=
  match v with
  | JNull => Some None
  | JObj _ =>
      ms ← obj_members raw;
      Some <$> decode_members err_field ms (default (mk_RPCErr 0 "" "" 0) old)
  | _ => None
  end.

Definition res_field (k raw : string) (v : json) (r : RPCRes) : option RPCRes :=
  if String.eqb k "jsonrpc" then
    s ← dec_string v (rs_JSONRPC r); Some (mk_RPCRes s (rs_Result r) (rs_Error r) (rs_ID r))
  else if String.eqb k "result" then
    Some (mk_RPCRes (rs_JSONRPC r) (dec_any v) (rs_Error r) (rs_ID r))
  else if String.eqb k "error" then
    e ← dec_err raw v (rs_Error r); Some (mk_RPCRes (rs_JSONRPC r) (rs_Result r) e (rs_ID r))
  else if String.eqb k "id" then
    Some (mk_RPCRes (rs_JSONRPC r) (rs_Result r) (rs_Error r) raw)
  else Some r.

Definition empty_RPCRes : RPCRes := mk_RPCRes "" ANil None "".

Definition unmarshal_RPCRes (body : string) : option RPCRes :=
  t ← json_top body;
  match t with
  | TNull => Some empty_RPCRes
  | TObj ms => decode_members res_field ms empty_RPCRes
  | _ => None
  end.

(** A slice of pointers to responses: null is the nil slice, a null element a
    nil pointer. *)
Definition unmarshal_RPCRes_list (body : string) : option (list (option RPCRes)) :=
  t ← json_top body;
  match t with
  | TNull => Some []
  | TArr es =>
      mapM (λ '(raw, v), match v with
        | JNull => Some None
        | JObj _ => ms ← obj_members raw; Some <$> decode_members res_field ms empty_RPCRes
        | _ => None
        end) es
  | _ => None
  end.

Definition ParseRPCReq (body : string) : error + RPCReq :=
  match unmarshal_RPCReq body with Some req => inr req | None => inl (EVar ErrParseErr) end.

Definition ParseBatchRPCReq (body : string) : error + list string :=
  match json_top body with
  | Some TNull => inr []
  | Some (TArr es) => inr es.*1
  | _ => inl (ENew "invalid batch")
  end.

(** [ParseRPCRes] on a reader over [body], which cannot fail. *)
Definition ParseRPCRes (body : string) : error + RPCRes :=
  match unmarshal_RPCRes body with
  | Some res => inr res
  | None => inl (wrapErr (ENew "invalid JSON") "error unmarshalling RPC response")
  end.

(** ** Validation *)

Definition has_suffix_quote (s : string) : bool :=
  match String.get (String.length s - 1) s with Some c => Ascii.eqb c quote | None => false end.

Definition IsValidID (id : string) : bool :=
  if head_is 34 id && has_suffix_quote id then (2 <? String.length id)%nat
  else (0 <? String.length id)%nat && negb (head_is 123 id) && negb (head_is 91 id).

(** [None] is a nil error. *)
Definition ValidateRPCReq (req : RPCReq) : option error :=
  if negb (String.eqb (rq_JSONRPC req) JSONRPCVersion) then
    Some (ErrInvalidRequest "invalid JSON-RPC version")
  else if String.eqb (rq_Method req) "" then Some (ErrInvalidRequest "no method specified")
  else if negb (IsValidID (rq_ID req)) then Some (ErrInvalidRequest "invalid ID")
  else None.

Fixpoint IsBatch (raw : string) : bool :=
  match raw with
  | "" => false
  | String c raw =>
      let n := nat_of_ascii c in
      if (n =? 32)%nat || (n =? 9)%nat || (n =? 10)%nat || (n =? 13)%nat then IsBatch raw
      else (n =? 91)%nat
  end.

(** ** Marshalling *)

(** json.Compact with HTML escaping, as Marshal applies it to a raw message:
    [str] inside a string literal, [esc] after a backslash. *)
Fixpoint compact (str esc : bool) (s : string) : string :=
  match s with
  | "" => ""
  | String c s =>
      let n := nat_of_ascii c in
      if str then
        let out t := if (n =? 60)%nat || (n =? 62)%nat || (n =? 38)%nat then escape_char c t else String c t in
        if esc then out (compact true false s)
        else if (n =? 92)%nat then String c (compact true true s)
        else if (n =? 34)%nat then String c (compact false false s)
        else out (compact true false s)
      else if is_ws c then compact false false s
      else if (n =? 34)%nat then String c (compact true false s)
      else String c (compact false false s)
  end.

(** A raw message: nil is null, a text that is no JSON makes Marshal fail. *)
Definition marshal_raw (raw : string) : option string :=
  if String.eqb raw "" then Some "null"
  else if json_parse raw then Some (compact false false raw) else None.

Definition quoted (s : string) : string := print_str s "".

(** A JSON object of the given members, in order. *)
Definition members_text (ms : list (string * string)) : string :=
  "{" +:+ String.concat "," ((λ '(k, t), quoted k +:+ ":" +:+ t) <$> ms) +:+ "}".

Section marshal.
Context `{Geth}.

(** hexutil.Uint64 marshals as a quoted quantity. *)
Fixpoint marshal_any (a : any) : string :=
  match a with
  | ANil => "null"
  | AJson v => json_marshal v
  | AUint64 n => quoted (EncodeUint64 n)
  | AReceipts method result => members_text [("method", quoted method); ("result", marshal_any result)]
  end.

Definition marshal_RPCReq (r : RPCReq) : option string :=
  params ← marshal_raw (rq_Params r);
  id ← marshal_raw (rq_ID r);
  Some (members_text [("jsonrpc", quoted (rq_JSONRPC r)); ("method", quoted (rq_Method r));
    ("params", params); ("id", id)]).

Definition marshal_RPCReqs (l : list RPCReq) : option string :=
  ts ← mapM marshal_RPCReq l; Some ("[" +:+ String.concat "," ts +:+ "]").

Definition marshal_RPCErr (e : RPCErr) : string :=
  members_text ([("code", pretty (Code e)); ("message", quoted (Message e))] ++
    if String.eqb (Data e) "" then [] else [("data", quoted (Data e))])%list.

(** [RPCRes.MarshalJSON]: a null result is written out only without an error. *)
Definition MarshalJSON (r : RPCRes) : option string :=
  id ← marshal_raw (rs_ID r);
  match rs_Result r, rs_Error r with
  | ANil, None =>
      Some (members_text [("jsonrpc", quoted (rs_JSONRPC r)); ("result", "null"); ("id", id)])
  | _, _ =>
      Some (members_text ([("jsonrpc", quoted (rs_JSONRPC r))] ++
        (match rs_Result r with ANil => [] | a => [("result", marshal_any a)] end) ++
        (match rs_Error r with None => [] | Some e => [("error", marshal_RPCErr e)] end) ++
        [("id", id)])%list)
  end.

(** [mustMarshalJSON] panics when Marshal fails. *)
Definition mustMarshalJSON (t : option string) : go string :=
  match t with Some t => Ret t | None => Panic "json: error calling MarshalJSON" end.
End marshal.

(** ** Reading back the members of a printed object *)

Lemma substring_app (a b : string) : String.substring 0 (String.length a) (a +:+ b) = a.
Proof. induction a as [|c a IH]; [by destruct b|]. cbn. by rewrite IH. Qed.

Lemma take_text_app a b : take_text (a +:+ b) b = a.
Proof. unfold take_text. rewrite str_app_length, Nat.add_sub. apply substring_app. Qed.

(** The text of [v] is read as [u]. *)
Record readable (v u : json) : Prop := mk_readable {
  reads_as : parses_as v u;
  reads_long : long_enough v;
  reads_starts rest : starts (print_value v rest);
}.
Definition readable_member (a b : string * json) : Prop := a.1 = b.1 ∧ readable a.2 b.2.

Lemma readable_wf v : wf_json v → readable v v.
Proof. intros Hv. split; [by apply parse_print|by apply print_value_length|intros rest; by apply print_value_starts]. Qed.
Lemma readable_obj m us : Forall2 readable_member m us → readable (JObj m) (JObj (obj_of us)).
Proof.
  intros Hm. split.
  - apply parse_obj_print. eapply Forall2_impl; [exact Hm|]. by intros a b [Hk [Ha _ _]].
  - intros rest. rewrite need_obj, print_value_obj. cbn [String.length].
    assert (Forall (λ kv, long_enough kv.2) m) as Hl by (induction Hm as [|a b m us [_ [_ Hl _]] _ IH]; by constructor).
    pose proof (print_members_length m rest Hl). lia.
  - intros rest. rewrite print_value_obj. split_and!; done.
Qed.

Lemma raw_value_print v u rest : readable v u → delim rest →
  raw_value (print_value v rest) = Some (json_marshal v, u, rest).
Proof.
  intros [Hp Hl Hs] Hd. unfold raw_value. destruct (starts_skip _ (Hs rest)) as (-> & _ & _).
  rewrite (Hp _ rest); [|pose proof (Hl rest); unfold fuel; lia|done].
  cbn [mbind option_bind]. by rewrite print_value_marshal, take_text_app.
Qed.

Definition raws_as (m us : list (string * json)) : list (string * (string * json)) :=
  zip_with (λ a b, (a.1, (json_marshal a.2, b.2))) m us.
Definition raws (m : list (string * json)) : list (string * (string * json)) :=
  (λ '(k, v), (k, (json_marshal v, v))) <$> m.

Lemma raw_members_print m us n rest : m ≠ [] → Forall2 readable_member m us → (length m ≤ n)%nat →
  raw_members n (print_members m rest) = Some (raws_as m us, rest).
Proof.
  intros Hne Hm. revert n Hne. induction Hm as [|[k v] [k' u] m us [Hk Hv] Hm IH]; intros n Hne Hn; [done|].
  simpl in Hk, Hv. subst k'. destruct n as [|n]; [simpl in Hn; lia|].
  cbn [raw_members]. destruct Hm as [|[k' v'] [] m us Hv' Hm];
    [cbn [print_members]|rewrite print_members_cons]; rewrite print_str_skip; unfold print_str;
    json_step; rewrite parse_chars_escape; json_step; rewrite (raw_value_print v u) by done; json_step; [done|].
  rewrite IH by (done || simpl in *; lia). done.
Qed.

Lemma raw_elems_print l us n rest : l ≠ [] → Forall2 readable l us → (length l ≤ n)%nat →
  raw_elems n (print_elems l rest) = Some (zip (json_marshal <$> l) us, rest).
Proof.
  intros Hne Hl. revert n Hne. induction Hl as [|v u l us Hv Hl IH]; intros n Hne Hn; [done|].
  destruct n as [|n]; [simpl in Hn; lia|]. cbn [raw_elems]. destruct Hl as [|v' u' l us Hv' Hl].
  - cbn [print_elems]. rewrite (raw_value_print v u) by done. json_step. done.
  - rewrite print_elems_cons, (raw_value_print v u) by done. json_step. rewrite IH by (done || simpl in *; lia). done.
Qed.

Lemma print_members_long m rest : (length m ≤ String.length (print_members m rest))%nat.
Proof.
  induction m as [|[k v] [|kv m] IH]; [simpl; lia|..].
  - cbn [print_members length]. unfold print_str. cbn [String.length]. lia.
  - rewrite print_members_cons. pose proof (print_str_length k (String (chr 58) (print_value v (String (chr 44) (print_members (kv :: m) rest))))) as Hl.
    cbn [String.length] in Hl. rewrite print_value_marshal, str_app_length in Hl. cbn [String.length length] in *.
    rewrite print_value_marshal. lia.
Qed.

(** Blanks may follow. *)
Lemma json_top_obj_as m us rest : at_end rest = true → Forall2 readable_member m us →
  json_top (json_marshal (JObj m) +:+ rest) = Some (TObj (raws_as m us)).
Proof.
  intros Hr Hm. rewrite <- print_value_marshal, print_value_obj. unfold json_top.
  change (skip_ws (String (chr 123) ?x)) with (String (chr 123) x).
  change (head_is 123 (String (chr 123) ?x)) with true. cbv beta iota zeta. cbn [tail].
  destruct m as [|[k v] m]; [inversion Hm; cbn [print_members]; change (at_end (tail _)) with (at_end rest); by rewrite Hr|].
  assert (Hs : skip_ws (print_members ((k, v) :: m) rest) = print_members ((k, v) :: m) rest ∧
    head_is 125 (print_members ((k, v) :: m) rest) = false) by (destruct m as [|[]]; done).
  destruct Hs as [-> ->].
  rewrite (raw_members_print _ us); [cbn [mbind option_bind]; by rewrite Hr|done|done|].
  pose proof (print_members_long ((k, v) :: m) rest). cbn [String.length]. lia.
Qed.
Lemma json_top_obj m : Forall (λ kv, wf_json kv.2) m → json_top (json_marshal (JObj m)) = Some (TObj (raws m)).
Proof.
  intros Hwf. rewrite <- (str_app_nil (json_marshal _)), (json_top_obj_as m m); [|done|].
  - do 2 f_equal. unfold raws_as, raws. clear Hwf. induction m as [|[k v] m IH]; [done|]. cbn. by rewrite IH.
  - apply Forall_Forall2_diag. eapply Forall_impl; [exact Hwf|]. intros kv Hkv. by split; [|apply readable_wf].
Qed.

Lemma print_elems_long l us rest : Forall2 readable l us → (length l ≤ String.length (print_elems l rest))%nat.
Proof.
  intros Hl. induction Hl as [|v u l us Hv Hl IH]; [simpl; lia|]. destruct Hl as [|v' u' l us Hv' Hl].
  - cbn [print_elems length]. rewrite print_value_marshal, str_app_length. cbn [String.length]. lia.
  - rewrite print_elems_cons, print_value_marshal, str_app_length. cbn [String.length length] in *. lia.
Qed.
Lemma json_top_arr l us rest : at_end rest = true → Forall2 readable l us →
  json_top (json_marshal (JArr l) +:+ rest) = Some (TArr (zip (json_marshal <$> l) us)).
Proof.
  intros Hr Hl. rewrite <- print_value_marshal, print_value_arr. unfold json_top.
  change (skip_ws (String (chr 91) ?x)) with (String (chr 91) x).
  change (head_is 123 (String (chr 91) ?x)) with false. change (head_is 91 (String (chr 91) ?x)) with true.
  cbv beta iota zeta. cbn [tail]. destruct Hl as [|v u l us Hv Hl].
  { cbn [print_elems]. change (at_end (tail _)) with (at_end rest). by rewrite Hr. }
  assert (starts (print_elems (v :: l) rest)) as Hs by (destruct Hl; apply (reads_starts _ _ Hv)).
  apply starts_skip in Hs as (-> & -> & _). assert (Forall2 readable (v :: l) (u :: us)) as Hvl by by constructor.
  rewrite (raw_elems_print _ (u :: us)); [cbn [mbind option_bind]; by rewrite Hr|done|done|].
  pose proof (print_elems_long _ _ rest Hvl). cbn [String.length]. lia.
Qed.

(** ** Examples *)

Example parse_req_ex :
  ParseRPCReq (jtext " {'jsonrpc':'2.0', 'Method':'eth_call','PARAMS': [ 1, 'a' ] ,'id': 7 } ") =
  inr (mk_RPCReq "2.0" "eth_call" (jtext "[ 1, 'a' ]") "7").
Proof. reflexivity. Qed.

Example marshal_req_ex :
  marshal_RPCReq (mk_RPCReq "2.0" "eth_call" (jtext "[ 1, '<a' ]") "") =
  Some (jtext "{'jsonrpc':'2.0','method':'eth_call','params':[1,'\u003ca'],'id':null}").
Proof. reflexivity. Qed.

Example parse_res_ex :
  unmarshal_RPCRes_list (jtext "[{'id':1,'result':null,'error':{'code':-3,'message':'m','data':'d'}}, null]") =
  Some [Some (mk_RPCRes "" ANil (Some (mk_RPCErr (-3) "m" "d" 0)) "1"); None].
Proof. reflexivity. Qed.

Example marshal_res_ex :
  MarshalJSON (mk_RPCRes "2.0" (AUint64 255) None "1") = Some (jtext "{'jsonrpc':'2.0','result':'0xff','id':1}") ∧
  MarshalJSON (mk_RPCRes "2.0" ANil None "1") = Some (jtext "{'jsonrpc':'2.0','result':null,'id':1}") ∧
  MarshalJSON (NewRPCErrorRes "1" (EVar ErrParseErr)) =
    Some (jtext "{'jsonrpc':'2.0','error':{'code':-32700,'message':'parse error'},'id':1}").
Proof. by vm_compute. Qed.
