(* ===== verification/RpcText.v ===== *)
(** The texts of JSON-RPC messages: what the marshalling code of proxyd/rpc.go and the JSON helpers of proxyd/backend.go write
    is read back by its parsers as the same messages, one by one and in batches, so that proxyd can stand in front
    of proxyd. The lemmas on decimal numbers, compact texts and printed objects are shared with the mock server. *)
From stdpp Require Import base numbers list gmap strings pretty.
From S2P Require Import Prelude Json Geth Rpc.
From Stdlib Require Import Ascii.

Local Open Scope string_scope.
Local Open Scope Z_scope.
#[local] Arguments String.append : simpl nomatch.

(** ** Decimal numbers *)

Lemma pretty_N_char_digit (n : N) : (n < 10)%N →
  is_digit (pretty_N_char n) = true ∧ Z.of_nat (nat_of_ascii (pretty_N_char n)) - 48 = Z.of_N n.
Proof.
  intros Hn. assert (n = 0 ∨ n = 1 ∨ n = 2 ∨ n = 3 ∨ n = 4 ∨ n = 5 ∨ n = 6 ∨ n = 7 ∨ n = 8 ∨ n = 9)%N as Hc by lia.
  by repeat destruct Hc as [->|Hc]; [..|subst].
Qed.

(** A property of the digits that a number adds in front of a text. *)
Lemma pretty_N_go_ind (P : N → string → string → Prop) :
  (∀ s, P 0%N s s) →
  (∀ x s t, (0 < x)%N → P (x `div` 10)%N (String (pretty_N_char (x `mod` 10)) s) t → P x s t) →
  ∀ x s, P x s (pretty_N_go x s).
Proof.
  intros H0 Hs x. induction (N.lt_wf_0 x) as [x _ IH]. intros s.
  destruct (decide (0 < x)%N) as [Hx|Hx]; [|replace x with 0%N by lia; apply H0].
  rewrite pretty_N_go_step by done. apply Hs; [done|]. apply IH. by apply N.div_lt.
Qed.

Lemma digits_val_go x s : digits_val (pretty_N_go x s) 0 = digits_val s (Z.of_N x).
Proof.
  apply (pretty_N_go_ind (λ x s t, digits_val t 0 = digits_val s (Z.of_N x))); [done|]. clear x s. intros x s t Hx ->. cbn [digits_val].
  destruct (pretty_N_char_digit (x `mod` 10)) as [-> ->]; [by apply N.mod_lt|]. f_equal.
  pose proof (N.div_mod x 10 ltac:(done)). lia.
Qed.

(** A text that starts with digits, the first of them not a zero. *)
Fixpoint all_digits (s : string) : bool := match s with "" => true | String c s => is_digit c && all_digits s end.
Lemma all_digits_go x s : all_digits s = true → all_digits (pretty_N_go x s) = true.
Proof.
  apply (pretty_N_go_ind (λ _ s t, all_digits s = true → all_digits t = true)); [done|]. clear x s. intros x s t Hx IH Hs. apply IH. cbn.
  by destruct (pretty_N_char_digit (x `mod` 10)) as [-> _]; [apply N.mod_lt|].
Qed.
Lemma pretty_N_go_head x s : (0 < x)%N → ∃ c t, pretty_N_go x s = String c t ∧ nat_of_ascii c ≠ 48%nat.
Proof.
  revert s. induction (N.lt_wf_0 x) as [x _ IH]. intros s Hx. rewrite pretty_N_go_step by done.
  destruct (decide (0 < x `div` 10)%N) as [Hd|Hd]; [by apply IH; [apply N.div_lt|]|].
  assert (x `div` 10 = 0)%N as E0 by (by apply N.le_0_r, N.nlt_ge). rewrite E0, pretty_N_go_0. eexists _, _. split; [done|].
  destruct (pretty_N_char_digit (x `mod` 10)) as [_ Hc]; [by apply N.mod_lt|]. intros E. rewrite E in Hc.
  pose proof (N.div_mod x 10 ltac:(done)). lia.
Qed.
Lemma take_digits_all s : all_digits s = true → take_digits s = (s, "").
Proof. induction s as [|c s IH]; [done|]. cbn. intros [-> Hs]%andb_true_iff. by rewrite (IH Hs). Qed.

Lemma pretty_pos p : pretty (Z.pos p) = pretty_N_go (N.pos p) "".
Proof. done. Qed.
Lemma pretty_neg p : pretty (Z.neg p) = String (chr 45) (pretty_N_go (N.pos p) "").
Proof. done. Qed.

Lemma parse_digits c t : all_digits (String c t) = true → nat_of_ascii c ≠ 48%nat → num_int (String c t) = Some (String c t, "").
Proof.
  intros Hd Hc. unfold num_int. apply Nat.eqb_neq in Hc. rewrite Hc. pose proof Hd as [-> _]%andb_true_iff. by rewrite take_digits_all.
Qed.
Lemma digit_not_minus c t : all_digits (String c t) = true → head_is 45 (String c t) = false.
Proof.
  intros [Hc _]%andb_true_iff. cbn. unfold is_digit in Hc. apply andb_true_iff in Hc as [Hc _]. apply Nat.leb_le in Hc.
  apply Nat.eqb_neq. lia.
Qed.

Lemma parse_num_pretty (n : Z) : parse_num (pretty n) = Some (pretty n, "").
Proof.
  assert (∀ p, ∃ c t, pretty_N_go (N.pos p) "" = String c t ∧ all_digits (String c t) = true ∧ nat_of_ascii c ≠ 48%nat) as Hp.
  { intros p. destruct (pretty_N_go_head (N.pos p) "") as (c & t & E & Hc); [done|]. exists c, t. split_and!; [done| |done].
    rewrite <- E. by apply all_digits_go. }
  destruct n as [|p|p]; [done|..].
  - rewrite pretty_pos. destruct (Hp p) as (c & t & -> & Hd & Hc). unfold parse_num.
    rewrite (digit_not_minus c t Hd), (parse_digits c t Hd Hc). cbn. by rewrite str_app_nil.
  - rewrite pretty_neg. destruct (Hp p) as (c & t & -> & Hd & Hc). unfold parse_num.
    change (head_is 45 (String (chr 45) ?x)) with true. cbn [tail]. rewrite (parse_digits c t Hd Hc). cbn. by rewrite str_app_nil.
Qed.

Lemma int_literal_pretty (n : Z) : - two63 ≤ n < two63 → int_literal (pretty n) = Some n.
Proof.
  intros Hn. assert ((- two63 <=? n) && (n <? two63) = true) as Hb by (apply andb_true_iff; split; [apply Z.leb_le|apply Z.ltb_lt]; lia).
  destruct n as [|p|p]; [done|..].
  - rewrite pretty_pos. destruct (pretty_N_go_head (N.pos p) "") as (c & t & E & _); [done|]. unfold int_literal.
    assert (head_is 45 (pretty_N_go (N.pos p) "") = false) as -> by (rewrite E; apply digit_not_minus; rewrite <- E; by apply all_digits_go).
    rewrite digits_val_go. cbn [digits_val mbind option_bind Z.of_N]. by rewrite Hb.
  - rewrite pretty_neg. unfold int_literal. change (head_is 45 (String (chr 45) ?x)) with true. cbn [tail].
    rewrite digits_val_go. cbn [digits_val mbind option_bind Z.of_N]. change (- Z.pos p) with (Z.neg p). by rewrite Hb.
Qed.

(** ** Compact texts *)

(** No blanks and no quotes. *)
Fixpoint plain (s : string) : bool :=
  match s with "" => true | String c s => negb (is_ws c) && negb (nat_of_ascii c =? 34)%nat && plain s end.
Lemma plain_app a b : plain (a +:+ b) = plain a && plain b.
Proof. induction a as [|c a IH]; [done|]. cbn. by rewrite IH, andb_assoc. Qed.
Lemma compact_plain a rest : plain a = true → compact false false (a +:+ rest) = a +:+ compact false false rest.
Proof. induction a as [|c a IH]; [done|]. cbn. intros [[->%negb_true_iff ->%negb_true_iff]%andb_true_iff Ha]%andb_true_iff. by rewrite IH. Qed.

Lemma plain_digit c : is_digit c = true → negb (is_ws c) && negb (nat_of_ascii c =? 34)%nat = true.
Proof. destruct c as [[] [] [] [] [] [] [] []]; by cbn. Qed.
Lemma plain_take_digits s d r : take_digits s = (d, r) → plain d = true.
Proof.
  revert d r. induction s as [|c s IH]; intros d r; cbn; [by intros [= <- <-]|]. destruct (is_digit c) eqn:Ec; [|by intros [= <- <-]].
  destruct (take_digits s) as [d' r'] eqn:E. intros [= <- <-]. cbn. by rewrite plain_digit, (IH d' r').
Qed.
Lemma plain_parse_num s l r : parse_num s = Some (l, r) → plain l = true.
Proof.
  unfold parse_num. assert (∀ x i y, num_int x = Some (i, y) → plain i = true) as Hi.
  { intros [|c x] i y; cbn; [done|]. destruct (Nat.eqb_spec (nat_of_ascii c) 48) as [E|E].
    - intros [= <- <-]. cbn. rewrite plain_digit; [done|]. unfold is_digit. by rewrite E.
    - destruct (is_digit c) eqn:Ec; [|done]. destruct (take_digits x) as [d r'] eqn:Ed. intros [= <- <-]. cbn.
      by rewrite plain_digit, (plain_take_digits _ _ _ Ed). }
  assert (∀ x f y, num_frac x = Some (f, y) → plain f = true) as Hf.
  { intros x f y. unfold num_frac. destruct (head_is 46 x); [|by intros [= <- <-]]. destruct (take_digits (tail x)) as [d r'] eqn:Ed.
    destruct (String.eqb d ""); [done|]. intros [= <- <-]. cbn. by apply plain_take_digits in Ed. }
  assert (∀ x e y, num_exp x = Some (e, y) → plain e = true) as He.
  { intros [|c x] e y; cbn; [by intros [= <- <-]|]. destruct ((nat_of_ascii c =? 101)%nat || (nat_of_ascii c =? 69)%nat) eqn:Ec; [|by intros [= <- <-]].
    assert (negb (is_ws c) && negb (nat_of_ascii c =? 34)%nat = true) as Hc by (revert Ec; clear; destruct c as [[] [] [] [] [] [] [] []]; by cbn).
    set (sg := match x with String c s2 => _ | "" => ("", "") end). assert (plain sg.1 = true) as Hs.
    { subst sg. destruct x as [|c' x]; [done|]. destruct ((nat_of_ascii c' =? 43)%nat || (nat_of_ascii c' =? 45)%nat) eqn:Ec'; [|done].
      revert Ec'. clear. destruct c' as [[] [] [] [] [] [] [] []]; by cbn. }
    destruct sg as [sgn s2]. destruct (take_digits s2) as [d r'] eqn:Ed. destruct (String.eqb d ""); [done|].
    intros [= <- <-]. cbn in *. rewrite Hc, plain_app, Hs. by apply plain_take_digits in Ed. }
  destruct (if head_is 45 s then _ else _) as [sgn s0] eqn:Es. assert (plain sgn = true) as Hs by (destruct (head_is 45 s); by injection Es as <- <-).
  destruct (num_int s0) as [[i s1]|] eqn:Ei; [|done]. cbn. destruct (num_frac s1) as [[f s2]|] eqn:Ef; [|done]. cbn.
  destruct (num_exp s2) as [[e s3]|] eqn:Ee; [|done]. cbn. intros [= <- <-].
  by rewrite !plain_app, Hs, (Hi _ _ _ Ei), (Hf _ _ _ Ef), (He _ _ _ Ee).
Qed.

Lemma compact_char (c : ascii) (t : string) : compact true false (escape_char c t) = escape_char c (compact true false t).
Proof. destruct c as [[] [] [] [] [] [] [] []]; reflexivity. Qed.
Lemma compact_str s rest : compact false false (print_str s rest) = print_str s (compact false false rest).
Proof.
  unfold print_str. change (compact false false (String quote ?x)) with (String quote (compact true false x)). f_equal.
  induction s as [|c s IH]; [done|]. cbn [escape]. by rewrite compact_char, IH.
Qed.

Definition compact_prints (v : json) : Prop := ∀ rest, compact false false (print_value v rest) = print_value v (compact false false rest).
Lemma compact_elems l rest : Forall compact_prints l → compact false false (print_elems l rest) = print_elems l (compact false false rest).
Proof.
  induction l as [|v [|v' l] IH]; intros Hl; [done|..]; apply Forall_cons in Hl as [Hv Hl].
  - cbn [print_elems]. by rewrite Hv.
  - rewrite !print_elems_cons, Hv, <- IH by done. done.
Qed.
Lemma compact_members m rest : Forall (λ kv, compact_prints kv.2) m →
  compact false false (print_members m rest) = print_members m (compact false false rest).
Proof.
  induction m as [|[k v] [|kv m] IH]; intros Hm; [done|..]; apply Forall_cons in Hm as [Hv Hm]; simpl in Hv.
  - cbn [print_members]. rewrite compact_str. change (compact false false (String (chr 58) ?x)) with (String (chr 58) (compact false false x)).
    by rewrite Hv.
  - rewrite !print_members_cons, compact_str. change (compact false false (String (chr 58) ?x)) with (String (chr 58) (compact false false x)).
    rewrite Hv, <- IH by done. done.
Qed.
(** What Marshal prints is compact. *)
Lemma compact_print v : wf_json v → compact_prints v.
Proof.
  induction v as [|b|l|s|l IH|m IH] using json_nested_ind; intros Hwf rest; [done|by destruct b|..].
  - apply compact_plain. by eapply plain_parse_num.
  - apply compact_str.
  - rewrite !print_value_arr. apply wf_json_arr in Hwf. rewrite <- compact_elems by exact (Forall_mp _ _ _ IH Hwf). done.
  - rewrite !print_value_obj. apply wf_json_obj in Hwf as [_ Hwf]. rewrite <- compact_members by exact (Forall_mp _ _ _ IH Hwf). done.
Qed.

(** A raw message that Marshal has written stays as it is. *)
Definition printed (raw : string) : Prop := ∃ v, wf_json v ∧ raw = json_marshal v.
Lemma json_marshal_ne v : wf_json v → json_marshal v ≠ "".
Proof. intros Hv E. pose proof (print_value_starts v "" Hv) as Hs. unfold json_marshal in E. by rewrite E in Hs. Qed.
Lemma marshal_raw_printed raw : printed raw → marshal_raw raw = Some raw.
Proof.
  intros (v & Hv & ->). unfold marshal_raw. rewrite (proj2 (String.eqb_neq _ _) (json_marshal_ne v Hv)), json_roundtrip by done.
  unfold json_marshal. by rewrite compact_print.
Qed.

(** ** Objects written member by member *)

Definition texts (m : list (string * json)) : list (string * string) := (λ kv, (kv.1, json_marshal kv.2)) <$> m.

Lemma print_str_quoted k rest : print_str k rest = quoted k +:+ rest.
Proof. unfold quoted. by rewrite <- print_str_app. Qed.
Lemma members_text_json m : members_text (texts m) = json_marshal (JObj m).
Proof.
  assert (∀ rest, String.concat "," ((λ '(k, t), quoted k +:+ ":" +:+ t) <$> texts m) +:+ String (chr 125) rest = print_members m rest) as Hm.
  { intros rest. induction m as [|[k v] [|[k' v'] m] IH]; [done|..].
    - cbn [texts fmap list_fmap String.concat print_members fst snd]. rewrite print_str_quoted, print_value_marshal, !str_app_assoc. done.
    - rewrite print_members_cons, <- IH, print_str_quoted, print_value_marshal.
      cbn [texts fmap list_fmap String.concat fst snd]. rewrite !str_app_assoc. done. }
  unfold members_text, json_marshal. rewrite print_value_obj, <- (Hm ""). done.
Qed.

(** A list of texts between brackets. *)
Lemma elems_text_json l : "[" +:+ String.concat "," (json_marshal <$> l) +:+ "]" = json_marshal (JArr l).
Proof.
  assert (∀ rest, String.concat "," (json_marshal <$> l) +:+ String (chr 93) rest = print_elems l rest) as Hl.
  { intros rest. induction l as [|v [|v' l] IH]; [done|..].
    - cbn [fmap list_fmap String.concat print_elems]. by rewrite print_value_marshal.
    - rewrite print_elems_cons, <- IH, print_value_marshal. cbn [fmap list_fmap String.concat]. rewrite !str_app_assoc. done. }
  unfold json_marshal at 2. rewrite print_value_arr, <- (Hl ""). done.
Qed.

(** ** Responses *)

Definition err_members (e : RPCErr) : list (string * json) :=
  ([("code", JNum (pretty (Code e))); ("message", JStr (Message e))] ++ if String.eqb (Data e) "" then [] else [("data", JStr (Data e))])%list.
Definition err_ok (e : RPCErr) : Prop := - two63 ≤ Code e < two63.
(** The status code stays with the server that made the error. *)
Definition sent_err (e : RPCErr) : RPCErr := mk_RPCErr (Code e) (Message e) (Data e) 0.

Lemma marshal_RPCErr_json e : marshal_RPCErr e = json_marshal (JObj (err_members e)).
Proof.
  assert (json_marshal (JNum (pretty (Code e))) = pretty (Code e)) as Hn by apply str_app_nil.
  rewrite <- members_text_json. unfold marshal_RPCErr, err_members, texts. rewrite fmap_app. cbn [fmap list_fmap fst snd]. rewrite Hn.
  by destruct (String.eqb (Data e) "").
Qed.
Lemma json_top_obj_nil m us : Forall2 readable_member m us → json_top (json_marshal (JObj m)) = Some (TObj (raws_as m us)).
Proof. intros Hm. by rewrite <- (str_app_nil (json_marshal _)), (json_top_obj_as m us). Qed.
Lemma readable_members_wf m : Forall (λ kv, wf_json kv.2) m → Forall2 readable_member m m.
Proof. intros Hm. apply Forall_Forall2_diag. eapply Forall_impl; [exact Hm|]. intros kv Hkv. by split; [|apply readable_wf]. Qed.
Lemma err_members_readable e : Forall2 readable_member (err_members e) (err_members e).
Proof.
  apply readable_members_wf. unfold err_members. apply Forall_app. split; [|by destruct (String.eqb (Data e) ""); repeat constructor].
  repeat constructor. apply parse_num_pretty.
Qed.
Lemma dec_err_marshal e u old : err_ok e → dec_err (marshal_RPCErr e) (JObj u) old = Some (Some (mk_RPCErr (Code e) (Message e)
  (if String.eqb (Data e) "" then default "" (Data <$> old) else Data e) (default 0 (HTTPErrorCode <$> old)))).
Proof.
  intros He. unfold dec_err, obj_members. rewrite marshal_RPCErr_json, json_top_obj_nil with (us := err_members e) by apply err_members_readable.
  unfold err_members. assert (∀ o, dec_int (JNum (pretty (Code e))) o = Some (Code e)) as Hc by (intros; by apply int_literal_pretty).
  destruct (String.eqb (Data e) ""); cbn -[pretty dec_int json_marshal]; unfold decode_members; cbn -[pretty dec_int json_marshal];
    unfold err_field; cbn -[pretty dec_int json_marshal]; rewrite Hc; cbn; by destruct old.
Qed.

Lemma dec_err_fresh e u : err_ok e → dec_err (json_marshal (JObj (err_members e))) (JObj u) None = Some (Some (sent_err e)).
Proof.
  intros He. rewrite <- marshal_RPCErr_json, dec_err_marshal by done. unfold sent_err. cbn.
  destruct (String.eqb_spec (Data e) "") as [->|]; done.
Qed.

(** Decoding goes from member to member. *)
Lemma decode_step {A} field k raw v (a a' : A) ms : field (fold_name k) raw v a = Some a' →
  decode_members field ((k, (raw, v)) :: ms) a = decode_members field ms a'.
Proof. intros E. unfold decode_members. cbn. by rewrite E. Qed.
Lemma res_version k raw s r : fold_name k = "jsonrpc" → res_field (fold_name k) raw (JStr s) r = Some (mk_RPCRes s (rs_Result r) (rs_Error r) (rs_ID r)).
Proof. by intros ->. Qed.
Lemma res_result k raw v r : fold_name k = "result" → res_field (fold_name k) raw v r = Some (mk_RPCRes (rs_JSONRPC r) (dec_any v) (rs_Error r) (rs_ID r)).
Proof. by intros ->. Qed.
Lemma res_error k raw v r e : fold_name k = "error" → dec_err raw v (rs_Error r) = Some e →
  res_field (fold_name k) raw v r = Some (mk_RPCRes (rs_JSONRPC r) (rs_Result r) e (rs_ID r)).
Proof. intros -> E. unfold res_field. cbn. by rewrite E. Qed.
Lemma res_id k raw v r : fold_name k = "id" → res_field (fold_name k) raw v r = Some (mk_RPCRes (rs_JSONRPC r) (rs_Result r) (rs_Error r) raw).
Proof. by intros ->. Qed.
Ltac decode_steps := repeat first
  [ erewrite decode_step by (by apply res_version) | erewrite decode_step by (by apply res_result)
  | erewrite decode_step by (by eapply res_error; [|cbn [rs_Error]; eauto]) | erewrite decode_step by (by apply res_id) ].

Section texts.
Context `{Geth}.

(** What an [interface{}] is on the wire, and what is read of it. *)
Fixpoint any_json (a : any) : json :=
  match a with
  | ANil => JNull
  | AJson v => v
  | AUint64 n => JStr (EncodeUint64 n)
  | AReceipts method result => JObj [("method", JStr method); ("result", any_json result)]
  end.
Fixpoint any_ok (a : any) : Prop :=
  match a with AJson v => wf_json v | AReceipts _ result => any_ok result | _ => True end.
Definition sent_any (a : any) : any := dec_any (any_json a).

Lemma any_json_wf a : any_ok a → wf_json (any_json a).
Proof.
  induction a as [|v|n|method a IH]; intros Ha; [done..|]. cbn [any_json]. apply wf_json_obj. split; [by repeat constructor|].
  repeat constructor. by apply IH.
Qed.
Lemma marshal_any_json a : marshal_any a = json_marshal (any_json a).
Proof.
  induction a as [|v|n|method a IH]; [done..|]. cbn [marshal_any any_json]. rewrite IH.
  by rewrite <- members_text_json.
Qed.

Record res_ok (r : RPCRes) : Prop := mk_res_ok {
  ok_result : any_ok (rs_Result r);
  ok_error e : rs_Error r = Some e → err_ok e;
  ok_id : printed (rs_ID r);
}.
(** The response that the other side has of [r]. *)
Definition sent_res (r : RPCRes) : RPCRes := mk_RPCRes (rs_JSONRPC r) (sent_any (rs_Result r)) (sent_err <$> rs_Error r) (rs_ID r).

Definition res_members (r : RPCRes) (id : json) : list (string * json) :=
  ([("jsonrpc", JStr (rs_JSONRPC r))] ++
   match rs_Result r, rs_Error r with
   | ANil, None => [("result", JNull)]
   | a, e => (match a with ANil => [] | a => [("result", any_json a)] end ++ match e with None => [] | Some e => [("error", JObj (err_members e))] end)%list
   end ++ [("id", id)])%list.
Definition read_members (r : RPCRes) (id : json) : list (string * json) :=
  ([("jsonrpc", JStr (rs_JSONRPC r))] ++
   match rs_Result r, rs_Error r with
   | ANil, None => [("result", JNull)]
   | a, e => (match a with ANil => [] | a => [("result", any_json a)] end ++
       match e with None => [] | Some e => [("error", JObj (obj_of (err_members e)))] end)%list
   end ++ [("id", id)])%list.

Lemma MarshalJSON_json r id : wf_json id → rs_ID r = json_marshal id → MarshalJSON r = Some (json_marshal (JObj (res_members r id))).
Proof.
  intros Hid E. unfold MarshalJSON. rewrite marshal_raw_printed by (by exists id). rewrite E. cbn [mbind option_bind].
  rewrite <- members_text_json. unfold res_members. rewrite <- ?marshal_any_json.
  destruct (rs_Result r) as [|v|n|method a], (rs_Error r) as [e|]; cbn [app];
    unfold texts; cbn [fmap list_fmap fst snd]; rewrite <- ?marshal_any_json, <- ?marshal_RPCErr_json; done.
Qed.
Lemma res_members_readable r id : res_ok r → wf_json id → Forall2 readable_member (res_members r id) (read_members r id).
Proof.
  intros [Ha _ _] Hid. unfold res_members, read_members. apply any_json_wf in Ha.
  assert (∀ k v, wf_json v → readable_member (k, v) (k, v)) as Hw by (intros k v Hv; by split; [|apply readable_wf]).
  assert (∀ e, Forall2 readable_member [("error", JObj (err_members e))] [("error", JObj (obj_of (err_members e)))]) as He.
  { intros e. constructor; [|done]. split; [done|]. apply readable_obj, err_members_readable. }
  apply Forall2_app; [by constructor; [apply Hw|]|]. apply Forall2_app; [|by constructor; [apply Hw|]].
  destruct (rs_Result r), (rs_Error r); cbn [app]; first [apply He|constructor; [by apply Hw|apply He]|by constructor; [apply Hw|]].
Qed.

Lemma decode_res r id : res_ok r → wf_json id → rs_ID r = json_marshal id →
  decode_members res_field (raws_as (res_members r id) (read_members r id)) empty_RPCRes = Some (sent_res r).
Proof.
  intros [Ha He Hp] Hid E. unfold sent_res, sent_any. destruct r as [version result error rid].
  cbn [rs_JSONRPC rs_Result rs_Error rs_ID] in *. subst rid.
  unfold res_members, read_members. cbn [rs_JSONRPC rs_Result rs_Error rs_ID].
  destruct error as [e|].
  - specialize (He e eq_refl). pose proof (λ u, dec_err_fresh e u He) as Hd.
    destruct result as [|v|n|method a]; cbn [app raws_as zip_with fst snd]; decode_steps; done.
  - destruct result as [|v|n|method a]; cbn [app raws_as zip_with fst snd]; decode_steps; done.
Qed.

Lemma unmarshal_obj m us r rest : at_end rest = true → Forall2 readable_member m us →
  decode_members res_field (raws_as m us) empty_RPCRes = Some r → unmarshal_RPCRes (json_marshal (JObj m) +:+ rest) = Some r.
Proof. intros Hr Hm E. unfold unmarshal_RPCRes. by rewrite (json_top_obj_as m us rest Hr Hm). Qed.
Lemma unmarshal_objs (ms : list (list (string * json))) rs rest : at_end rest = true →
  Forall2 (λ m r, ∃ us, Forall2 readable_member m us ∧ decode_members res_field (raws_as m us) empty_RPCRes = Some r) ms rs →
  unmarshal_RPCRes_list (json_marshal (JArr (JObj <$> ms)) +:+ rest) = Some (Some <$> rs).
Proof.
  intros Hrest Hms. assert (∃ us, Forall2 readable (JObj <$> ms) (JObj <$> us) ∧
    mapM (λ '(raw, v), match v with
      | JNull => Some None | JObj _ => ms ← obj_members raw; Some <$> decode_members res_field ms empty_RPCRes | _ => None end)
      (zip (json_marshal <$> (JObj <$> ms)) (JObj <$> us)) = Some (Some <$> rs)) as (us & Hus & E).
  { induction Hms as [|m r ms rs (us & Hm & Er) _ (uss & Hus & E)]; [by exists []|]. exists (obj_of us :: uss). split.
    - cbn. constructor; [by apply readable_obj|done].
    - assert (obj_members (json_marshal (JObj m)) = Some (raws_as m us)) as Eo by (unfold obj_members; by rewrite (json_top_obj_nil m us Hm)).
      cbn [fmap list_fmap zip_with mapM]. rewrite Eo. cbn [mbind option_bind]. rewrite Er. cbn [fmap option_fmap option_map mbind option_bind].
      by rewrite E. }
  unfold unmarshal_RPCRes_list. by rewrite (json_top_arr _ _ rest Hrest Hus).
Qed.

(** ** Requests *)

Definition req_members (r : RPCReq) (params id : json) : list (string * json) :=
  [("jsonrpc", JStr (rq_JSONRPC r)); ("method", JStr (rq_Method r)); ("params", params); ("id", id)].
Definition req_ok (r : RPCReq) : Prop := printed (rq_Params r) ∧ printed (rq_ID r).

Lemma request_text r : req_ok r → ∃ m, marshal_RPCReq r = Some (json_marshal (JObj m)) ∧ wf_json (JObj (obj_of m)) ∧
  Forall2 readable_member m m ∧ ParseRPCReq (json_marshal (JObj m)) = inr r.
Proof.
  intros [(p & Hp & Ep) (i & Hi & Ei)]. exists (req_members r p i).
  assert (Forall (λ kv, wf_json kv.2) (req_members r p i)) as Hm by by repeat constructor. split_and!.
  - unfold marshal_RPCReq. rewrite Ep, Ei, (marshal_raw_printed (json_marshal p)), (marshal_raw_printed (json_marshal i)) by (unfold printed; eauto). cbn [mbind option_bind].
    by rewrite <- members_text_json.
  - by apply obj_of_wf.
  - by apply readable_members_wf.
  - unfold ParseRPCReq, unmarshal_RPCReq. rewrite json_top_obj by done. cbn [mbind option_bind]. unfold raws, req_members. cbn [fmap list_fmap].
    rewrite <- Ep, <- Ei. by destruct r.
Qed.

(** The requests of a batch, and their texts. *)
Lemma batch_text l : Forall req_ok l → ∃ t raws, marshal_RPCReqs l = Some t ∧ ParseBatchRPCReq t = inr raws ∧
  Forall2 (λ raw r, ParseRPCReq raw = inr r) raws l.
Proof.
  intros Hl. assert (∃ ms, mapM marshal_RPCReq l = Some (json_marshal <$> (JObj <$> ms)) ∧ Forall2 readable (JObj <$> ms) (JObj ∘ obj_of <$> ms) ∧
    Forall2 (λ raw r, ParseRPCReq raw = inr r) (json_marshal <$> (JObj <$> ms)) l) as (ms & E & Hr & Hp).
  { induction Hl as [|r l Hr _ (ms & E & Hms & Hp)]; [by exists []|]. destruct (request_text r Hr) as (m & Em & _ & Hm & Er).
    exists (m :: ms). split_and!; cbn; [by rewrite Em; cbn; rewrite E|by constructor; [apply readable_obj|]|by constructor]. }
  exists (json_marshal (JArr (JObj <$> ms))), (json_marshal <$> (JObj <$> ms)). split_and!; [| |done].
  - unfold marshal_RPCReqs. rewrite E. cbn [mbind option_bind]. by rewrite elems_text_json.
  - unfold ParseBatchRPCReq. rewrite <- (str_app_nil (json_marshal _)), (json_top_arr _ _ "" eq_refl Hr). f_equal. apply fst_zip. by rewrite !length_fmap.
Qed.
End texts.

(** ** What was read can be written *)

Definition top_ok (t : top) : Prop :=
  match t with TObj ms => Forall (λ kv, wf_json kv.2.2) ms | TArr es => Forall (λ e, wf_json e.2) es | TOther v => wf_json v | TNull => True end.

Lemma raw_value_wf s raw v r : raw_value s = Some (raw, v, r) → wf_json v.
Proof. unfold raw_value. intros E. inv_opt. simplify_eq. by eapply parse_value_wf. Qed.
Lemma raw_members_wf n s ms r : raw_members n s = Some (ms, r) → Forall (λ kv, wf_json kv.2.2) ms.
Proof.
  revert s ms r. induction n as [|n IH]; intros s ms r; [done|]. cbn [raw_members]. cbv zeta.
  destruct (negb _); [done|]. destruct (parse_chars _ _) as [[k r1]|]; [|done]. cbn [mbind option_bind]. destruct (negb _); [done|].
  destruct (raw_value _) as [[[raw v] r2]|] eqn:Ev; [|done]. cbn [mbind option_bind]. apply raw_value_wf in Ev. destruct (head_is 44 _).
  - destruct (raw_members n _) as [[m r3]|] eqn:Em; [|done]. intros [= <- <-]. constructor; [done|by eapply IH].
  - destruct (head_is 125 _); [|done]. intros [= <- <-]. by repeat constructor.
Qed.
Lemma raw_elems_wf n s es r : raw_elems n s = Some (es, r) → Forall (λ e, wf_json e.2) es.
Proof.
  revert s es r. induction n as [|n IH]; intros s es r; [done|]. cbn [raw_elems]. cbv zeta.
  destruct (raw_value _) as [[[raw v] r2]|] eqn:Ev; [|done]. cbn [mbind option_bind]. apply raw_value_wf in Ev. destruct (head_is 44 _).
  - destruct (raw_elems n _) as [[m r3]|] eqn:Em; [|done]. intros [= <- <-]. constructor; [done|by eapply IH].
  - destruct (head_is 93 _); [|done]. intros [= <- <-]. by repeat constructor.
Qed.
Lemma json_top_ok s t : json_top s = Some t → top_ok t.
Proof.
  unfold json_top. cbv zeta. destruct (head_is 123 (skip_ws s)); [|destruct (head_is 91 (skip_ws s))].
  - destruct (head_is 125 _); intros E; inv_opt; cbn; [constructor|by eapply raw_members_wf].
  - destruct (head_is 93 _); intros E; inv_opt; cbn; [constructor|by eapply raw_elems_wf].
  - destruct (json_parse _) as [v|] eqn:Ev; [|done]. apply json_parse_wf in Ev. cbn. destruct v; by intros [= <-].
Qed.

Lemma decode_members_ind {A} (P : A → Prop) field ms a a' : (∀ k raw v x y, wf_json v → P x → field k raw v x = Some y → P y) →
  Forall (λ kv, wf_json kv.2.2) ms → P a → decode_members field ms a = Some a' → P a'.
Proof.
  intros Hf. unfold decode_members. revert a. induction ms as [|[k [raw v]] ms IH]; intros a Hms Ha; cbn; [by intros [= <-]|].
  apply Forall_cons in Hms as [Hv Hms]. destruct (field (fold_name k) raw v a) as [b|] eqn:E.
  - by apply IH, (Hf _ _ _ _ _ Hv Ha E).
  - cbn. intros En. exfalso. revert En. clear. induction ms as [|[k [raw v]] ms IH]; cbn; done.
Qed.

Definition plain_err (e : RPCErr) : Prop := err_ok e ∧ HTTPErrorCode e = 0.
Lemma dec_int_ok v old n : - two63 ≤ old < two63 → dec_int v old = Some n → - two63 ≤ n < two63.
Proof.
  intros Ho. destruct v; cbn; [by intros [= <-]|done| |done..]. unfold int_literal. destruct (if head_is 45 lit then _ else _) as [neg ds].
  destruct (digits_val ds 0) as [m|]; [|done]. cbn. destruct (_ && _) eqn:E; [|done]. intros [= <-]. apply andb_true_iff in E as [E1 E2]. lia.
Qed.
Lemma dec_err_ok raw v old e : (∀ o, old = Some o → plain_err o) → dec_err raw v old = Some (Some e) → plain_err e.
Proof.
  intros Ho. unfold dec_err, obj_members. destruct v; try done. destruct (json_top raw) as [[]|] eqn:Et; try done.
  apply json_top_ok in Et. cbn in Et |- *. destruct (decode_members err_field ms _) as [x|] eqn:E; [|done]. intros [= <-]. revert E.
  apply decode_members_ind; [|done|destruct old as [o|]; [by apply Ho|done]].
  intros k r v x' y _ [Hc Hh]. unfold err_field. destruct (String.eqb k "code").
  { destruct (dec_int v (Code x')) as [n|] eqn:En; [|done]. intros [= <-]. split; [by eapply dec_int_ok|done]. }
  destruct (String.eqb k "message"); [by destruct (dec_string _ _); [intros [= <-]|]|].
  destruct (String.eqb k "data"); [by destruct (dec_string _ _); [intros [= <-]|]|by intros [= <-]].
Qed.
Lemma unmarshal_ok `{Geth} body r : unmarshal_RPCRes body = Some r →
  any_ok (rs_Result r) ∧ sent_any (rs_Result r) = rs_Result r ∧ ∀ e, rs_Error r = Some e → plain_err e.
Proof.
  unfold unmarshal_RPCRes. destruct (json_top body) as [t|] eqn:Et; [|done]. apply json_top_ok in Et. cbn [mbind option_bind].
  destruct t; try done; [by intros [= <-]|]. cbn in Et.
  apply (decode_members_ind (λ r, any_ok (rs_Result r) ∧ sent_any (rs_Result r) = rs_Result r ∧ ∀ e, rs_Error r = Some e → plain_err e)); [|done|done].
  clear r Et ms body. intros k raw v x y Hv (Ha & Hs & He). unfold res_field.
  destruct (String.eqb k "jsonrpc"); [by destruct (dec_string _ _); [intros [= <-]|]|].
  destruct (String.eqb k "result"); [intros [= <-]; by split_and!; [destruct v..|]|].
  destruct (String.eqb k "error"); [|by destruct (String.eqb k "id"); intros [= <-]].
  destruct (dec_err raw v (rs_Error x)) as [o|] eqn:Eo; [|done]. intros [= <-]. split_and!; [done..|]. cbn. intros e ->. by eapply dec_err_ok.
Qed.
