(* ===== verification/Reader.v ===== *)
(** reader.go: the size-limited reader proxyd puts around request and response
    bodies, and io.ReadAll over it. *)
From stdpp Require Import base numbers list strings.
From S2P Require Import Prelude Json Rpc.

Local Open Scope string_scope.
Local Open Scope Z_scope.
#[local] Arguments String.append : simpl nomatch.

(** What a Read can report beside its bytes. *)
Inductive read_err := EOF | ReadErr (e : error).

(** An [io.Reader]: [Read] fills a buffer of the given length. *)
Class Reader (R : Type) := Read : nat → R → (string * option read_err) * R.

(** The contract of io.Reader for a reader over [content]: at most the buffer,
    in order, EOF at the end only, and no empty read without a report. *)
Class ReaderSpec (R : Type) `{Reader R} := {
  content : R → string;
  Read_prefix n r s e r' : Read n r = ((s, e), r') → content r = s +:+ content r';
  Read_bound n r s e r' : Read n r = ((s, e), r') → (String.length s ≤ n)%nat;
  Read_eof n r s r' : Read n r = ((s, Some EOF), r') → content r' = "";
  Read_progress n r r' : (0 < n)%nat → Read n r ≠ (("", None), r');
}.

Section limited.
Context {R : Type} `{Reader R}.

Record LimitedReader := mk_LimitedReader { lr_R : R; lr_N : Z }.

Definition LimitReader (r : R) (n : Z) : LimitedReader := mk_LimitedReader r n.

#[export] Instance Limited_Read : Reader LimitedReader := λ p l,
  if lr_N l <=? 0 then (("", Some (ReadErr (EPlain ErrLimitReaderOverLimit))), l)
  else
    let p := if lr_N l <? Z.of_nat p then Z.to_nat (lr_N l) else p in
    let '((s, err), r) := Read p (lr_R l) in
    ((s, err), mk_LimitedReader r (lr_N l - Z.of_nat (String.length s))).
End limited.
Arguments LimitedReader R : clear implicits.

(** io.ReadAll: reads until EOF or an error. The buffer lengths depend on how
    the slice grows; [caps i] is the one of the [i]-th read. [None] when the
    fuel runs out. *)
Fixpoint ReadAll {R} `{Reader R} (fuel i : nat) (caps : nat → nat) (acc : string) (r : R) :
    option (string * option error) :=
  match fuel with
  | O => None
  | S fuel =>
      let '((s, e), r) := Read (caps i) r in
      match e with
      | Some EOF => Some (acc +:+ s, None)
      | Some (ReadErr err) => Some (acc +:+ s, Some err)
      | None => ReadAll fuel (S i) caps (acc +:+ s) r
      end
  end.

(** A reader over a text that never fails, at most [S chunk] bytes at a time;
    it reports EOF by an empty read. *)
Fixpoint str_split (n : nat) (s : string) : string * string :=
  match n, s with
  | S n, String c s => let '(a, b) := str_split n s in (String c a, b)
  | _, _ => ("", s)
  end.

Record text_reader := mk_text { tr_chunk : nat; tr_text : string }.
#[export] Instance text_Read : Reader text_reader := λ n r,
  let '(s, rest) := str_split (Nat.min n (S (tr_chunk r))) (tr_text r) in
  ((s, if String.eqb (tr_text r) "" then Some EOF else None), mk_text (tr_chunk r) rest).

Lemma str_split_spec n s : s = (str_split n s).1 +:+ (str_split n s).2 ∧ (String.length (str_split n s).1 ≤ n)%nat.
Proof.
  revert s. induction n as [|n IH]; intros [|c s]; simpl; [split; [done|lia]..|].
  destruct (IH s) as [H1 H2]. destruct (str_split n s) as [a b]. simpl in *. split; [by f_equal|lia].
Qed.

#[export] Instance text_reader_spec : ReaderSpec text_reader.
Proof.
  refine {| content := tr_text |}; unfold Read, text_Read; intros n [k t]; simpl; intros *;
    pose proof (str_split_spec (Nat.min n (S k)) t) as [Hs Hl];
    destruct (str_split (Nat.min n (S k)) t) as [a b] eqn:Esp; simpl in *.
  - by intros [= <- _ <-].
  - intros [= <- _ <-]. lia.
  - destruct (String.eqb_spec t ""); [|done]. intros [= <- <-]. subst. by destruct a.
  - intros Hn [= -> He _]. destruct (String.eqb_spec t ""); [done|].
    destruct t as [|c t]; [done|]. destruct n; [lia|]. simpl in Esp. by destruct (str_split _ t).
Defined.

(** ** Reading a limited body *)

Section read_all.
Context {R : Type} `{ReaderSpec R}.

(** The reader reports no failure of its own. *)
Definition reliable : Prop := ∀ n (r : R) s e r', Read n r ≠ ((s, Some (ReadErr e)), r').

Definition limited_outcome (n : Z) (c out : string) (err : option error) : Prop :=
  (err = None ∧ out = c ∧ Z.of_nat (String.length c) ≤ n) ∨
  (err = Some (EPlain ErrLimitReaderOverLimit) ∧ ∃ rest, c = out +:+ rest ∧
    Z.of_nat (String.length out) = Z.max 0 n) ∨
  (∃ e, err = Some e ∧ ¬ reliable).

Lemma limited_Read_eq p (r : R) n :
  Read p (mk_LimitedReader r n) =
  if n <=? 0 then (("", Some (ReadErr (EPlain ErrLimitReaderOverLimit))), mk_LimitedReader r n)
  else
    let '((s, err), r) := Read (if n <? Z.of_nat p then Z.to_nat n else p) r in
    ((s, err), mk_LimitedReader r (n - Z.of_nat (String.length s))).
Proof. reflexivity. Qed.

Lemma read_all_limited fuel i caps acc (r : R) n :
  (∀ i, (0 < caps i)%nat) → (String.length (content r) < fuel)%nat →
  ∃ out err, ReadAll fuel i caps acc (LimitReader r n) = Some (acc +:+ out, err) ∧
    limited_outcome n (content r) out err.
Proof.
  intros Hcaps. revert i acc r n. induction fuel as [|fuel IH]; intros i acc r n Hlen; [lia|].
  cbn [ReadAll]. unfold LimitReader in *. rewrite limited_Read_eq.
  destruct (Z.leb_spec n 0) as [Hn|Hn].
  { eexists "", _. split; [done|]. right. left. split; [done|]. exists (content r). split; [done|]. simpl. lia. }
  set (p := if n <? Z.of_nat (caps i) then Z.to_nat n else caps i).
  assert (Hp : (0 < p)%nat ∧ Z.of_nat p ≤ n).
  { unfold p. specialize (Hcaps i). destruct (Z.ltb_spec n (Z.of_nat (caps i))); lia. }
  destruct (Read p r) as [[s e] r'] eqn:Er. pose proof (Read_prefix _ _ _ _ _ Er) as Hc.
  pose proof (Read_bound _ _ _ _ _ Er) as Hb. destruct e as [[|err]|]; [| |].
  - eexists s, _. split; [done|]. left. rewrite (Read_eof _ _ _ _ Er), str_app_nil in Hc.
    rewrite Hc. split_and!; [done..|lia].
  - exists s, (Some err). split; [done|]. right. right. exists err. split; [done|]. intros Hrel. by apply Hrel in Er.
  - assert (Hs : (0 < String.length s)%nat).
    { destruct s; [by destruct (Read_progress p r r'); [lia|]|simpl; lia]. }
    destruct (IH (S i) (acc +:+ s) r' (n - Z.of_nat (String.length s))) as (out & err & HR & Ho).
    { rewrite Hc, str_app_length in Hlen. lia. }
    exists (s +:+ out), err. rewrite HR, str_app_assoc. split; [done|].
    rewrite Hc. destruct Ho as [(-> & -> & Hle)|[(-> & rest & -> & Hle)|Hf]]; [left|right; left|by right; right].
    + rewrite str_app_length. split_and!; [done..|lia].
    + split; [done|]. exists rest. rewrite str_app_assoc, str_app_length. split; [done|lia].
Qed.

End read_all.

(** Reading a body through the limit ends, with the whole body and no
    error when the body is shorter than the limit, and with the over-limit
    error after exactly the first [n] bytes when it is longer. *)
Theorem limited_read_all {R} `{ReaderSpec R} (caps : nat → nat) (r : R) n fuel :
  reliable (R := R) → (∀ i, (0 < caps i)%nat) → 0 ≤ n → (String.length (content r) < fuel)%nat →
  (Z.of_nat (String.length (content r)) < n →
    ReadAll fuel 0 caps "" (LimitReader r n) = Some (content r, None)) ∧
  (n < Z.of_nat (String.length (content r)) →
    ∃ out rest, ReadAll fuel 0 caps "" (LimitReader r n) = Some (out, Some (EPlain ErrLimitReaderOverLimit)) ∧
      content r = out +:+ rest ∧ Z.of_nat (String.length out) = n).
Proof.
  intros Hrel Hcaps Hn Hfuel.
  destruct (read_all_limited fuel 0 caps "" r n Hcaps Hfuel) as (out & err & -> & Ho). simpl.
  destruct Ho as [(-> & -> & Hle)|[(-> & rest & -> & Hle)|(e & _ & [])]]; [| |done]; split; intros Hlt.
  - done.
  - lia.
  - rewrite str_app_length in Hlt. lia.
  - exists out, rest. split_and!; [done..|lia].
Qed.

(** The bodies of the unit test: 20 bytes with limits of 21 and 3. *)
Example limited_read_all_witness :
  let r := mk_text 6 "hellohellohellohello" in
  ReadAll 21 0 (λ _, 512%nat) "" (LimitReader r 21) = Some ("hellohellohellohello", None) ∧
  ∃ out rest, ReadAll 21 0 (λ _, 512%nat) "" (LimitReader r 3) =
    Some (out, Some (EPlain ErrLimitReaderOverLimit)) ∧
    content r = out +:+ rest ∧ Z.of_nat (String.length out) = 3.
Proof.
  intros r. assert (Hrel : reliable (R := text_reader)).
  { intros n [k t] s e r'. unfold Read, text_Read. simpl. destruct (str_split _ t). by destruct (String.eqb t ""). }
  split.
  - apply (proj1 (limited_read_all (λ _, 512%nat) r 21 21 Hrel (λ _, Nat.lt_0_succ _) ltac:(lia) ltac:(apply Nat.ltb_lt; vm_compute; reflexivity))).
    by vm_compute.
  - apply (proj2 (limited_read_all (λ _, 512%nat) r 3 21 Hrel (λ _, Nat.lt_0_succ _) ltac:(lia) ltac:(apply Nat.ltb_lt; vm_compute; reflexivity))).
    by vm_compute.
Defined.
