(* ===== verification/Rewriter.v ===== *)
(** rewriter.go: block tags of requests rewritten to the consensus state.

    A request is rewritten in place, so every function returns the request and
    the response it leaves behind.  [rewriteRange] can panic. *)
From stdpp Require Import base numbers list strings sets.
From S2P Require Import Prelude Json Geth Rpc.

Local Open Scope string_scope.
Local Open Scope Z_scope.

Record RewriteContext := mk_rctx { latest : Z; safe : Z; finalized : Z; maxBlockRange : Z }.

Inductive RewriteResult :=
| RewriteNone | RewriteOverrideError | RewriteOverrideRequest | RewriteOverrideResponse.

Definition set_Params (req : RPCReq) (p : string) : RPCReq :=
  mk_RPCReq (rq_JSONRPC req) (rq_Method req) p (rq_ID req).

Section rewriter.
Context `{Geth}.

(** json.Unmarshal into a [[]interface{}] and a [[]map[string]interface{}]
    (whose nil maps come from null elements). *)
Definition unmarshal_array (raw : string) : option (list json) :=
  v ← json_parse raw;
  match v with JArr l => Some l | JNull => Some [] | _ => None end.

Definition as_map (v : json) : option (option (list (string * json))) :=
  match v with JObj m => Some (Some m) | JNull => Some None | _ => None end.
Definition unmarshal_maps (raw : string) : option (list (option (list (string * json)))) :=
  l ← unmarshal_array raw; mapM as_map l.
Definition map_json (m : option (list (string * json))) : json :=
  match m with Some m => JObj m | None => JNull end.

Definition remarshalBlockNumberOrHash (current : json) : error + BlockNumberOrHash :=
  match bnh_UnmarshalJSON (json_marshal current) with
  | Some bnh => inr bnh
  | None => inl (ENew "invalid block number or hash")
  end.

Definition rewriteTag (rctx : RewriteContext) (current : string) : error + (string * bool) :=
  match remarshalBlockNumberOrHash (JStr current) with
  | inl err => inl err
  | inr bnh =>
      match bnh_BlockNumber bnh with
      | None => inr (current, false)
      | Some n =>
          if (n =? PendingBlockNumber) || (n =? EarliestBlockNumber) then inr (current, false)
          else if n =? FinalizedBlockNumber then inr (EncodeUint64 (finalized rctx), true)
          else if n =? SafeBlockNumber then inr (EncodeUint64 (safe rctx), true)
          else if n =? LatestBlockNumber then inr (EncodeUint64 (latest rctx), true)
          else if i64 (latest rctx) <? n then inl (EPlain ErrRewriteBlockOutOfRange)
          else inr (current, false)
      end
  end.

Definition rewriteTagBlockNumberOrHash (rctx : RewriteContext) (current : BlockNumberOrHash) :
    error + (BlockNumberOrHash * bool) :=
  match bnh_BlockNumber current with
  | None => inr (current, false)
  | Some n =>
      if (n =? PendingBlockNumber) || (n =? EarliestBlockNumber) then inr (current, false)
      else if n =? FinalizedBlockNumber then inr (BlockNumberOrHashWithNumber (i64 (finalized rctx)), true)
      else if n =? SafeBlockNumber then inr (BlockNumberOrHashWithNumber (i64 (safe rctx)), true)
      else if n =? LatestBlockNumber then inr (BlockNumberOrHashWithNumber (i64 (latest rctx)), true)
      else if i64 (latest rctx) <? n then inl (EPlain ErrRewriteBlockOutOfRange)
      else inr (current, false)
  end.

Definition outcome : Type := RewriteResult * option error * RPCReq * RPCRes.

(** The block parameter as [rewriteParam] rewrites it: its new value and
    whether it changed. *)
Definition rewrite_value (rctx : RewriteContext) (blockNrOrHash : bool) (v : json) : error + (json * bool) :=
  let as_string (v : json) (otherwise : string) :=
    match v with
    | JStr s =>
        match rewriteTag rctx s with inl err => inl err | inr (s, rw) => inr (JStr s, rw) end
    | _ => inl (ENew otherwise)
    end in
  if blockNrOrHash then
    match remarshalBlockNumberOrHash v with
    | inl _ => as_string v "expected BlockNumberOrHash or string"
    | inr bnh =>
        match rewriteTagBlockNumberOrHash rctx bnh with
        | inl err => inl err
        | inr (bnh, rw) => inr (bnh_json bnh, rw)
        end
    end
  else as_string v "expected string".

Definition rewriteParam (rctx : RewriteContext) (req : RPCReq) (res : RPCRes) (pos : nat)
    (required blockNrOrHash : bool) : outcome :=
  match unmarshal_array (rq_Params req) with
  | None => (RewriteOverrideError, Some (ENew "cannot unmarshal params"), req, res)
  | Some p =>
      let p := if (length p =? pos)%nat && negb required then (p ++ [JStr "latest"])%list else p in
      match p !! pos with
      | None => (RewriteNone, None, req, res)
      | Some v =>
          match rewrite_value rctx blockNrOrHash v with
          | inl err => (RewriteOverrideError, Some err, req, res)
          | inr (val, true) =>
              (RewriteOverrideRequest, None, set_Params req (json_marshal (JArr (<[pos := val]> p))), res)
          | inr (_, false) => (RewriteNone, None, req, res)
          end
      end
  end.

Definition rewriteTagMap (rctx : RewriteContext) (m : list (string * json)) (key : string) :
    error + (bool * list (string * json)) :=
  match obj_get m key with
  | None | Some JNull | Some (JStr "") => inr (false, m)
  | Some (JStr current) =>
      match rewriteTag rctx current with
      | inl err => inl err
      | inr (val, true) => inr (true, obj_set m key (JStr val))
      | inr (_, false) => inr (false, m)
      end
  | Some _ => inl (ENew "expected string")
  end.

Definition blockNumber (m : list (string * json)) (key : string) (latest : Z) : error + Z :=
  match obj_get m key with
  | Some (JStr current) =>
      if String.eqb current "earliest" then inr 0
      else if String.eqb current "pending" then inr (u64 (latest + 1))
      else match DecodeUint64 current with Some n => inr n | None => inl (ENew "invalid hex quantity") end
  | _ => inl (ENew "expected string")
  end.

(** The filter object as [rewriteRange] changes it, and whether it must be
    marshalled again. *)
Definition rewrite_filter (rctx : RewriteContext) (m : list (string * json)) :
    error + (bool * list (string * json)) :=
  let hasFrom := if obj_get m "fromBlock" then true else false in
  let hasTo := if obj_get m "toBlock" then true else false in
  let m := if hasFrom && negb hasTo then obj_set m "toBlock" (JStr "latest")
    else if hasTo && negb hasFrom then obj_set m "fromBlock" (JStr "latest") else m in
  match rewriteTagMap rctx m "fromBlock" with
  | inl err => inl err
  | inr (modifiedFrom, m) =>
      match rewriteTagMap rctx m "toBlock" with
      | inl err => inl err
      | inr (modifiedTo, m) =>
          let modified := modifiedFrom || modifiedTo in
          if (0 <? maxBlockRange rctx) && (hasFrom || hasTo) then
            match blockNumber m "fromBlock" (latest rctx) with
            | inl err => inl err
            | inr from =>
                match blockNumber m "toBlock" (latest rctx) with
                | inl err => inl err
                | inr to =>
                    if maxBlockRange rctx <? u64 (to - from) then inl (EPlain ErrRewriteRangeTooLarge)
                    else inr (modified, m)
                end
            end
          else inr (modified, m)
      end
  end.

Definition rewriteRange (rctx : RewriteContext) (req : RPCReq) (res : RPCRes) (pos : nat) : go outcome :=
  match unmarshal_maps (rq_Params req) with
  | None => Ret (RewriteOverrideError, Some (ENew "cannot unmarshal params"), req, res)
  | Some p =>
      match p !! pos with
      | None => Panic "index out of range"
      | Some None => Ret (RewriteNone, None, req, res)
      | Some (Some m) =>
          match rewrite_filter rctx m with
          | inl err => Ret (RewriteOverrideError, Some err, req, res)
          | inr (true, m) =>
              Ret (RewriteOverrideRequest, None,
                set_Params req (json_marshal (JArr (map_json <$> <[pos := Some m]> p))), res)
          | inr (false, _) => Ret (RewriteNone, None, req, res)
          end
      end
  end.

Definition RewriteResponse (rctx : RewriteContext) (req : RPCReq) (res : RPCRes) : RewriteResult * option error * RPCRes :=
  if String.eqb (rq_Method req) "eth_blockNumber" then
    (RewriteOverrideResponse, None,
     mk_RPCRes (rs_JSONRPC res) (AUint64 (latest rctx)) (rs_Error res) (rs_ID res))
  else (RewriteNone, None, res).

Definition method_in (m : string) (l : list string) : bool := existsb (String.eqb m) l.

Definition RewriteRequest (rctx : RewriteContext) (req : RPCReq) (res : RPCRes) : go outcome :=
  let isin := method_in (rq_Method req) in
  if isin ["eth_getLogs"; "eth_newFilter"] then rewriteRange rctx req res 0
  else if isin ["debug_getRawReceipts"; "consensus_getReceipts"] then
    Ret (rewriteParam rctx req res 0 true false)
  else if isin ["eth_getBalance"; "eth_getCode"; "eth_getTransactionCount"; "eth_call"] then
    Ret (rewriteParam rctx req res 1 false true)
  else if isin ["eth_getStorageAt"; "eth_getProof"] then
    Ret (rewriteParam rctx req res 2 false true)
  else if isin ["eth_getBlockTransactionCountByNumber"; "eth_getUncleCountByBlockNumber";
    "eth_getBlockByNumber"; "eth_getTransactionByBlockNumberAndIndex";
    "eth_getUncleByBlockNumberAndIndex"] then Ret (rewriteParam rctx req res 0 false false)
  else Ret (RewriteNone, None, req, res).

Definition RewriteTags (rctx : RewriteContext) (req : RPCReq) (res : RPCRes) : go outcome :=
  let '(rw, err, res) := RewriteResponse rctx req res in
  match rw with
  | RewriteOverrideResponse => Ret (rw, err, req, res)
  | _ => RewriteRequest rctx req res
  end.

End rewriter.

(** A request for the latest block, rewritten. *)
Example rewrite_ex :
  let rctx := mk_rctx 100 90 80 30 in
  let req := mk_RPCReq "2.0" "eth_getBalance" (jtext "['0xab','latest']") "1" in
  (λ o : outcome, (o.1.1.1, rq_Params o.1.2)) <$> 
    match RewriteTags rctx req empty_RPCRes with Ret o => Some o | _ => None end =
  Some (RewriteOverrideRequest, jtext "['0xab',{'blockNumber':'0x64'}]").
Proof. by vm_compute. Qed.

Example rewrite_range_ex :
  let rctx := mk_rctx 100 90 80 30 in
  let req p := mk_RPCReq "2.0" "eth_getLogs" (jtext p) "1" in
  let run p := match RewriteTags rctx (req p) empty_RPCRes with
    | Ret o => Some (o.1.1.1, o.1.1.2, rq_Params o.1.2) | _ => None end in
  run "[{'fromBlock':'0x50'}]" =
    Some (RewriteOverrideRequest, None, jtext "[{'fromBlock':'0x50','toBlock':'0x64'}]") ∧
  run "[{'fromBlock':'0x10'}]" =
    Some (RewriteOverrideError, Some (EPlain ErrRewriteRangeTooLarge), jtext "[{'fromBlock':'0x10'}]").
Proof. by vm_compute. Qed.

(** ** What is forwarded respects the consensus state *)

Section forwarded.
Context `{GethSpec}.

(** The consensus state fits the int64 block numbers are compared in. *)
Definition rctx_ok (rctx : RewriteContext) : Prop :=
  0 ≤ latest rctx < two63 ∧ 0 ≤ safe rctx < two63 ∧ 0 ≤ finalized rctx < two63 ∧
  0 ≤ maxBlockRange rctx < two63.

(** A block number a backend may be asked for: no tag that moves, and nothing
    beyond the consensus state. *)
Definition number_ok (rctx : RewriteContext) (n : Z) : Prop :=
  n = PendingBlockNumber ∨ n = EarliestBlockNumber ∨
  (n ≠ LatestBlockNumber ∧ n ≠ SafeBlockNumber ∧ n ≠ FinalizedBlockNumber ∧
   (n ≤ latest rctx ∨ n = safe rctx ∨ n = finalized rctx)).

(** A parameter that names such a number, or no number. *)
Definition within (rctx : RewriteContext) (v : json) : Prop :=
  ∃ b, bnh_UnmarshalJSON (json_marshal v) = Some b ∧
    match bnh_BlockNumber b with Some n => number_ok rctx n | None => True end.

Lemma consensus_number_ok rctx n : 0 ≤ n →
  n ≤ latest rctx ∨ n = safe rctx ∨ n = finalized rctx → number_ok rctx n.
Proof. intros Hn Hin. pose proof tags_nonpos. right. right. split_and!; [lia..|done]. Qed.

Lemma within_number rctx v n :
  bnh_UnmarshalJSON (json_marshal v) = Some (BlockNumberOrHashWithNumber n) → number_ok rctx n → within rctx v.
Proof. intros Hu Hn. by exists (BlockNumberOrHashWithNumber n). Qed.

(** Number tests of the two rewriting functions, in one place. *)
Lemma untouched_number_ok rctx n : rctx_ok rctx →
  n ≠ FinalizedBlockNumber → n ≠ SafeBlockNumber → n ≠ LatestBlockNumber →
  ¬ i64 (latest rctx) < n → number_ok rctx n.
Proof.
  intros (Hl & _) ? ? ? Hn. rewrite i64_small in Hn by done. right. right. split_and!; [done..|left; lia].
Qed.

Lemma rewriteTag_within rctx s s' rw : rctx_ok rctx →
  rewriteTag rctx s = inr (s', rw) → within rctx (JStr s') ∧ (rw = false → s' = s).
Proof.
  intros Hok. pose proof Hok as (Hl & Hs & Hf & _).
  unfold rewriteTag, remarshalBlockNumberOrHash.
  destruct (bnh_UnmarshalJSON (json_marshal (JStr s))) as [b|] eqn:Hb; [|done].
  destruct (bnh_BlockNumber b) as [n|] eqn:Hn.
  2:{ intros [= <- <-]. split; [|done]. exists b. by rewrite Hn. }
  assert (Hself : number_ok rctx n → within rctx (JStr s)) by (intros; exists b; by rewrite Hn).
  destruct (Z.eqb_spec n PendingBlockNumber) as [->|Hp]; [|destruct (Z.eqb_spec n EarliestBlockNumber) as [->|He]]; simpl.
  1,2: intros [= <- <-]; split; [apply Hself; unfold number_ok; tauto|done].
  destruct (Z.eqb_spec n FinalizedBlockNumber) as [->|Hnf].
  { intros [= <- <-]. split; [|done]. eapply within_number; [by apply Unmarshal_quantity|].
    apply consensus_number_ok; [lia|tauto]. }
  destruct (Z.eqb_spec n SafeBlockNumber) as [->|Hns].
  { intros [= <- <-]. split; [|done]. eapply within_number; [by apply Unmarshal_quantity|].
    apply consensus_number_ok; [lia|tauto]. }
  destruct (Z.eqb_spec n LatestBlockNumber) as [->|Hnl].
  { intros [= <- <-]. split; [|done]. eapply within_number; [by apply Unmarshal_quantity|].
    apply consensus_number_ok; [lia|left; lia]. }
  destruct (Z.ltb_spec (i64 (latest rctx)) n); [done|]. intros [= <- <-]. split; [|done].
  apply Hself, untouched_number_ok; [done..|lia].
Qed.

Lemma rewriteTagBNH_within rctx v b b' rw : rctx_ok rctx →
  bnh_UnmarshalJSON (json_marshal v) = Some b → rewriteTagBlockNumberOrHash rctx b = inr (b', rw) →
  if rw then within rctx (bnh_json b') ∧ wf_json (bnh_json b') else within rctx v.
Proof.
  intros Hok Hb. pose proof Hok as (Hl & Hs & Hf & _). unfold rewriteTagBlockNumberOrHash.
  destruct (bnh_BlockNumber b) as [n|] eqn:Hn.
  2:{ intros [= <- <-]. exists b. by rewrite Hn. }
  assert (Hself : number_ok rctx n → within rctx v) by (intros; exists b; by rewrite Hn).
  assert (Hnew : ∀ k, 0 ≤ k < two63 → k ≤ latest rctx ∨ k = safe rctx ∨ k = finalized rctx →
    within rctx (bnh_json (BlockNumberOrHashWithNumber (i64 k))) ∧
    wf_json (bnh_json (BlockNumberOrHashWithNumber (i64 k)))).
  { intros k Hk Hin. rewrite i64_small by done. split; [|by apply bnh_json_wf].
    eapply within_number; [by apply Unmarshal_Marshal|]. apply consensus_number_ok; [lia|done]. }
  destruct (Z.eqb_spec n PendingBlockNumber) as [->|Hp]; [|destruct (Z.eqb_spec n EarliestBlockNumber) as [->|He]]; simpl.
  1,2: intros [= <- <-]; apply Hself; unfold number_ok; tauto.
  destruct (Z.eqb_spec n FinalizedBlockNumber) as [->|Hnf]; [intros [= <- <-]; apply Hnew; [done|tauto]|].
  destruct (Z.eqb_spec n SafeBlockNumber) as [->|Hns]; [intros [= <- <-]; apply Hnew; [done|tauto]|].
  destruct (Z.eqb_spec n LatestBlockNumber) as [->|Hnl]; [intros [= <- <-]; apply Hnew; [done|left; lia]|].
  destruct (Z.ltb_spec (i64 (latest rctx)) n); [done|]. intros [= <- <-].
  apply Hself, untouched_number_ok; [done..|lia].
Qed.

Lemma rewrite_value_within rctx bh v val rw : rctx_ok rctx →
  rewrite_value rctx bh v = inr (val, rw) →
  if rw then within rctx val ∧ wf_json val else within rctx v.
Proof.
  intros Hok. unfold rewrite_value.
  assert (Hstr : ∀ msg, match v with
      | JStr s => match rewriteTag rctx s with inl err => inl err | inr (s, rw) => inr (JStr s, rw) end
      | _ => inl (ENew msg) end = inr (val, rw) → if rw then within rctx val ∧ wf_json val else within rctx v).
  { intros msg. destruct v; try done. destruct (rewriteTag rctx s) as [|[s' rw']] eqn:E; [done|].
    intros [= <- <-]. apply rewriteTag_within in E as [Hw Hsame]; [|done].
    destruct rw'; [done|]. by rewrite <-Hsame. }
  destruct bh; [|apply Hstr]. destruct (remarshalBlockNumberOrHash v) as [err|b] eqn:Hb; [apply Hstr|].
  unfold remarshalBlockNumberOrHash in Hb. destruct (bnh_UnmarshalJSON (json_marshal v)) eqn:Hu; [|done].
  simplify_eq. destruct (rewriteTagBlockNumberOrHash rctx b) as [|[b' rw']] eqn:Hrw; [done|].
  intros [= <- <-]. by eapply rewriteTagBNH_within.
Qed.
Lemma unmarshal_array_wf raw p : unmarshal_array raw = Some p → Forall wf_json p.
Proof.
  unfold unmarshal_array. destruct (json_parse raw) as [v|] eqn:E; [|done]. apply json_parse_wf in E. simpl.
  destruct v; try done; intros [= <-]; [constructor|]. by apply wf_json_arr.
Qed.

Lemma unmarshal_array_marshal p : Forall wf_json p → unmarshal_array (json_marshal (JArr p)) = Some p.
Proof. intros Hp. unfold unmarshal_array. rewrite json_roundtrip; [done|]. by apply wf_json_arr. Qed.

(** What a decision means for the block parameter of the request left behind,
    and for the other parameters. *)
Definition param_forwarded (rctx : RewriteContext) (pos : nat) (req req' : RPCReq) : Prop :=
  ∃ p p', unmarshal_array (rq_Params req) = Some p ∧ unmarshal_array (rq_Params req') = Some p' ∧
    (∀ v, p' !! pos = Some v → within rctx v) ∧ ∀ i, i ≠ pos → p' !! i = p !! i.

Definition forwards (rw : RewriteResult) : Prop := rw = RewriteNone ∨ rw = RewriteOverrideRequest.

Lemma rewriteParam_forwarded rctx req res pos required bh rw err req' res' : rctx_ok rctx →
  rewriteParam rctx req res pos required bh = (rw, err, req', res') → forwards rw →
  param_forwarded rctx pos req req'.
Proof.
  intros Hok HR Hf. unfold rewriteParam in HR.
  destruct (unmarshal_array (rq_Params req)) as [p|] eqn:Hp.
  2:{ by injection HR as <- _ _ _; destruct Hf. }
  pose proof (unmarshal_array_wf _ _ Hp) as Hwf.
  set (q := if (length p =? pos)%nat && negb required then (p ++ [JStr "latest"])%list else p) in *.
  assert (Hq : Forall wf_json q ∧ (length p ≤ length q)%nat ∧ ∀ i, i ≠ pos → q !! i = p !! i).
  { unfold q. destruct (Nat.eqb_spec (length p) pos) as [<-|]; [|done]. destruct required; [done|]. simpl.
    split_and!; [apply Forall_app; split; [done|by repeat constructor]|rewrite length_app; lia|]. intros i Hi.
    destruct (decide (i < length p)%nat); [by apply lookup_app_l|].
    rewrite !lookup_ge_None_2; [done|lia|rewrite length_app; simpl; lia]. }
  destruct Hq as (Hqwf & Hqlen & Hqi). destruct (q !! pos) as [v|] eqn:Hv.
  2:{ injection HR as <- <- <- <-. exists p, p. split_and!; [done..| |done].
      intros v Hv'. apply lookup_ge_None_1 in Hv. apply lookup_lt_Some in Hv'. lia. }
  destruct (rewrite_value rctx bh v) as [e|[val [|]]] eqn:Hval.
  - by injection HR as <- _ _ _; destruct Hf.
  - apply rewrite_value_within in Hval as [Hw Hvwf]; [|done]. injection HR as <- <- <- <-.
    exists p, (<[pos := val]> q). simpl. rewrite unmarshal_array_marshal by (by apply Forall_insert).
    split_and!; [done..| |].
    + intros v'. rewrite list_lookup_insert_eq by (by eapply lookup_lt_Some). by intros [= <-].
    + intros i Hi. by rewrite list_lookup_insert_ne, Hqi.
  - apply rewrite_value_within in Hval; [|done]. injection HR as <- <- <- <-.
    exists p, p. split_and!; [done..| |done]. intros v' Hv'.
    assert (Hsame : q = p); [|by rewrite Hsame in Hv; simplify_eq].
    unfold q. destruct (Nat.eqb_spec (length p) pos) as [<-|]; [|done].
    apply lookup_lt_Some in Hv'. lia.
Qed.

(** The position of the block parameter of a method. *)
Definition block_position (method : string) : option nat :=
  if method_in method ["debug_getRawReceipts"; "consensus_getReceipts";
    "eth_getBlockTransactionCountByNumber"; "eth_getUncleCountByBlockNumber"; "eth_getBlockByNumber";
    "eth_getTransactionByBlockNumberAndIndex"; "eth_getUncleByBlockNumberAndIndex"] then Some 0%nat
  else if method_in method ["eth_getBalance"; "eth_getCode"; "eth_getTransactionCount"; "eth_call"]
  then Some 1%nat
  else if method_in method ["eth_getStorageAt"; "eth_getProof"] then Some 2%nat
  else None.

Lemma method_in_cases (P : string → Prop) m l :
  method_in m l = true → Forall P l → P m.
Proof.
  unfold method_in. intros Hin Hl. apply existsb_exists in Hin as (x & Hx & Heq).
  apply String.eqb_eq in Heq as ->. rewrite Forall_forall in Hl. apply Hl. by apply list_elem_of_In.
Qed.

(** For a method with a block parameter, rewriting the tags is [rewriteParam]. *)
Lemma RewriteTags_param rctx req res pos : block_position (rq_Method req) = Some pos →
  ∃ required bh, RewriteTags rctx req res = Ret (rewriteParam rctx req res pos required bh).
Proof.
  unfold RewriteTags, RewriteResponse, RewriteRequest, block_position.
  destruct (method_in (rq_Method req) [_; _; _; _; _; _; _]) eqn:E0.
  { intros [= <-]. pattern (rq_Method req). apply (method_in_cases _ _ _ E0).
    repeat constructor; cbn; eauto. }
  destruct (method_in (rq_Method req) [_; _; _; _]) eqn:E1 at 1.
  { intros [= <-]. pattern (rq_Method req). apply (method_in_cases _ _ _ E1).
    repeat constructor; cbn; eauto. }
  destruct (method_in (rq_Method req) [_; _]) eqn:E2 at 1; [|done].
  intros [= <-]. pattern (rq_Method req). apply (method_in_cases _ _ _ E2).
  repeat constructor; cbn; eauto.
Qed.


(** *** Filters *)

Lemma string_compare_refl k : String.compare k k = Eq.
Proof. induction k as [|c k IH]; [done|]. cbn. unfold Ascii.compare. by rewrite N.compare_refl. Qed.

Lemma obj_get_set m k v k' :
  obj_get (obj_set m k v) k' = if String.eqb k' k then Some v else obj_get m k'.
Proof.
  induction m as [|[k1 v1] m IH]; cbn; [done|].
  destruct (String.compare k k1) eqn:E; cbn; [| |rewrite IH].
  - apply String.compare_eq_iff in E as ->. by destruct (String.eqb_spec k' k1).
  - done.
  - destruct (String.eqb_spec k' k1) as [->|]; [|done].
    destruct (String.eqb_spec k1 k) as [->|]; [|done]. by rewrite string_compare_refl in E.
Qed.

Lemma obj_set_wf m k v : wf_json v → wf_json (JObj m) → wf_json (JObj (obj_set m k v)).
Proof.
  rewrite !wf_json_obj. intros Hv [Hs Hm]. split; [by apply obj_set_sorted|by apply (obj_set_forall wf_json)].
Qed.

(** A block of a filter: absent, null, empty, or one a backend may be asked for. *)
Definition bound_ok (rctx : RewriteContext) (m : list (string * json)) (key : string) : Prop :=
  match obj_get m key with
  | None | Some JNull | Some (JStr "") => True
  | Some v => within rctx v
  end.

Lemma rewriteTagMap_ok rctx m key b m' : rctx_ok rctx →
  rewriteTagMap rctx m key = inr (b, m') →
  bound_ok rctx m' key ∧ (b = false → m' = m) ∧ (wf_json (JObj m) → wf_json (JObj m')) ∧
  (∀ k, k ≠ key → obj_get m' k = obj_get m k) ∧ (obj_get m' key = None ↔ obj_get m key = None).
Proof.
  intros Hok. unfold rewriteTagMap, bound_ok.
  destruct (obj_get m key) as [v|] eqn:Hv; [|intros [= <- <-]; by rewrite Hv].
  destruct v as [| | |s| |]; try done; [intros [= <- <-]; by rewrite Hv|].
  destruct s as [|c s]; [intros [= <- <-]; by rewrite Hv|].
  destruct (rewriteTag rctx (String c s)) as [|[s' [|]]] eqn:E; [done|..];
    apply rewriteTag_within in E as [Hw Hs]; [|done| |done]; intros [= <- <-].
  - rewrite obj_get_set, String.eqb_refl. split_and!; [by destruct s'|done|by apply obj_set_wf| |done].
    intros k Hk. rewrite obj_get_set. by destruct (String.eqb_spec k key).
  - rewrite Hv. rewrite Hs in Hw by done. done.
Qed.

Lemma blockNumber_bound rctx m key n : rctx_ok rctx → bound_ok rctx m key →
  blockNumber m key (latest rctx) = inr n → 0 ≤ n ≤ two63.
Proof.
  intros (Hl & _) Hb. unfold blockNumber, bound_ok in *.
  destruct (obj_get m key) as [[| | |s| |]|]; try done.
  destruct (String.eqb s "earliest"); [intros [= <-]; unfold two63; lia|].
  destruct (String.eqb s "pending").
  { intros [= <-]. rewrite u64_small; [lia|]. unfold is_u64, two63, two64 in *. lia. }
  destruct (DecodeUint64 s) as [d|] eqn:Hd; [|done]. intros [= <-].
  pose proof (Decode_range _ _ Hd) as [Hd0 _]. destruct s as [|c s]; [by rewrite Decode_empty in Hd|].
  destruct Hb as (b & Hu & _). destruct (Unmarshal_number _ _ _ Hd Hu). lia.
Qed.

(** The range of a filter, when the configuration limits ranges. *)
Definition range_ok (rctx : RewriteContext) (m : list (string * json)) : Prop :=
  0 < maxBlockRange rctx → obj_get m "fromBlock" ≠ None ∨ obj_get m "toBlock" ≠ None →
  ∃ from to, blockNumber m "fromBlock" (latest rctx) = inr from ∧
    blockNumber m "toBlock" (latest rctx) = inr to ∧ from ≤ to ≤ from + maxBlockRange rctx.

Lemma range_test rctx from to : rctx_ok rctx → 0 ≤ from ≤ two63 → 0 ≤ to ≤ two63 →
  ¬ maxBlockRange rctx < u64 (to - from) → from ≤ to ≤ from + maxBlockRange rctx.
Proof.
  intros (_ & _ & _ & Hm) Hf Ht. destruct (Z.le_gt_cases from to) as [Hle|Hgt].
  - rewrite u64_small; [lia|]. unfold is_u64, two63, two64 in *. lia.
  - unfold u64. rewrite <-(Z.mod_add _ 1) by done. rewrite Z.mod_small; unfold two63, two64 in *; lia.
Qed.

(** The defaults put in for the missing side of a range. *)
Definition with_defaults (m : list (string * json)) : list (string * json) :=
  match obj_get m "fromBlock", obj_get m "toBlock" with
  | Some _, None => obj_set m "toBlock" (JStr "latest")
  | None, Some _ => obj_set m "fromBlock" (JStr "latest")
  | _, _ => m
  end.

Lemma rewriteTagMap_latest rctx m key : obj_get m key = Some (JStr "latest") →
  ∃ m', rewriteTagMap rctx m key = inr (true, m').
Proof.
  intros Hm. unfold rewriteTagMap, rewriteTag, remarshalBlockNumberOrHash. rewrite Hm, Unmarshal_latest.
  cbn [bnh_BlockNumber BlockNumberOrHashWithNumber].
  pose proof tags_distinct as Hnd. rewrite !NoDup_cons in Hnd.
  destruct (Z.eqb_spec LatestBlockNumber PendingBlockNumber); [set_solver|].
  destruct (Z.eqb_spec LatestBlockNumber EarliestBlockNumber); [set_solver|]. simpl.
  destruct (Z.eqb_spec LatestBlockNumber FinalizedBlockNumber); [set_solver|].
  destruct (Z.eqb_spec LatestBlockNumber SafeBlockNumber); [set_solver|].
  rewrite Z.eqb_refl. eauto.
Qed.

Lemma rewrite_filter_eq rctx m :
  rewrite_filter rctx m =
  match rewriteTagMap rctx (with_defaults m) "fromBlock" with
  | inl err => inl err
  | inr (modifiedFrom, m1) =>
      match rewriteTagMap rctx m1 "toBlock" with
      | inl err => inl err
      | inr (modifiedTo, m2) =>
          if (0 <? maxBlockRange rctx) &&
             bool_decide (obj_get m "fromBlock" ≠ None ∨ obj_get m "toBlock" ≠ None) then
            match blockNumber m2 "fromBlock" (latest rctx) with
            | inl err => inl err
            | inr from =>
                match blockNumber m2 "toBlock" (latest rctx) with
                | inl err => inl err
                | inr to =>
                    if maxBlockRange rctx <? u64 (to - from) then inl (EPlain ErrRewriteRangeTooLarge)
                    else inr (modifiedFrom || modifiedTo, m2)
                end
            end
          else inr (modifiedFrom || modifiedTo, m2)
      end
  end.
Proof.
  unfold rewrite_filter, with_defaults.
  destruct (obj_get m "fromBlock"), (obj_get m "toBlock"); simpl;
    rewrite ?bool_decide_true by naive_solver; rewrite ?bool_decide_false by naive_solver; done.
Qed.

Lemma with_defaults_facts m :
  (wf_json (JObj m) → wf_json (JObj (with_defaults m))) ∧
  (∀ k, k ≠ "fromBlock" → k ≠ "toBlock" → obj_get (with_defaults m) k = obj_get m k) ∧
  (obj_get (with_defaults m) "fromBlock" ≠ None ∨ obj_get (with_defaults m) "toBlock" ≠ None →
   obj_get m "fromBlock" ≠ None ∨ obj_get m "toBlock" ≠ None) ∧
  (with_defaults m = m ∨ obj_get (with_defaults m) "fromBlock" = Some (JStr "latest") ∨
   obj_get (with_defaults m) "toBlock" = Some (JStr "latest")).
Proof.
  unfold with_defaults.
  destruct (obj_get m "fromBlock") eqn:Hf, (obj_get m "toBlock") eqn:Ht; rewrite ?obj_get_set, ?Hf, ?Ht; simpl.
  all: split_and!; [try done; intros; by apply obj_set_wf| | |]; eauto.
  all: intros k Hk Hk'; rewrite obj_get_set.
  - by destruct (String.eqb_spec k "toBlock").
  - by destruct (String.eqb_spec k "fromBlock").
Qed.

(** What is left of a filter [m] as [m'], changed or not. *)
Definition filter_ok (rctx : RewriteContext) (m : list (string * json)) (b : bool) (m' : list (string * json)) : Prop :=
  wf_json (JObj m') ∧ bound_ok rctx m' "fromBlock" ∧ bound_ok rctx m' "toBlock" ∧
  (b = false → m' = m) ∧ (∀ k, k ≠ "fromBlock" → k ≠ "toBlock" → obj_get m' k = obj_get m k).

Lemma rewrite_bounds_ok rctx m b1 m1 b2 m2 : rctx_ok rctx → wf_json (JObj m) →
  rewriteTagMap rctx (with_defaults m) "fromBlock" = inr (b1, m1) →
  rewriteTagMap rctx m1 "toBlock" = inr (b2, m2) →
  filter_ok rctx m (b1 || b2) m2 ∧
  (obj_get m2 "fromBlock" ≠ None ∨ obj_get m2 "toBlock" ≠ None →
   obj_get m "fromBlock" ≠ None ∨ obj_get m "toBlock" ≠ None).
Proof.
  intros Hok Hwf E1 E2. destruct (with_defaults_facts m) as (Dwf & Dk & Dhas & Dsame).
  destruct (rewriteTagMap_ok _ _ _ _ _ Hok E1) as (Hb1 & Hs1 & Hw1 & Hk1 & Hn1).
  destruct (rewriteTagMap_ok _ _ _ _ _ Hok E2) as (Hb2 & Hs2 & Hw2 & Hk2 & Hn2).
  split.
  - split_and!; [by auto|unfold bound_ok; rewrite Hk2 by done; exact Hb1|done| |].
    + intros [-> ->]%orb_false_iff. rewrite Hs2, Hs1 by done. destruct Dsame as [->|[Hl|Hl]]; [done|..].
      * destruct (rewriteTagMap_latest rctx _ _ Hl) as (? & E). by rewrite E in E1.
      * rewrite <-Hk1 in Hl by done. destruct (rewriteTagMap_latest rctx _ _ Hl) as (? & E). by rewrite E in E2.
    + intros k Hk Hk'. by rewrite Hk2, Hk1, Dk.
  - intros Hh. apply Dhas. rewrite (Hk2 "fromBlock") in Hh by done.
    rewrite (Hk1 "toBlock") in Hn2 by done. tauto.
Qed.

Lemma rewrite_filter_ok rctx m b m' : rctx_ok rctx → wf_json (JObj m) →
  rewrite_filter rctx m = inr (b, m') → filter_ok rctx m b m' ∧ range_ok rctx m'.
Proof.
  intros Hok Hwf. rewrite rewrite_filter_eq.
  destruct (rewriteTagMap rctx (with_defaults m) "fromBlock") as [|[b1 m1]] eqn:E1; [done|].
  destruct (rewriteTagMap rctx m1 "toBlock") as [|[b2 m2]] eqn:E2; [done|].
  destruct (rewrite_bounds_ok _ _ _ _ _ _ Hok Hwf E1 E2) as [Hf Hhas].
  destruct (Z.ltb_spec 0 (maxBlockRange rctx)) as [Hm|Hm]; simpl.
  2:{ intros [= <- <-]. split; [done|]. intros ?. lia. }
  case_bool_decide as Hd.
  2:{ intros [= <- <-]. split; [done|]. intros _ Hh. tauto. }
  destruct (blockNumber m2 "fromBlock" (latest rctx)) as [|from] eqn:Hfr; [done|].
  destruct (blockNumber m2 "toBlock" (latest rctx)) as [|to] eqn:Hto; [done|].
  destruct (Z.ltb_spec (maxBlockRange rctx) (u64 (to - from))) as [|Hle]; [done|].
  intros [= <- <-]. split; [done|]. destruct Hf as (_ & Hbf & Hbt & _).
  intros _ _. exists from, to. split; [done|]. split; [done|].
  pose proof (blockNumber_bound _ _ _ _ Hok Hbf Hfr). pose proof (blockNumber_bound _ _ _ _ Hok Hbt Hto).
  apply (range_test rctx from to); [done..|lia].
Qed.

Lemma unmarshal_maps_marshal p : Forall (λ m, wf_json (map_json m)) p →
  unmarshal_maps (json_marshal (JArr (map_json <$> p))) = Some p.
Proof.
  intros Hp. unfold unmarshal_maps. rewrite unmarshal_array_marshal by (by apply Forall_fmap). simpl.
  clear Hp. induction p as [|[m|] p IH]; [done|..]; csimpl; unfold mbind, option_bind in *; simpl in *; by rewrite IH.
Qed.

Lemma unmarshal_maps_wf raw p : unmarshal_maps raw = Some p → Forall (λ m, wf_json (map_json m)) p.
Proof.
  unfold unmarshal_maps. destruct (unmarshal_array raw) as [l|] eqn:E; [|done]. simpl.
  apply unmarshal_array_wf in E. intros Hm%mapM_Some_1. revert E.
  induction Hm as [|v m l p Hv _ IH]; intros Hl; [constructor|]. apply Forall_cons in Hl as [Hwv Hl].
  constructor; [|auto]. destruct v; simplify_eq/=; done.
Qed.

(** The filter of the request left behind, beside that of the client. *)
Definition filter_forwarded (rctx : RewriteContext) (req req' : RPCReq) : Prop :=
  ∃ p p', unmarshal_maps (rq_Params req) = Some p ∧ unmarshal_maps (rq_Params req') = Some p' ∧
    (∀ i, i ≠ 0%nat → p' !! i = p !! i) ∧
    match p !! 0%nat, p' !! 0%nat with
    | Some (Some m), Some (Some m') =>
        bound_ok rctx m' "fromBlock" ∧ bound_ok rctx m' "toBlock" ∧ range_ok rctx m' ∧
        ∀ k, k ≠ "fromBlock" → k ≠ "toBlock" → obj_get m' k = obj_get m k
    | Some None, Some None => True
    | _, _ => False
    end.


(** A log filter request with no parameters, [[]] or null, makes the
    rewriter index an empty slice: the handler panics. *)
Theorem empty_filter_panics rctx req res :
  method_in (rq_Method req) ["eth_getLogs"; "eth_newFilter"] = true →
  unmarshal_array (rq_Params req) = Some [] → ∃ why, RewriteTags rctx req res = Panic why.
Proof.
  intros Hmeth Hp. eexists. unfold RewriteTags, RewriteResponse, RewriteRequest. rewrite Hmeth.
  destruct (String.eqb_spec (rq_Method req) "eth_blockNumber") as [E|]; [by rewrite E in Hmeth|].
  unfold rewriteRange, unmarshal_maps. by rewrite Hp.
Qed.

End forwarded.



Example empty_filter_panics_witness :
  ∃ why, RewriteTags (mk_rctx 100 90 80 0) (mk_RPCReq "2.0" "eth_getLogs" "[]" "1") empty_RPCRes = Panic why.
Proof. apply empty_filter_panics; vm_compute; reflexivity. Defined.
