(* ===== verification/RateLimiter.v ===== *)
(** The front-end rate limiters of proxyd (frontend_rate_limiter.go): the
    in-memory limiter with its generations of counters and the interleavings of
    its two critical sections, the Redis limiter over an interface of the two
    Redis commands it pipelines, the no-op limiter and the fallback pair. *)
From stdpp Require Import base numbers list gmap strings pretty fin_maps option sorting relations.
From S2P Require Import Prelude.

Local Open Scope string_scope.
Local Open Scope Z_scope.
#[local] Arguments String.append : simpl nomatch.

(** [truncateNow(dur)] at the instant [now]. *)
Definition truncateNow (dur now : Z) : Z := time_Unix (time_Truncate now dur).

(** The interface the server is written against: a limiter answers whether the
    key may proceed, or fails with an error. [E] is the type of errors. *)
Record FrontendRateLimiter (E St : Type) := mk_limiter {
  Take : Z → string → St → (bool * option E) * St
}.
Arguments mk_limiter {E St} Take.
Arguments Take {E St} f now key st.

(** ** Counters of one generation *)

Record limitedKeys := mk_limitedKeys { truncTS : Z; keys : gmap string Z }.

Definition newLimitedKeys (t : Z) : limitedKeys := mk_limitedKeys t ∅.

(** [limitedKeys.Take], the body under its mutex. *)
Definition limitedKeys_Take (l : limitedKeys) (key : string) (max : Z) : bool * limitedKeys :=
  let '(val, ks) :=
    match keys l !! key with
    | Some val => (val, keys l)
    | None => (0, <[key := 0]> (keys l))
    end in
  (val <? max, mk_limitedKeys (truncTS l) (<[key := i64 (val + 1)]> ks)).

(** ** The in-memory limiter *)

(** [currGeneration] points into the store of generations, [None] is nil. *)
Record MemoryFrontendRateLimiter := mk_memory {
  currGeneration : option nat; dur : Z; max : Z; generations : list limitedKeys
}.

Definition NewMemoryFrontendRateLimit (dur max : Z) : MemoryFrontendRateLimiter :=
  mk_memory None dur max [].

(** [Take] up to the release of [m.mtx]: the generation the call will use. *)
Definition take_generation (now : Z) (m : MemoryFrontendRateLimiter) : nat * MemoryFrontendRateLimiter :=
  let ts := truncateNow (dur m) now in
  let fresh := (length (generations m),
    mk_memory (Some (length (generations m))) (dur m) (max m) (generations m ++ [newLimitedKeys ts])%list) in
  match currGeneration m with
  | None => fresh
  | Some g =>
      match generations m !! g with
      | Some l => if truncTS l =? ts then (g, m) else fresh
      | None => fresh
      end
  end.

(** The rest of [Take]: the counter of the generation pulled out. *)
Definition take_count (g : nat) (key : string) (m : MemoryFrontendRateLimiter) : bool * MemoryFrontendRateLimiter :=
  match generations m !! g with
  | None => (false, m)
  | Some l =>
      let '(ok, l') := limitedKeys_Take l key (max m) in
      (ok, mk_memory (currGeneration m) (dur m) (max m) (<[g := l']> (generations m)))
  end.

Definition Memory_Take {E} (now : Z) (key : string) (m : MemoryFrontendRateLimiter) :
    (bool * option E) * MemoryFrontendRateLimiter :=
  let '(g, m) := take_generation now m in
  let '(ok, m) := take_count g key m in
  ((ok, None), m).

Definition memory_limiter {E} : FrontendRateLimiter E MemoryFrontendRateLimiter := mk_limiter Memory_Take.

(** ** The Redis limiter *)

(** The commands of the Redis server the limiter pipelines, at an instant:
    INCR of a key, then PEXPIRE with a duration. A failed pipeline may have run
    any part of it on the server. *)
Class RedisCounters (E R : Type) := {
  redis_incr_pexpire : Z → string → Z → R → (E + Z) * R;
  (** The counter of a key at an instant, 0 when the key does not exist. *)
  redis_counter : R → Z → string → Z;
}.

(** What Redis documents of them. A key whose time to live is over does not
    exist; durations are sent in whole milliseconds. *)
Class RedisCountersSpec (E R : Type) `{RedisCounters E R} := {
  redis_incr_value now k ttl r v r' :
    redis_incr_pexpire now k ttl r = (inr v, r') → v = redis_counter r now k + 1;
  redis_incr_counter now k ttl r v r' t :
    redis_incr_pexpire now k ttl r = (inr v, r') → now ≤ t → 0 < ttl → (Millisecond | ttl) →
    redis_counter r' t k = if t <? now + ttl then v else 0;
  redis_incr_other now k ttl r v r' t k' :
    redis_incr_pexpire now k ttl r = (inr v, r') → k' ≠ k → now ≤ t →
    redis_counter r' t k' = redis_counter r t k';
}.

Section redis.
Context {E R : Type} `{RedisCounters E R}.

Record RedisFrontendRateLimiter := mk_redis { r_client : R; r_dur : Z; r_max : Z; r_prefix : string }.

Definition NewRedisFrontendRateLimiter (r : R) (dur max : Z) (prefix : string) : RedisFrontendRateLimiter :=
  mk_redis r dur max prefix.

Definition fullKey (prefix key : string) (ts : Z) : string :=
  "rate_limit:" +:+ prefix +:+ ":" +:+ key +:+ ":" +:+ pretty ts.

Definition Redis_Take (now : Z) (key : string) (l : RedisFrontendRateLimiter) :
    (bool * option E) * RedisFrontendRateLimiter :=
  let ts := truncateNow (r_dur l) now in
  let '(res, c) := redis_incr_pexpire now (fullKey (r_prefix l) key ts)
    (r_dur l - Millisecond) (r_client l) in
  let l := mk_redis c (r_dur l) (r_max l) (r_prefix l) in
  match res with
  | inl err => ((false, Some err), l)
  | inr v => ((i64 (v - 1) <? r_max l, None), l)
  end.

Definition redis_limiter : FrontendRateLimiter E RedisFrontendRateLimiter := mk_limiter Redis_Take.
End redis.
Arguments RedisFrontendRateLimiter R : clear implicits.

(** ** The no-op limiter and the fallback pair *)

Definition Noop_Take {E} (now : Z) (key : string) (u : unit) : (bool * option E) * unit :=
  ((true, None), u).
Definition NoopFrontendRateLimiter {E} : FrontendRateLimiter E unit := mk_limiter Noop_Take.

Section fallback.
Context {E P S : Type} (primary : FrontendRateLimiter E P) (secondary : FrontendRateLimiter E S).

Definition Fallback_Take (now : Z) (key : string) (st : P * S) : (bool * option E) * (P * S) :=
  let '((ok, err), p) := Take primary now key st.1 in
  match err with
  | Some _ => let '(res, s) := Take secondary now key st.2 in (res, (p, s))
  | None => ((ok, err), (p, st.2))
  end.

Definition NewFallbackRateLimiter : FrontendRateLimiter E (P * S) := mk_limiter Fallback_Take.
End fallback.

(** ** Intervals *)

(** From a second on, the truncated timestamp names the interval of [dur] the
    instant lies in. *)
Lemma truncateNow_interval dur t t' : Second ≤ dur →
  truncateNow dur t = truncateNow dur t' ↔ t `div` dur = t' `div` dur.
Proof.
  intros Hd. unfold truncateNow, time_Truncate, time_Unix. unfold Second in *.
  destruct (Z.leb_spec dur 0); [lia|].
  rewrite !Z.mod_eq by lia. set (q := t `div` dur). set (q' := t' `div` dur).
  rewrite !Z.sub_sub_distr, !Z.sub_diag, !Z.add_0_l.
  split; [|intros ->; lia]. intros Heq.
  destruct (Z.lt_trichotomy q q') as [Hl|[|Hl]]; [|done|].
  - assert (dur * q + 1000000000 ≤ dur * q') by nia. Z.div_mod_to_equations. lia.
  - assert (dur * q' + 1000000000 ≤ dur * q) by nia. Z.div_mod_to_equations. lia.
Qed.

Lemma truncateNow_mono dur t t' : t ≤ t' → truncateNow dur t ≤ truncateNow dur t'.
Proof.
  intros Ht. unfold truncateNow, time_Unix, time_Truncate, Second.
  assert (Hle : (if dur <=? 0 then t else t - t `mod` dur) ≤
    (if dur <=? 0 then t' else t' - t' `mod` dur)).
  { destruct (Z.leb_spec dur 0); [done|]. rewrite !Z.mod_eq by lia.
    pose proof (Z.div_le_mono t t' dur). nia. }
  pose proof (Z.div_le_mono _ _ 1000000000 ltac:(lia) Hle). lia.
Qed.

(** ** Concurrent calls of the in-memory limiter *)

(** A call in flight: the generation it pulled out, its key, its clock reading. *)
Record call := mk_call { c_gen : nat; c_key : string; c_now : Z }.
(** A call that returned. *)
Record outcome := mk_outcome { o_key : string; o_now : Z; o_ok : bool }.

Record sys := mk_sys {
  lim : MemoryFrontendRateLimiter; clock : Z; pending : gmap nat call; log : list outcome
}.

(** Each of the two critical sections of [Take] is one step; the clock is read
    inside the first and does not go back. *)
Inductive take_step : sys → sys → Prop :=
| step_begin s tid key now g m :
    clock s ≤ now → pending s !! tid = None → take_generation now (lim s) = (g, m) →
    take_step s (mk_sys m now (<[tid := mk_call g key now]> (pending s)) (log s))
| step_finish s tid c ok m :
    pending s !! tid = Some c → take_count (c_gen c) (c_key c) (lim s) = (ok, m) →
    take_step s (mk_sys m (clock s) (delete tid (pending s))
      (log s ++ [mk_outcome (c_key c) (c_now c) ok])%list).

Definition start (dur max now : Z) : sys := mk_sys (NewMemoryFrontendRateLimit dur max) now ∅ [].

(** Outcomes of a key whose reading truncates to [ts]. *)
Definition hits (dur ts : Z) (key : string) (l : list outcome) : list outcome :=
  filter (λ o, truncateNow dur (o_now o) = ts ∧ o_key o = key) l.
Definition granted (l : list outcome) : Z := Z.of_nat (length (filter (λ o, o_ok o = true) l)).
Definition total (l : list outcome) : Z := Z.of_nat (length l).

Definition counted (d : Z) (l : list outcome) (g : limitedKeys) : Prop :=
  ∀ key, default 0 (keys g !! key) = total (hits d (truncTS g) key l).

Record inv (d mx : Z) (s : sys) : Prop := mk_inv {
  inv_dur : dur (lim s) = d;
  inv_max : max (lim s) = mx;
  inv_sorted : StronglySorted Z.lt (truncTS <$> generations (lim s));
  inv_past : ∀ g, g ∈ generations (lim s) → truncTS g ≤ truncateNow d (clock s);
  inv_curr : currGeneration (lim s) = pred <$> (if decide (generations (lim s) = []) then None
    else Some (length (generations (lim s))));
  inv_pending : ∀ tid c, pending s !! tid = Some c →
    ∃ g, generations (lim s) !! c_gen c = Some g ∧ truncTS g = truncateNow d (c_now c);
  inv_log : ∀ o, o ∈ log s → truncateNow d (o_now o) ∈ truncTS <$> generations (lim s);
  inv_counted : ∀ g, g ∈ generations (lim s) → counted d (log s) g;
  inv_granted : ∀ ts key, granted (hits d ts key (log s)) = Z.min (Z.max 0 mx) (total (hits d ts key (log s)));
}.

Lemma inv_start d mx now : inv d mx (start d mx now).
Proof. split; simpl; try done; try set_solver; [apply SSorted_nil|]. intros. unfold granted, total. simpl. lia. Qed.

(** The limiter after the first critical section. *)
Lemma take_generation_spec now d mx s g m :
  inv d mx s → clock s ≤ now → take_generation now (lim s) = (g, m) →
  (m = lim s ∧ ∃ l, generations m !! g = Some l ∧ truncTS l = truncateNow d now) ∨
  (g = length (generations (lim s)) ∧
   m = mk_memory (Some g) d mx (generations (lim s) ++ [newLimitedKeys (truncateNow d now)])%list ∧
   ∀ l, l ∈ generations (lim s) → truncTS l < truncateNow d now).
Proof.
  intros [Hd Hm Hs Hp Hc _ _ _ _] Hnow. unfold take_generation. rewrite Hc, Hd, Hm. case_decide as Hg; simpl.
  { rewrite Hg. intros [= <- <-]. right. split_and!; [done..|set_solver]. }
  destruct (generations (lim s)) as [|l0 ls] eqn:Hgs using rev_ind; [done|]. clear IHls.
  rewrite length_app. simpl. rewrite Nat.add_1_r. simpl. rewrite lookup_app_r, Nat.sub_diag by lia. simpl.
  destruct (Z.eqb_spec (truncTS l0) (truncateNow d now)) as [He|Hne]; intros [= <- <-].
  - left. split; [done|]. exists l0. rewrite Hgs, lookup_app_r, Nat.sub_diag by lia. done.
  - right. split_and!; [done..|]. pose proof (truncateNow_mono d _ _ Hnow).
    assert (truncTS l0 ≤ truncateNow d (clock s)) by (apply Hp; set_solver).
    intros l [Hl|Hl%list_elem_of_singleton]%elem_of_app; [|subst; lia].
    rewrite fmap_app in Hs.
    assert (truncTS l < truncTS l0); [|lia].
    eapply StronglySorted_app_1_elem_of; [exact Hs|by apply list_elem_of_fmap_2|set_solver].
Qed.

Lemma inv_begin d mx s tid key now g m :
  inv d mx s → clock s ≤ now → take_generation now (lim s) = (g, m) →
  inv d mx (mk_sys m now (<[tid := mk_call g key now]> (pending s)) (log s)).
Proof.
  intros Hi Hnow Hg. pose proof (truncateNow_mono d _ _ Hnow) as Hmono.
  destruct (take_generation_spec _ _ _ _ _ _ Hi Hnow Hg) as [(-> & l & Hl & Hts)|(-> & -> & Hlt)];
    destruct Hi as [Hd Hm Hs Hp Hc Hpe Hlog Hcnt Hgr]; split; simpl; try done.
  - intros g' Hg'. specialize (Hp g' Hg'). lia.
  - intros tid' c. rewrite lookup_insert_Some. intros [[<- <-]|[_ Hc']]; simpl; eauto.
  - rewrite fmap_app. apply StronglySorted_app_2; [|done|repeat constructor].
    intros x y (l & -> & Hl)%list_elem_of_fmap ->%list_elem_of_singleton. simpl. auto.
  - intros g' [Hg'| ->%list_elem_of_singleton]%elem_of_app; [|done]. specialize (Hp g' Hg'). lia.
  - rewrite decide_False by (by destruct (generations (lim s))). simpl. rewrite length_app. simpl.
    by rewrite Nat.add_1_r.
  - intros tid' c. rewrite lookup_insert_Some. intros [[<- <-]|[_ Hc']]; simpl.
    + rewrite lookup_app_r, Nat.sub_diag by lia. simpl. eauto.
    + destruct (Hpe _ _ Hc') as (g' & Hg' & ?). exists g'. split; [|done].
      rewrite lookup_app_l; [done|]. by eapply lookup_lt_Some.
  - intros o Ho. rewrite fmap_app. apply elem_of_app. left. auto.
  - intros g' [Hg'| ->%list_elem_of_singleton]%elem_of_app; [auto|]. intros key'. simpl.
    rewrite lookup_empty. simpl. unfold total, hits. rewrite filter_none; [done|].
    intros o Ho [Hts _]. apply Hlog in Ho as (l & Hl & Hin)%list_elem_of_fmap.
    specialize (Hlt l Hin). lia.
Qed.

(** One more outcome in the log. *)
Lemma hits_snoc d ts key l o :
  hits d ts key (l ++ [o]) =
  (hits d ts key l ++ if decide (truncateNow d (o_now o) = ts ∧ o_key o = key) then [o] else [])%list.
Proof. unfold hits. rewrite filter_app. done. Qed.

Lemma total_snoc l o : total (l ++ [o]) = total l + 1.
Proof. unfold total. rewrite length_app. simpl. lia. Qed.

Lemma granted_snoc l o : granted (l ++ [o]) = granted l + if o_ok o then 1 else 0.
Proof. unfold granted. rewrite filter_app, length_app, filter_cons. destruct (o_ok o); simpl; lia. Qed.

Lemma total_hits_le d ts key l : 0 ≤ total (hits d ts key l) ≤ total l.
Proof. unfold total, hits. pose proof (length_filter (λ o, truncateNow d (o_now o) = ts ∧ o_key o = key) l). lia. Qed.

(** The second critical section reads and bumps the counter of the key. *)
Lemma limitedKeys_Take_spec l key mx n :
  default 0 (keys l !! key) = n → 0 ≤ n → n + 1 < two63 →
  ∃ ks, limitedKeys_Take l key mx = (n <? mx, mk_limitedKeys (truncTS l) ks) ∧
    ∀ k, default 0 (ks !! k) = if decide (k = key) then n + 1 else default 0 (keys l !! k).
Proof.
  intros Hn H0 Hlt. unfold limitedKeys_Take.
  destruct (keys l !! key) as [v|] eqn:E; simpl in Hn; subst; eexists; (split; [done|]); intros k;
    (case_decide; [subst; rewrite lookup_insert_eq; simpl; rewrite i64_small by lia; done|]);
    rewrite !lookup_insert_ne by done; done.
Qed.

(** Replacing a generation by one of the same timestamp. *)
Lemma generations_insert (gs : list limitedKeys) i g ks :
  gs !! i = Some g →
  truncTS <$> <[i := mk_limitedKeys (truncTS g) ks]> gs = truncTS <$> gs.
Proof. intros Hi. rewrite list_fmap_insert. apply list_insert_id. by rewrite list_lookup_fmap, Hi. Qed.

(** Generations are told apart by their timestamps. *)
Lemma generation_unique (gs : list limitedKeys) i j g g' :
  StronglySorted Z.lt (truncTS <$> gs) → gs !! i = Some g → gs !! j = Some g' →
  truncTS g = truncTS g' → i = j.
Proof.
  intros Hs Hi Hj Heq. assert (Hnd : NoDup (truncTS <$> gs)).
  { revert Hs. generalize (truncTS <$> gs). induction 1 as [|x l _ IH Hall]; constructor; [|done].
    rewrite Forall_forall in Hall. intros Hx%Hall. lia. }
  eapply NoDup_lookup; [exact Hnd|by rewrite list_lookup_fmap, Hi|by rewrite list_lookup_fmap, Hj, Heq].
Qed.

Lemma counted_snoc d l o g ks ts :
  counted d l g → truncTS g = ts → truncateNow d (o_now o) = ts →
  (∀ k, default 0 (ks !! k) =
    if decide (k = o_key o) then total (hits d ts (o_key o) l) + 1 else default 0 (keys g !! k)) →
  counted d (l ++ [o]) (mk_limitedKeys ts ks).
Proof.
  intros Hc Hts Ho Hks k. simpl. rewrite Hks, hits_snoc, Ho.
  destruct (decide (k = o_key o)) as [->|Hne].
  - by rewrite decide_True, total_snoc.
  - rewrite decide_False by naive_solver. rewrite app_nil_r. rewrite <-Hts. apply Hc.
Qed.

Lemma granted_step d mx l o :
  let ts := truncateNow d (o_now o) in
  (∀ ts key, granted (hits d ts key l) = Z.min (Z.max 0 mx) (total (hits d ts key l))) →
  o_ok o = (total (hits d ts (o_key o) l) <? mx) →
  ∀ ts key, granted (hits d ts key (l ++ [o])) =
    Z.min (Z.max 0 mx) (total (hits d ts key (l ++ [o]))).
Proof.
  intros ts0 Hg Hok ts key. rewrite hits_snoc. case_decide as Hd; [|by rewrite app_nil_r].
  destruct Hd as [<- <-]. rewrite granted_snoc, total_snoc, Hg, Hok.
  pose proof (total_hits_le d ts0 (o_key o) l). unfold ts0 in *. destruct (Z.ltb_spec (total (hits d (truncateNow d (o_now o)) (o_key o) l)) mx); lia.
Qed.

Lemma inv_finish d mx s tid c ok m :
  inv d mx s → pending s !! tid = Some c → take_count (c_gen c) (c_key c) (lim s) = (ok, m) →
  total (log s) + 1 < two63 →
  inv d mx (mk_sys m (clock s) (delete tid (pending s)) (log s ++ [mk_outcome (c_key c) (c_now c) ok])).
Proof.
  intros [Hd Hm Hs Hp Hc Hpe Hlog Hcnt Hgr] Hpend Htake Hlt.
  destruct (Hpe _ _ Hpend) as (g & Hg & Hts). unfold take_count in Htake. rewrite Hg, Hm in Htake.
  assert (Hing : g ∈ generations (lim s)) by (by eapply list_elem_of_lookup_2).
  pose proof (total_hits_le d (truncTS g) (c_key c) (log s)) as Hle.
  destruct (limitedKeys_Take_spec g (c_key c) mx _ (Hcnt _ Hing (c_key c))) as (ks & HT & Hks); [lia..|].
  rewrite HT in Htake. injection Htake as <- <-.
  pose proof (generations_insert _ _ _ ks Hg) as Hfm.
  split; simpl; rewrite ?Hfm, ?length_insert; try done.
  - intros g' Hg'. assert (Hin : truncTS g' ∈ truncTS <$> generations (lim s)).
    { rewrite <-Hfm. by apply list_elem_of_fmap_2. }
    apply list_elem_of_fmap in Hin as (g2 & -> & Hg2). by apply Hp.
  - rewrite Hc. destruct (generations (lim s)); [done|]. by destruct (c_gen c).
  - intros tid' c' [_ Hc']%lookup_delete_Some. destruct (Hpe _ _ Hc') as (g' & Hg' & Hts').
    destruct (decide (c_gen c' = c_gen c)) as [He|Hne].
    + rewrite He, list_lookup_insert_eq by (by eapply lookup_lt_Some). eexists. split; [done|]. simpl.
      rewrite He in Hg'. by simplify_eq.
    + rewrite list_lookup_insert_ne by done. eauto.
  - intros o [Ho| ->%list_elem_of_singleton]%elem_of_app; [auto|]. simpl. rewrite <-Hts.
    by apply list_elem_of_fmap_2.
  - intros g' [i Hi]%list_elem_of_lookup_1. apply list_lookup_insert_Some in Hi as [(<- & <- & _)|[Hne Hi]].
    + by eapply counted_snoc; [apply Hcnt| | |].
    + intros k. rewrite hits_snoc, decide_False, app_nil_r; [by apply Hcnt, list_elem_of_lookup_2 with i|].
      simpl. intros [He _]. rewrite <-Hts in He. destruct Hne. by eapply generation_unique.
  - apply granted_step; [done|]. simpl. by rewrite <-Hts.
Qed.

Lemma take_step_inv d mx s s' : take_step s s' → total (log s') < two63 → inv d mx s → inv d mx s'.
Proof.
  destruct 1 as [s tid key now g m|s tid c ok m]; simpl; rewrite ?total_snoc; intros Hlen Hi.
  - by eapply inv_begin.
  - by eapply inv_finish.
Qed.

Lemma take_step_log s s' : take_step s s' → total (log s) ≤ total (log s').
Proof. destruct 1; simpl; rewrite ?total_snoc; lia. Qed.

Lemma reachable_inv d mx now s :
  rtc take_step (start d mx now) s → total (log s) < two63 → inv d mx s.
Proof.
  intros Hr. pattern s. revert s Hr. apply rtc_ind_r; [intros _; apply inv_start|].
  intros s s' _ Hstep IH Hlen. eapply take_step_inv; [done..|]. apply IH.
  pose proof (take_step_log _ _ Hstep). lia.
Qed.

(** The calls of a key with a clock reading in the [n]-th interval of [dur]. *)
Definition in_interval (dur n : Z) (key : string) (l : list outcome) : list outcome :=
  filter (λ o, o_now o `div` dur = n ∧ o_key o = key) l.

Lemma in_interval_hits dur n key l : Second ≤ dur →
  in_interval dur n key l = hits dur (truncateNow dur (n * dur)) key l.
Proof.
  intros Hd. apply list_filter_iff. intros o. unfold Second in *.
  rewrite (truncateNow_interval dur (o_now o) (n * dur)) by done.
  rewrite Z.div_mul by lia. done.
Qed.

(** ** The Redis limiter *)

Lemma pretty_N_char_colon d : Ascii.eqb (pretty_N_char d) colon = false.
Proof. unfold pretty_N_char. by repeat case_match. Qed.

Lemma pretty_N_go_colon n s : has_colon s = false → has_colon (pretty_N_go n s) = false.
Proof.
  revert s. induction (N.lt_wf_0 n) as [n _ IH]. intros s Hs.
  destruct (decide (0 < n)%N) as [Hn|Hn]; [|by replace n with 0%N by lia].
  rewrite pretty_N_go_step by done. apply IH; [by apply N.div_lt|].
  cbn. by rewrite pretty_N_char_colon.
Qed.

Lemma pretty_Z_colon (z : Z) : has_colon (pretty z) = false.
Proof.
  assert (Hp : ∀ n : N, has_colon (pretty n) = false).
  { intros n. unfold pretty, pretty_N. case_decide; [done|]. by apply pretty_N_go_colon. }
  destruct z; cbn; [done| |]; apply (Hp (Npos p)).
Qed.

(** Distinct intervals and keys use distinct Redis keys. *)
Lemma fullKey_inj prefix key key' ts ts' :
  fullKey prefix key ts = fullKey prefix key' ts' → key = key' ∧ ts = ts'.
Proof.
  unfold fullKey. intros H%string_app_inj%string_app_inj%string_app_inj.
  apply colon_split in H as [-> H]; [|apply pretty_Z_colon..]. split; [done|]. by apply (inj pretty).
Qed.

Section redis_run.
Context {E R : Type} `{RedisCountersSpec E R}.

(** A sequence of calls, each a clock reading and a key; [None] when one fails. *)
Fixpoint redis_run (calls : list (Z * string)) (l : RedisFrontendRateLimiter R) :
    option (list outcome * RedisFrontendRateLimiter R) :=
  match calls with
  | [] => Some ([], l)
  | (now, key) :: calls =>
      match Redis_Take now key l with
      | ((ok, None), l) =>
          '(outs, l) ← redis_run calls l; Some (mk_outcome key now ok :: outs, l)
      | ((_, Some _), _) => None
      end
  end.

Fixpoint readings_mono (last : Z) (calls : list (Z * string)) : Prop :=
  match calls with [] => True | c :: calls => last ≤ c.1 ∧ readings_mono c.1 calls end.

(** The calls of the key in the interval stay clear of its last millisecond. *)
Definition early (dur n : Z) (key : string) (calls : list (Z * string)) : Prop :=
  ∀ c, c ∈ calls → c.2 = key → c.1 `div` dur = n → c.1 < (n + 1) * dur - Millisecond.

(** The Redis counter of the key and interval reads [c] from [last] on. *)
Definition counter_is (l : RedisFrontendRateLimiter R) (n : Z) (key : string) (last c : Z) : Prop :=
  ∀ t, last ≤ t → t < (n + 1) * r_dur l - Millisecond →
    redis_counter (r_client l) t (fullKey (r_prefix l) key (truncateNow (r_dur l) (n * r_dur l))) = c.

Lemma Redis_Take_hit now key l ok l' n last c :
  Redis_Take now key l = ((ok, None), l') → Second ≤ r_dur l → (Millisecond | r_dur l) →
  counter_is l n key last c → last ≤ now → now `div` r_dur l = n →
  now < (n + 1) * r_dur l - Millisecond → 0 ≤ c < two63 →
  ok = (c <? r_max l) ∧ counter_is l' n key now (c + 1) ∧
  r_dur l' = r_dur l ∧ r_max l' = r_max l ∧ r_prefix l' = r_prefix l.
Proof.
  intros HT Hd Hms Hc Hlast Hn Hnow Hcb. unfold Redis_Take in HT.
  assert (Hpos : 1000000000 ≤ r_dur l) by exact Hd.
  assert (Hts : truncateNow (r_dur l) now = truncateNow (r_dur l) (n * r_dur l)).
  { apply (proj2 (truncateNow_interval _ _ _ Hd)). by rewrite Z.div_mul by (clear - Hpos; lia). }
  assert (Hge : n * r_dur l ≤ now).
  { rewrite <-Hn, Z.mul_comm. apply Z.mul_div_le. clear - Hpos. lia. }
  clear Hn.
  rewrite Hts in HT. destruct (redis_incr_pexpire _ _ _ _) as [[e|v] r'] eqn:Er; [discriminate HT|].
  injection HT as <- <-. pose proof (redis_incr_value _ _ _ _ _ _ Er) as Hv. rewrite (Hc now) in Hv by done.
  subst v. unfold counter_is. simpl. rewrite Z.add_simpl_r, i64_small by done.
  split_and!; [done| |done..]. intros t Ht Ht'.
  rewrite (redis_incr_counter _ _ _ _ _ _ t Er); [|done|unfold Millisecond; lia|].
  2:{ apply Z.divide_sub_r; [done|apply Z.divide_refl]. }
  destruct (Z.ltb_spec t (now + (r_dur l - Millisecond))); [done|].
  unfold Millisecond in *. lia.
Qed.

Lemma Redis_Take_miss now key' l ok l' n key last c :
  Redis_Take now key' l = ((ok, None), l') → Second ≤ r_dur l →
  counter_is l n key last c → last ≤ now → ¬ (now `div` r_dur l = n ∧ key' = key) →
  counter_is l' n key now c ∧
  r_dur l' = r_dur l ∧ r_max l' = r_max l ∧ r_prefix l' = r_prefix l.
Proof.
  intros HT Hd Hc Hlast Hn. unfold Redis_Take in HT.
  destruct (redis_incr_pexpire _ _ _ _) as [[e|v] r'] eqn:Er; [discriminate HT|]. injection HT as <- <-.
  unfold counter_is. simpl. split_and!; [|done..]. intros t Ht Ht'.
  rewrite (redis_incr_other _ _ _ _ _ _ t _ Er); [apply Hc; lia| |done].
  intros [<- Hts]%fullKey_inj. apply Hn. split; [|done].
  symmetry in Hts. apply (proj1 (truncateNow_interval _ _ _ Hd)) in Hts.
  by rewrite Z.div_mul in Hts by (clear - Hd; unfold Second in Hd; lia).
Qed.

Lemma redis_run_granted calls l n key last c outs l' :
  redis_run calls l = Some (outs, l') → Second ≤ r_dur l → (Millisecond | r_dur l) →
  readings_mono last calls → early (r_dur l) n key calls → counter_is l n key last c →
  0 ≤ c → c + Z.of_nat (length calls) < two63 →
  let outs := in_interval (r_dur l) n key outs in
  granted outs = Z.min (Z.max 0 (r_max l)) (c + total outs) - Z.min (Z.max 0 (r_max l)) c.
Proof.
  revert l last c outs. induction calls as [|[now k] calls IH]; intros l last c outs; cbn [redis_run].
  { intros [= <- <-] _ _ _ _ _ _ _. unfold granted, total. simpl. lia. }
  destruct (Redis_Take now k l) as [[ok [e|]] l1] eqn:HT; [done|].
  destruct (redis_run calls l1) as [[outs1 l2]|] eqn:Hrun; [|done]. intros [= <- <-] Hd Hms [Hnow Hmono] He Hc Hc0 Hlen.
  cbn [length fst] in *. assert (He' : early (r_dur l) n key calls) by (intros c' Hc'; apply He; set_solver).
  unfold in_interval. rewrite filter_cons. simpl. case_decide as Hhit.
  - destruct Hhit as [Hn ->].
    assert (Hb : now < (n + 1) * r_dur l - Millisecond) by (apply (He (now, key)); [set_solver|done..]).
    destruct (Redis_Take_hit _ _ _ _ _ n last c HT) as (-> & Hc1 & Hd1 & Hm1 & _); [done..|lia|].
    specialize (IH l1 now (c + 1) outs1 Hrun). rewrite Hd1, Hm1 in IH. specialize (IH Hd Hms Hmono He' Hc1).
    unfold in_interval in IH. unfold granted, total in *. rewrite filter_cons. cbn [length o_ok].
    destruct (Z.ltb_spec c (r_max l)); cbn [length]; destruct (decide _); try done; cbn [length]; lia.
  - destruct (Redis_Take_miss _ _ _ _ _ n key last c HT) as (Hc1 & Hd1 & Hm1 & _); [done..|].
    specialize (IH l1 now c outs1 Hrun). rewrite Hd1, Hm1 in IH.
    apply (IH Hd Hms Hmono He' Hc1); lia.
Qed.
End redis_run.

(** An instance: the value and the expiry of every key. *)
#[export] Instance map_counters {E} : RedisCounters E (gmap string (Z * Z)) := {|
  redis_counter r t k := match r !! k with Some (v, e) => if t <? e then v else 0 | None => 0 end;
  redis_incr_pexpire now k ttl r :=
    let v := match r !! k with Some (v, e) => if now <? e then v else 0 | None => 0 end + 1 in
    (inr v, <[k := (v, now + ttl)]> r);
|}.

#[export] Instance map_counters_spec {E} : RedisCountersSpec E (gmap string (Z * Z)).
Proof.
  split; simpl; intros; simplify_eq; [done| |by rewrite lookup_insert_ne].
  by rewrite lookup_insert_eq.
Qed.

(** ** Properties *)

(** C6: whatever the interleaving of concurrent [Take] calls on an in-memory
    limiter, with a clock that does not go back and [dur] of a second or more,
    among the calls of a key whose clock reading lies in one interval
    [n*dur, (n+1)*dur) exactly min(max, number of calls) are granted, as long as
    fewer than 2^63 calls were made. *)
Theorem memory_limiter_exact dur max now s n key :
  Second ≤ dur → rtc take_step (start dur max now) s → total (log s) < two63 →
  let calls := in_interval dur n key (log s) in
  granted calls = Z.min (Z.max 0 max) (total calls).
Proof.
  intros Hd Hr Hlen calls. unfold calls. rewrite in_interval_hits by done.
  by apply (inv_granted dur max), (reachable_inv _ _ now).
Qed.

(** A run of Redis-backed [Take] calls on any keys, none of which fails,
    grants exactly min(max, number of calls) of the calls of a key in one
    interval, provided the interval's counter does not exist before and no call
    of that key falls in the last millisecond of the interval. *)
Theorem redis_limiter_exact {E R} `{RedisCountersSpec E R} calls (l l' : RedisFrontendRateLimiter R) last n key outs :
  redis_run calls l = Some (outs, l') → Second ≤ r_dur l → (Millisecond | r_dur l) →
  readings_mono last calls → early (r_dur l) n key calls → counter_is l n key last 0 →
  Z.of_nat (length calls) < two63 →
  let outs := in_interval (r_dur l) n key outs in
  granted outs = Z.min (Z.max 0 (r_max l)) (total outs).
Proof.
  intros Hrun Hd Hms Hmono He Hc Hlen. pose proof (redis_run_granted _ _ _ _ _ 0 _ _ Hrun Hd Hms Hmono He Hc) as Hg.
  simpl in *. rewrite Hg by lia. rewrite Z.add_0_l. lia.
Qed.

(** The restriction to the last millisecond is needed. The time to live of
    a Redis counter is a millisecond short of the interval, so when a key's
    only earlier calls came within the first part of an interval, a call at
    [now + dur - 1ms] or later in the same interval finds no counter and is
    granted again whatever was granted before. *)
Theorem redis_limit_resets {E R} `{RedisCountersSpec E R} now now' key (l l1 l2 : RedisFrontendRateLimiter R) ok ok' :
  Second ≤ r_dur l → (Millisecond | r_dur l) → 0 < r_max l →
  now `div` r_dur l = now' `div` r_dur l → now + r_dur l - Millisecond ≤ now' →
  Redis_Take now key l = ((ok, None), l1) → Redis_Take now' key l1 = ((ok', None), l2) →
  ok' = true.
Proof.
  intros Hd Hms Hmax Hn Hnow HT HT'. unfold Redis_Take in HT, HT'.
  destruct (redis_incr_pexpire now _ _ _) as [[e|v] r'] eqn:Er; [discriminate HT|].
  injection HT as _ <-. simpl in HT'.
  destruct (redis_incr_pexpire now' _ _ _) as [[e|v'] r2] eqn:Er'; [discriminate HT'|].
  injection HT' as <- _. apply redis_incr_value in Er' as ->.
  rewrite <-(proj2 (truncateNow_interval _ _ _ Hd) Hn). unfold Millisecond, Second in *.
  assert (Httl : 0 < r_dur l - 1000000 ∧ now ≤ now' ∧ now + (r_dur l - 1000000) ≤ now') by (clear - Hd Hnow; lia).
  rewrite (redis_incr_counter _ _ _ _ _ _ now' Er); [|tauto..|by apply Z.divide_sub_r].
  destruct (Z.ltb_spec now' (now + (r_dur l - 1000000))); [lia|]. simpl. apply Z.ltb_lt.
  rewrite i64_small; [lia|]. by split.
Qed.

(** Two calls in flight at once, one of them granted. *)
Example memory_limiter_exact_witness :
  ∃ s, rtc take_step (start Second 1 0) s ∧ total (in_interval Second 0 "ip" (log s)) = 2 ∧
    granted (in_interval Second 0 "ip" (log s)) = 1.
Proof.
  assert (∃ s, rtc take_step (start Second 1 0) s ∧ total (log s) < two63 ∧
    total (in_interval Second 0 "ip" (log s)) = 2) as (s & Hr & Hlt & Ht).
  { eexists. split; [|split].
    - eapply rtc_l; [apply (step_begin _ 1 "ip" 5); [done|done|reflexivity]|].
      eapply rtc_l; [apply (step_begin _ 2 "ip" 7); [done|done|reflexivity]|].
      eapply rtc_l; [by eapply (step_finish _ 2)|].
      eapply rtc_l; [by eapply (step_finish _ 1)|]. apply rtc_refl.
    - by vm_compute.
    - by vm_compute. }
  exists s. split; [exact Hr|]. split; [exact Ht|].
  pose proof (memory_limiter_exact Second 1 0 s 0 "ip" ltac:(done) Hr Hlt) as Hg.
  cbv zeta in Hg. rewrite Ht in Hg. exact Hg.
Defined.

(** Three calls of two keys in one interval with a limit of one. *)
Example redis_limiter_exact_witness :
  let l := NewRedisFrontendRateLimiter (R := gmap string (Z * Z)) ∅ Second 1 "main" in
  let calls := [(0, "a"); (Second / 2, "b"); (Second / 2, "a")] in
  option_map (λ r, granted (in_interval Second 0 "a" r.1)) (redis_run (E := unit) calls l) = Some 1.
Proof.
  intros l calls.
  assert (Houts : option_map fst (redis_run (E := unit) calls l) =
    Some [mk_outcome "a" 0 true; mk_outcome "b" (Second / 2) true; mk_outcome "a" (Second / 2) false])
    by (vm_compute; reflexivity).
  destruct (redis_run (E := unit) calls l) as [[outs l']|] eqn:Hrun; [|discriminate Houts].
  simpl in Houts |- *. f_equal.
  etransitivity; [apply (redis_limiter_exact (E := unit) calls l l' 0 0 "a" outs Hrun)|].
  7:{ by injection Houts as ->. }
  - by vm_compute.
  - by exists 1000.
  - by vm_compute.
  - intros c Hc _ _. unfold calls in Hc. repeat (apply elem_of_cons in Hc as [->|Hc]; [by vm_compute|]). by apply not_elem_of_nil in Hc.
  - intros t _ _. cbn [redis_counter map_counters r_client l NewRedisFrontendRateLimiter]. by rewrite lookup_empty.
  - by vm_compute.
Defined.

(** One call at the start of a second, one in its last millisecond, a limit of one. *)
Example redis_limit_resets_witness :
  let l := NewRedisFrontendRateLimiter (R := gmap string (Z * Z)) ∅ Second 1 "main" in
  let l1 := (Redis_Take (E := unit) 0 "a" l).2 in
  (Redis_Take (E := unit) 0 "a" l).1 = (true, None) ∧
  (Redis_Take (E := unit) (Second - Millisecond) "a" l1).1.1 = true.
Proof.
  intros l l1. assert (Hok : (Redis_Take (E := unit) 0 "a" l).1 = (true, None)) by (vm_compute; reflexivity).
  split; [exact Hok|].
  destruct (Redis_Take (E := unit) (Second - Millisecond) "a" l1) as [[ok' err] l2] eqn:HT.
  assert (Herr : err = None).
  { change err with ((ok', err, l2).1.2). rewrite <-HT. vm_compute. reflexivity. }
  subst err.
  apply (redis_limit_resets (E := unit) 0 (Second - Millisecond) "a" l l1 l2 true ok');
    [by vm_compute|by exists 1000|by vm_compute..| |exact HT].
  rewrite <-Hok. apply surjective_pairing.
Defined.
