(* ===== verification/Backend.v ===== *)
(** A backend of proxyd (backend.go): its options and constructor, the health
    measures kept in sliding windows, [doForward], [Forward] and [ForwardRPC].

    One request to the outside world is one call of the [Env] interface. The
    requests a caller passes are pointers that [doForward] writes through, so
    the state of a call holds the requests beside the backend and the world. *)
From stdpp Require Import base numbers list gmap strings pretty sorting.
From S2P Require Import Prelude GoFloat SlidingWindow Json Geth Rpc Reader.
From Stdlib Require Import Ascii.

Local Open Scope string_scope.
Local Open Scope Z_scope.
#[local] Arguments String.append : simpl nomatch.

(** ** The world of a backend *)

(** A response body: its text, how reading it ends (EOF, or an error), whether
    the end is reported with the last bytes, and how it is cut into reads. *)
Record http_body := mk_body {
  body_text : string; body_end : option error; body_with_last : bool; body_chunk : nat
}.

#[export] Instance body_Read : Reader http_body := λ n r,
  let '(s, rest) := str_split (Nat.min n (S (body_chunk r))) (body_text r) in
  let r' := mk_body rest (body_end r) (body_with_last r) (body_chunk r) in
  let at_end := if String.eqb (body_text r) "" then true else String.eqb rest "" && body_with_last r in
  ((s, if at_end then Some (match body_end r with None => EOF | Some e => ReadErr e end) else None), r').

Definition read_body (b : http_body) (limit : Z) : string * option error :=
  default ("", None) (ReadAll (2 + String.length (body_text b)) 0 (λ _, 512%nat) "" (LimitReader b limit)).

#[export] Instance body_reader_spec : ReaderSpec http_body.
Proof.
  refine {| content := body_text |}; unfold Read, body_Read; intros n [t e l k]; simpl; intros *;
    pose proof (str_split_spec (Nat.min n (S k)) t) as [Hs Hl];
    destruct (str_split (Nat.min n (S k)) t) as [a b] eqn:Esp; simpl in *.
  - by intros [= <- _ <-].
  - intros [= <- _ <-]. lia.
  - destruct (String.eqb_spec t "") as [->|]; [intros [= <- _ <-]; by destruct a|].
    destruct (String.eqb_spec b "") as [->|]; [|done]. by intros [= <- _ <-].
  - intros Hn [= -> He _]. destruct (String.eqb_spec t ""); [done|].
    destruct t as [|c t]; [done|]. destruct n; [lia|]. simpl in Esp. by destruct (str_split _ t).
Defined.

(** The fuel of [read_body] is enough for every body and limit. *)
Lemma read_body_total b limit : ∃ out err,
  ReadAll (2 + String.length (body_text b)) 0 (λ _, 512%nat) "" (LimitReader b limit) = Some (out, err) ∧
  read_body b limit = (out, err).
Proof.
  destruct (read_all_limited (2 + String.length (body_text b)) 0 (λ _, 512%nat) "" b limit) as (out & err & HR & _).
  - intros _. apply Nat.lt_0_succ.
  - simpl. lia.
  - exists out, err. unfold read_body. by rewrite HR.
Qed.

Record http_request := mk_http_request {
  hr_url : string; hr_body : string; hr_auth : option (string * string);
  hr_headers : gmap string string
}.
Record http_response := mk_http_response { StatusCode : Z; Body : http_body }.

Class Env (W : Type) := {
  time_Now : W → Z * W;
  (** http.NewRequestWithContext fails on a malformed URL. *)
  url_error : string → option error;
  (** [LimitedHTTPClient.DoLimited]: the semaphore and the exchange. *)
  http_do : http_request → W → (error + http_response) * W;
  (** rand.Int63n. *)
  rand_Int63n : Z → W → Z * W;
  (** [sleepContext]: the duration, or less when the context ends. *)
  sleep : Z → W → W;
}.

(** The values of the request context a backend reads. *)
Record Ctx := mk_ctx { ctx_xff : string; ctx_opTxProxyAuth : string }.

Definition ConsensusGetReceiptsMethod : string := "consensus_getReceipts".
Definition DefaultOpTxProxyAuthHeader : string := "X-Optimism-Signature".

(** [http.Header.Set] under the canonical form of the name, which is the name
    itself unless all its bytes are token bytes. *)
Definition is_token (c : ascii) : bool :=
  let n := nat_of_ascii c in
  ((48 <=? n)%nat && (n <=? 57)%nat) || ((65 <=? n)%nat && (n <=? 90)%nat) || ((94 <=? n)%nat && (n <=? 122)%nat)
  || existsb (Nat.eqb n) [33; 35; 36; 37; 38; 39; 42; 43; 45; 46; 124; 126]%nat.
Fixpoint all_token (s : string) : bool :=
  match s with "" => true | String c s => is_token c && all_token s end.
Fixpoint canonical_go (up : bool) (s : string) : string :=
  match s with
  | "" => ""
  | String c s =>
      let n := nat_of_ascii c in
      let c' := if up then (if (97 <=? n)%nat && (n <=? 122)%nat then chr (n - 32) else c) else lower c in
      String c' (canonical_go (n =? 45)%nat s)
  end.
Definition header_set (h : gmap string string) (k v : string) : gmap string string :=
  <[(if all_token k then canonical_go true k else k) := v]> h.

(** strings.Split at commas (the first part) and strings.TrimSpace of ASCII texts. *)
Fixpoint before_comma (s : string) : string :=
  match s with "" => "" | String c s => if (nat_of_ascii c =? 44)%nat then "" else String c (before_comma s) end.
Definition is_space (c : ascii) : bool :=
  let n := nat_of_ascii c in (n =? 32)%nat || ((9 <=? n)%nat && (n <=? 13)%nat).
Fixpoint trim_left (s : string) : string :=
  match s with "" => "" | String c s' => if is_space c then trim_left s' else s end.
Fixpoint trim_right (s : string) : string :=
  match s with
  | "" => ""
  | String c s => let t := trim_right s in if String.eqb t "" && is_space c then "" else String c t
  end.
Definition stripXFF (xff : string) : string := trim_right (trim_left (before_comma xff)).

Definition calcBackoff (jitter i : Z) : Z := Z.min (2 ^ i * 1000 + jitter) 3000 * Millisecond.

Section backend.
Context {LM : Type} `{LinkedHashMap LM} `{Geth}.

Record Backend := mk_Backend {
  Name : string;
  rpcURL : string;
  receiptsTarget : string;
  wsURL : string;
  authUsername : string;
  authPassword : string;
  headers : list (string * string);
  clientTimeout : Z;
  maxRetries : Z;
  maxResponseSize : Z;
  maxRPS : Z;
  maxWSConns : Z;
  outOfServiceInterval : Z;
  stripTrailingXFF : bool;
  proxydIP : string;
  skipPeerCountCheck : bool;
  forcedCandidate : bool;
  maxDegradedLatencyThreshold : Z;
  maxLatencyThreshold : Z;
  maxErrorRateThreshold : float64;
  latencySlidingWindow : AvgSlidingWindow LM;
  networkRequestsSlidingWindow : AvgSlidingWindow LM;
  intermittentErrorsSlidingWindow : AvgSlidingWindow LM;
  weight : Z
}.

#[export] Instance Backend_eta : Eta Backend := λ b,
  mk_Backend (Name b) (rpcURL b) (receiptsTarget b) (wsURL b) (authUsername b) (authPassword b)
    (headers b) (clientTimeout b) (maxRetries b) (maxResponseSize b) (maxRPS b) (maxWSConns b)
    (outOfServiceInterval b) (stripTrailingXFF b) (proxydIP b) (skipPeerCountCheck b)
    (forcedCandidate b) (maxDegradedLatencyThreshold b) (maxLatencyThreshold b)
    (maxErrorRateThreshold b) (latencySlidingWindow b) (networkRequestsSlidingWindow b)
    (intermittentErrorsSlidingWindow b) (weight b).

Definition BackendOpt : Type := Backend → Backend.

Definition WithBasicAuth (username password : string) : BackendOpt := λ b,
  let b := {{ b with authUsername := username }} in {{ b with authPassword := password }}.
Definition WithHeaders (v : list (string * string)) : BackendOpt := λ b, {{ b with headers := v }}.
Definition WithTimeout (v : Z) : BackendOpt := λ b, {{ b with clientTimeout := v }}.
Definition WithMaxRetries (v : Z) : BackendOpt := λ b, {{ b with maxRetries := v }}.
Definition WithMaxResponseSize (v : Z) : BackendOpt := λ b, {{ b with maxResponseSize := v }}.
Definition WithOutOfServiceDuration (v : Z) : BackendOpt := λ b, {{ b with outOfServiceInterval := v }}.
Definition WithMaxRPS (v : Z) : BackendOpt := λ b, {{ b with maxRPS := v }}.
Definition WithMaxWSConns (v : Z) : BackendOpt := λ b, {{ b with maxWSConns := v }}.
Definition WithProxydIP (v : string) : BackendOpt := λ b, {{ b with proxydIP := v }}.
Definition WithConsensusSkipPeerCountCheck (v : bool) : BackendOpt := λ b, {{ b with skipPeerCountCheck := v }}.
Definition WithConsensusForcedCandidate (v : bool) : BackendOpt := λ b, {{ b with forcedCandidate := v }}.
Definition WithWeight (v : Z) : BackendOpt := λ b, {{ b with weight := v }}.
Definition WithMaxDegradedLatencyThreshold (v : Z) : BackendOpt := λ b, {{ b with maxDegradedLatencyThreshold := v }}.
Definition WithMaxLatencyThreshold (v : Z) : BackendOpt := λ b, {{ b with maxLatencyThreshold := v }}.
Definition WithMaxErrorRateThreshold (v : float64) : BackendOpt := λ b, {{ b with maxErrorRateThreshold := v }}.
Definition WithConsensusReceiptTarget (v : string) : BackendOpt := λ b, {{ b with receiptsTarget := v }}.
Definition WithIntermittentNetworkErrorSlidingWindow (v : AvgSlidingWindow LM) : BackendOpt := λ b, {{ b with intermittentErrorsSlidingWindow := v }}.
Definition WithStrippedTrailingXFF : BackendOpt := λ b, {{ b with stripTrailingXFF := true }}.

Definition Override (opts : list BackendOpt) (b : Backend) : Backend := foldl (λ b opt, opt b) b opts.

Definition MaxInt64 : Z := two63 - 1.

(** The threshold 0.5 is exact in binary. *)
Definition NewBackend (name rpcURL wsURL : string) (opts : list BackendOpt) : Backend :=
  Override opts (mk_Backend name rpcURL "" wsURL "" "" [] (5 * Second) 0 MaxInt64 0 0 0 false "" false false
    (5 * Second) (10 * Second) (fdiv (f_of_Z 1) (f_of_Z 2))
    (NewSlidingWindow []) (NewSlidingWindow []) (NewSlidingWindow []) 0).

(** ** Calls *)

Context {W : Type} `{Env W}.

(** What a call works on: the backend, the world, the caller's requests. *)
Record call_state := mk_call_state { st_be : Backend; st_world : W; st_reqs : list RPCReq }.
#[export] Instance call_state_eta : Eta call_state := λ s, mk_call_state (st_be s) (st_world s) (st_reqs s).

Definition C (A : Type) : Type := M call_state A.

Definition Now : C Z := λ s, let '(t, w) := time_Now (st_world s) in Ret (t, {{ s with st_world := w }}).
Definition this : C Backend := m_gets st_be.
Definition set_be (f : Backend → Backend) : C unit := m_modify (λ s, {{ s with st_be := f (st_be s) }}).
Definition set_reqs (l : list RPCReq) : C unit := m_modify (λ s, {{ s with st_reqs := l }}).

(** ** Health *)

Definition requests_Sum : C float64 :=
  now ← Now; b ← this;
  let '(v, w) := Sum now (networkRequestsSlidingWindow b) in
  set_be (λ b, {{ b with networkRequestsSlidingWindow := w }});; mret v.
Definition errors_Sum : C float64 :=
  now ← Now; b ← this;
  let '(v, w) := Sum now (intermittentErrorsSlidingWindow b) in
  set_be (λ b, {{ b with intermittentErrorsSlidingWindow := w }});; mret v.
Definition latency_Avg : C float64 :=
  now ← Now; b ← this;
  let '(v, w) := Avg now (latencySlidingWindow b) in
  set_be (λ b, {{ b with latencySlidingWindow := w }});; mret v.

Definition requests_Incr : C unit :=
  t ← Now; now ← Now; now' ← Now;
  set_be (λ b, {{ b with networkRequestsSlidingWindow := Incr t now now' (networkRequestsSlidingWindow b) }}).
Definition errors_Incr : C unit :=
  t ← Now; now ← Now; now' ← Now;
  set_be (λ b, {{ b with intermittentErrorsSlidingWindow := Incr t now now' (intermittentErrorsSlidingWindow b) }}).
Definition latency_Add (v : float64) : C unit :=
  t ← Now; now ← Now; now' ← Now;
  set_be (λ b, {{ b with latencySlidingWindow := Add t now now' v (latencySlidingWindow b) }}).

Definition ErrorRate : C float64 :=
  n ← requests_Sum;
  if fleb (f_of_Z 10) n then
    errs ← errors_Sum; reqs ← requests_Sum; mret (fdiv errs reqs)
  else mret (f_of_Z 0).

Definition IsHealthy : C bool :=
  errorRate ← ErrorRate;
  avg ← latency_Avg;
  b ← this;
  if fleb (maxErrorRateThreshold b) errorRate then mret false
  else if maxLatencyThreshold b <=? f_trunc avg then mret false
  else mret true.

Definition IsDegraded : C bool :=
  avg ← latency_Avg;
  b ← this;
  mret (maxDegradedLatencyThreshold b <=? f_trunc avg).

(** The configuration of a backend: all but its measures. *)
Definition conf (b : Backend) : Backend :=
  let b := {{ b with latencySlidingWindow := (NewSlidingWindow [] : AvgSlidingWindow LM) }} in
  let b := {{ b with networkRequestsSlidingWindow := (NewSlidingWindow [] : AvgSlidingWindow LM) }} in
  {{ b with intermittentErrorsSlidingWindow := (NewSlidingWindow [] : AvgSlidingWindow LM) }}.

Definition ClearSlidingWindows (b : Backend) : Backend :=
  let b := {{ b with intermittentErrorsSlidingWindow := Clear (intermittentErrorsSlidingWindow b) }} in
  {{ b with networkRequestsSlidingWindow := Clear (networkRequestsSlidingWindow b) }}.

(** ** Sorting responses *)

(** The position of each request ID; equal IDs are a bug that panics. *)
Fixpoint positions (i : nat) (reqs : list RPCReq) (pos : gmap string nat) : go (gmap string nat) :=
  match reqs with
  | [] => Ret pos
  | r :: reqs =>
      match pos !! rq_ID r with
      | Some _ => Panic "bug! detected requests with duplicate IDs"
      | None => positions (S i) reqs (<[rq_ID r := i]> pos)
      end
  end.

(** An ID no request has counts as position 0. *)
Definition res_pos (pos : gmap string nat) (r : RPCRes) : nat := default 0%nat (pos !! rs_ID r).

(** sort.Slice up to 12 elements is this insertion sort; a longer slice with
    distinct positions has only one sorted order. *)
Fixpoint insert_res (key : RPCRes → nat) (x : RPCRes) (l : list RPCRes) : list RPCRes :=
  match l with
  | [] => [x]
  | y :: l' => if (key x <? key y)%nat then x :: l else y :: insert_res key x l'
  end.
Definition sort_res (key : RPCRes → nat) (l : list RPCRes) : list RPCRes :=
  foldl (λ acc x, insert_res key x acc) [] l.

Definition sortBatchRPCResponse (reqs : list RPCReq) (res : list RPCRes) : go (list RPCRes) :=
  pos ← positions 0 reqs ∅; Ret (sort_res (res_pos pos) res).

Definition responseIsNotBatched (b : string) : bool :=
  if unmarshal_RPCRes b then true else false.

(** ** Translation of consensus_getReceipts *)

(** json.Unmarshal into a slice of [rpc.BlockNumberOrHash]. *)
Definition unmarshal_bnhs (raw : string) : option (list BlockNumberOrHash) :=
  t ← json_top raw;
  match t with
  | TNull => Some []
  | TArr es => mapM (λ e, bnh_UnmarshalJSON e.1) es
  | _ => None
  end.

Definition conventional_targets : list string :=
  ["debug_getRawReceipts"; "eth_getBlockReceipts"; "parity_getBlockReceipts"].
Definition alchemy_target : string := "alchemy_getTransactionReceipts".

(** The parameters for the receipts method [target], from those of the client. *)
Definition translate_params (target : string) (params : string) : go (error + string) :=
  match unmarshal_bnhs params with
  | None => Ret (inl (ErrInvalidRequest "invalid request"))
  | Some reqParams =>
      if existsb (String.eqb target) conventional_targets then
        match reqParams with
        | [] => Panic "index out of range"
        | p :: _ =>
            match bnh_BlockNumber p, bnh_BlockHash p with
            | Some n, _ => Ret (inr (json_marshal (JArr [JStr (bn_String n)])))
            | None, Some h => Ret (inr (json_marshal (JArr [JStr h])))
            | None, None => Panic "nil pointer dereference"
            end
        end
      else if String.eqb target alchemy_target then
        match reqParams with
        | [] => Panic "index out of range"
        | p :: _ =>
            let num := match bnh_BlockNumber p with Some n => JStr (bn_String n) | None => JNull end in
            let hash := match bnh_BlockNumber p, bnh_BlockHash p with None, Some h => JStr h | _, _ => JNull end in
            Ret (inr (json_marshal (JArr [JObj [("blockHash", hash); ("blockNumber", num)]])))
        end
      else Ret (inl (EPlain ErrConsensusGetReceiptsInvalidTarget))
  end.

(** The loop over the requests of a single (not batched) call: the requests as
    it leaves them, the IDs that were translated, the error that ended it. *)
Fixpoint translate_reqs (target : string) (reqs : list RPCReq) :
    go (list RPCReq * gmap string string * option error) :=
  match reqs with
  | [] => Ret ([], ∅, None)
  | r :: reqs =>
      if String.eqb (rq_Method r) ConsensusGetReceiptsMethod then
        let r := mk_RPCReq (rq_JSONRPC r) target (rq_Params r) (rq_ID r) in
        t ← translate_params target (rq_Params r);
        match t with
        | inl err => Ret (r :: reqs, <[rq_ID r := target]> ∅, Some err)
        | inr params =>
            '(reqs, ids, err) ← translate_reqs target reqs;
            Ret (mk_RPCReq (rq_JSONRPC r) target params (rq_ID r) :: reqs, <[rq_ID r := target]> ids, err)
        end
      else
        '(reqs, ids, err) ← translate_reqs target reqs;
        Ret (r :: reqs, ids, err)
  end.

(** ** doForward *)

(** What follows a network error: one more intermittent error, and the error
    rate read for the metrics. *)
Definition network_error : C unit := errors_Incr;; _ ← ErrorRate; mret ().

Definition request_headers (ctx : Ctx) (b : Backend) : gmap string string :=
  let xff := if stripTrailingXFF b then stripXFF (ctx_xff ctx)
    else if negb (String.eqb (proxydIP b) "") then ctx_xff ctx +:+ ", " +:+ proxydIP b
    else ctx_xff ctx in
  let h := if negb (String.eqb (ctx_opTxProxyAuth ctx) "")
    then header_set ∅ DefaultOpTxProxyAuthHeader (ctx_opTxProxyAuth ctx) else ∅ in
  let h := header_set h "content-type" "application/json" in
  let h := header_set h "X-Forwarded-For" xff in
  foldl (λ h '(k, v), header_set h k v) h (headers b).

(** The body of a call: a single request is sent by itself. *)
Definition request_body (reqs : list RPCReq) : go string :=
  match reqs with
  | [r] => mustMarshalJSON (marshal_RPCReq r)
  | _ => mustMarshalJSON (marshal_RPCReqs reqs)
  end.

(** The responses in a body: of a single request, or of several. *)
Definition decode_single (resB : string) : error + list (option RPCRes) :=
  match unmarshal_RPCRes resB with
  | Some res => inr [Some res]
  | None => inl (EVar ErrBackendBadResponse)
  end.
Definition decode_batch (resB : string) : error + list (option RPCRes) :=
  match unmarshal_RPCRes_list resB with
  | Some l => inr l
  | None =>
      if responseIsNotBatched resB then inl (EPlain ErrBackendUnexpectedJSONRPC)
      else inl (EVar ErrBackendBadResponse)
  end.

(** Writing the HTTP status into the errors of the responses: a response, or
    an error, that is not there is a nil pointer. *)
Definition set_http_code (code : Z) (r : option RPCRes) : go (option RPCRes) :=
  match r with
  | None => Panic "nil pointer dereference"
  | Some r =>
      match rs_Error r with
      | None => Panic "nil pointer dereference"
      | Some e => Ret (Some (mk_RPCRes (rs_JSONRPC r) (rs_Result r)
          (Some (mk_RPCErr (Code e) (Message e) (Data e) code)) (rs_ID r)))
      end
  end.

Definition enrich (ids : gmap string string) (r : option RPCRes) : go RPCRes :=
  match r with
  | None => Panic "nil pointer dereference"
  | Some r =>
      match ids !! rs_ID r with
      | Some method => Ret (mk_RPCRes (rs_JSONRPC r) (AReceipts method (rs_Result r)) (rs_Error r) (rs_ID r))
      | None => Ret r
      end
  end.

Fixpoint go_mapM {A B} (f : A → go B) (l : list A) : go (list B) :=
  match l with [] => Ret [] | x :: l => y ← f x; ys ← go_mapM f l; Ret (y :: ys) end.

Definition do_http (req : http_request) : C (error + http_response) := λ s,
  let '(r, w) := http_do req (st_world s) in Ret (r, {{ s with st_world := w }}).

(** From the exchange on, with the translated IDs. *)
Definition exchange (req : http_request) (ids : gmap string string) : C (error + list RPCRes) :=
  start ← Now;
  res ← do_http req;
  match res with
  | inl err => network_error;; mret (inl (wrapErr err "error in backend request"))
  | inr httpRes =>
      if negb (StatusCode httpRes =? 200) && negb (StatusCode httpRes =? 400) then
        network_error;; mret (inl (ENew ("response code " +:+ pretty (StatusCode httpRes))))
      else
        b ← this;
        let '(resB, err) := read_body (Body httpRes) (maxResponseSize b) in
        match err with
        | Some e =>
            if errors_Is_plain e ErrLimitReaderOverLimit then mret (inl (EVar ErrBackendResponseTooLarge))
            else network_error;; mret (inl (wrapErr e "error reading response body"))
        | None =>
            reqs ← m_gets st_reqs;
            let single := (length reqs =? 1)%nat in
            match (if single then decode_single resB else decode_batch resB) with
            | inl e => (if single then mret () else network_error);; mret (inl e)
            | inr rpcRes =>
                if negb (length reqs =? length rpcRes)%nat then
                  network_error;; mret (inl (EPlain ErrBackendUnexpectedJSONRPC))
                else
                  rpcRes ← m_lift (if StatusCode httpRes =? 200 then Ret rpcRes
                    else go_mapM (set_http_code (StatusCode httpRes)) rpcRes);
                  stop ← Now;
                  latency_Add (f_of_Z (stop - start));;
                  _ ← latency_Avg;
                  _ ← ErrorRate;
                  rpcRes ← m_lift (go_mapM (enrich ids) rpcRes);
                  rpcRes ← m_lift (sortBatchRPCResponse reqs rpcRes);
                  mret (inr rpcRes)
            end
        end
  end.

Definition doForward (ctx : Ctx) (isBatch : bool) : C (error + list RPCRes) :=
  requests_Incr;;
  reqs ← m_gets st_reqs;
  b ← this;
  if isBatch && existsb (λ r, String.eqb (rq_Method r) ConsensusGetReceiptsMethod) reqs then
    mret (inl (EPlain ErrConsensusGetReceiptsCantBeBatched))
  else
    '(reqs, ids, err) ← m_lift (if isBatch then Ret (reqs, ∅, None)
      else translate_reqs (receiptsTarget b) reqs);
    set_reqs reqs;;
    match err with
    | Some e => mret (inl e)
    | None =>
        body ← m_lift (request_body reqs);
        match url_error (rpcURL b) with
        | Some e => network_error;; mret (inl (wrapErr e "error creating backend request"))
        | None =>
            let auth := if negb (String.eqb (authPassword b) "")
              then Some (authUsername b, authPassword b) else None in
            exchange (mk_http_request (rpcURL b) body auth (request_headers ctx b)) ids
        end
    end.

(** ** Forward *)

(** The errors that end the loop of [Forward] at once: [err] is compared by
    address with the package variables. *)
Definition final_error (err : error) : bool :=
  match err with
  | EVar ErrBackendResponseTooLarge => true
  | EPlain ErrConsensusGetReceiptsCantBeBatched => true
  | EPlain ErrConsensusGetReceiptsInvalidTarget => true
  | EPlain ErrBackendUnexpectedJSONRPC => true
  | _ => false
  end.

(** The pause before the next attempt. *)
Definition back_off (i : Z) : C unit := λ s,
  let '(jitter, w) := rand_Int63n 250 (st_world s) in
  Ret ((), {{ s with st_world := sleep (calcBackoff jitter i) w }}).

(** The attempts from the [i]-th on, [n] of them left. *)
Fixpoint attempts (ctx : Ctx) (isBatch : bool) (n : nat) (i : Z) (lastError : option error) :
    C (error + list RPCRes) :=
  match n with
  | O =>
      mret (inl (match lastError with
        | Some e => wrapErr e "permanent error forwarding request"
        | None => ENew "permanent error forwarding request %!w(<nil>)"
        end))
  | S n =>
      res ← doForward ctx isBatch;
      match res with
      | inr _ => mret res
      | inl err =>
          if final_error err then mret res
          else
            back_off i;;
            attempts ctx isBatch n (i + 1) (Some err)
      end
  end.

(** [reqs[0].Method] is read for a label before the first attempt. *)
Definition Forward (ctx : Ctx) (isBatch : bool) : C (error + list RPCRes) :=
  b ← this;
  reqs ← m_gets st_reqs;
  if (maxRetries b <? 0) then attempts ctx isBatch 0 0 None
  else match reqs with
    | [] => m_panic "index out of range"
    | _ => attempts ctx isBatch (Z.to_nat (maxRetries b) + 1) 0 None
    end.

(** [ForwardRPC] with its parameters as JSON values (none is a nil slice, which
    marshals to null): the response, or the error it returns. The requests of
    the caller are not involved. *)
Definition ForwardRPC (ctx : Ctx) (id method : string) (params : list json) : C (error + RPCRes) :=
  old ← m_gets st_reqs;
  let jsonParams := json_marshal (match params with [] => JNull | _ => JArr params end) in
  set_reqs [mk_RPCReq JSONRPCVersion method jsonParams id];;
  slicedRes ← doForward ctx false;
  set_reqs old;;
  match slicedRes with
  | inl err => mret (inl err)
  | inr [res] =>
      match rs_Error res with Some e => mret (inl (ERPC e)) | None => mret (inr res) end
  | inr _ => mret (inl (ENew "unexpected response len for non-batched request (len != 1)"))
  end.

End backend.
Arguments Backend LM : clear implicits.
Arguments call_state LM W : clear implicits.
Arguments C LM W A : clear implicits.

(** ** How often a backend is called *)

(** A world that counts the exchanges made in it. *)
#[export] Instance counting {W} `{Env W} : Env (W * nat) := {|
  time_Now w := let '(t, w1) := time_Now w.1 in (t, (w1, w.2));
  url_error := url_error (W := W);
  http_do r w := let '(res, w1) := http_do r w.1 in (res, (w1, S w.2));
  rand_Int63n n w := let '(j, w1) := rand_Int63n n w.1 in (j, (w1, w.2));
  sleep d w := (sleep d w.1, w.2);
|}.

Section exchanges.
Context {LM : Type} `{LinkedHashMap LM} `{Geth} {W : Type} `{Env W}.

Definition exchanges (s : call_state LM (W * nat)) : nat := (st_world s).2.

(** Nothing is sent, and the configuration of the backend stays. *)
Definition quiet (s s' : call_state LM (W * nat)) : Prop :=
  exchanges s' = exchanges s ∧ maxRetries (st_be s') = maxRetries (st_be s).

#[export] Instance quiet_preorder : PreOrder quiet.
Proof. unfold quiet. split; [done|]. intros x y z [] []. split; congruence. Qed.

Lemma quiet_Now : respects quiet (Now (LM := LM) (W := W * nat)).
Proof. intros s a s'. unfold Now. simpl. destruct (time_Now (st_world s).1) as [t w]. by intros [= <- <-]. Qed.

Lemma quiet_set_be f : (∀ b, maxRetries (f b) = maxRetries b) →
  respects quiet (set_be (LM := LM) (W := W * nat) f).
Proof. intros Hf s a s' [= <- <-]. split; [done|]. apply Hf. Qed.

Lemma quiet_set_reqs l : respects quiet (set_reqs (LM := LM) (W := W * nat) l).
Proof. by intros s a s' [= <- <-]. Qed.

#[local] Hint Resolve quiet_Now quiet_set_reqs : respects.
#[local] Hint Extern 1 (respects quiet (set_be _)) => (apply quiet_set_be; done) : respects.

Lemma quiet_ErrorRate : respects quiet (ErrorRate (LM := LM) (W := W * nat)).
Proof. unfold ErrorRate, requests_Sum, errors_Sum, this. respects_tac. Qed.
#[local] Hint Resolve quiet_ErrorRate : respects.

Lemma quiet_network_error : respects quiet (network_error (LM := LM) (W := W * nat)).
Proof. unfold network_error, errors_Incr. respects_tac. Qed.
#[local] Hint Resolve quiet_network_error : respects.

Lemma quiet_latency v : respects quiet (latency_Add (LM := LM) (W := W * nat) v).
Proof. unfold latency_Add. respects_tac. Qed.
Lemma quiet_latency_Avg : respects quiet (latency_Avg (LM := LM) (W := W * nat)).
Proof. unfold latency_Avg, this. respects_tac. Qed.
Lemma quiet_requests_Incr : respects quiet (requests_Incr (LM := LM) (W := W * nat)).
Proof. unfold requests_Incr. respects_tac. Qed.
#[local] Hint Resolve quiet_latency quiet_latency_Avg quiet_requests_Incr : respects.

(** At most [k] exchanges. *)
Definition sends (k : nat) (s s' : call_state LM (W * nat)) : Prop :=
  (exchanges s' ≤ exchanges s + k)%nat ∧ maxRetries (st_be s') = maxRetries (st_be s).

Lemma quiet_sends k x y z : quiet x y → sends k y z → sends k x z.
Proof. intros [] []. split; [lia|congruence]. Qed.
Lemma sends_quiet k x y z : sends k x y → quiet y z → sends k x z.
Proof. intros [] []. split; [lia|congruence]. Qed.
Lemma quiet_is_sends {A} k (m : C LM (W * nat) A) : respects quiet m → respects (sends k) m.
Proof. intros Hm s a s' E. apply Hm in E as []. split; [lia|done]. Qed.

Lemma sends_exchange req ids : respects (sends 1) (exchange (LM := LM) (W := W * nat) req ids).
Proof.
  unfold exchange. eapply respects_seq; [apply quiet_sends|apply quiet_Now|]. intros start.
  eapply respects_seq; [apply sends_quiet| |].
  - intros s r s'. unfold do_http. simpl. destruct (http_do req (st_world s).1) as [res w]. intros [= <- <-].
    split; [unfold exchanges; simpl; lia|done].
  - intros res. unfold this. respects_tac.
Qed.

Lemma sends_doForward ctx isBatch : respects (sends 1) (doForward (LM := LM) (W := W * nat) ctx isBatch).
Proof.
  unfold doForward. eapply respects_seq; [apply quiet_sends|apply quiet_requests_Incr|]. intros _.
  eapply respects_seq; [apply quiet_sends|unfold this; respects_tac|]. intros reqs.
  eapply respects_seq; [apply quiet_sends|unfold this; respects_tac|]. intros b.
  destruct (_ && _); [apply quiet_is_sends; respects_tac|].
  eapply respects_seq; [apply quiet_sends|respects_tac|]. intros [[reqs' ids] err].
  eapply respects_seq; [apply quiet_sends|respects_tac|]. intros _.
  destruct err; [apply quiet_is_sends; respects_tac|].
  eapply respects_seq; [apply quiet_sends|respects_tac|]. intros body.
  destruct (url_error (rpcURL b)); [apply quiet_is_sends; respects_tac|]. apply sends_exchange.
Qed.

Lemma sends_attempts ctx isBatch n i e :
  respects (sends n) (attempts (LM := LM) (W := W * nat) ctx isBatch n i e).
Proof.
  revert i e. induction n as [|n IH]; intros i e; [apply quiet_is_sends; respects_tac|].
  cbn [attempts]. eapply (respects_seq (sends 1) (sends n)); [|apply sends_doForward|].
  { intros x y z [] []. split; [lia|congruence]. }
  intros [err|res]; [|apply quiet_is_sends; respects_tac].
  destruct (final_error err); [apply quiet_is_sends; respects_tac|].
  eapply respects_seq; [apply quiet_sends| |intros _; apply IH].
  intros s u s'. unfold back_off. simpl. destruct (rand_Int63n 250 (st_world s).1). by intros [= <- <-].
Qed.

End exchanges.

(** C37: a call of [Forward] that returns has made at most [maxRetries + 1]
    exchanges with the backend, whatever the backend answered. *)
Theorem forward_attempts_bounded {LM W} `{LinkedHashMap LM} `{Geth} `{Env W} ctx isBatch
    (s s' : call_state LM (W * nat)) res :
  Forward ctx isBatch s = Ret (res, s') →
  (exchanges s' ≤ exchanges s + Z.to_nat (maxRetries (st_be s) + 1))%nat.
Proof.
  unfold Forward, this, mbind, M_bind, m_gets. destruct (Z.ltb_spec (maxRetries (st_be s)) 0) as [Hneg|Hpos].
  { intros Hr. apply sends_attempts in Hr as [Hle _]. lia. }
  destruct (st_reqs s); [done|]. intros Hr. apply sends_attempts in Hr as [Hle _]. lia.
Qed.

(** ** Responses in the order of their requests *)

Lemma positions_spec reqs i pos0 :
  NoDup (rq_ID <$> reqs) → (∀ r, r ∈ reqs → pos0 !! rq_ID r = None) →
  ∃ pos, positions i reqs pos0 = Ret pos ∧
    (∀ j r, reqs !! j = Some r → pos !! rq_ID r = Some (i + j)%nat) ∧
    (∀ id, id ∉ rq_ID <$> reqs → pos !! id = pos0 !! id).
Proof.
  revert i pos0. induction reqs as [|r reqs IH]; intros i pos0 Hnd Hfresh; [by exists pos0|].
  csimpl in *. apply NoDup_cons in Hnd as [Hr Hnd]. rewrite Hfresh by set_solver.
  destruct (IH (S i) (<[rq_ID r := i]> pos0)) as (pos & -> & Hpos & Hout); [done| |].
  { intros r' Hr'. rewrite lookup_insert_ne; [apply Hfresh; set_solver|].
    intros Heq. apply Hr. rewrite Heq. by apply list_elem_of_fmap_2. }
  exists pos. split_and!; [done| |].
  - intros [|j] r'; simpl; [intros [= <-]|intros Hj; rewrite (Hpos j) by done; f_equal; lia].
    rewrite Hout, lookup_insert_eq by done. f_equal. lia.
  - intros id Hid. rewrite not_elem_of_cons in Hid. destruct Hid. by rewrite Hout, lookup_insert_ne.
Qed.

Lemma insert_res_perm key x l : insert_res key x l ≡ₚ x :: l.
Proof.
  induction l as [|y l IH]; [done|]. simpl. destruct (_ <? _)%nat; [done|]. rewrite IH. by constructor.
Qed.

Lemma sort_res_perm key l : sort_res key l ≡ₚ l.
Proof.
  unfold sort_res. cut (∀ acc, foldl (λ acc x, insert_res key x acc) acc l ≡ₚ acc ++ l); [by intros ->|].
  induction l as [|x l IH]; intros acc; simpl; [by rewrite app_nil_r|].
  rewrite IH, insert_res_perm. apply Permutation_middle.
Qed.

Definition key_le (key : RPCRes → nat) (x y : RPCRes) : Prop := (key x ≤ key y)%nat.

Lemma insert_res_sorted key x l :
  StronglySorted (key_le key) l → StronglySorted (key_le key) (insert_res key x l).
Proof.
  induction 1 as [|y l Hs IH Hall]; [repeat constructor|]. simpl.
  destruct (Nat.ltb_spec (key x) (key y)) as [Hlt|Hge].
  - constructor; [by constructor|]. constructor; [unfold key_le; lia|].
    eapply Forall_impl; [exact Hall|]. unfold key_le. intros z. lia.
  - constructor; [done|]. rewrite insert_res_perm. constructor; [done|done].
Qed.

Lemma sort_res_sorted key l : StronglySorted (key_le key) (sort_res key l).
Proof.
  unfold sort_res. assert (Hacc : StronglySorted (key_le key) []) by constructor. revert Hacc.
  generalize (@nil RPCRes). induction l as [|x l IH]; intros acc Hacc; [done|]. simpl.
  by apply IH, insert_res_sorted.
Qed.

(** A list whose keys are a permutation of 0, ..., n-1, once sorted. *)
Lemma sorted_keys key l l' n : l' ≡ₚ l → StronglySorted (key_le key) l' → key <$> l ≡ₚ seq 0 n →
  key <$> l' = seq 0 n.
Proof.
  intros Hp Hs Hk. apply (StronglySorted_unique (≤)%nat).
  - revert Hs. clear. induction 1 as [|x l Hs IH Hall]; csimpl; [constructor|].
    constructor; [done|]. by apply Forall_fmap.
  - clear. generalize 0%nat. induction n as [|n IH]; intros k; simpl; [constructor|].
    constructor; [done|]. apply Forall_forall. intros j Hj%elem_of_seq. lia.
  - by rewrite Hp.
Qed.

(** Any sorted order of the responses is the order of the requests. *)
Lemma sorted_ids reqs res res' pos : NoDup (rq_ID <$> reqs) →
  rs_ID <$> res ≡ₚ rq_ID <$> reqs → (∀ j r, reqs !! j = Some r → pos !! rq_ID r = Some j) →
  res' ≡ₚ res → StronglySorted (key_le (res_pos pos)) res' → rs_ID <$> res' = rq_ID <$> reqs.
Proof.
  intros Hnd Hperm Hpos Hp Hs.
  assert (Hfmap : ∀ l : list RPCRes, res_pos pos <$> l = (λ id, default 0%nat (pos !! id)) <$> (rs_ID <$> l))
    by (intros l; by rewrite <-list_fmap_compose).
  assert (Hkeys : (λ id, default 0%nat (pos !! id)) <$> (rq_ID <$> reqs) = seq 0 (length reqs)).
  { apply list_eq. intros j. rewrite !list_lookup_fmap. destruct (reqs !! j) as [r|] eqn:Hj; simpl.
    - rewrite (Hpos j r Hj). simpl. symmetry. apply lookup_seq. split; [lia|]. by eapply lookup_lt_Some.
    - symmetry. apply lookup_ge_None_2. rewrite length_seq. by apply lookup_ge_None_1. }
  pose proof (sorted_keys (res_pos pos) res res' (length reqs) Hp Hs) as Hk'.
  rewrite Hfmap, Hperm, Hkeys in Hk'. specialize (Hk' (reflexivity _)). rewrite Hfmap in Hk'.
  apply list_eq. intros j. rewrite !list_lookup_fmap.
  assert (Hj : ((λ id, default 0%nat (pos !! id)) <$> (rs_ID <$> res')) !! j = seq 0 (length reqs) !! j) by (by rewrite Hk').
  rewrite !list_lookup_fmap in Hj. destruct (res' !! j) as [r'|] eqn:Er; simpl in *.
  - symmetry in Hj. apply lookup_seq in Hj as [Hj Hlt]. simpl in Hj.
    assert (Hin : rs_ID r' ∈ rq_ID <$> reqs).
    { rewrite <-Hperm. apply list_elem_of_fmap_2. rewrite <-Hp. by eapply list_elem_of_lookup_2. }
    apply list_elem_of_fmap in Hin as (r & Heq & [k Hk]%list_elem_of_lookup_1).
    rewrite Heq, (Hpos k r Hk) in Hj. simpl in Hj. subst k. rewrite Hk. simpl. by rewrite Heq.
  - symmetry in Hj. apply lookup_ge_None_1 in Hj. rewrite length_seq in Hj. by rewrite lookup_ge_None_2.
Qed.

Lemma fmap_NoDup_inj {A B} (f : A → B) (l : list A) x y :
  NoDup (f <$> l) → x ∈ l → y ∈ l → f x = f y → x = y.
Proof.
  intros Hnd [i Hi]%list_elem_of_lookup_1 [j Hj]%list_elem_of_lookup_1 Heq.
  assert (i = j) as ->; [|by simplify_eq].
  eapply NoDup_lookup; [exact Hnd|by rewrite list_lookup_fmap, Hi|by rewrite list_lookup_fmap, Hj, Heq].
Qed.

Lemma same_ids_eq {A B} (f : A → B) (l l1 l2 : list A) :
  NoDup (f <$> l) → l1 ≡ₚ l → l2 ≡ₚ l → f <$> l1 = f <$> l2 → l1 = l2.
Proof.
  intros Hnd H1 H2 Heq. apply list_eq. intros i.
  assert (Hi : (f <$> l1) !! i = (f <$> l2) !! i) by (by rewrite Heq).
  rewrite !list_lookup_fmap in Hi.
  destruct (l1 !! i) as [x|] eqn:E1, (l2 !! i) as [y|] eqn:E2; simplify_eq/=; [|done].
  f_equal. apply (fmap_NoDup_inj f l); [done| | |done].
  - rewrite <-H1. by eapply list_elem_of_lookup_2.
  - rewrite <-H2. by eapply list_elem_of_lookup_2.
Qed.

Lemma positions_dup reqs i pos0 :
  (¬ NoDup (rq_ID <$> reqs) ∨ ∃ r, r ∈ reqs ∧ pos0 !! rq_ID r ≠ None) →
  ∃ why, positions i reqs pos0 = Panic why.
Proof.
  revert i pos0. induction reqs as [|r reqs IH]; intros i pos0 Hdup; csimpl in *.
  { destruct Hdup as [[]|(r & Hr & _)]; [constructor|set_solver]. }
  destruct (pos0 !! rq_ID r) eqn:Hr; [by eexists|]. apply IH.
  destruct Hdup as [Hdup|(r' & [->|Hin]%elem_of_cons & Hn)]; [|done|].
  - rewrite NoDup_cons in Hdup. destruct (decide (rq_ID r ∈ rq_ID <$> reqs)) as [Hin|Hout]; [right|left; tauto].
    apply list_elem_of_fmap in Hin as (r' & Heq & Hr'). exists r'. rewrite <-Heq, lookup_insert_eq. done.
  - right. exists r'. split; [done|]. destruct (decide (rq_ID r' = rq_ID r)) as [Heq|Hne].
    + by rewrite Heq, lookup_insert_eq.
    + by rewrite lookup_insert_ne.
Qed.

(** When the requests of a batch have distinct IDs and the backend answers
    each of them once, in any order, the responses come out in the order of the
    requests, each unchanged, and that is the only order a sort can produce;
    with equal IDs in a batch the sort panics. *)
Theorem batch_responses_in_order reqs res :
  (NoDup (rq_ID <$> reqs) → rs_ID <$> res ≡ₚ rq_ID <$> reqs →
   ∃ pos res', positions 0 reqs ∅ = Ret pos ∧ sortBatchRPCResponse reqs res = Ret res' ∧
     res' ≡ₚ res ∧ rs_ID <$> res' = rq_ID <$> reqs ∧
     (∀ res'', res'' ≡ₚ res → StronglySorted (key_le (res_pos pos)) res'' → res'' = res')) ∧
  (¬ NoDup (rq_ID <$> reqs) → ∃ why, sortBatchRPCResponse reqs res = Panic why).
Proof.
  split.
  - intros Hnd Hperm. destruct (positions_spec reqs 0 ∅ Hnd) as (pos & Hpos & Hp & _); [intros; apply lookup_empty|].
    assert (Hid : rs_ID <$> sort_res (res_pos pos) res = rq_ID <$> reqs).
    { apply (sorted_ids reqs res _ pos); [done..|apply sort_res_perm|apply sort_res_sorted]. }
    exists pos, (sort_res (res_pos pos) res). unfold sortBatchRPCResponse. rewrite Hpos.
    split_and!; [done..|apply sort_res_perm|done|]. intros res'' Hp'' Hs''.
    apply (same_ids_eq rs_ID res); [by rewrite Hperm|done|apply sort_res_perm|].
    rewrite Hid. by apply (sorted_ids reqs res _ pos).
  - intros Hdup. destruct (positions_dup reqs 0 ∅) as [why Hw]; [by left|].
    exists why. unfold sortBatchRPCResponse. by rewrite Hw.
Qed.

(** ** What doForward returns *)

Section outcome.
Context {LM : Type} `{LinkedHashMap LM} `{Geth} {W : Type} `{Env W}.

(** The caller's requests and the configuration stay. *)
Definition same_call (s s' : call_state LM W) : Prop :=
  st_reqs s' = st_reqs s ∧ conf (st_be s') = conf (st_be s).

#[export] Instance same_call_preorder : PreOrder same_call.
Proof. unfold same_call. split; [done|]. intros x y z [] []. split; congruence. Qed.

Lemma same_Now : respects same_call (Now (LM := LM) (W := W)).
Proof. intros s a s'. unfold Now. destruct (time_Now (st_world s)). by intros [= <- <-]. Qed.
Lemma same_http req : respects same_call (do_http (LM := LM) (W := W) req).
Proof. intros s a s'. unfold do_http. destruct (http_do req (st_world s)). by intros [= <- <-]. Qed.
Lemma same_set_be f : (∀ b, conf (f b) = conf b) → respects same_call (set_be (LM := LM) (W := W) f).
Proof. intros Hf s a s' [= <- <-]. split; [done|apply Hf]. Qed.
#[local] Hint Resolve same_Now same_http : respects.
#[local] Hint Extern 1 (respects same_call (set_be _)) => (apply same_set_be; done) : respects.

Lemma same_ErrorRate : respects same_call (ErrorRate (LM := LM) (W := W)).
Proof. unfold ErrorRate, requests_Sum, errors_Sum, this. respects_tac. Qed.
#[local] Hint Resolve same_ErrorRate : respects.
Lemma same_network_error : respects same_call (network_error (LM := LM) (W := W)).
Proof. unfold network_error, errors_Incr. respects_tac. Qed.
Lemma same_latency v : respects same_call (latency_Add (LM := LM) (W := W) v).
Proof. unfold latency_Add. respects_tac. Qed.
Lemma same_latency_Avg : respects same_call (latency_Avg (LM := LM) (W := W)).
Proof. unfold latency_Avg, this. respects_tac. Qed.
Lemma same_requests_Incr : respects same_call (requests_Incr (LM := LM) (W := W)).
Proof. unfold requests_Incr. respects_tac. Qed.
#[local] Hint Resolve same_network_error same_latency same_latency_Avg same_requests_Incr : respects.

Lemma same_exchange req ids : respects same_call (exchange (LM := LM) (W := W) req ids).
Proof. unfold exchange, this. respects_tac. Qed.

(** The steps from a decoded body to the responses. *)
Definition finished (reqs : list RPCReq) (code : Z) (ids : gmap string string)
    (l : list (option RPCRes)) : go (list RPCRes) :=
  l ← (if code =? 200 then Ret l else go_mapM (set_http_code code) l);
  l ← go_mapM (enrich ids) l;
  sortBatchRPCResponse reqs l.

Definition decode (reqs : list RPCReq) (resB : string) : error + list (option RPCRes) :=
  if (length reqs =? 1)%nat then decode_single resB else decode_batch resB.

Lemma exchange_inr req ids s res s' : exchange req ids s = Ret (inr res, s') →
  ∃ httpRes resB l, read_body (Body httpRes) (maxResponseSize (st_be s)) = (resB, None) ∧
    decode (st_reqs s) resB = inr l ∧ length l = length (st_reqs s) ∧
    finished (st_reqs s) (StatusCode httpRes) ids l = Ret res.
Proof.
  unfold exchange. intros HR. run_step HR start s1 H1'. run_step HR r s2 H2'.
  apply same_Now in H1' as (E1 & M1%(f_equal maxResponseSize)).
  apply same_http in H2' as (E2 & M2%(f_equal maxResponseSize)). simpl in M1, M2.
  rewrite <-E1, <-E2, <-M1, <-M2. clear E1 E2 M1 M2.
  destruct r as [err|httpRes]; [run_step HR u s3 Hx; discriminate HR|].
  destruct (_ && _); [run_step HR u s3 Hx; discriminate HR|].
  unfold this in HR. run_step HR b s3 Hb. injection Hb as <- <-.
  destruct (read_body (Body httpRes) (maxResponseSize (st_be s2))) as [resB [e|]] eqn:Hread.
  { destruct (errors_Is_plain _ _); [discriminate HR|run_step HR u s3 Hx; discriminate HR]. }
  run_step HR reqs s3 Hb. injection Hb as <- <-. fold (decode (st_reqs s2) resB) in HR.
  destruct (decode (st_reqs s2) resB) as [e|l] eqn:Hdec.
  { run_step HR u s3 Hx. discriminate HR. }
  destruct (negb _) eqn:Hlen; [run_step HR u s3 Hx; discriminate HR|].
  apply negb_false_iff, Nat.eqb_eq in Hlen. exists httpRes, resB, l. split_and!; [done..|].
  run_step HR l1 s3 Hl1. run_step HR stop s4 Hx1. run_step HR u1 s5 Hx2. run_step HR u2 s6 Hx3.
  run_step HR u3 s7 Hx4. run_step HR l2 s8 Hl2. run_step HR l3 s9 Hl3. injection HR as -> _.
  unfold m_lift in *. apply go_bind_Ret in Hl1 as (? & Hl1 & [= -> _]).
  apply go_bind_Ret in Hl2 as (? & Hl2 & [= -> _]). apply go_bind_Ret in Hl3 as (? & Hl3 & [= -> _]).
  unfold finished. rewrite Hl1. simpl. rewrite Hl2. done.
Qed.

Lemma go_mapM_panic {A B} (f : A → go B) l x why : x ∈ l → f x = Panic why → ∃ why, go_mapM f l = Panic why.
Proof.
  intros Hx Hf. induction l as [|y l IH]; [by apply not_elem_of_nil in Hx|]. simpl.
  apply elem_of_cons in Hx as [<-|Hx]; [rewrite Hf; by eexists|]. destruct (f y); [|by eexists].
  destruct (IH Hx) as [w ->]. by eexists.
Qed.

(** A response that makes the code that follows dereference a nil pointer. *)
Definition broken (code : Z) (r : option RPCRes) : Prop :=
  r = None ∨ (code ≠ 200 ∧ ∃ res, r = Some res ∧ rs_Error res = None).

Lemma broken_steps code ids l l1 r : r ∈ l → broken code r →
  (if code =? 200 then Ret l else go_mapM (set_http_code code) l) = Ret l1 →
  ∃ why, go_mapM (enrich ids) l1 = Panic why.
Proof.
  intros Hr Hb. destruct (Z.eqb_spec code 200) as [->|Hc].
  - intros [= <-]. destruct Hb as [->|[]]; [|done]. exact (go_mapM_panic (enrich ids) l None _ Hr eq_refl).
  - assert (Hp : ∃ w, set_http_code code r = Panic w).
    { destruct Hb as [->|(_ & res & -> & He)]; [by eexists|]. simpl. rewrite He. by eexists. }
    destruct Hp as [w Hw]. destruct (go_mapM_panic _ l r w Hr Hw) as [w' ->]. done.
Qed.

End outcome.

Section calls.
Context {LM : Type} `{LinkedHashMap LM} `{Geth} {W : Type} `{Env W}.

Lemma same_IsHealthy : respects same_call (IsHealthy (LM := LM) (W := W)).
Proof.
  unfold IsHealthy, this. pose proof (same_ErrorRate (LM := LM) (W := W)).
  pose proof (same_latency_Avg (LM := LM) (W := W)). respects_tac.
Qed.

Lemma same_errors_Incr : respects same_call (errors_Incr (LM := LM) (W := W)).
Proof.
  unfold errors_Incr. pose proof (same_Now (LM := LM) (W := W)). respects_tac. apply same_set_be. done.
Qed.

(** No call changes the configuration. *)
Definition same_conf (s s' : call_state LM W) : Prop := conf (st_be s') = conf (st_be s).

#[export] Instance same_conf_preorder : PreOrder same_conf.
Proof. unfold same_conf. split; [done|]. intros x y z ? ?. congruence. Qed.

Lemma same_call_conf {A} (m : C LM W A) : respects same_call m → respects same_conf m.
Proof. intros Hm s a s' HR. by apply Hm in HR as [_ ?]. Qed.

Lemma same_conf_set_reqs l : respects same_conf (set_reqs (LM := LM) (W := W) l).
Proof. by intros s a s' [= <- <-]. Qed.

#[local] Hint Resolve same_conf_set_reqs : respects.
#[local] Hint Extern 2 (respects same_conf (exchange _ _)) => (apply same_call_conf, same_exchange) : respects.
#[local] Hint Extern 2 (respects same_conf network_error) => (apply same_call_conf, same_network_error) : respects.
#[local] Hint Extern 2 (respects same_conf requests_Incr) => (apply same_call_conf, same_requests_Incr) : respects.

Lemma same_conf_doForward ctx isBatch : respects same_conf (doForward (LM := LM) (W := W) ctx isBatch).
Proof. unfold doForward, this. respects_tac. Qed.
#[local] Hint Resolve same_conf_doForward : respects.

Lemma same_conf_ForwardRPC ctx id method params :
  respects same_conf (ForwardRPC (LM := LM) (W := W) ctx id method params).
Proof. unfold ForwardRPC. respects_tac. Qed.

Lemma same_conf_attempts ctx isBatch n i e :
  respects same_conf (attempts (LM := LM) (W := W) ctx isBatch n i e).
Proof.
  revert i e. induction n as [|n IH]; intros i e; cbn [attempts]; respects_tac.
  intros s u s'. unfold back_off. destruct (rand_Int63n 250 (st_world s)). by intros [= <- <-].
Qed.

Lemma same_conf_Forward ctx isBatch : respects same_conf (Forward (LM := LM) (W := W) ctx isBatch).
Proof. unfold Forward, this. pose proof same_conf_attempts. respects_tac. Qed.

(** ** Calls that return *)

Lemma total_Now : total (Now (LM := LM) (W := W)).
Proof. intros s. unfold Now. destruct (time_Now _). eauto. Qed.
Lemma total_set_be f : total (set_be (LM := LM) (W := W) f).
Proof. intros s. unfold set_be, m_modify. eauto. Qed.

Ltac total_tac := repeat first
  [ apply total_ret | apply total_gets | apply total_Now | apply total_set_be
  | apply total_bind; [|intros]
  | match goal with |- total (match ?x with _ => _ end) => destruct x end ].

Lemma total_ErrorRate : total (ErrorRate (LM := LM) (W := W)).
Proof. unfold ErrorRate, requests_Sum, errors_Sum, this. total_tac. Qed.
Lemma total_latency_Avg : total (latency_Avg (LM := LM) (W := W)).
Proof. unfold latency_Avg, this. total_tac. Qed.
Lemma total_latency_Add v : total (latency_Add (LM := LM) (W := W) v).
Proof. unfold latency_Add. total_tac. Qed.
Lemma total_requests_Incr : total (requests_Incr (LM := LM) (W := W)).
Proof. unfold requests_Incr. total_tac. Qed.

Lemma exchange_success req ids (s : call_state LM W) httpRes resB l res :
  (∀ w, (http_do req w).1 = inr httpRes) → StatusCode httpRes = 200 ∨ StatusCode httpRes = 400 →
  read_body (Body httpRes) (maxResponseSize (st_be s)) = (resB, None) →
  decode (st_reqs s) resB = inr l → length l = length (st_reqs s) →
  finished (st_reqs s) (StatusCode httpRes) ids l = Ret res →
  returns (exchange req ids) s (inr res).
Proof.
  intros Hhttp Hcode Hread Hdec Hlen Hfin. unfold exchange.
  apply returns_bind; [apply total_Now|]. intros start s1 [E1 C1]%same_Now.
  apply returns_bind; [intros s2; unfold do_http; destruct (http_do _ _); eauto|]. intros r s2 HR.
  pose proof HR as [E2 C2]%same_http. unfold do_http in HR.
  specialize (Hhttp (st_world s1)). destruct (http_do req (st_world s1)) as [r' w]. injection HR as -> _.
  simpl in Hhttp. subst r.
  assert (negb (StatusCode httpRes =? 200) && negb (StatusCode httpRes =? 400) = false) as ->
    by (by destruct Hcode as [->| ->]).
  apply (f_equal maxResponseSize) in C1, C2. simpl in C1, C2.
  rewrite <-C1, <-C2 in Hread. rewrite <-E1, <-E2 in *. clear E1 E2 C1 C2.
  apply returns_bind; [apply total_gets|]. intros b s3 [= <- <-]. rewrite Hread.
  apply returns_bind; [apply total_gets|]. intros b s3 [= <- <-]. fold (decode (st_reqs s2) resB). rewrite Hdec.
  rewrite Hlen, Nat.eqb_refl. cbn [negb]. unfold finished in Hfin.
  apply go_bind_Ret in Hfin as (l1 & -> & Hfin). apply go_bind_Ret in Hfin as (l2 & Hl2 & Hfin).
  apply returns_bind; [apply total_ret|]. intros ? ? [= <- <-].
  apply returns_bind; [apply total_Now|intros stop s3 _].
  apply returns_bind; [apply total_latency_Add|intros ? s4 _].
  apply returns_bind; [apply total_latency_Avg|intros ? s5 _].
  apply returns_bind; [apply total_ErrorRate|intros ? s6 _].
  rewrite Hl2. apply returns_bind; [apply total_ret|]. intros ? ? [= <- <-]. rewrite Hfin. by eexists.
Qed.

(** The request [ForwardRPC] sends. *)
Definition rpc_request (ctx : Ctx) (id method : string) (params : list json) (b : Backend LM) : go http_request :=
  body ← mustMarshalJSON (marshal_RPCReq (mk_RPCReq JSONRPCVersion method
    (json_marshal (match params with [] => JNull | _ => JArr params end)) id));
  Ret (mk_http_request (rpcURL b) body
    (if negb (String.eqb (authPassword b) "") then Some (authUsername b, authPassword b) else None)
    (request_headers ctx b)).

Lemma ForwardRPC_success ctx id method params (s : call_state LM W) req httpRes resB x :
  method ≠ ConsensusGetReceiptsMethod → url_error (rpcURL (st_be s)) = None →
  rpc_request ctx id method params (conf (st_be s)) = Ret req →
  (∀ w, (http_do req w).1 = inr httpRes) → StatusCode httpRes = 200 →
  read_body (Body httpRes) (maxResponseSize (st_be s)) = (resB, None) →
  unmarshal_RPCRes resB = Some x →
  returns (ForwardRPC ctx id method params) s
    (match rs_Error x with Some e => inl (ERPC e) | None => inr x end).
Proof.
  intros Hm Hurl Hreq Hhttp Hcode Hread Hx. unfold rpc_request in Hreq.
  apply go_bind_Ret in Hreq as (body & Hbody & [= <-]). unfold ForwardRPC.
  apply returns_bind; [apply total_gets|]. intros ? ? [= <- <-].
  apply returns_bind; [intros ?; eauto|]. intros ? s1 [= _ <-].
  eapply (returns_run _ _ _ (inr [x])).
  - unfold doForward. apply returns_bind; [apply total_requests_Incr|]. intros ? s2 [Hr Hc]%same_requests_Incr.
    apply returns_bind; [apply total_gets|]. intros ? ? [= <- <-].
    apply returns_bind; [apply total_gets|]. intros ? ? [= <- <-]. rewrite Hr. cbn [andb translate_reqs st_reqs rq_Method].
    apply String.eqb_neq in Hm. rewrite Hm.
    apply returns_bind; [apply total_ret|]. intros ? ? [= <- <-].
    apply returns_bind; [intros ?; eauto|]. intros ? s3 [= _ <-]. cbn [request_body].
    rewrite Hbody. apply returns_bind; [apply total_ret|]. intros ? ? [= <- <-].
    assert (url_error (rpcURL (st_be s2)) = None) as ->.
    { rewrite <-Hurl. exact (f_equal (λ b, url_error (rpcURL b)) Hc). }
    change (returns (exchange ((λ b, mk_http_request (rpcURL b) body
      (if negb (String.eqb (authPassword b) "") then Some (authUsername b, authPassword b) else None)
      (request_headers ctx b)) (conf (st_be s2))) ∅)
      (mk_call_state (st_be s2) (st_world s2) [mk_RPCReq JSONRPCVersion method
        (json_marshal (match params with [] => JNull | _ => JArr params end)) id]) (inr [x])).
    rewrite Hc. apply (exchange_success _ _ _ httpRes resB [Some x]); [done|by left| | |done|].
    + assert (maxResponseSize (st_be s2) = maxResponseSize (st_be s)) as Hmax by exact (f_equal maxResponseSize Hc).
      simpl. by rewrite Hmax.
    + unfold decode, decode_single. simpl. by rewrite Hx.
    + unfold finished. by rewrite Hcode.
  - intros s2 _. apply returns_bind; [intros ?; eauto|]. intros ? s3 [= _ <-].
    destruct (rs_Error x); by eexists.
Qed.

End calls.

(** A backend that answers a batch with a null among its responses, or
    any request with status 400 and a response without an error, makes
    [doForward] dereference a nil pointer: a run of the exchange that decodes
    such an answer does not return responses. *)
Theorem broken_response_never_returns {LM W} `{LinkedHashMap LM} `{Geth} `{Env W} req ids
    (s : call_state LM W) t w httpRes w' resB l r :
  time_Now (st_world s) = (t, w) → http_do req w = (inr httpRes, w') →
  StatusCode httpRes = 200 ∨ StatusCode httpRes = 400 →
  read_body (Body httpRes) (maxResponseSize (st_be s)) = (resB, None) →
  decode (st_reqs s) resB = inr l → length l = length (st_reqs s) →
  r ∈ l → broken (StatusCode httpRes) r → ∃ why, exchange req ids s = Panic why.
Proof.
  intros Hnow Hhttp Hcode Hread Hdec Hlen Hr Hb. unfold exchange.
  destruct s as [b w0 reqs]. simpl in *.
  eapply panics_run; [unfold Now; simpl; by rewrite Hnow|]. simpl.
  eapply panics_run; [unfold do_http; simpl; by rewrite Hhttp|]. simpl.
  assert (negb (StatusCode httpRes =? 200) && negb (StatusCode httpRes =? 400) = false) as ->
    by (by destruct Hcode as [->| ->]).
  eapply panics_run; [done|]. simpl. rewrite Hread. eapply panics_run; [done|]. cbn [st_reqs].
  fold (decode reqs resB). rewrite Hdec.
  rewrite Hlen, Nat.eqb_refl. cbn [negb]. apply panics_bind. intros l1 s1 Hl1.
  unfold m_lift in Hl1. apply go_bind_Ret in Hl1 as (? & Hl1 & [= -> _]).
  do 4 (apply panics_bind; intros ? ? _). apply panics_bind. intros l2 s6 Hl2.
  unfold m_lift in Hl2. apply go_bind_Ret in Hl2 as (? & Hl2 & _).
  destruct (broken_steps _ ids l l1 r Hr Hb Hl1) as [w2 Hw]. by rewrite Hw in Hl2.
Qed.

(** ** consensus_getReceipts *)

Lemma decode_members_inv {A} (P : A → Prop) field ms (a a' : A) :
  (∀ k raw v x y, P x → field k raw v x = Some y → P y) → P a →
  decode_members field ms a = Some a' → P a'.
Proof.
  intros Hf Ha. unfold decode_members.
  assert (Hacc : ∀ x, Some a = Some x → P x) by (by intros x [= <-]). revert Hacc.
  generalize (Some a). induction ms as [|[k [raw v]] ms IH]; intros acc Hacc; simpl; [apply Hacc|].
  apply IH. intros x. destruct acc as [y|]; simpl; [|done]. intros Hx. by apply (Hf _ _ _ _ _ (Hacc y eq_refl) Hx).
Qed.

(** A result as a backend sent it. *)
Definition plain (r : RPCRes) : Prop := ∀ m a, rs_Result r ≠ AReceipts m a.

Lemma unmarshal_plain body r : unmarshal_RPCRes body = Some r → plain r.
Proof.
  unfold unmarshal_RPCRes. destruct (json_top body) as [t|]; [|done]. simpl.
  destruct t; try done; [by intros [= <-]|]. apply decode_members_inv; [|done].
  clear. intros k raw v x y Hx. unfold res_field, dec_any.
  destruct (String.eqb k "jsonrpc"); [destruct (dec_string v _); [|done]; by intros [= <-]|].
  destruct (String.eqb k "result"); [intros [= <-]; by destruct v|].
  destruct (String.eqb k "error"); [destruct (dec_err _ v _); [|done]; by intros [= <-]|].
  destruct (String.eqb k "id"); by intros [= <-].
Qed.

(** The one response of a single request, as it comes out. *)
Lemma finished_single r code ids x res : finished [r] code ids [Some x] = Ret res →
  ∃ y, res = [y] ∧ rs_ID y = rs_ID x ∧
    rs_Result y = match ids !! rs_ID x with Some m => AReceipts m (rs_Result x) | None => rs_Result x end.
Proof.
  unfold finished. intros HR. apply go_bind_Ret in HR as (l1 & Hl1 & HR). apply go_bind_Ret in HR as (l2 & Hl2 & HR).
  assert (∃ x1, l1 = [Some x1] ∧ rs_ID x1 = rs_ID x ∧ rs_Result x1 = rs_Result x) as (x1 & -> & Hid & Hres).
  { destruct (code =? 200); [injection Hl1 as <-; by exists x|]. simpl in Hl1.
    destruct (rs_Error x); [|done]. injection Hl1 as <-. by eexists. }
  simpl in Hl2. rewrite Hid in Hl2. unfold sortBatchRPCResponse in HR. simpl in HR.
  rewrite lookup_empty in HR. rewrite <-Hres.
  destruct (ids !! rs_ID x); injection Hl2 as <-; injection HR as <-; eexists; split_and!; eauto.
Qed.

Section receipts.
Context {LM : Type} `{LinkedHashMap LM} `{Geth} {W : Type} `{Env W}.

(** A single request that needs no translation. *)
Lemma doForward_plain ctx (s : call_state LM W) r res s' :
  st_reqs s = [r] → rq_Method r ≠ ConsensusGetReceiptsMethod →
  doForward ctx false s = Ret (inr res, s') → Forall plain res.
Proof.
  intros Hr Hm HR. unfold doForward in HR. run_step HR u s1 Hx. apply same_requests_Incr in Hx as (Hx & _).
  run_step HR reqs s2 Hy. injection Hy as <- <-. unfold this in HR. run_step HR b s2 Hy. injection Hy as <- <-.
  rewrite Hx, Hr in HR. cbn [andb translate_reqs] in HR. apply String.eqb_neq in Hm. rewrite Hm in HR.
  run_step HR x s2 Hy. injection Hy as <- <-. run_step HR u2 s2 Hy. injection Hy as _ <-.
  run_step HR body s2 Hy. destruct (url_error _); [run_step HR u3 s3 Hz; discriminate HR|].
  unfold m_lift in Hy. apply go_bind_Ret in Hy as (? & _ & [= -> <-]).
  apply exchange_inr in HR as (httpRes & resB & l & _ & Hdec & _ & Hfin). simpl in Hdec, Hfin.
  unfold decode in Hdec. simpl in Hdec. unfold decode_single in Hdec.
  destruct (unmarshal_RPCRes resB) as [x|] eqn:Hu; [|done]. injection Hdec as <-.
  apply finished_single in Hfin as (y & -> & _ & Hres). rewrite lookup_empty in Hres.
  constructor; [|constructor]. intros m a. rewrite Hres. by eapply unmarshal_plain.
Qed.

(** A single consensus_getReceipts request: what the call leaves and returns. *)
Lemma doForward_receipts ctx (s : call_state LM W) r x s' :
  st_reqs s = [r] → rq_Method r = ConsensusGetReceiptsMethod →
  doForward ctx false s = Ret (x, s') →
  (∃ r', st_reqs s' = [r'] ∧ rq_Method r' = receiptsTarget (st_be s)) ∧
  ∀ res y, x = inr res → y ∈ res → rs_ID y = rq_ID r →
    ∃ a, rs_Result y = AReceipts (receiptsTarget (st_be s)) a.
Proof.
  intros Hr Hm HR. unfold doForward in HR. run_step HR u s1 Hx. apply same_requests_Incr in Hx as (Hx & Ht%(f_equal receiptsTarget)). simpl in Ht.
  run_step HR reqs s2 Hy. injection Hy as <- <-. unfold this in HR. run_step HR b s2 Hy. injection Hy as <- <-.
  rewrite Hx, Hr in HR. cbn [andb translate_reqs] in HR. rewrite Hm, String.eqb_refl, Ht in HR.
  run_step HR t s2 Hy. unfold m_lift in Hy. apply go_bind_Ret in Hy as (t' & Htr & [= -> <-]).
  apply go_bind_Ret in Htr as (p & Hp & Htr).
  destruct t as [[rq ids] er]. run_step HR u2 s2 Hy. injection Hy as _ <-. destruct p as [e|params].
  { injection Htr as <- <- <-. injection HR as <- <-. split; [|done]. simpl. by eexists. }
  simpl in Htr. injection Htr as <- <- <-. cbv beta iota in HR.
  run_step HR body s2 Hy. unfold m_lift in Hy. apply go_bind_Ret in Hy as (? & _ & [= -> <-]).
  destruct (url_error _).
  { run_step HR u3 s3 Hz. apply same_network_error in Hz as (Hz & _). injection HR as <- <-.
    split; [|done]. rewrite Hz. simpl. by eexists. }
  split; [apply same_exchange in HR as (-> & _); simpl; by eexists|].
  intros res y -> Hy Hid. apply exchange_inr in HR as (httpRes & resB & l & _ & Hdec & _ & Hfin).
  simpl in Hdec, Hfin. unfold decode in Hdec. simpl in Hdec. unfold decode_single in Hdec.
  destruct (unmarshal_RPCRes resB) as [z|] eqn:Hu; [|done]. injection Hdec as <-.
  apply finished_single in Hfin as (y' & -> & Hid' & Hres). apply list_elem_of_singleton in Hy as <-.
  rewrite <-Hid', Hid, lookup_insert_eq in Hres. eauto.
Qed.
End receipts.

(** [doForward] translates consensus_getReceipts by writing the target
    method into the caller's request. A first attempt that succeeds wraps the
    result with the method used; when the first attempt fails, the next one
    finds no consensus_getReceipts request any more and its result is returned
    unwrapped. *)
Theorem retry_loses_translation {LM W} `{LinkedHashMap LM} `{Geth} `{Env W} ctx
    (s : call_state LM W) r : st_reqs s = [r] → rq_Method r = ConsensusGetReceiptsMethod →
  receiptsTarget (st_be s) ≠ ConsensusGetReceiptsMethod →
  (∀ res s1 y, doForward ctx false s = Ret (inr res, s1) → y ∈ res → rs_ID y = rq_ID r →
    ∃ a, rs_Result y = AReceipts (receiptsTarget (st_be s)) a) ∧
  (∀ err s1 res s2, doForward ctx false s = Ret (inl err, s1) →
    doForward ctx false s1 = Ret (inr res, s2) → Forall plain res).
Proof.
  intros Hr Hm Ht. split.
  - intros res s1 y HR Hy Hid. by eapply (doForward_receipts ctx s r).
  - intros err s1 res s2 HR1 HR2. apply (doForward_receipts ctx s r) in HR1 as [(r' & Hr' & Hm') _]; [|done..].
    eapply doForward_plain; [exact Hr'|by rewrite Hm'|exact HR2].
Qed.

(** ** Witnesses, in a world that plays a script *)

(** A clock that advances a millisecond at every reading, and the outcomes of
    the exchanges to come. *)
Record script := mk_script { sc_clock : Z; sc_next : list (error + http_response) }.

#[export] Instance script_env : Env script := {|
  time_Now w := (sc_clock w, mk_script (sc_clock w + Millisecond) (sc_next w));
  url_error _ := None;
  http_do _ w :=
    match sc_next w with
    | [] => (inl (ENew "connection refused"), w)
    | r :: rs => (r, mk_script (sc_clock w) rs)
    end;
  rand_Int63n _ w := (0, w);
  sleep d w := mk_script (sc_clock w + d) (sc_next w);
|}.

Definition answer (code : Z) (t : string) : error + http_response :=
  inr (mk_http_response code (mk_body t None false 0)).

Definition test_backend : Backend (list (Z * bucket)) :=
  NewBackend "node" "http://node" "" [WithMaxRetries 1; WithConsensusReceiptTarget "debug_getRawReceipts"].

Definition receipts_req : RPCReq := mk_RPCReq "2.0" ConsensusGetReceiptsMethod (jtext "['0x10']") "1".

(** Two attempts against a backend that is down. *)
Example forward_attempts_bounded_witness :
  let s := mk_call_state test_backend (mk_script 0 [], 0%nat) [mk_RPCReq "2.0" "eth_chainId" "[]" "1"] in
  ∃ res s', Forward (mk_ctx "" "") false s = Ret (res, s') ∧ (exchanges s' ≤ 0 + 2)%nat.
Proof.
  intros s.
  assert (∃ res s', Forward (mk_ctx "" "") false s = Ret (res, s')) as (res & s' & HR)
    by (do 2 eexists; vm_compute; reflexivity).
  exists res, s'. split; [exact HR|]. exact (forward_attempts_bounded (mk_ctx "" "") false s s' res HR).
Defined.

Example batch_responses_in_order_witness :
  let reqs := [mk_RPCReq "2.0" "a" "" "1"; mk_RPCReq "2.0" "b" "" "2"] in
  let res := [mk_RPCRes "2.0" ANil None "2"; mk_RPCRes "2.0" ANil None "1"] in
  ∃ res', sortBatchRPCResponse reqs res = Ret res' ∧ rs_ID <$> res' = ["1"; "2"].
Proof.
  intros reqs res. destruct (proj1 (batch_responses_in_order reqs res)) as (pos & res' & _ & HR & _ & Hid & _).
  - apply (bool_decide_unpack _). vm_compute. exact I.
  - apply Permutation_swap.
  - by exists res'.
Defined.

(** A batch of two answered by [[null,null]]. *)
Example broken_response_never_returns_witness :
  let reqs := [mk_RPCReq "2.0" "a" "" "1"; mk_RPCReq "2.0" "b" "" "2"] in
  let s := mk_call_state test_backend (mk_script 0 [answer 200 "[null,null]"]) reqs in
  ∃ why, exchange (mk_http_request "" "" None ∅) ∅ s = Panic why.
Proof.
  intros reqs s. eapply (broken_response_never_returns _ _ s); [reflexivity|reflexivity|by left| | | | |].
  - vm_compute. reflexivity.
  - vm_compute. reflexivity.
  - reflexivity.
  - apply list_elem_of_here.
  - by left.
Defined.

(** The backend is down, then answers: the result comes back unwrapped. *)
Example retry_loses_translation_witness :
  let s := mk_call_state test_backend
    (mk_script 0 [inl (ENew "timeout"); answer 200 (jtext "{'id':1,'result':['0x01']}")]) [receipts_req] in
  ∃ err s1 res s2, doForward (mk_ctx "" "") false s = Ret (inl err, s1) ∧
    doForward (mk_ctx "" "") false s1 = Ret (inr res, s2) ∧ Forall plain res.
Proof.
  intros s.
  assert (∃ err s1, doForward (mk_ctx "" "") false s = Ret (inl err, s1)) as (err & s1 & H1)
    by (do 2 eexists; vm_compute; reflexivity).
  assert (∃ res s2, doForward (mk_ctx "" "") false s1 = Ret (inr res, s2)) as (res & s2 & H2).
  { vm_compute in H1. injection H1 as <- <-. do 2 eexists. vm_compute. reflexivity. }
  exists err, s1, res, s2. split; [exact H1|]. split; [exact H2|].
  assert (Ht : receiptsTarget (st_be s) ≠ ConsensusGetReceiptsMethod) by (vm_compute; discriminate).
  exact (proj2 (retry_loses_translation (mk_ctx "" "") s receipts_req eq_refl eq_refl Ht) err s1 res s2 H1 H2).
Defined.
