(* ===== verification/ConsensusTracker.v ===== *)
(** consensus_tracker.go: where the consensus state of a backend group is kept,
    in memory or shared through Redis by an elected leader.

    Redis and the redsync mutex are an interface: the contents of a key, the
    commands, and what they document. Between two heartbeats of a tracker the
    store may change in any way (expiry, other instances). *)
From stdpp Require Import base numbers list gmap strings sets pretty.
From S2P Require Import Prelude Json Geth Rpc.

Local Open Scope string_scope.
Local Open Scope Z_scope.

(** The interface of a tracker, as the poller uses it. *)
Class ConsensusTracker (T : Type) := {
  GetLatestBlockNumber : T → Z;
  SetLatestBlockNumber : Z → T → T;
  GetSafeBlockNumber : T → Z;
  SetSafeBlockNumber : Z → T → T;
  GetFinalizedBlockNumber : T → Z;
  SetFinalizedBlockNumber : Z → T → T;
}.

(** A tracker that gives back what was set. *)
Class TrackerLaws (T : Type) `{ConsensusTracker T} := {
  latest_set_latest n t : GetLatestBlockNumber (SetLatestBlockNumber n t) = n;
  latest_set_safe n t : GetLatestBlockNumber (SetSafeBlockNumber n t) = GetLatestBlockNumber t;
  latest_set_finalized n t : GetLatestBlockNumber (SetFinalizedBlockNumber n t) = GetLatestBlockNumber t;
  safe_set_safe n t : GetSafeBlockNumber (SetSafeBlockNumber n t) = n;
  safe_set_latest n t : GetSafeBlockNumber (SetLatestBlockNumber n t) = GetSafeBlockNumber t;
  safe_set_finalized n t : GetSafeBlockNumber (SetFinalizedBlockNumber n t) = GetSafeBlockNumber t;
  finalized_set_finalized n t : GetFinalizedBlockNumber (SetFinalizedBlockNumber n t) = n;
  finalized_set_latest n t : GetFinalizedBlockNumber (SetLatestBlockNumber n t) = GetFinalizedBlockNumber t;
  finalized_set_safe n t : GetFinalizedBlockNumber (SetSafeBlockNumber n t) = GetFinalizedBlockNumber t;
}.

(** ** In memory *)

Record ConsensusTrackerState := mk_cts { Latest : Z; Safe : Z; Finalized : Z }.

(** The tracker is its state; the mutex makes each method atomic. *)
Definition InMemoryConsensusTracker : Type := ConsensusTrackerState.
Definition NewInMemoryConsensusTracker : InMemoryConsensusTracker := mk_cts 0 0 0.

#[export] Instance in_memory_tracker : ConsensusTracker InMemoryConsensusTracker := {|
  GetLatestBlockNumber := Latest;
  SetLatestBlockNumber n t := mk_cts n (Safe t) (Finalized t);
  GetSafeBlockNumber := Safe;
  SetSafeBlockNumber n t := mk_cts (Latest t) n (Finalized t);
  GetFinalizedBlockNumber := Finalized;
  SetFinalizedBlockNumber n t := mk_cts (Latest t) (Safe t) n;
|}.

#[export] Instance in_memory_laws : TrackerLaws InMemoryConsensusTracker.
Proof. split; reflexivity. Qed.

Definition update (o : ConsensusTrackerState) (t : InMemoryConsensusTracker) : InMemoryConsensusTracker :=
  mk_cts (Latest o) (Safe o) (Finalized o).

Definition Valid (t : InMemoryConsensusTracker) : bool :=
  (0 <? Latest t) && (0 <? Safe t) && (0 <? Finalized t).

Definition Behind (t other : InMemoryConsensusTracker) : bool :=
  (Latest t <? Latest other) || (Safe t <? Safe other) || (Finalized t <? Finalized other).

(** ** Redis *)

(** GET and SET of keys, and the lock of redsync on a key: [Lock] sets the key
    to a fresh value when it does not exist, [Extend] and [Unlock] act when the
    key still holds the value of the mutex. *)
Class Redis (R : Type) := {
  redis_Get : string → R → error + option string;
  redis_Set : string → string → Z → R → option error * R;
  mutex_Lock : string → Z → R → (error + string) * R;
  mutex_Extend : string → string → R → (bool * option error) * R;
  mutex_Unlock : string → string → R → (bool * option error) * R;
}.

Class RedisSpec (R : Type) `{Redis R} := {
  stored : R → string → option string;
  Get_stored k r o : redis_Get k r = inr o → o = stored r k;
  Set_stored k v ttl r r' k' : redis_Set k v ttl r = (None, r') →
    stored r' k' = if decide (k' = k) then Some v else stored r k';
  Lock_acquires k ttl r v r' : mutex_Lock k ttl r = (inr v, r') →
    stored r k = None ∧ v ≠ "" ∧ ∀ k', stored r' k' = if decide (k' = k) then Some v else stored r k';
  Extend_taken k v r : stored r k ≠ Some v →
    ∃ err r', mutex_Extend k v r = ((false, err), r') ∧ ∀ k', stored r' k' = stored r k';
  Extend_stored k v r r' : mutex_Extend k v r = ((true, None), r') →
    stored r k = Some v ∧ ∀ k', stored r' k' = stored r k';
  Unlock_taken k v r : stored r k ≠ Some v →
    ∃ err r', mutex_Unlock k v r = ((false, err), r') ∧ ∀ k', stored r' k' = stored r k';
}.

Section redis_tracker.
Context `{Geth} {R : Type} `{Redis R}.

(** [redlock] is the value of the mutex held, [hostname] the environment
    variable HOSTNAME. *)
Record RedisConsensusTracker := mk_rct {
  namespace : string; lockPeriod : Z; heartbeatInterval : Z; hostname : string;
  redlock : option string; leader : bool; leaderName : string;
  local : InMemoryConsensusTracker; remote : InMemoryConsensusTracker
}.
#[export] Instance rct_eta : Eta RedisConsensusTracker := λ t,
  mk_rct (namespace t) (lockPeriod t) (heartbeatInterval t) (hostname t) (redlock t) (leader t)
    (leaderName t) (local t) (remote t).

Definition RedisConsensusTrackerOpt : Type := RedisConsensusTracker → RedisConsensusTracker.
Definition WithLockPeriod (v : Z) : RedisConsensusTrackerOpt := λ t, {{ t with lockPeriod := v }}.
Definition WithHeartbeatInterval (v : Z) : RedisConsensusTrackerOpt := λ t, {{ t with heartbeatInterval := v }}.

Definition NewRedisConsensusTracker (namespace hostname : string) (opts : list RedisConsensusTrackerOpt) :
    RedisConsensusTracker :=
  foldl (λ t opt, opt t) (mk_rct namespace (30 * Second) (2 * Second) hostname None false ""
    NewInMemoryConsensusTracker NewInMemoryConsensusTracker) opts.

Definition key (t : RedisConsensusTracker) (tag : string) : string :=
  "consensus:" +:+ namespace t +:+ ":" +:+ tag.

#[export] Instance redis_tracker : ConsensusTracker RedisConsensusTracker := {|
  GetLatestBlockNumber t := Latest (remote t);
  SetLatestBlockNumber n t := {{ t with local := SetLatestBlockNumber n (local t) }};
  GetSafeBlockNumber t := Safe (remote t);
  SetSafeBlockNumber n t := {{ t with local := SetSafeBlockNumber n (local t) }};
  GetFinalizedBlockNumber t := Finalized (remote t);
  SetFinalizedBlockNumber n t := {{ t with local := SetFinalizedBlockNumber n (local t) }};
|}.

(** The payload: json.Marshal and json.Unmarshal of the state. *)
Definition state_json (s : ConsensusTrackerState) : json :=
  JObj [("latest", JStr (EncodeUint64 (Latest s))); ("safe", JStr (EncodeUint64 (Safe s)));
        ("finalized", JStr (EncodeUint64 (Finalized s)))].

Definition state_field (k raw : string) (v : json) (s : ConsensusTrackerState) : option ConsensusTrackerState :=
  if String.eqb k "latest" then n ← Uint64_UnmarshalJSON raw; Some (mk_cts n (Safe s) (Finalized s))
  else if String.eqb k "safe" then n ← Uint64_UnmarshalJSON raw; Some (mk_cts (Latest s) n (Finalized s))
  else if String.eqb k "finalized" then n ← Uint64_UnmarshalJSON raw; Some (mk_cts (Latest s) (Safe s) n)
  else Some s.

Definition unmarshal_state (text : string) : option ConsensusTrackerState :=
  t ← json_top text;
  match t with
  | TNull => Some (mk_cts 0 0 0)
  | TObj ms => decode_members state_field ms (mk_cts 0 0 0)
  | _ => None
  end.

Definition postPayload (mutexVal : string) (t : RedisConsensusTracker) (r : R) : RedisConsensusTracker * R :=
  let '(err, r) := redis_Set (key t ("state:" +:+ mutexVal)) (json_marshal (state_json (local t))) (lockPeriod t) r in
  match err with
  | Some _ => ({{ t with leader := false }}, r)
  | None =>
      let '(err, r) := redis_Set (key t ("leader:" +:+ mutexVal)) (hostname t) (lockPeriod t) r in
      match err with
      | Some _ => ({{ t with leader := false }}, r)
      | None =>
          let t := {{ t with leaderName := hostname t }} in
          ({{ t with remote := update (local t) (remote t) }}, r)
      end
  end.

(** [redlock.Unlock] after a failure; a nil mutex is dereferenced. *)
Definition step_down (t : RedisConsensusTracker) (r : R) : go (RedisConsensusTracker * R) :=
  match redlock t with
  | None => Panic "nil pointer dereference"
  | Some v =>
      let '((ok, err), r) := mutex_Unlock (key t "mutex") v r in
      match err, ok with
      | None, true => Ret ({{ t with leader := false }}, r)
      | _, _ => Ret (t, r)
      end
  end.

Definition follow (val : string) (t : RedisConsensusTracker) (r : R) : RedisConsensusTracker :=
  match redis_Get (key t ("leader:" +:+ val)) r with
  | inl _ => t
  | inr name =>
      let t := {{ t with leaderName := default "" name }} in
      match redis_Get (key t ("state:" +:+ val)) r with
      | inl _ => t
      | inr st =>
          if String.eqb (default "" st) "" then t
          else match unmarshal_state (default "" st) with
            | None => t
            | Some s => {{ t with remote := update s (remote t) }}
            end
      end
  end.

Definition stateHeartbeat (t : RedisConsensusTracker) (r : R) : go (RedisConsensusTracker * R) :=
  match redis_Get (key t "mutex") r with
  | inl _ => if leader t then step_down t r else Ret (t, r)
  | inr o =>
      let val := default "" o in
      if negb (String.eqb val "") then
        if leader t then
          match redlock t with
          | None => Panic "nil pointer dereference"
          | Some v =>
              let '((ok, err), r) := mutex_Extend (key t "mutex") v r in
              match err, ok with
              | None, true => Ret (postPayload val t r)
              | _, _ => step_down t r
              end
          end
        else Ret (follow val t r, r)
      else if negb (Valid (local t)) then Ret (t, r)
      else if Valid (remote t) && Behind (local t) (remote t) then Ret (t, r)
      else
        let '(res, r) := mutex_Lock (key t "mutex") (lockPeriod t) r in
        match res with
        | inl _ => Ret ({{ t with leader := false }}, r)
        | inr v =>
            let t := {{ t with redlock := Some v }} in
            let t := {{ t with leader := true }} in
            Ret (postPayload v t r)
        end
  end.

End redis_tracker.

(** ** Properties *)

Section heartbeat.
Context `{GethSpec} {R : Type} `{RedisSpec R}.

(** A leader has a mutex. *)
Definition has_lock (t : RedisConsensusTracker) : Prop := leader t = true → redlock t ≠ None.

Lemma postPayload_facts v t (r : R) t' r' : postPayload v t r = (t', r') →
  redlock t' = redlock t ∧ (leader t' = true → leader t = true ∧ remote t' = local t ∧ local t' = local t) ∧
  (leader t' = false ∨ leader t' = leader t).
Proof.
  unfold postPayload. destruct (redis_Set _ _ _ r) as [[e|] r1]; [intros [= <- <-]; naive_solver|].
  destruct (redis_Set _ _ _ r1) as [[e|] r2]; intros [= <- <-]; simpl; [naive_solver|].
  split_and!; [done| |by right]. intros ->. split_and!; [done| |done]. by destruct (local t).
Qed.

Lemma step_down_facts t (r : R) : has_lock t → leader t = true →
  ∃ t' r', step_down t r = Ret (t', r') ∧ has_lock t'.
Proof.
  intros Hl Hlead. unfold step_down. destruct (redlock t) as [v|] eqn:Hv; [|by destruct (Hl Hlead)].
  destruct (mutex_Unlock _ v r) as [[[|] [e|]] r1]; do 2 eexists; (split; [done|]); done || by intros _; rewrite Hv.
Qed.

(** Every heartbeat of a tracker that starts without leadership returns, and
    keeps the mutex of a leader in place. *)
Lemma heartbeat_returns t (r : R) : has_lock t →
  ∃ t' r', stateHeartbeat t r = Ret (t', r') ∧ has_lock t'.
Proof.
  intros Hl. unfold stateHeartbeat.
  destruct (redis_Get (key t "mutex") r) as [e|o].
  { destruct (leader t) eqn:Hlead; [by apply step_down_facts|eauto]. }
  destruct (negb _).
  - destruct (leader t) eqn:Hlead.
    + destruct (redlock t) as [v|] eqn:Hv; [|by destruct (Hl Hlead)].
      destruct (mutex_Extend _ v r) as [[[|] [e|]] r1]; try by apply step_down_facts.
      destruct (postPayload (default "" o) t r1) as [t' r'] eqn:Hp. exists t', r'. split; [done|].
      apply postPayload_facts in Hp as (Hr & _ & _). intros _. by rewrite Hr, Hv.
    + do 2 eexists. split; [done|]. unfold follow, has_lock.
      repeat case_match; simpl; by rewrite Hlead.
  - repeat (destruct (_ : bool); [by eauto|]).
    destruct (mutex_Lock _ _ r) as [[e|v] r1]; [do 2 eexists; split; [done|]; by intros ?|].
    destruct (postPayload v _ r1) as [t' r'] eqn:Hp. exists t', r'. split; [done|].
    apply postPayload_facts in Hp as (Hr & _ & _). intros _. by rewrite Hr.
Qed.

Lemma unmarshal_state_json s : is_u64 (Latest s) → is_u64 (Safe s) → is_u64 (Finalized s) →
  unmarshal_state (json_marshal (state_json s)) = Some s.
Proof.
  intros Hl Hs Hf. unfold unmarshal_state, state_json.
  rewrite json_top_obj by (repeat constructor). cbn [mbind option_bind].
  unfold decode_members, raws. cbn [fmap list_fmap foldl mbind option_bind].
  change (fold_name "latest") with "latest". change (fold_name "safe") with "safe".
  change (fold_name "finalized") with "finalized". unfold state_field. simpl.
  rewrite Uint64_roundtrip by done. simpl. rewrite Uint64_roundtrip by done. simpl.
  rewrite Uint64_roundtrip by done. by destruct s.
Qed.

Lemma state_text_nonempty s : String.eqb (json_marshal (state_json s)) "" = false.
Proof. unfold json_marshal, state_json. by rewrite print_value_obj. Qed.

(** The commands of a Redis that can be reached. *)
Definition reachable_redis : Prop :=
  (∀ k (r : R), ∃ o, redis_Get k r = inr o) ∧
  (∀ k v ttl (r : R), (redis_Set k v ttl r).1 = None) ∧
  (∀ k ttl (r : R), stored r k = None → ∃ v, (mutex_Lock k ttl r).1 = inr v) ∧
  (∀ k v (r : R), stored r k = Some v → (mutex_Extend k v r).1 = (true, None)).

Definition state_ok (s : ConsensusTrackerState) : Prop :=
  is_u64 (Latest s) ∧ is_u64 (Safe s) ∧ is_u64 (Finalized s).

Lemma key_inj t tag tag' : key t tag = key t tag' → tag = tag'.
Proof. unfold key. by intros ?%string_app_inj%string_app_inj%string_app_inj. Qed.

(** What a leader leaves in Redis: its lock, its state, its name. *)
Definition posted (t : RedisConsensusTracker) (v : string) (r : R) : Prop :=
  v ≠ "" ∧ stored r (key t "mutex") = Some v ∧
  stored r (key t ("state:" +:+ v)) = Some (json_marshal (state_json (local t))) ∧
  stored r (key t ("leader:" +:+ v)) = Some (hostname t).

Lemma postPayload_posts v t (r : R) : reachable_redis → v ≠ "" → stored r (key t "mutex") = Some v →
  ∃ t' r', postPayload v t r = (t', r') ∧ posted t v r' ∧ leader t' = leader t ∧ remote t' = local t.
Proof.
  intros (_ & HSet & _) Hv Hm. unfold postPayload.
  pose proof (HSet (key t ("state:" +:+ v)) (json_marshal (state_json (local t))) (lockPeriod t) r) as E1.
  destruct (redis_Set _ _ _ r) as [e r1] eqn:S1. simpl in E1. subst e.
  pose proof (HSet (key t ("leader:" +:+ v)) (hostname t) (lockPeriod t) r1) as E2.
  destruct (redis_Set _ _ _ r1) as [e r2] eqn:S2. simpl in E2. subst e.
  do 2 eexists. split; [done|]. split; [|split; [done|by destruct t as [? ? ? ? ? ? ? []]]].
  assert (Hne : ∀ a b, a ≠ b → key t a ≠ key t b) by (intros a b Hab ?%key_inj; done).
  split_and!; [done|..]; rewrite (Set_stored _ _ _ _ _ _ S2).
  - rewrite decide_False by (apply Hne; discriminate). rewrite (Set_stored _ _ _ _ _ _ S1).
    by rewrite decide_False by (apply Hne; discriminate).
  - rewrite decide_False by (apply Hne; discriminate). rewrite (Set_stored _ _ _ _ _ _ S1).
    by rewrite decide_True.
  - by rewrite decide_True.
Qed.

Lemma follow_posted t f v (r : R) : reachable_redis → state_ok (local t) → namespace f = namespace t →
  leader f = false → posted t v r →
  ∃ f', stateHeartbeat f r = Ret (f', r) ∧ remote f' = local t ∧ leaderName f' = hostname t.
Proof.
  intros (HGet & _) Hok Hns Hf (Hv & Hm & Hs & Hl).
  assert (Hkey : ∀ g tag, namespace g = namespace t → key g tag = key t tag) by (intros g tag Hg; unfold key; by rewrite Hg).
  assert (HG : ∀ k, redis_Get k r = inr (stored r k)).
  { intros k. destruct (HGet k r) as [o Ho]. by rewrite Ho, (Get_stored _ _ _ Ho). }
  unfold stateHeartbeat. rewrite HG, Hkey, Hm by done. simpl. apply String.eqb_neq in Hv. rewrite Hv, Hf. simpl.
  eexists. split; [done|]. unfold follow. rewrite HG, (Hkey f), Hl by done. simpl. rewrite HG.
  rewrite !Hkey by done. rewrite Hs. unfold from_option, id.
  rewrite state_text_nonempty, unmarshal_state_json by apply Hok. simpl. split; [by destruct (local t)|done].
Qed.

(** An instance that may lead: it holds the lock, or the lock is free and its
    state is valid and not behind what it last saw. *)
Definition may_lead (t : RedisConsensusTracker) (r : R) : Prop :=
  (leader t = true ∧ ∃ v, v ≠ "" ∧ redlock t = Some v ∧ stored r (key t "mutex") = Some v) ∨
  (stored r (key t "mutex") = None ∧ Valid (local t) = true ∧
   (Valid (remote t) = true → Behind (local t) (remote t) = false)).

Lemma heartbeat_posts t (r : R) : reachable_redis → may_lead t r →
  ∃ v t' r', stateHeartbeat t r = Ret (t', r') ∧ leader t' = true ∧ remote t' = local t ∧ posted t v r'.
Proof.
  intros HR Hlead. pose proof HR as (HGet & _ & HLock & HExt). unfold stateHeartbeat.
  assert (HG : redis_Get (key t "mutex") r = inr (stored r (key t "mutex"))).
  { destruct (HGet (key t "mutex") r) as [o Ho]. by rewrite Ho, (Get_stored _ _ _ Ho). }
  rewrite HG. destruct Hlead as [(Hl & v & Hv & Hred & Hst)|(Hst & Hval & Hbeh)]; rewrite Hst; simpl.
  - pose proof (HExt (key t "mutex") v r Hst) as He.
    assert (Hv' : String.eqb v "" = false) by (by apply String.eqb_neq). rewrite Hv', Hl, Hred. simpl.
    destruct (mutex_Extend (key t "mutex") v r) as [res r1] eqn:E. simpl in He. subst res.
    destruct (Extend_stored _ _ _ _ E) as [_ Hsame].
    destruct (postPayload_posts v t r1) as (t' & r' & -> & Hp & Hl' & Hrem); [done..|by rewrite Hsame|].
    exists v, t', r'. rewrite Hl'. done.
  - rewrite Hval. simpl. assert (Hskip : Valid (remote t) && Behind (local t) (remote t) = false).
    { destruct (Valid (remote t)); [by apply Hbeh|done]. }
    rewrite Hskip. destruct (HLock (key t "mutex") (lockPeriod t) r Hst) as [v Hv].
    destruct (mutex_Lock (key t "mutex") (lockPeriod t) r) as [res r1] eqn:E. simpl in Hv. subst res.
    destruct (Lock_acquires _ _ _ _ _ E) as (_ & Hv & Hs1).
    match goal with |- context [postPayload v ?x r1] => set (t1 := x) end.
    destruct (postPayload_posts v t1 r1) as (t' & r' & -> & Hp & Hl' & Hrem); [done..| |].
    { change (key t1 "mutex") with (key t "mutex"). by rewrite Hs1, decide_True. }
    exists v, t', r'. rewrite Hl'. done.
Qed.

End heartbeat.

(** Heartbeats of a tracker that finds the stores [rs], whatever happened to
    Redis between them. *)
Fixpoint heartbeats `{Geth} {R} `{Redis R} (t : RedisConsensusTracker) (rs : list R) : go RedisConsensusTracker :=
  match rs with [] => Ret t | r :: rs => '(t, _) ← stateHeartbeat t r; heartbeats t rs end.

(** C36: with Redis reachable, a heartbeat of an instance that holds the lock,
    or finds it free with a valid state that is not behind, publishes its local
    state, and the next heartbeat of any follower of the same namespace adopts
    exactly that state. *)
Theorem leader_state_reaches_followers `{GethSpec} {R} `{RedisSpec R} t f (r : R) :
  reachable_redis (R := R) → may_lead t r → state_ok (local t) →
  namespace f = namespace t → leader f = false →
  ∃ t' r' f', stateHeartbeat t r = Ret (t', r') ∧ leader t' = true ∧ remote t' = local t ∧
    stateHeartbeat f r' = Ret (f', r') ∧ remote f' = local t ∧ leaderName f' = hostname t.
Proof.
  intros HR Hlead Hok Hns Hf.
  destruct (heartbeat_posts t r HR Hlead) as (v & t' & r' & HH & Hl & Hrem & Hp).
  destruct (follow_posted t f v r' HR Hok Hns Hf Hp) as (f' & HF & Hremf & Hname).
  exists t', r', f'. done.
Qed.

(** An instance takes over only with a valid state; when it had a valid
    copy of the shared state, the state it publishes is not behind that copy in
    any of the three block numbers. *)
Theorem takeover_not_behind `{GethSpec} {R} `{RedisSpec R} t (r : R) t' r' :
  leader t = false → stateHeartbeat t r = Ret (t', r') → leader t' = true →
  remote t' = local t ∧ Valid (local t) = true ∧
  (Valid (remote t) = true → Latest (remote t) ≤ Latest (remote t') ∧
    Safe (remote t) ≤ Safe (remote t') ∧ Finalized (remote t) ≤ Finalized (remote t')).
Proof.
  intros Hl HH Hl'. unfold stateHeartbeat in HH. rewrite Hl in HH.
  destruct (redis_Get (key t "mutex") r) as [e|o]; [injection HH as <- <-; congruence|].
  destruct (negb _).
  { injection HH as <- <-. unfold follow in Hl'. repeat case_match; simpl in Hl'; congruence. }
  destruct (Valid (local t)) eqn:Hval; simpl in HH; [|injection HH as <- <-; congruence].
  destruct (Valid (remote t) && Behind (local t) (remote t)) eqn:Hbeh; [injection HH as <- <-; congruence|].
  destruct (mutex_Lock _ _ r) as [[e|v] r1]; [injection HH as <- <-; discriminate Hl'|].
  injection HH as HH. apply postPayload_facts in HH as (_ & Hp & _). destruct (Hp Hl') as (_ & Hrem & _).
  simpl in Hrem. split_and!; [done..|]. intros Hv. rewrite Hv in Hbeh. simpl in Hbeh. rewrite Hrem.
  unfold Behind in Hbeh. apply orb_false_iff in Hbeh as [[?%Z.ltb_ge ?%Z.ltb_ge]%orb_false_iff ?%Z.ltb_ge]. done.
Qed.

(** An instance that believes it leads while another one holds the lock
    neither steps down nor follows: as long as the lock stays with others, no
    heartbeat changes anything of its tracker, so it keeps serving the
    consensus state it had when it lost the lock. *)
Theorem stale_leader_never_recovers `{GethSpec} {R} `{RedisSpec R} t v (rs : list R) :
  leader t = true → redlock t = Some v →
  Forall (λ r, ∃ v', stored r (key t "mutex") = Some v' ∧ v' ≠ v ∧ v' ≠ "") rs →
  heartbeats t rs = Ret t.
Proof.
  intros Hl Hv Hrs. induction Hrs as [|r rs (v' & Hs & Hne & Hne') _ IH]; [done|]. cbn [heartbeats].
  assert (Hd : ∀ r1, stored r1 (key t "mutex") = stored r (key t "mutex") → ∃ r2, step_down t r1 = Ret (t, r2)).
  { intros r1 Hr1. unfold step_down. rewrite Hv.
    destruct (Unlock_taken (key t "mutex") v r1) as (err & r2 & E & _); [rewrite Hr1, Hs; congruence|].
    rewrite E. exists r2. by destruct err. }
  assert (∃ r2, stateHeartbeat t r = Ret (t, r2)) as [r2 ->]; [|done].
  unfold stateHeartbeat. rewrite Hl, Hv. destruct (redis_Get (key t "mutex") r) as [e|o] eqn:Hg; [by apply Hd|].
  apply Get_stored in Hg as ->. rewrite Hs. simpl. apply String.eqb_neq in Hne'. rewrite Hne'. simpl.
  destruct (Extend_taken (key t "mutex") v r) as (err & r1 & E & Hsame); [rewrite Hs; congruence|].
  rewrite E. destruct err; apply Hd, Hsame.
Qed.

(** From a new tracker on, no sequence of heartbeats dereferences a mutex
    that was never acquired, whatever Redis answers. *)
Theorem heartbeats_never_panic `{GethSpec} {R} `{RedisSpec R} ns host opts (rs : list R) :
  (∀ opt t, opt ∈ opts → leader (opt t) = leader t) →
  ∃ t, heartbeats (NewRedisConsensusTracker ns host opts) rs = Ret t.
Proof.
  intros Hopts. assert (Hl : has_lock (NewRedisConsensusTracker ns host opts)).
  { intros Hlead. exfalso. revert Hlead. unfold NewRedisConsensusTracker.
    set (t0 := mk_rct _ _ _ _ _ _ _ _ _). assert (Hf0 : leader t0 = false) by done. revert Hf0.
    generalize t0. clear t0. induction opts as [|o opts IH]; intros t0 Hf0; simpl; [congruence|].
    apply IH; [intros; apply Hopts; set_solver|]. rewrite Hopts; [done|set_solver]. }
  revert Hl. generalize (NewRedisConsensusTracker ns host opts). induction rs as [|r rs IH]; intros t Hl; [by exists t|].
  cbn [heartbeats]. destruct (heartbeat_returns t r Hl) as (t' & r' & -> & Hl'). simpl. by apply IH.
Qed.

(** ** An instance, and witnesses *)

(** A Redis that is always reachable; the n-th lock gets the n-th value. *)
Record map_redis := mk_redis { mr_keys : gmap string string; mr_locks : N }.

Definition nth_value (n : N) : string := "v" +:+ pretty n.

#[export] Instance map_redis_ops : Redis map_redis := {|
  redis_Get k r := inr (mr_keys r !! k);
  redis_Set k v _ r := (None, mk_redis (<[k := v]> (mr_keys r)) (mr_locks r));
  mutex_Lock k _ r :=
    match mr_keys r !! k with
    | Some _ => (inl (ENew "lock already taken"), r)
    | None =>
        let v := nth_value (mr_locks r) in
        (inr v, mk_redis (<[k := v]> (mr_keys r)) (mr_locks r + 1))
    end;
  mutex_Extend k v r :=
    if decide (mr_keys r !! k = Some v) then ((true, None), r) else ((false, Some (ENew "failed to extend")), r);
  mutex_Unlock k v r :=
    if decide (mr_keys r !! k = Some v) then ((true, None), mk_redis (delete k (mr_keys r)) (mr_locks r))
    else ((false, None), r);
|}.

#[export] Instance map_redis_spec : RedisSpec map_redis.
Proof.
  refine {| stored r k := mr_keys r !! k |}; simpl.
  - by intros k r o [= <-].
  - intros k v ttl r r' k' [= <-]. simpl. case_decide; subst; [apply lookup_insert_eq|by apply lookup_insert_ne].
  - intros k ttl r v r'. destruct (mr_keys r !! k) eqn:E; [done|]. intros [= <- <-]. simpl.
    split_and!; [done..|]. intros k'. case_decide; subst; [apply lookup_insert_eq|by apply lookup_insert_ne].
  - intros k v r Hne. rewrite decide_False by done. eauto.
  - intros k v r r'. case_decide; [|done]. by intros [= <-].
  - intros k v r Hne. rewrite decide_False by done. eauto.
Defined.

Lemma map_redis_reachable : reachable_redis (R := map_redis).
Proof.
  split_and!; simpl; [by eexists|done| |].
  - intros k ttl r Hr. rewrite Hr. eauto.
  - intros k v r Hr. by rewrite decide_True.
Qed.

Definition tracker_at (host : string) (lead : bool) (lock : option string) (s : ConsensusTrackerState) :
    RedisConsensusTracker :=
  mk_rct "main" (30 * Second) (2 * Second) host lock lead "" s (mk_cts 0 0 0).

Lemma fresh_may_lead : may_lead (tracker_at "a" false None (mk_cts 100 90 80)) (mk_redis ∅ 0).
Proof. right. split_and!; [apply lookup_empty|done|done]. Qed.

Example leader_state_reaches_followers_witness :
  let t := tracker_at "a" false None (mk_cts 100 90 80) in
  let f := tracker_at "b" false None (mk_cts 0 0 0) in
  ∃ t' r' f', stateHeartbeat t (mk_redis ∅ 0) = Ret (t', r') ∧ leader t' = true ∧ remote t' = mk_cts 100 90 80 ∧
    stateHeartbeat f r' = Ret (f', r') ∧ remote f' = mk_cts 100 90 80 ∧ leaderName f' = "a".
Proof.
  intros t f. apply (leader_state_reaches_followers t f (mk_redis ∅ 0)).
  - exact map_redis_reachable.
  - exact fresh_may_lead.
  - split_and!; by vm_compute.
  - reflexivity.
  - reflexivity.
Defined.

Example takeover_not_behind_witness :
  let t := tracker_at "a" false None (mk_cts 100 90 80) in
  ∃ t' r', stateHeartbeat t (mk_redis ∅ 0) = Ret (t', r') ∧ remote t' = mk_cts 100 90 80.
Proof.
  intros t.
  destruct (heartbeat_posts t (mk_redis ∅ 0) map_redis_reachable fresh_may_lead) as (v & t' & r' & HH & Hl & _).
  exists t', r'. split; [exact HH|]. exact (proj1 (takeover_not_behind t (mk_redis ∅ 0) t' r' eq_refl HH Hl)).
Defined.

(** Instance "a" was replaced while it was away: three heartbeats later it
    still serves block 100. *)
Example stale_leader_never_recovers_witness :
  let t := tracker_at "a" true (Some "v0") (mk_cts 100 90 80) in
  let r := mk_redis {[ "consensus:main:mutex" := "v1" ]} 2 in
  heartbeats t [r; r; r] = Ret t.
Proof.
  intros t r. apply (stale_leader_never_recovers t "v0"); [reflexivity|reflexivity|].
  assert (Hr : ∃ v', stored r (key t "mutex") = Some v' ∧ v' ≠ "v0" ∧ v' ≠ "").
  { exists "v1". split_and!; [reflexivity|discriminate|discriminate]. }
  apply Forall_cons; split; [exact Hr|]. apply Forall_cons; split; [exact Hr|].
  apply Forall_cons; split; [exact Hr|]. apply Forall_nil. exact I.
Defined.

Example heartbeats_never_panic_witness :
  ∃ t, heartbeats (NewRedisConsensusTracker "main" "a" [WithLockPeriod Second; WithHeartbeatInterval Second])
    [mk_redis ∅ 0; mk_redis {[ "consensus:main:mutex" := "v1" ]} 2] = Ret t.
Proof.
  apply (heartbeats_never_panic (R := map_redis)). intros opt t Ho.
  apply elem_of_cons in Ho as [->|Ho]; [reflexivity|].
  apply elem_of_cons in Ho as [->|Ho]; [reflexivity|]. by apply not_elem_of_nil in Ho.
Defined.
