(* ===== verification/ConsensusPoller.v ===== *)
(** consensus_poller.go: the state of every backend of a group, the candidates
    for consensus, and the block the group agrees on.

    Backends are named by their (unique) names; [store] holds what their
    pointers point to. Go iterates over maps in any order: an iteration asks
    the [Order] of the world for a permutation. *)
From stdpp Require Import base numbers list gmap strings sets sorting.
From S2P Require Import Prelude GoFloat SlidingWindow Json Geth Rpc Reader Backend ConsensusTracker.

Local Open Scope string_scope.
Local Open Scope Z_scope.

Definition RoutingStrategy : Type := string.
Definition ConsensusAwareRoutingStrategy : RoutingStrategy := "consensus_aware".
Definition MulticallRoutingStrategy : RoutingStrategy := "multicall".
Definition FallbackRoutingStrategy : RoutingStrategy := "fallback".

(** [BackendGroup] (backend.go), its consensus poller kept beside it. *)
Record BackendGroup := mk_group {
  bg_Name : string; Backends : list string; WeightedRouting : bool;
  FallbackBackends : gmap string bool; routingStrategy : RoutingStrategy; multicallRPCErrorCheck : bool
}.

Definition GetRoutingStrategy (bg : BackendGroup) : RoutingStrategy := routingStrategy bg.

Definition Fallbacks (bg : BackendGroup) : list string :=
  filter (λ a, FallbackBackends bg !! a = Some true) (Backends bg).
Definition Primaries (bg : BackendGroup) : list string :=
  filter (λ a, FallbackBackends bg !! a = Some false) (Backends bg).

Record backendState := mk_bs {
  latestBlockNumber : Z; latestBlockHash : string; safeBlockNumber : Z; finalizedBlockNumber : Z;
  peerCount : Z; inSync : bool; lastUpdate : Z; bannedUntil : Z
}.
#[export] Instance backendState_eta : Eta backendState := λ s,
  mk_bs (latestBlockNumber s) (latestBlockHash s) (safeBlockNumber s) (finalizedBlockNumber s)
    (peerCount s) (inSync s) (lastUpdate s) (bannedUntil s).
Definition zero_state : backendState := mk_bs 0 "" 0 0 0 false 0 0.

(** [backendState.IsBanned] at the reading [now]. *)
Definition bs_IsBanned (now : Z) (bs : backendState) : bool := now <? bannedUntil bs.

Definition bs_GetSafeBlockNumber (bs : backendState) : Z := safeBlockNumber bs.
Definition bs_GetFinalizedBlockNumber (bs : backendState) : Z := finalizedBlockNumber bs.
Definition GetLatestBlock (bs : backendState) : Z * string := (latestBlockNumber bs, latestBlockHash bs).

(** ** The block the candidates agree on

    The search is written over the state [S] it runs in, the call that fetches
    a block from a backend and the order in which one iteration visits the
    candidates. *)
Section search.
Context {S : Type} (fetch : string → Z → M S (error + (Z * string))) (visit : M S (list string)).

(** One pass over the candidates: whether all agreed, and whether a backend
    broke a consensus already reached. A backend that fails to answer is
    skipped. *)
Fixpoint check_block (current proposed : Z) (hash : string) (bes : list string) : M S (bool * bool) :=
  match bes with
  | [] => mret (true, false)
  | be :: bes =>
      res ← fetch be proposed;
      match res with
      | inl _ => check_block current proposed hash bes
      | inr (actualNumber, actualHash) =>
          let hash := if String.eqb hash "" then actualHash else hash in
          if negb (actualNumber =? proposed) || negb (String.eqb actualHash hash) then
            mret (false, actualNumber <=? current)
          else check_block current proposed hash bes
      end
  end.

(** The loop that walks back one block at a time; [None] when the fuel runs
    out. *)
Fixpoint find_consensus (fuel : nat) (current proposed : Z) (hash : string) (broken : bool) :
    M S (option (Z * bool)) :=
  match fuel with
  | O => mret None
  | Datatypes.S fuel =>
      bes ← visit;
      '(allAgreed, broke) ← check_block current proposed hash bes;
      let broken := broken || broke in
      if allAgreed : bool then mret (Some (proposed, broken))
      else find_consensus fuel current (u64 (proposed - 1)) "" broken
  end.
End search.

Section poller.
Context {LM : Type} `{LinkedHashMap LM} `{Geth} {W : Type} `{Env W} `{Order W} {T : Type} `{ConsensusTracker T}.

(** [listeners] are told apart by number; [notified] is the log of the calls
    made to them. *)
Record ConsensusPoller := mk_poller {
  backendGroup : BackendGroup; backend_state : gmap string backendState; consensusGroup : list string;
  tracker : T; listeners : list nat; notified : list nat;
  minPeerCount : Z; banPeriod : Z; maxUpdateThreshold : Z; maxBlockLag : Z; cp_maxBlockRange : Z; interval : Z
}.
#[export] Instance ConsensusPoller_eta : Eta ConsensusPoller := λ c,
  mk_poller (backendGroup c) (backend_state c) (consensusGroup c) (tracker c) (listeners c) (notified c)
    (minPeerCount c) (banPeriod c) (maxUpdateThreshold c) (maxBlockLag c) (cp_maxBlockRange c) (interval c).

Definition ConsensusOpt : Type := ConsensusPoller → ConsensusPoller.
Definition WithTracker (v : T) : ConsensusOpt := λ c, {{ c with tracker := v }}.
Definition AddListener (l : nat) (c : ConsensusPoller) : ConsensusPoller :=
  {{ c with listeners := (listeners c ++ [l])%list }}.
Definition WithListener (l : nat) : ConsensusOpt := AddListener l.
Definition ClearListeners (c : ConsensusPoller) : ConsensusPoller := {{ c with listeners := ([] : list nat) }}.
Definition WithBanPeriod (v : Z) : ConsensusOpt := λ c, {{ c with banPeriod := v }}.
Definition WithMaxUpdateThreshold (v : Z) : ConsensusOpt := λ c, {{ c with maxUpdateThreshold := v }}.
Definition WithMaxBlockLag (v : Z) : ConsensusOpt := λ c, {{ c with maxBlockLag := v }}.
Definition WithMaxBlockRange (v : Z) : ConsensusOpt := λ c, {{ c with cp_maxBlockRange := v }}.
Definition WithMinPeerCount (v : Z) : ConsensusOpt := λ c, {{ c with minPeerCount := v }}.
Definition WithPollerInterval (v : Z) : ConsensusOpt := λ c, {{ c with interval := v }}.

(** [Reset] puts a zero state for every backend of the group. *)
Definition Reset (c : ConsensusPoller) : ConsensusPoller :=
  {{ c with backend_state := foldl (λ m be, <[be := zero_state]> m) (backend_state c) (Backends (backendGroup c)) }}.

Definition NewConsensusPoller (bg : BackendGroup) (memory : T) (opts : list ConsensusOpt) : ConsensusPoller :=
  Reset (foldl (λ c opt, opt c)
    (mk_poller bg ∅ [] memory [] [] 3 (5 * Minute) (30 * Second) 8 0 Second) opts).

(** ** The state the poller works on *)

Record poller_state := mk_ps { p_cp : ConsensusPoller; p_store : gmap string (Backend LM); p_world : W }.
#[export] Instance poller_state_eta : Eta poller_state := λ s, mk_ps (p_cp s) (p_store s) (p_world s).

Definition P (A : Type) : Type := M poller_state A.

Definition p_Now : P Z := λ s, let '(t, w) := time_Now (p_world s) in Ret (t, {{ s with p_world := w }}).

(** The order of one iteration over a map with the given keys. *)
Definition range (ks : list string) : P (list string) := λ s,
  let '(l, w) := permute ks (p_world s) in Ret (l, {{ s with p_world := w }}).

(** A method of the backend [be]. *)
Definition on {A} (be : string) (m : C LM W A) : P A := λ s,
  match p_store s !! be with
  | None => Panic "nil pointer dereference"
  | Some b =>
      match m (mk_call_state b (p_world s) []) with
      | Panic why => Panic why
      | Ret (a, cs) => Ret (a, mk_ps (p_cp s) (<[be := st_be cs]> (p_store s)) (st_world cs))
      end
  end.

Definition set_cp (f : ConsensusPoller → ConsensusPoller) : P unit :=
  m_modify (λ s, {{ s with p_cp := f (p_cp s) }}).

Definition GetBackendState (be : string) : P backendState := λ s,
  match backend_state (p_cp s) !! be with
  | Some bs => Ret (bs, s)
  | None => Panic "nil pointer dereference"
  end.

Definition put_state (be : string) (bs : backendState) : P unit :=
  set_cp (λ c, {{ c with backend_state := <[be := bs]> (backend_state c) }}).

Definition IsBanned (be : string) : P bool :=
  bs ← GetBackendState be; now ← p_Now; mret (bs_IsBanned now bs).
Definition BannedUntil (be : string) : P Z := bs ← GetBackendState be; mret (bannedUntil bs).
Definition GetLastUpdate (be : string) : P Z := bs ← GetBackendState be; mret (lastUpdate bs).

(** [Ban]: not for forced candidates; the block numbers start again from zero. *)
Definition Ban (be : string) : P unit :=
  b ← on be this;
  if forcedCandidate b then mret ()
  else
    bs ← GetBackendState be;
    now ← p_Now;
    c ← m_gets p_cp;
    put_state be (mk_bs 0 (latestBlockHash bs) 0 0 (peerCount bs) (inSync bs) (lastUpdate bs) (now + banPeriod c)).

Definition Unban (be : string) : P unit :=
  bs ← GetBackendState be;
  now ← p_Now;
  put_state be (mk_bs (latestBlockNumber bs) (latestBlockHash bs) (safeBlockNumber bs)
    (finalizedBlockNumber bs) (peerCount bs) (inSync bs) (lastUpdate bs) (now - 10 * 60 * Minute)).

Definition setBackendState (be : string) (peers : Z) (sync : bool) (latest : Z) (hash : string)
    (safe finalized : Z) : P bool :=
  bs ← GetBackendState be;
  let changed := negb (String.eqb (latestBlockHash bs) hash) in
  now ← p_Now;
  put_state be (mk_bs latest hash safe finalized peers sync now (bannedUntil bs));;
  mret changed.

(** ** Calls to the backends *)

(** The poller's context carries no client headers. *)
Definition poller_ctx : Ctx := mk_ctx "" "".

(** A type assertion of a JSON value to string panics on anything else. *)
Definition must_string (v : option json) : go string :=
  match v with Some (JStr s) => Ret s | _ => Panic "interface conversion: interface {} is not string" end.
Definition MustDecodeUint64 (s : string) : go Z :=
  match DecodeUint64 s with Some n => Ret n | None => Panic "invalid hex quantity" end.

(** The block number and hash in the result of eth_getBlockByNumber. *)
Definition block_of_result (name : string) (a : any) : go (error + (Z * string)) :=
  match a with
  | AJson (JObj m) =>
      num ← must_string (obj_get m "number");
      n ← MustDecodeUint64 num;
      hash ← must_string (obj_get m "hash");
      Ret (inr (n, hash))
  | _ => Ret (inl (ENew ("unexpected response to eth_getBlockByNumber on backend " +:+ name)))
  end.

Definition fetchBlock (be block : string) : P (error + (Z * string)) :=
  res ← on be (ForwardRPC poller_ctx "67" "eth_getBlockByNumber" [JStr block; JBool false]);
  match res with
  | inl err => mret (inl err)
  | inr r => m_lift (block_of_result be (rs_Result r))
  end.

Definition getPeerCount (be : string) : P (error + Z) :=
  res ← on be (ForwardRPC poller_ctx "67" "net_peerCount" []);
  match res with
  | inl err => mret (inl err)
  | inr r =>
      match rs_Result r with
      | AJson (JStr s) => n ← m_lift (MustDecodeUint64 s); mret (inr n)
      | _ => mret (inl (ENew ("unexpected response to net_peerCount on backend " +:+ be)))
      end
  end.

(** strconv.ParseBool. *)
Definition ParseBool (s : string) : option bool :=
  if existsb (String.eqb s) ["1"; "t"; "T"; "TRUE"; "true"; "True"] then Some true
  else if existsb (String.eqb s) ["0"; "f"; "F"; "FALSE"; "false"; "False"] then Some false
  else None.

Definition isInSync (be : string) : P (error + bool) :=
  res ← on be (ForwardRPC poller_ctx "67" "eth_syncing" []);
  match res with
  | inl err => mret (inl err)
  | inr r =>
      match rs_Result r with
      | AJson (JBool syncing) => mret (inr (negb syncing))
      | AJson (JStr s) =>
          match ParseBool s with
          | Some syncing => mret (inr (negb syncing))
          | None => mret (inl (ENew "invalid syntax"))
          end
      | _ => mret (inr false)
      end
  end.

Definition checkExpectedBlockTags (currentLatest oldSafe currentSafe oldFinalized currentFinalized : Z) : bool :=
  (oldFinalized <=? currentFinalized) && (oldSafe <=? currentSafe) &&
  (currentFinalized <=? currentSafe) && (currentSafe <=? currentLatest).

(** One block tag of a backend: an error, or a block number 0 (which counts as
    an intermittent error), ends the update. *)
Definition fetch_tag (be tag : string) : P (option (Z * string)) :=
  res ← fetchBlock be tag;
  match res with
  | inl _ => mret None
  | inr (n, hash) =>
      if n =? 0 then on be errors_Incr;; mret None else mret (Some (n, hash))
  end.

(** The peer count, 0 when the check is skipped; [None] ends the update. *)
Definition update_peers (be : string) (skip : bool) : P (option Z) :=
  if skip then mret (Some 0)
  else
    res ← getPeerCount be;
    match res with
    | inl _ => mret None
    | inr n => if n =? 0 then on be errors_Incr;; mret None else mret (Some n)
    end.

(** The end of [UpdateBackend], with the state [old] read at its start. *)
Definition record_tags (be : string) (old : backendState) (peers : Z) (sync : bool)
    (latest : Z) (hash : string) (safe finalized : Z) : P unit :=
  _ ← setBackendState be peers sync latest hash safe finalized;
  b ← on be this;
  let expected := checkExpectedBlockTags latest (safeBlockNumber old) safe (finalizedBlockNumber old) finalized in
  if negb expected && negb (forcedCandidate b) then Ban be else mret ().

Definition UpdateBackend (be : string) : P unit :=
  bs ← GetBackendState be;
  _ ← p_Now;
  now ← p_Now;
  if bs_IsBanned now bs then mret ()
  else
    b ← on be this;
    healthy ← on be IsHealthy;
    if negb healthy && negb (forcedCandidate b) then Ban be
    else
      sync ← isInSync be;
      match sync with
      | inl _ => mret ()
      | inr sync =>
          peers ← update_peers be (skipPeerCountCheck b);
          match peers with
          | None => mret ()
          | Some peers =>
              latest ← fetch_tag be "latest";
              match latest with
              | None => mret ()
              | Some (latest, hash) =>
                  safe ← fetch_tag be "safe";
                  match safe with
                  | None => mret ()
                  | Some (safe, _) =>
                      finalized ← fetch_tag be "finalized";
                      match finalized with
                      | None => mret ()
                      | Some (finalized, _) => record_tags be bs peers sync latest hash safe finalized
                      end
                  end
              end
          end
      end.

(** ** Candidates *)

(** Whether a backend is a candidate before lagging ones are removed; the
    conditions are tested in the order of the source. *)
Definition is_candidate (be : string) (bs : backendState) : P bool :=
  b ← on be this;
  c ← m_gets p_cp;
  if forcedCandidate b then mret true
  else
    now ← p_Now;
    if bs_IsBanned now bs then mret false
    else
      healthy ← on be IsHealthy;
      if negb healthy then mret false
      else if negb (skipPeerCountCheck b) && (peerCount bs <? minPeerCount c) then mret false
      else if negb (inSync bs) then mret false
      else
        now ← p_Now;
        mret (negb (lastUpdate bs + maxUpdateThreshold c <? now)).

Definition candidate : Type := string * backendState.

Fixpoint collect (backends : list string) : P (list candidate) :=
  match backends with
  | [] => mret []
  | be :: backends =>
      bs ← GetBackendState be;
      ok ← is_candidate be bs;
      rest ← collect backends;
      mret (if ok : bool then (be, bs) :: rest else rest)
  end.

Definition highest_latest (l : list candidate) : Z :=
  foldl (λ h '(_, bs), if h <? latestBlockNumber bs then latestBlockNumber bs else h) 0 l.

Definition lags (maxLag highest : Z) (c : candidate) : bool :=
  maxLag <? u64 (highest - latestBlockNumber c.2).

(** [FilterCandidates]. The candidates are the entries of a map; the loops over
    it (the highest block, the lagging ones) do not depend on their order. *)
Definition FilterCandidates (backends : list string) : P (list candidate) :=
  cands ← collect backends;
  c ← m_gets p_cp;
  mret (filter (λ x, lags (maxBlockLag c) (highest_latest cands) x = false) cands).

Definition getConsensusCandidates : P (list candidate) :=
  c ← m_gets p_cp;
  primaries ← FilterCandidates (Primaries (backendGroup c));
  match primaries with
  | _ :: _ => mret primaries
  | [] => FilterCandidates (Fallbacks (backendGroup c))
  end.

(** The lowest latest block with its hash, and the lowest safe and finalized
    blocks: 0 stands for "none yet". *)
Definition lowest (l : list backendState) : Z * string * Z * Z :=
  foldl (λ '(latest, hash, safe, finalized) bs,
    let '(latest, hash) := if (latest =? 0) || (latestBlockNumber bs <? latest)
      then (latestBlockNumber bs, latestBlockHash bs) else (latest, hash) in
    let finalized := if (finalized =? 0) || (finalizedBlockNumber bs <? finalized)
      then finalizedBlockNumber bs else finalized in
    let safe := if (safe =? 0) || (safeBlockNumber bs <? safe) then safeBlockNumber bs else safe in
    (latest, hash, safe, finalized)) (0, "", 0, 0) l.

(** [UpdateBackendGroupConsensus], with fuel for the search; [false] when it
    runs out (the loop of the source would still be running). *)
Definition UpdateBackendGroupConsensus (fuel : nat) : P bool :=
  c ← m_gets p_cp;
  let current := GetLatestBlockNumber (tracker c) in
  candidates ← getConsensusCandidates;
  order ← range candidates.*1;
  let states := omap (λ be, (list_to_map candidates : gmap string backendState) !! be) order in
  let '(lowestLatest, lowestHash, lowestSafe, lowestFinalized) := lowest states in
  found ← (if 0 <? lowestLatest then
    find_consensus (λ be n, fetchBlock be (EncodeUint64 n)) (range candidates.*1) fuel current
      lowestLatest lowestHash false
    else mret (Some (lowestLatest, false)));
  match found with
  | None => mret false
  | Some (proposed, broken) =>
      (if broken : bool then set_cp (λ c, {{ c with notified := (notified c ++ listeners c)%list }}) else mret ());;
      set_cp (λ c, {{ c with tracker :=
        SetFinalizedBlockNumber lowestFinalized (SetSafeBlockNumber lowestSafe
          (SetLatestBlockNumber proposed (tracker c))) }});;
      set_cp (λ c, {{ c with consensusGroup :=
        filter (λ be, be ∈ candidates.*1) (Backends (backendGroup c)) }});;
      mret true
  end.

(** ** The goroutines of [PollerAsyncHandler.Init]

    One round of the loop of a primary, of a fallback and of the group. A round
    of a backend writes the state of that backend alone, once, and a round of
    the group writes none, so whole rounds are the steps that interleave. *)

Definition fallback_round (be : string) : P unit :=
  c ← m_gets p_cp;
  healthyCandidates ← FilterCandidates (Primaries (backendGroup c));
  match healthyCandidates with [] => UpdateBackend be | _ => mret () end.

Inductive poll_step (s : poller_state) : poller_state → Prop :=
| step_primary be u s' : be ∈ Primaries (backendGroup (p_cp s)) → UpdateBackend be s = Ret (u, s') → poll_step s s'
| step_fallback be u s' : be ∈ Fallbacks (backendGroup (p_cp s)) → fallback_round be s = Ret (u, s') → poll_step s s'
| step_group fuel s' : UpdateBackendGroupConsensus fuel s = Ret (true, s') → poll_step s s'.

(** ** Accessors for the rest of proxyd *)

Definition GetConsensusGroup (c : ConsensusPoller) : list string := consensusGroup c.
Definition cp_GetLatestBlockNumber (c : ConsensusPoller) : Z := GetLatestBlockNumber (tracker c).
Definition cp_GetSafeBlockNumber (c : ConsensusPoller) : Z := GetSafeBlockNumber (tracker c).
Definition cp_GetFinalizedBlockNumber (c : ConsensusPoller) : Z := GetFinalizedBlockNumber (tracker c).

End poller.
Arguments ConsensusPoller T : clear implicits.
Arguments poller_state LM W T : clear implicits.
Arguments P LM W T A : clear implicits.

(** ** The search finds the highest block the candidates agree on *)

Section search_spec.
Context {S : Type} (fetch : string → Z → M S (error + (Z * string))) (visit : M S (list string)).
(** The candidates, and what each answers for each block while the search runs. *)
Context (bes : list string) (answer : string → Z → error + (Z * string)) (I : S → Prop).

(** The environment of one search over the blocks from [lo] to [hi]: every
    backend keeps giving its answers, an iteration visits all candidates, hashes
    are not empty. *)
Definition stable_answers (lo hi : Z) : Prop :=
  (∀ be n s, be ∈ bes → lo ≤ n ≤ hi → I s → ∃ s', fetch be n s = Ret (answer be n, s') ∧ I s') ∧
  (∀ s, I s → ∃ l s', visit s = Ret (l, s') ∧ l ≡ₚ bes ∧ I s') ∧
  (∀ be n k h, be ∈ bes → lo ≤ n ≤ hi → answer be n = inr (k, h) → h ≠ "").

(** All answers for block [n] are block [n] with one hash, that of [h0] when it
    is known. *)
Definition agree (l : list string) (n : Z) (h0 : string) : Prop :=
  ∃ h, (h0 ≠ "" → h = h0) ∧ ∀ be k hash, be ∈ l → answer be n = inr (k, hash) → k = n ∧ hash = h.

Lemma check_block_spec lo hi current n h0 l s : stable_answers lo hi → lo ≤ n ≤ hi → l ⊆ bes → I s →
  ∃ ok br s', check_block fetch current n h0 l s = Ret ((ok, br), s') ∧ I s' ∧ (ok = true ↔ agree l n h0).
Proof.
  intros Hst Hn. pose proof Hst as (Hf & _ & Hh). revert h0 s. induction l as [|be l IH]; intros h0 s Hl HI.
  { exists true, false, s. split_and!; [done..|]. split; [|done]. intros _. exists h0. split; [done|]. set_solver. }
  cbn [check_block]. destruct (Hf be n s) as (s1 & Hrun & HI1); [set_solver|done|done|].
  rewrite (M_bind_run _ _ _ _ _ Hrun).
  destruct (answer be n) as [e|[k hash]] eqn:Hans.
  - destruct (IH h0 s1) as (ok & br & s' & -> & HI' & Hok); [set_solver|done|].
    exists ok, br, s'. split_and!; [done..|]. rewrite Hok. clear -Hans. unfold agree.
    split; intros (h & Hh0 & Hall); exists h; (split; [done|]); intros be' k hash; [|set_solver].
    intros [->|Hin]%elem_of_cons; [congruence|by apply Hall].
  - pose proof (Hh be n k hash ltac:(set_solver) Hn Hans) as Hne.
    set (h1 := if String.eqb h0 "" then hash else h0).
    assert (Hh1 : (h0 ≠ "" → h1 = h0) ∧ (h0 = "" → h1 = hash) ∧ h1 ≠ "").
    { unfold h1. destruct (String.eqb_spec h0 ""); [done|]. split_and!; [done|congruence|done]. }
    destruct (Z.eqb_spec k n) as [->|Hk]; simpl; [destruct (String.eqb_spec hash h1) as [Heq|Hneq]; simpl|].
    + destruct (IH h1 s1) as (ok & br & s' & -> & HI' & Hok); [set_solver|done|].
      exists ok, br, s'. split_and!; [done..|]. rewrite Hok. clear Hok IH. split.
      * intros (h & Hh' & Hall). destruct Hh1 as (H1 & H2 & H3). specialize (Hh' H3). subst h.
        exists h1. split; [done|]. intros be' k' hash' [->|Hin]%elem_of_cons Ha; [|by eapply Hall].
        rewrite Hans in Ha. by injection Ha as <- <-.
      * intros (h & Hh0 & Hall). destruct (Hall be n hash) as [_ Hx]; [set_solver|done|]. subst h.
        exists hash. split; [congruence|]. intros. eapply Hall; set_solver.
    + exists false. do 2 eexists. split_and!; [done|done|]. split; [done|]. intros (h & Hh0 & Hall).
      destruct (Hall be n hash) as [_ Hx]; [set_solver|done|]. subst h. destruct Hneq, Hh1 as (H1 & H2 & _).
      destruct (decide (h0 = "")) as [->|Hn0]; [by rewrite H2|]. by rewrite H1, Hh0.
    + exists false. do 2 eexists. split_and!; [done|done|]. split; [done|]. intros (h & Hh0 & Hall).
      destruct (Hall be k hash) as [Hx _]; [set_solver|done|]. done.
Qed.

Lemma agree_perm l l' n h0 : l ≡ₚ l' → agree l n h0 → agree l' n h0.
Proof. intros Hp (h & Hh & Hall). exists h. split; [done|]. intros be k hash Hin. apply Hall. by rewrite Hp. Qed.

(** The hash the search expects of block [n] when it starts at [top]. *)
Definition expected_hash (top : Z) (hash : string) (n : Z) : string := if n =? top then hash else "".

Lemma find_consensus_spec fuel current top hash br s g hi : stable_answers g hi → I s → top ≤ hi →
  0 ≤ g ≤ top → top < two64 → agree bes g (expected_hash top hash g) →
  (Z.to_nat (top - g) < fuel)%nat →
  ∃ p br' s', find_consensus fetch visit fuel current top hash br s = Ret (Some (p, br'), s') ∧ I s' ∧
    g ≤ p ≤ top ∧ agree bes p (expected_hash top hash p) ∧
    ∀ q, p < q ≤ top → ¬ agree bes q (expected_hash top hash q).
Proof.
  intros Hst. revert top hash br s. induction fuel as [|fuel IH]; intros top hash br s HI Hhi Hg Htop Hag Hfuel; [lia|].
  cbn [find_consensus]. destruct Hst as (Hf & Hv & Hh) eqn:E. clear E.
  destruct (Hv s HI) as (l & s1 & Hrun & Hp & HI1). rewrite (M_bind_run _ _ _ _ _ Hrun).
  destruct (check_block_spec g hi current top hash l s1) as (ok & br1 & s2 & Hrun2 & HI2 & Hok); [done|lia|by rewrite Hp|done|].
  rewrite (M_bind_run _ _ _ _ _ Hrun2). simpl.
  assert (Hself : expected_hash top hash top = hash) by (unfold expected_hash; by rewrite Z.eqb_refl).
  destruct ok.
  - exists top, (br || br1), s2. split_and!; [done..|lia|lia| |intros q Hq; lia].
    rewrite Hself. eapply agree_perm; [exact Hp|]. by apply Hok.
  - assert (Hnot : ¬ agree bes top hash).
    { intros Ha. destruct Hok as [_ Hok]. symmetry in Hp. discriminate Hok. by eapply agree_perm. }
    assert (g ≠ top) by (intros ->; by rewrite Hself in Hag).
    rewrite u64_small by (unfold is_u64; lia).
    assert (Hexp : ∀ q, q < top → expected_hash (top - 1) "" q = expected_hash top hash q).
    { intros q Hq. unfold expected_hash. destruct (Z.eqb_spec q (top - 1)), (Z.eqb_spec q top); (lia || done). }
    destruct (IH (top - 1) "" (br || br1) s2) as (p & br' & s' & HR & HI' & Hp' & Hagp & Hmax);
      [done|lia|lia|lia|by rewrite Hexp by lia|lia|].
    exists p, br', s'. split_and!; [done..|lia|lia|by rewrite <-Hexp by lia|].
    intros q Hq. destruct (decide (q = top)) as [->|]; [by rewrite Hself|].
    rewrite <-Hexp by lia. apply Hmax. lia.
Qed.

End search_spec.

(** ** What a call to a backend leaves alone *)

Section frame.
Context {LM : Type} `{LinkedHashMap LM} `{Geth} {W : Type} `{Env W} `{Order W} {T : Type} `{ConsensusTracker T}.

(** The poller, and the configuration of every backend, stay. *)
Definition calls_only (s s' : poller_state LM W T) : Prop :=
  p_cp s' = p_cp s ∧ ∀ be, conf <$> p_store s' !! be = conf <$> p_store s !! be.

#[export] Instance calls_only_preorder : PreOrder calls_only.
Proof.
  unfold calls_only. split; [done|]. intros x y z [E1 F1] [E2 F2]. split; [congruence|].
  intros be. by rewrite F2, F1.
Qed.

Lemma on_spec {A} be (m : C LM W A) (s s' : poller_state LM W T) a : on be m s = Ret (a, s') →
  ∃ b cs, p_store s !! be = Some b ∧ m (mk_call_state b (p_world s) []) = Ret (a, cs) ∧
    s' = mk_ps (p_cp s) (<[be := st_be cs]> (p_store s)) (st_world cs).
Proof.
  unfold on. destruct (p_store s !! be) as [b|]; [|done]. intros HR. exists b.
  destruct (m _) as [[a' cs]|]; [|done]. injection HR as -> <-. by exists cs.
Qed.

Lemma calls_on {A} be (m : C LM W A) : respects same_conf m → respects calls_only (on (T := T) be m).
Proof.
  intros Hm s a s' (b & cs & Hb & HR & ->)%on_spec. apply Hm in HR. unfold same_conf in HR. simpl in HR.
  split; [done|]. intros be'. simpl. destruct (decide (be' = be)) as [->|Hne].
  - rewrite lookup_insert_eq, Hb. simpl. by rewrite HR.
  - by rewrite lookup_insert_ne.
Qed.

Lemma calls_p_Now : respects calls_only (p_Now (LM := LM) (W := W) (T := T)).
Proof. intros s a s'. unfold p_Now. destruct (time_Now _). by intros [= <- <-]. Qed.
Lemma calls_range ks : respects calls_only (range (LM := LM) (W := W) (T := T) ks).
Proof. intros s a s'. unfold range. destruct (permute _ _). by intros [= <- <-]. Qed.
Lemma calls_GetBackendState be : respects calls_only (GetBackendState (LM := LM) (W := W) (T := T) be).
Proof. intros s a s'. unfold GetBackendState. destruct (_ !! _); [|done]. by intros [= <- <-]. Qed.

#[local] Hint Resolve calls_p_Now calls_range calls_GetBackendState : respects.
#[local] Hint Extern 2 (respects calls_only (on _ (ForwardRPC _ _ _ _))) =>
  (apply calls_on, same_conf_ForwardRPC) : respects.
#[local] Hint Extern 2 (respects calls_only (on _ errors_Incr)) =>
  (apply calls_on, same_call_conf, same_errors_Incr) : respects.
#[local] Hint Extern 2 (respects calls_only (on _ IsHealthy)) =>
  (apply calls_on, same_call_conf, same_IsHealthy) : respects.
#[local] Hint Extern 2 (respects calls_only (on _ this)) =>
  (apply calls_on; unfold this; solve [respects_tac]) : respects.

Lemma calls_fetchBlock be block : respects calls_only (fetchBlock (LM := LM) (W := W) (T := T) be block).
Proof. unfold fetchBlock. respects_tac. Qed.
#[local] Hint Resolve calls_fetchBlock : respects.
Lemma calls_fetch_tag be tag : respects calls_only (fetch_tag (LM := LM) (W := W) (T := T) be tag).
Proof. unfold fetch_tag. respects_tac. Qed.
Lemma calls_update_peers be skip : respects calls_only (update_peers (LM := LM) (W := W) (T := T) be skip).
Proof. unfold update_peers, getPeerCount. respects_tac. Qed.
Lemma calls_isInSync be : respects calls_only (isInSync (LM := LM) (W := W) (T := T) be).
Proof. unfold isInSync. respects_tac. Qed.
Lemma calls_is_candidate be bs : respects calls_only (is_candidate (LM := LM) (W := W) (T := T) be bs).
Proof. unfold is_candidate. respects_tac. Qed.
#[local] Hint Resolve calls_fetch_tag calls_update_peers calls_isInSync calls_is_candidate : respects.
Lemma calls_collect l : respects calls_only (collect (LM := LM) (W := W) (T := T) l).
Proof. induction l; cbn [collect]; respects_tac. Qed.
Lemma calls_FilterCandidates l : respects calls_only (FilterCandidates (LM := LM) (W := W) (T := T) l).
Proof. pose proof calls_collect. unfold FilterCandidates. respects_tac. Qed.
Lemma calls_getConsensusCandidates : respects calls_only (getConsensusCandidates (LM := LM) (W := W) (T := T)).
Proof. pose proof calls_FilterCandidates. unfold getConsensusCandidates. respects_tac. Qed.

(** [this] of a backend with its configuration. *)
Lemma on_this be (s s' : poller_state LM W T) b : on be this s = Ret (b, s') →
  p_store s !! be = Some b ∧ calls_only s s'.
Proof.
  intros HR. split; [|by apply (calls_on be this) in HR; [|unfold this; respects_tac]].
  apply on_spec in HR as (b' & cs & Hb & [= <- _] & _). done.
Qed.

(** ** Block tags of a backend never go back *)

Definition tags_ok (bs : backendState) : Prop :=
  finalizedBlockNumber bs ≤ safeBlockNumber bs ≤ latestBlockNumber bs.

(** [new] after [old]: safe and finalized did not decrease, or the backend is
    banned and starts again from zero. *)
Definition tags_after (old new : backendState) : Prop :=
  tags_ok new ∧
  (safeBlockNumber old ≤ safeBlockNumber new ∧ finalizedBlockNumber old ≤ finalizedBlockNumber new ∨
   latestBlockNumber new = 0 ∧ safeBlockNumber new = 0 ∧ finalizedBlockNumber new = 0).

(** An update of [be] alone, to a state in [Q]. *)
Definition updates (be : string) (Q : backendState → Prop) (s s' : poller_state LM W T) : Prop :=
  (∃ new, backend_state (p_cp s') !! be = Some new ∧ Q new) ∧
  ∀ be', be' ≠ be → backend_state (p_cp s') !! be' = backend_state (p_cp s) !! be'.

Definition forced (be : string) (s : poller_state LM W T) : option bool := forcedCandidate <$> p_store s !! be.

Lemma forced_stays be (s s' : poller_state LM W T) : calls_only s s' → forced be s' = forced be s.
Proof.
  intros [_ Hc]. specialize (Hc be). unfold forced.
  destruct (p_store s' !! be), (p_store s !! be); try done. simpl in *. f_equal. by injection Hc.
Qed.

(** A step that only calls a backend, before an update. *)
Lemma updates_after be Q (s s1 s' : poller_state LM W T) : calls_only s s1 → updates be Q s1 s' → updates be Q s s'.
Proof. intros [Hc _]. unfold updates. by rewrite Hc. Qed.

Lemma updates_none be (Q : backendState → Prop) (s s' : poller_state LM W T) old : calls_only s s' →
  backend_state (p_cp s) !! be = Some old → Q old → updates be Q s s'.
Proof. intros [Hc _] Ho HQ. unfold updates. rewrite Hc. eauto. Qed.

Definition banned_zero (new : backendState) : Prop :=
  latestBlockNumber new = 0 ∧ safeBlockNumber new = 0 ∧ finalizedBlockNumber new = 0.

Lemma Ban_updates be (s s' : poller_state LM W T) bs u : Ban be s = Ret (u, s') →
  forced be s = Some false → backend_state (p_cp s) !! be = Some bs → updates be banned_zero s s'.
Proof.
  intros HR Hforced Hbs. unfold Ban in HR. run_step HR b s1 H1'. apply on_this in H1' as [Hb Hc].
  eapply updates_after; [exact Hc|]. rewrite <-(proj1 Hc) in Hbs.
  unfold forced in Hforced. rewrite Hb in Hforced. injection Hforced as Hforced. rewrite Hforced in HR.
  run_step HR bs' s2 H2'. unfold GetBackendState in H2'. rewrite Hbs in H2'. injection H2' as <- <-.
  run_step HR now s2 H3'. apply calls_p_Now in H3'. run_step HR c s3 H4'. injection H4' as <- <-.
  eapply updates_after; [exact H3'|]. injection HR as <- <-. split; simpl.
  - eexists. split; [apply lookup_insert_eq|done].
  - intros be' Hne. by apply lookup_insert_ne.
Qed.

Lemma setBackendState_run be peers sync latest hash safe finalized (s s' : poller_state LM W T) bs r :
  setBackendState be peers sync latest hash safe finalized s = Ret (r, s') →
  backend_state (p_cp s) !! be = Some bs →
  p_store s' = p_store s ∧ ∃ t, backend_state (p_cp s') =
    <[be := mk_bs latest hash safe finalized peers sync t (bannedUntil bs)]> (backend_state (p_cp s)).
Proof.
  intros HR Hbs. unfold setBackendState in HR. run_step HR bs' s1 H1'. unfold GetBackendState in H1'.
  rewrite Hbs in H1'. injection H1' as <- <-. run_step HR now s1 H2'. unfold p_Now in H2'.
  destruct (time_Now _). injection H2' as <- <-. run_step HR u s2 H3'. injection H3' as _ <-.
  injection HR as _ <-. simpl. eauto.
Qed.

Lemma record_tags_updates be old peers sync latest hash safe finalized (s s' : poller_state LM W T) bs u :
  record_tags be old peers sync latest hash safe finalized s = Ret (u, s') →
  forced be s = Some false → backend_state (p_cp s) !! be = Some bs →
  updates be (tags_after old) s s'.
Proof.
  intros HR Hforced Hbs. unfold record_tags in HR.
  run_step HR changed s1 HS. apply (setBackendState_run _ _ _ _ _ _ _ _ _ bs) in HS as [Hst [t Hs1]]; [|done].
  run_step HR b' s2 H4'. apply on_this in H4' as [Hb' Hc].
  assert (Hf : forced be s2 = Some false) by (rewrite (forced_stays be _ _ Hc); unfold forced; by rewrite Hst).
  unfold forced in Hforced. rewrite <-Hst, Hb' in Hforced. injection Hforced as Hforced.
  rewrite Hforced, andb_true_r in HR. pose proof (proj1 Hc) as Hcp.
  destruct (checkExpectedBlockTags _ _ _ _ _) eqn:Hexp; simpl in HR.
  - injection HR as _ <-. unfold updates. rewrite Hcp, Hs1. split.
    + eexists. split; [apply lookup_insert_eq|]. unfold checkExpectedBlockTags in Hexp.
      unfold tags_after, tags_ok. simpl. lia.
    + intros be' Hne. by apply lookup_insert_ne.
  - eapply Ban_updates in HR as [(new & Hnew & Hz) Hoth]; [|done|rewrite Hcp, Hs1; apply lookup_insert_eq].
    split; [exists new; split; [done|]; unfold banned_zero in Hz; unfold tags_after, tags_ok; lia|].
    intros be' Hne. rewrite Hoth, Hcp, Hs1 by done. by apply lookup_insert_ne.
Qed.

(** One step of [UpdateBackend] that only calls the backend. *)
Lemma updates_step {A B} be Q old (m : P LM W T A) (f : A → P LM W T B) (s s' : poller_state LM W T) b :
  respects calls_only m → (m ≫= f) s = Ret (b, s') →
  forced be s = Some false → backend_state (p_cp s) !! be = Some old →
  (∀ a s1, f a s1 = Ret (b, s') → forced be s1 = Some false → backend_state (p_cp s1) !! be = Some old →
    updates be Q s1 s') → updates be Q s s'.
Proof.
  intros Hm HR Hf Ho Hnext. run_step HR a s1 Ha. apply Hm in Ha.
  eapply updates_after; [exact Ha|]. eapply Hnext; [exact HR|by rewrite (forced_stays _ _ _ Ha)|].
  by rewrite (proj1 Ha).
Qed.

Ltac next_call HR Hf Ho x :=
  eapply updates_step; [|exact HR|exact Hf|exact Ho|]; [respects_tac|];
  clear HR Hf Ho; cbv beta; let s1 := fresh "s" in intros x s1 HR Hf Ho.

Lemma tags_after_refl bs : tags_ok bs → tags_after bs bs.
Proof. intros Hok. split; [done|left; lia]. Qed.

Lemma zero_tags_after old new : banned_zero new → tags_after old new.
Proof. unfold banned_zero, tags_after, tags_ok. lia. Qed.

Lemma updates_mono be (Q Q' : backendState → Prop) (s s' : poller_state LM W T) :
  (∀ bs, Q bs → Q' bs) → updates be Q s s' → updates be Q' s s'.
Proof. intros HQ [(new & Hn & Hq) Ho]. split; [eauto|done]. Qed.

Lemma UpdateBackend_updates be (s s' : poller_state LM W T) old u :
  UpdateBackend be s = Ret (u, s') → forced be s = Some false →
  backend_state (p_cp s) !! be = Some old → tags_ok old → updates be (tags_after old) s s'.
Proof.
  intros HR Hf Ho Hok%tags_after_refl. unfold UpdateBackend in HR. run_step HR bs s0 Hbs.
  unfold GetBackendState in Hbs. rewrite Ho in Hbs. injection Hbs as <- <-.
  assert (Hstay : ∀ s1, (mret () : P LM W T unit) s1 = Ret (u, s') → backend_state (p_cp s1) !! be = Some old →
    updates be (tags_after old) s1 s').
  { intros s1 [= _ <-] H1'. by eapply updates_none. }
  next_call HR Hf Ho t. next_call HR Hf Ho now. destruct (bs_IsBanned now old); [by apply Hstay|].
  next_call HR Hf Ho b. next_call HR Hf Ho healthy.
  destruct (negb healthy && negb (forcedCandidate b)).
  { eapply updates_mono; [apply zero_tags_after|]. by eapply Ban_updates. }
  next_call HR Hf Ho sync. destruct sync as [e|sync]; [by apply Hstay|].
  next_call HR Hf Ho peers. destruct peers as [peers|]; [|by apply Hstay].
  next_call HR Hf Ho latest. destruct latest as [[latest hash]|]; [|by apply Hstay].
  next_call HR Hf Ho safe. destruct safe as [[safe hash']|]; [|by apply Hstay].
  next_call HR Hf Ho finalized. destruct finalized as [[finalized hash'']|]; [|by apply Hstay].
  by eapply record_tags_updates.
Qed.
(** What is true of the tags of every backend that is not forced. *)
Definition tags_inv (s : poller_state LM W T) : Prop :=
  ∀ be bs, forced be s = Some false → backend_state (p_cp s) !! be = Some bs → tags_ok bs.

(** The configurations, and that the states of all backends but [be] stay. *)
Definition round_of (be : string) (s s' : poller_state LM W T) : Prop :=
  (∀ be, forced be s' = forced be s) ∧
  ∀ be', be' ≠ be → backend_state (p_cp s') !! be' = backend_state (p_cp s) !! be'.

#[export] Instance round_of_preorder be : PreOrder (round_of be).
Proof.
  unfold round_of. split; [done|]. intros x y z [F1 B1] [F2 B2].
  split; [intros; by rewrite F2, F1|intros; by rewrite B2, B1].
Qed.

Lemma calls_round {A} be (m : P LM W T A) : respects calls_only m → respects (round_of be) m.
Proof. intros Hm s a s' HR%Hm. split; [intros; by apply forced_stays|]. by rewrite (proj1 HR). Qed.

Lemma round_put_state be bs : respects (round_of be) (put_state (LM := LM) (W := W) (T := T) be bs).
Proof. intros s a s' [= <- <-]. split; [done|]. intros be' Hne. simpl. by apply lookup_insert_ne. Qed.

#[local] Hint Resolve round_put_state : respects.
#[local] Hint Extern 3 (respects (round_of _) _) => (apply calls_round; solve [eauto with respects]) : respects.

Lemma round_Ban be : respects (round_of be) (Ban (LM := LM) (W := W) (T := T) be).
Proof. unfold Ban. respects_tac. Qed.
#[local] Hint Resolve round_Ban : respects.

Lemma round_UpdateBackend be : respects (round_of be) (UpdateBackend (LM := LM) (W := W) (T := T) be).
Proof. unfold UpdateBackend, record_tags, setBackendState. respects_tac. Qed.

(** An update of one backend keeps the invariant. *)
Lemma UpdateBackend_inv be (s s' : poller_state LM W T) u :
  UpdateBackend be s = Ret (u, s') → tags_inv s → tags_inv s'.
Proof.
  intros HR Hinv be' bs Hf Hbs. pose proof (round_UpdateBackend be _ _ _ HR) as [Hfs Hoth]. rewrite Hfs in Hf.
  destruct (decide (be' = be)) as [->|Hne]; [|rewrite Hoth in Hbs by done; by eapply Hinv].
  assert (∃ old, backend_state (p_cp s) !! be = Some old) as [old Ho].
  { unfold UpdateBackend in HR. run_step HR bs0 s1 Hx. unfold GetBackendState in Hx. destruct (_ !! _); [eauto|done]. }
  destruct (UpdateBackend_updates be s s' old u HR Hf Ho) as [(new & Hn & Hok & _) _]; [by eapply Hinv|].
  rewrite Hn in Hbs. by injection Hbs as <-.
Qed.
End frame.

(** An update of a backend that is not forced never lets its safe or
    finalized block decrease, except by a ban, which resets all three tags to
    zero; and it leaves the states of the other backends. *)
Theorem update_tags_monotone {LM W T} `{LinkedHashMap LM} `{Geth} `{Env W} `{Order W} `{ConsensusTracker T}
    be (s s' : poller_state LM W T) old u :
  UpdateBackend be s = Ret (u, s') → forced be s = Some false →
  backend_state (p_cp s) !! be = Some old → tags_ok old → updates be (tags_after old) s s'.
Proof. apply UpdateBackend_updates. Qed.

(** ** Candidates are eligible and close to each other *)

(** Instants the clock has passed: a reading lies between those around it. *)
Class ClockSpec (W : Type) `{Env W} := {
  clock : W → Z;
  Now_between w t w' : time_Now w = (t, w') → clock w ≤ t ≤ clock w'
}.

Section candidates.
Context {LM : Type} `{LinkedHashMap LM} `{Geth} {W : Type} `{Env W} `{!ClockSpec W} `{Order W}.
Context {T : Type} `{ConsensusTracker T}.

Definition later (s s' : call_state LM W) : Prop := clock (st_world s) ≤ clock (st_world s').
#[export] Instance later_preorder : PreOrder later.
Proof. split; [intros x; apply Z.le_refl|intros x y z; apply Z.le_trans]. Qed.

Lemma later_Now : respects later (Now (LM := LM) (W := W)).
Proof.
  intros s a s'. unfold Now. destruct (time_Now _) as [t w] eqn:E. apply Now_between in E. intros [= <- <-].
  unfold later. simpl. lia.
Qed.
Lemma later_set_be f : respects later (set_be (LM := LM) (W := W) f).
Proof. intros s a s' [= <- <-]. apply Z.le_refl. Qed.
#[local] Hint Resolve later_Now later_set_be : respects.
Lemma later_IsHealthy : respects later (IsHealthy (LM := LM) (W := W)).
Proof. unfold IsHealthy, ErrorRate, requests_Sum, errors_Sum, latency_Avg, this. respects_tac. Qed.

(** What [FilterCandidates] asks of a backend before it looks for lag, between
    the instants [t] and [t']. *)
Definition eligible (c : ConsensusPoller T) (t t' : Z) (b : Backend LM) (bs : backendState) : Prop :=
  forcedCandidate b = true ∨
  bannedUntil bs ≤ t' ∧ inSync bs = true ∧ (skipPeerCountCheck b = true ∨ minPeerCount c ≤ peerCount bs) ∧
  t ≤ lastUpdate bs + maxUpdateThreshold c ∧
  ∃ w cs, t ≤ clock w ∧ clock (st_world cs) ≤ t' ∧ IsHealthy (mk_call_state b w []) = Ret (true, cs).

(** What one test of a candidate leaves: the poller, and all other backends. *)
Definition tests (be : string) (s s' : poller_state LM W T) : Prop :=
  p_cp s' = p_cp s ∧ clock (p_world s) ≤ clock (p_world s') ∧
  ∀ be', be' ≠ be → p_store s' !! be' = p_store s !! be'.
#[export] Instance tests_preorder be : PreOrder (tests be).
Proof.
  unfold tests. split; [intros x; split_and!; [done|lia|done]|]. intros x y z (E1 & L1 & F1) (E2 & L2 & F2).
  split_and!; [congruence|lia|]. intros be' Hne. by rewrite F2, F1.
Qed.

Lemma tests_on {A} be (m : C LM W A) : respects later m → respects (tests be) (on (T := T) be m).
Proof.
  intros Hm s a s' (b & cs & Hb & HR & ->)%on_spec. apply Hm in HR. unfold later in HR. simpl in HR.
  split_and!; [done|done|]. intros be' Hne. by apply lookup_insert_ne.
Qed.
Lemma tests_p_Now be : respects (tests be) (p_Now (LM := LM) (W := W) (T := T)).
Proof.
  intros s a s'. unfold p_Now. destruct (time_Now _) as [t w] eqn:E. apply Now_between in E. intros [= <- <-].
  split_and!; simpl; [done|lia|done].
Qed.
#[local] Hint Resolve tests_p_Now : respects.
#[local] Hint Extern 2 (respects (tests _) (on _ IsHealthy)) => (apply tests_on, later_IsHealthy) : respects.
#[local] Hint Extern 2 (respects (tests _) (on _ this)) =>
  (apply tests_on; unfold this; solve [respects_tac]) : respects.

Lemma tests_is_candidate be bs : respects (tests be) (is_candidate (LM := LM) (W := W) (T := T) be bs).
Proof. unfold is_candidate. respects_tac. Qed.

Lemma p_Now_between (s s' : poller_state LM W T) t : p_Now s = Ret (t, s') →
  clock (p_world s) ≤ t ≤ clock (p_world s') ∧ p_cp s' = p_cp s ∧ p_store s' = p_store s.
Proof.
  unfold p_Now. destruct (time_Now _) as [t' w] eqn:E. apply Now_between in E. by intros [= <- <-].
Qed.

Lemma is_candidate_eligible be bs (s s' : poller_state LM W T) b : is_candidate be bs s = Ret (true, s') →
  p_store s !! be = Some b → eligible (p_cp s) (clock (p_world s)) (clock (p_world s')) b bs.
Proof.
  intros HR Hb. unfold is_candidate in HR. run_step HR b' s1 H1'.
  apply on_spec in H1' as (b0 & cs & Hb0 & [= <- <-] & ->). rewrite Hb in Hb0. injection Hb0 as <-. simpl in HR.
  run_step HR c s1 H2'. injection H2' as <- <-. simpl in HR. destruct (forcedCandidate b) eqn:Hf; [by left|].
  right. run_step HR now s1 H3'. apply p_Now_between in H3' as (Ht & Hc & Hst). simpl in *.
  unfold bs_IsBanned in HR. destruct (Z.ltb_spec now (bannedUntil bs)); [done|].
  run_step HR healthy s2 H4'. pose proof H4' as L2. apply (tests_on be _ later_IsHealthy) in L2 as (Hc2 & L2 & _).
  apply on_spec in H4' as (b1 & cs & Hb1 & Hh & ->). rewrite Hst, lookup_insert_eq in Hb1. injection Hb1 as <-.
  simpl in *. destruct healthy; [|done]. simpl in HR.
  destruct (negb (skipPeerCountCheck b) && _) eqn:Hp; [done|]. destruct (inSync bs) eqn:Hs; [|done]. simpl in HR.
  run_step HR now' s3 H5'. apply p_Now_between in H5' as (Ht' & _ & _). simpl in Ht'.
  injection HR as Hlast <-. apply negb_true_iff, Z.ltb_ge in Hlast.
  split_and!; [lia|done| |lia|].
  - apply andb_false_iff in Hp as [Hp|Hp]; [left; by apply negb_false_iff|right; by apply Z.ltb_ge].
  - exists (p_world s1), cs. split_and!; [lia|lia|done].
Qed.

Lemma eligible_widen c t1 t1' t2 t2' b bs : t2 ≤ t1 → t1' ≤ t2' → eligible c t1 t1' b bs → eligible c t2 t2' b bs.
Proof.
  intros H1' H2' [Hf|(Hb & Hs & Hp & Hl & w & cs & Hw & Hcs & Hh)]; [by left|right].
  split_and!; [lia|done..|lia|]. exists w, cs. split_and!; [lia|lia|done].
Qed.

Lemma collect_eligible bes (s s' : poller_state LM W T) l : NoDup bes → collect bes s = Ret (l, s') →
  p_cp s' = p_cp s ∧ clock (p_world s) ≤ clock (p_world s') ∧ l.*1 `sublist_of` bes ∧
  ∀ be bs, (be, bs) ∈ l → be ∈ bes ∧ backend_state (p_cp s) !! be = Some bs ∧
    ∃ b, p_store s !! be = Some b ∧ eligible (p_cp s) (clock (p_world s)) (clock (p_world s')) b bs.
Proof.
  intros Hnd. revert s s' l. induction bes as [|be bes IH]; intros s s' l HR.
  { injection HR as <- <-. split_and!; [done|lia|done|]. intros be bs Hin. by apply not_elem_of_nil in Hin. }
  apply NoDup_cons in Hnd as [Hbe Hnd]. cbn [collect] in HR. run_step HR bs0 s1 H1'. unfold GetBackendState in H1'.
  destruct (backend_state (p_cp s) !! be) as [bs1|] eqn:Hbs; [|done]. injection H1' as <- <-.
  run_step HR ok s1 H2'. pose proof H2' as (Hc1 & L1 & St1)%tests_is_candidate.
  run_step HR rest s2 H3'. apply IH in H3' as (Hc2 & L2 & Hsub & Hel); [|done]. injection HR as <- <-.
  split_and!; [congruence|lia| |].
  { destruct ok; csimpl; by constructor. }
  intros be' bs' Hin.
  assert (Hcase : (ok = true ∧ (be', bs') = (be, bs1)) ∨ (be', bs') ∈ rest)
    by (destruct ok; [apply elem_of_cons in Hin as [?|?]; auto|auto]).
  destruct Hcase as [[-> [= -> ->]]|Hin'].
  - split_and!; [set_solver|done|].
    assert (∃ b, p_store s !! be = Some b) as [b Hb].
    { unfold is_candidate in H2'. run_step H2' b s3 Hx. apply on_this in Hx as [? _]. eauto. }
    exists b. split; [done|]. apply (eligible_widen _ (clock (p_world s)) (clock (p_world s1))); [lia|done|]. by eapply is_candidate_eligible.
  - destruct (Hel _ _ Hin') as (Hin2 & Hst & b & Hb & He). rewrite Hc1 in Hst, He.
    split_and!; [set_solver|done|]. exists b. rewrite <-St1 by (intros ->; done). split; [done|].
    by apply (eligible_widen _ (clock (p_world s1)) (clock (p_world s2))); [|lia|].
Qed.

Lemma highest_latest_ge l c : c ∈ l → latestBlockNumber c.2 ≤ highest_latest l.
Proof.
  unfold highest_latest. generalize 0.
  assert (Hmono : ∀ l h, h ≤ foldl (λ h '(_, bs), if h <? latestBlockNumber bs then latestBlockNumber bs else h) h (l : list candidate)).
  { clear. induction l as [|[be bs] l IH]; intros h; simpl; [lia|]. etransitivity; [|apply IH].
    destruct (Z.ltb_spec h (latestBlockNumber bs)); lia. }
  induction l as [|[be bs] l IH]; intros h; [by intros ?%not_elem_of_nil|]. simpl.
  intros [->|Hin]%elem_of_cons; [|by apply IH]. simpl. etransitivity; [|apply Hmono].
  destruct (Z.ltb_spec h (latestBlockNumber bs)); lia.
Qed.

Lemma highest_latest_u64 l : (∀ c, c ∈ l → is_u64 (latestBlockNumber c.2)) → is_u64 (highest_latest l).
Proof.
  unfold highest_latest. assert (H0' : is_u64 0) by done. revert H0'. generalize 0.
  induction l as [|[be bs] l IH]; intros h Hh Hl; [done|]. simpl. apply IH; [|intros; apply Hl; by right].
  destruct (Z.ltb_spec h (latestBlockNumber bs)); [|done]. apply (Hl (be, bs)). by left.
Qed.

(** Every backend [FilterCandidates] returns is forced, or is eligible by
    the state it was read with: not banned, healthy, in sync, with enough peers
    and updated within the threshold; and any two of them are at most
    [maxBlockLag] blocks apart. *)
Theorem candidates_eligible bes (s s' : poller_state LM W T) l :
  NoDup bes → (∀ be bs, be ∈ bes → backend_state (p_cp s) !! be = Some bs → is_u64 (latestBlockNumber bs)) →
  FilterCandidates bes s = Ret (l, s') →
  (∀ be bs, (be, bs) ∈ l → be ∈ bes ∧ backend_state (p_cp s) !! be = Some bs ∧
    ∃ b, p_store s !! be = Some b ∧ eligible (p_cp s) (clock (p_world s)) (clock (p_world s')) b bs) ∧
  (∀ x y, x ∈ l → y ∈ l → Z.abs (latestBlockNumber x.2 - latestBlockNumber y.2) ≤ maxBlockLag (p_cp s)).
Proof.
  intros Hnd Hu HR. unfold FilterCandidates in HR. run_step HR cands s1 H1'.
  apply collect_eligible in H1' as (Hc & _ & _ & Hel); [|done]. run_step HR c s2 H2'. injection H2' as <- <-.
  injection HR as <- <-. split.
  - intros be bs [_ Hin]%list_elem_of_filter. by apply Hel.
  - assert (Hin : ∀ x, x ∈ filter (λ x, lags (maxBlockLag (p_cp s1)) (highest_latest cands) x = false) cands →
      highest_latest cands - latestBlockNumber x.2 ≤ maxBlockLag (p_cp s) ∧
      latestBlockNumber x.2 ≤ highest_latest cands); [|intros x y Hx%Hin Hy%Hin; lia].
    assert (Hu' : ∀ x, x ∈ cands → is_u64 (latestBlockNumber x.2)).
    { intros [be bs] Hx. destruct (Hel _ _ Hx) as (Hin' & Hst & _). by eapply Hu. }
    intros x [Hlag Hx]%list_elem_of_filter. pose proof (highest_latest_ge _ _ Hx). split; [|done].
    unfold lags in Hlag. apply Z.ltb_ge in Hlag. rewrite Hc, u64_small in Hlag; [done|].
    pose proof (highest_latest_u64 _ Hu'). specialize (Hu' _ Hx). unfold is_u64 in *. lia.
Qed.

End candidates.

(** ** The consensus of a group *)

Definition is_least {A} (f : A → Z) (l : list A) (v : Z) : Prop :=
  (∃ x, x ∈ l ∧ f x = v) ∧ ∀ x, x ∈ l → v ≤ f x.

Lemma is_least_snoc {A} (f : A → Z) l x v : is_least f l v →
  is_least f (l ++ [x]) (if f x <? v then f x else v).
Proof.
  intros [(y & Hy & <-) Hle]. destruct (Z.ltb_spec (f x) (f y)); split.
  1,3: eexists; split; [|reflexivity]; set_solver.
  all: intros z [Hz|Hz%list_elem_of_singleton]%elem_of_app; [specialize (Hle z Hz)|subst]; lia.
Qed.

Lemma is_least_perm {A} (f : A → Z) l l' v : l ≡ₚ l' → is_least f l v → is_least f l' v.
Proof. intros Hp [(x & Hx & <-) Hle]. split; [exists x; by rewrite <-Hp|]. intros y. rewrite <-Hp. apply Hle. Qed.

Lemma is_least_single {A} (f : A → Z) x : is_least f [x] (f x).
Proof. split; [exists x; set_solver|]. intros y ->%list_elem_of_singleton. lia. Qed.

Definition numbered (bs : backendState) : Prop :=
  0 < latestBlockNumber bs ∧ 0 < safeBlockNumber bs ∧ 0 < finalizedBlockNumber bs.

Lemma lowest_spec l latest hash safe finalized : l ≠ [] → Forall numbered l →
  lowest l = (latest, hash, safe, finalized) →
  is_least latestBlockNumber l latest ∧ is_least safeBlockNumber l safe ∧
  is_least finalizedBlockNumber l finalized ∧
  ∃ bs, bs ∈ l ∧ latestBlockNumber bs = latest ∧ latestBlockHash bs = hash.
Proof.
  revert latest hash safe finalized. induction l as [|x l IH] using rev_ind; [done|].
  intros latest hash safe finalized _ Hn Hlow. apply Forall_app in Hn as [Hn Hx].
  unfold lowest in Hlow. rewrite foldl_app in Hlow. fold (lowest l) in Hlow. simpl in Hlow.
  destruct l as [|y l'].
  { simpl in Hlow. injection Hlow as <- <- <- <-. split_and!; try apply is_least_single. exists x. set_solver. }
  destruct (lowest (y :: l')) as [[[lat h] sf] fin] eqn:E.
  destruct (IH lat h sf fin) as (Hlat & Hsf & Hfin & bs & Hbs & Hbl & Hbh); [done..|].
  assert (Hpos : ∀ f v, (∀ bs, numbered bs → 0 < f bs) → is_least f (y :: l') v → v =? 0 = false).
  { intros f v Hf [(z & Hz & <-) _]. rewrite Forall_forall in Hn. specialize (Hf z (Hn z Hz)). lia. }
  rewrite (Hpos latestBlockNumber lat), (Hpos safeBlockNumber sf), (Hpos finalizedBlockNumber fin) in Hlow
    by (done || by intros ? (? & ? & ?)). simpl in Hlow.
  apply (is_least_snoc _ _ x) in Hlat, Hsf, Hfin.
  destruct (Z.ltb_spec (latestBlockNumber x) lat); injection Hlow as <- <- <- <-; split_and!; try done.
  - exists x. set_solver.
  - exists bs. set_solver.
Qed.

(** The states of the candidates, read in the order of an iteration. *)
Lemma states_perm (cands : list candidate) order : NoDup cands.*1 → order ≡ₚ cands.*1 →
  omap (λ be, (list_to_map cands : gmap string backendState) !! be) order ≡ₚ cands.*2.
Proof.
  intros Hnd Hp. rewrite Hp.
  assert (Hgen : ∀ l, l ⊆ cands →
    omap (λ be, (list_to_map cands : gmap string backendState) !! be) l.*1 = l.*2); [|by rewrite Hgen].
  induction l as [|[be bs] l IH]; intros Hl; [done|]. csimpl.
  rewrite (elem_of_list_to_map_1 cands be bs) by (done || apply Hl; by left).
  f_equal. apply IH. set_solver.
Qed.

Section group.
Context {LM : Type} `{LinkedHashMap LM} `{Geth} {W : Type} `{Env W} `{Order W} {T : Type} `{TrackerLaws T}.

Definition group_fetch (be : string) (n : Z) : P LM W T (error + (Z * string)) := fetchBlock be (EncodeUint64 n).

Lemma calls_find_group fuel cands current n hash br :
  respects calls_only (find_consensus group_fetch (range cands) fuel current n hash br).
Proof.
  pose proof (calls_range (LM := LM) (W := W) (T := T)). pose proof (calls_fetchBlock (LM := LM) (W := W) (T := T)).
  assert (Hcheck : ∀ l n hash, respects calls_only (check_block group_fetch current n hash l)).
  { induction l; intros ??; cbn [check_block]; unfold group_fetch; respects_tac. }
  revert n hash br. induction fuel; intros n hash br; cbn [find_consensus]; respects_tac.
Qed.

(** A round of the group leaves the states of the backends. *)
Definition group_round (s s' : poller_state LM W T) : Prop :=
  (∀ be, forced be s' = forced be s) ∧ backend_state (p_cp s') = backend_state (p_cp s).

#[export] Instance group_round_preorder : PreOrder group_round.
Proof.
  unfold group_round. split; [done|]. intros x y z [F1 B1] [F2 B2].
  split; [intros; by rewrite F2, F1|congruence].
Qed.

Lemma calls_group_round {A} (m : P LM W T A) : respects calls_only m → respects group_round m.
Proof. intros Hm s a s' HR%Hm. split; [intros; by apply forced_stays|]. by rewrite (proj1 HR). Qed.

Lemma group_round_set_cp f : (∀ c, backend_state (f c) = backend_state c) →
  respects group_round (set_cp (LM := LM) (W := W) f).
Proof. intros Hf s a s' [= <- <-]. split; [done|]. apply Hf. Qed.

#[local] Hint Extern 1 (respects group_round (set_cp _)) => (apply group_round_set_cp; done) : respects.
#[local] Hint Extern 1 (respects group_round getConsensusCandidates) =>
  (apply calls_group_round, calls_getConsensusCandidates) : respects.
#[local] Hint Extern 1 (respects group_round (range _)) => (apply calls_group_round, calls_range) : respects.
#[local] Hint Extern 1 (respects group_round (find_consensus _ _ _ _ _ _ _)) =>
  (apply calls_group_round, calls_find_group) : respects.

Lemma group_round_update fuel : respects group_round (UpdateBackendGroupConsensus (LM := LM) (W := W) (T := T) fuel).
Proof. unfold UpdateBackendGroupConsensus. respects_tac. Qed.

Lemma poll_step_inv (s s' : poller_state LM W T) : poll_step s s' → tags_inv s → tags_inv s'.
Proof.
  intros [be u s2 _ HR|be u s2 _ HR|fuel s2 HR] Hinv.
  - by eapply UpdateBackend_inv.
  - unfold fallback_round in HR. run_step HR c s3 H1'. injection H1' as <- <-. run_step HR cands s3 H1'.
    apply calls_FilterCandidates in H1'.
    assert (tags_inv s3) by (intros be' bs Hf; rewrite (forced_stays _ _ _ H1') in Hf; rewrite (proj1 H1'); by apply Hinv).
    destruct cands; [by eapply UpdateBackend_inv|]. by injection HR as _ <-.
  - apply group_round_update in HR as [Hf Hb]. intros be bs. rewrite Hf, Hb. apply Hinv.
Qed.

Lemma Reset_states (c : ConsensusPoller T) be bs :
  backend_state c = ∅ → backend_state (Reset c) !! be = Some bs → bs = zero_state.
Proof.
  unfold Reset. simpl. intros ->. generalize (Backends (backendGroup c)). intros l.
  assert (Hm : ∀ x, (∅ : gmap string backendState) !! be = Some x → x = zero_state) by (intros x; by rewrite lookup_empty).
  revert Hm. generalize (∅ : gmap string backendState). induction l as [|y l IH]; intros m Hm; simpl; [apply Hm|].
  apply IH. intros x. destruct (decide (y = be)) as [->|Hne]; [rewrite lookup_insert_eq; by intros [= <-]|].
  rewrite lookup_insert_ne by done. apply Hm.
Qed.


(** The state an update leaves. *)
Definition set_group_state (br : bool) (p sf fin : Z) (cands : list candidate) (s : poller_state LM W T) :
    poller_state LM W T :=
  let c := p_cp s in
  mk_ps (mk_poller (backendGroup c) (backend_state c)
    (filter (λ be, be ∈ cands.*1) (Backends (backendGroup c)))
    (SetFinalizedBlockNumber fin (SetSafeBlockNumber sf (SetLatestBlockNumber p (tracker c)))) (listeners c)
    (if br then (notified c ++ listeners c)%list else notified c) (minPeerCount c) (banPeriod c)
    (maxUpdateThreshold c) (maxBlockLag c) (cp_maxBlockRange c) (interval c)) (p_store s) (p_world s).

(** C4: when the candidates are known and keep giving the same answers, an
    update of the group ends; the latest block it records is the highest one,
    up to the lowest latest block of the candidates, that all answers agree on;
    safe and finalized are the lowest of the candidates; and the consensus group
    is the candidates in the order of the configuration. The fuel needed is the
    distance from the lowest latest block to a block [g] they agree on. *)
Theorem group_consensus_highest fuel (s s1 : poller_state LM W T) cands answer I g top :
  getConsensusCandidates s = Ret (cands, s1) → cands ≠ [] → NoDup cands.*1 → Forall numbered cands.*2 →
  stable_answers group_fetch (range cands.*1) cands.*1 answer I g top → I s1 →
  is_least latestBlockNumber cands.*2 top → top < two64 →
  0 ≤ g < top → agree answer cands.*1 g "" → (Z.to_nat (top - g) < fuel)%nat →
  ∃ s' p hash, UpdateBackendGroupConsensus fuel s = Ret (true, s') ∧
    (∃ bs, bs ∈ cands.*2 ∧ latestBlockNumber bs = top ∧ latestBlockHash bs = hash) ∧
    cp_GetLatestBlockNumber (p_cp s') = p ∧ g ≤ p ≤ top ∧
    agree answer cands.*1 p (expected_hash top hash p) ∧
    (∀ q, p < q ≤ top → ¬ agree answer cands.*1 q (expected_hash top hash q)) ∧
    is_least safeBlockNumber cands.*2 (cp_GetSafeBlockNumber (p_cp s')) ∧
    is_least finalizedBlockNumber cands.*2 (cp_GetFinalizedBlockNumber (p_cp s')) ∧
    GetConsensusGroup (p_cp s') = filter (λ be, be ∈ cands.*1) (Backends (backendGroup (p_cp s))).
Proof.
  intros Hc Hne Hnd Hnum Hst HI Htop Hu Hg Hag Hfuel.
  pose proof Hst as (_ & Hv & _). destruct (Hv s1 HI) as (order & s2 & Hrange & Hp & HI2).
  pose proof (calls_getConsensusCandidates _ _ _ Hc) as [Hc1 _]. pose proof (calls_range _ _ _ _ Hrange) as [Hc2 _].
  pose proof (states_perm cands order Hnd Hp) as Hperm. unfold UpdateBackendGroupConsensus.
  rewrite (M_bind_run (m_gets p_cp) _ s _ s eq_refl), (M_bind_run _ _ _ _ _ Hc), (M_bind_run _ _ _ _ _ Hrange).
  cbv zeta. destruct (lowest _) as [[[lat hash] sf] fin] eqn:Hlow.
  apply lowest_spec in Hlow as (Hlat & Hsf & Hfin & bs & Hbs & Hbl & Hbh);
    [|intros E; rewrite E in Hperm; apply Permutation_nil_l in Hperm; by destruct cands|by rewrite Hperm].
  apply (is_least_perm _ _ _ _ Hperm) in Hlat, Hsf, Hfin. rewrite Hperm in Hbs.
  assert (lat = top) as -> by (destruct Hlat as [(x & Hx & <-) Hx'], Htop as [(y & Hy & <-) Hy'];
    specialize (Hx' y Hy); specialize (Hy' x Hx); lia).
  destruct (Z.ltb_spec 0 top); [|lia].
  destruct (find_consensus_spec _ _ _ _ _ fuel (GetLatestBlockNumber (tracker (p_cp s))) top hash false s2 g top Hst HI2)
    as (p & br & s3 & Hrun & HI3 & Hpt & Hagp & Hmax); [lia|lia|done| |done|].
  { unfold expected_hash. by destruct (Z.eqb_spec g top); [lia|]. }
  rewrite (M_bind_run _ _ _ _ _ Hrun). apply calls_find_group in Hrun as [Hc3 _].
  exists (set_group_state br p sf fin cands s3), p, hash.
  split; [by destruct br|]. rewrite <-Hc1, <-Hc2, <-Hc3.
  unfold cp_GetLatestBlockNumber, cp_GetSafeBlockNumber, cp_GetFinalizedBlockNumber.
  destruct br; simpl;
    rewrite ?finalized_set_finalized, ?safe_set_finalized, ?safe_set_safe, ?latest_set_finalized,
      ?latest_set_safe, ?latest_set_latest; eauto 20.
Qed.
End group.

(** Candidates that do not answer count as agreeing: when every request for
    the proposed block fails, the search accepts it at once, with no hash
    confirmed by any backend. *)
Theorem silent_candidates_agree {S} (fetch : string → Z → M S (error + (Z * string))) visit bes fuel current n hash s :
  (∀ be s, be ∈ bes → ∃ e s', fetch be n s = Ret (inl e, s')) →
  (∀ s, ∃ l s', visit s = Ret (l, s') ∧ l ≡ₚ bes) →
  ∃ s', find_consensus fetch visit (Datatypes.S fuel) current n hash false s = Ret (Some (n, false), s').
Proof.
  intros Hf Hv. cbn [find_consensus]. destruct (Hv s) as (l & s1 & HR & Hp). rewrite (M_bind_run _ _ _ _ _ HR).
  assert (Hcheck : ∀ l s, l ⊆ bes → ∃ s', check_block fetch current n hash l s = Ret ((true, false), s')).
  { clear - Hf. induction l as [|be l IH]; intros s Hl; [by eexists|]. cbn [check_block].
    destruct (Hf be s) as (e & s1 & HR); [set_solver|]. rewrite (M_bind_run _ _ _ _ _ HR). apply IH. set_solver. }
  destruct (Hcheck l s1) as [s2 HR2]; [by rewrite Hp|]. rewrite (M_bind_run _ _ _ _ _ HR2). by eexists.
Qed.

(** What [fetchBlock] takes for a block. *)
Definition block_shaped `{Geth} (m : list (string * json)) : Prop :=
  ∃ num n hash, obj_get m "number" = Some (JStr num) ∧ DecodeUint64 num = Some n ∧ obj_get m "hash" = Some (JStr hash).

(** An answer to eth_getBlockByNumber that is an object but not
    block-shaped (no "number", as of a pending block, or a malformed one) makes
    [fetchBlock] panic instead of returning an error, and so does a malformed
    net_peerCount. *)
Theorem malformed_answers_panic {LM W T} `{LinkedHashMap LM} `{Geth} `{Env W} `{Order W} `{ConsensusTracker T}
    be (s s1 : poller_state LM W T) r :
  (∀ block m, on be (ForwardRPC poller_ctx "67" "eth_getBlockByNumber" [JStr block; JBool false]) s = Ret (inr r, s1) →
    rs_Result r = AJson (JObj m) → ¬ block_shaped m → panics (fetchBlock be block) s) ∧
  (∀ n, on be (ForwardRPC poller_ctx "67" "net_peerCount" []) s = Ret (inr r, s1) →
    rs_Result r = AJson (JStr n) → DecodeUint64 n = None → panics (getPeerCount be) s).
Proof.
  split.
  - intros block m HR Hr Hn. unfold fetchBlock. eapply panics_run; [exact HR|]. cbv beta iota. rewrite Hr.
    unfold block_of_result. destruct (obj_get m "number") as [[]|] eqn:Hnum; try by eexists.
    unfold MustDecodeUint64. simpl. destruct (DecodeUint64 _) eqn:Hd; [|by eexists].
    destruct (obj_get m "hash") as [[]|] eqn:Hh; try by eexists. destruct Hn. by do 3 eexists.
  - intros n HR Hr Hn. unfold getPeerCount. eapply panics_run; [exact HR|]. cbv beta iota. rewrite Hr.
    unfold MustDecodeUint64. rewrite Hn. by eexists.
Qed.

(** ** Witnesses *)

(** Two nodes that have block 99 in common and disagree about block 100; the
    clock advances a millisecond at every reading, iterations take the order of
    the keys. *)
Module two_nodes.

Definition rpc_body (method : string) (params : json) : string :=
  default "" (marshal_RPCReq (mk_RPCReq JSONRPCVersion method (json_marshal params) "67")).
Definition block_text (n hash : string) : string :=
  jtext ("{'jsonrpc':'2.0','id':67,'result':{'number':'" +:+ n +:+ "','hash':'" +:+ hash +:+ "'}}").
Definition by_number (tag : string) : string :=
  rpc_body "eth_getBlockByNumber" (JArr [JStr tag; JBool false]).

Definition net (url body : string) : string :=
  if String.eqb body (rpc_body "eth_syncing" JNull) then jtext "{'id':67,'result':false}"
  else if String.eqb body (rpc_body "net_peerCount" JNull) then jtext "{'id':67,'result':'0x5'}"
  else if String.eqb body (by_number "0x63") then block_text "0x63" "0xaa"
  else if String.eqb body (by_number "safe") then block_text "0x50" "0x50"
  else if String.eqb body (by_number "finalized") then block_text "0x40" "0x40"
  else block_text "0x64" (if String.eqb url "http://a" then "0xbb" else "0xcc").

#[local] Instance net_env : Env Z := {|
  time_Now w := (w, w + Millisecond);
  url_error _ := None;
  http_do r w := (inr (mk_http_response 200 (mk_body (net (hr_url r) (hr_body r)) None false 511)), w);
  rand_Int63n _ w := (0, w);
  sleep d w := w + d;
|}.
#[local] Instance net_order : Order Z := λ _ l w, (l, w).
#[local] Instance net_clock : ClockSpec Z.
Proof. refine {| clock := λ w, w |}. intros w t w' [= <- <-]. unfold Millisecond. lia. Defined.

Definition node (name : string) : Backend (list (Z * bucket)) := NewBackend name ("http://" +:+ name) "" [].
Definition group : BackendGroup :=
  mk_group "main" ["a"; "b"] false (list_to_map [("a", false); ("b", false)]) ConsensusAwareRoutingStrategy false.
Definition start : poller_state (list (Z * bucket)) Z InMemoryConsensusTracker :=
  mk_ps (NewConsensusPoller group NewInMemoryConsensusTracker []) (list_to_map [("a", node "a"); ("b", node "b")]) Second.

(** After both nodes are polled. *)
Definition polled : poller_state (list (Z * bucket)) Z InMemoryConsensusTracker :=
  default start (snd <$> returned ((UpdateBackend "a";; UpdateBackend "b") start)).


Example update_tags_monotone_witness :
  ∃ s', UpdateBackend "a" start = Ret ((), s') ∧ updates "a" (tags_after zero_state) start s'.
Proof.
  destruct (returned_fst (UpdateBackend "a" start) (λ _, ()) ()) as ([] & s' & HR & _); [vm_compute; reflexivity|].
  exists s'. split; [exact HR|].
  refine (update_tags_monotone "a" start s' zero_state () HR _ _ _); [vm_compute; reflexivity..|].
  vm_compute. split; discriminate.
Defined.

Definition bs_a : backendState := mk_bs 100 "0xbb" 80 64 5 true 1054000000 0.
Definition bs_b : backendState := mk_bs 100 "0xcc" 80 64 5 true 1109000000 0.

Example candidates_eligible_witness :
  ∃ s', FilterCandidates ["a"; "b"] polled = Ret ([("a", bs_a); ("b", bs_b)], s') ∧
    Z.abs (latestBlockNumber bs_a - latestBlockNumber bs_b) ≤ maxBlockLag (p_cp polled).
Proof.
  destruct (returned_fst (FilterCandidates ["a"; "b"] polled) fst [("a", bs_a); ("b", bs_b)]) as (l & s' & HR & Hl);
    [vm_compute; reflexivity|]. simpl in Hl. subst l. exists s'. split; [exact HR|].
  destruct (candidates_eligible ["a"; "b"] polled s' [("a", bs_a); ("b", bs_b)]) as [_ Hlag]; [| |exact HR|].
  - apply (bool_decide_unpack _). vm_compute. exact I.
  - assert (Ha : backend_state (p_cp polled) !! "a" = Some bs_a) by (vm_compute; reflexivity).
    assert (Hb : backend_state (p_cp polled) !! "b" = Some bs_b) by (vm_compute; reflexivity).
    intros be bs [->|[->|[]%not_elem_of_nil]%elem_of_cons]%elem_of_cons Hbs.
    + rewrite Ha in Hbs. injection Hbs as <-. vm_compute. split; [discriminate|reflexivity].
    + rewrite Hb in Hbs. injection Hbs as <-. vm_compute. split; [discriminate|reflexivity].
  - apply (Hlag ("a", bs_a) ("b", bs_b)); [apply list_elem_of_here|apply list_elem_of_further, list_elem_of_here].
Defined.

(** The configurations of the nodes, all that their answers depend on. *)
Definition configured (s : poller_state (list (Z * bucket)) Z InMemoryConsensusTracker) : Prop :=
  conf <$> p_store s !! "a" = Some (conf (node "a")) ∧ conf <$> p_store s !! "b" = Some (conf (node "b")).

Definition node_answer (be : string) (n : Z) : error + (Z * string) :=
  if n =? 99 then inr (99, "0xaa") else inr (100, if String.eqb be "a" then "0xbb" else "0xcc").

Definition block_value (n hash : string) : RPCRes :=
  mk_RPCRes "2.0" (AJson (JObj [("hash", JStr hash); ("number", JStr n)])) None "67".

(** One block fetched from a node. *)
Lemma node_fetch be n num hash (s : poller_state (list (Z * bucket)) Z InMemoryConsensusTracker) :
  conf <$> p_store s !! be = Some (conf (node be)) →
  (req ← rpc_request poller_ctx "67" "eth_getBlockByNumber" [JStr (EncodeUint64 n); JBool false] (conf (node be));
   Ret (read_body (mk_body (net (hr_url req) (hr_body req)) None false 511) MaxInt64)) = Ret (block_text num hash, None) →
  unmarshal_RPCRes (block_text num hash) = Some (block_value num hash) → DecodeUint64 num = Some n →
  returns (group_fetch be n) s (inr (n, hash)).
Proof.
  intros Hc Hreq Hres Hn. apply go_bind_Ret in Hreq as (req & Hreq & [= Hbody]).
  destruct (p_store s !! be) as [b|] eqn:Hb; [|discriminate Hc]. apply (inj Some) in Hc.
  destruct (ForwardRPC_success poller_ctx "67" "eth_getBlockByNumber" [JStr (EncodeUint64 n); JBool false]
    (mk_call_state b (p_world s) []) req
    (mk_http_response 200 (mk_body (net (hr_url req) (hr_body req)) None false 511))
    (block_text num hash) (block_value num hash)) as [cs HR]; [discriminate|reflexivity|..|reflexivity|reflexivity| |exact Hres|].
  - simpl. by rewrite Hc.
  - simpl. rewrite <-Hbody. exact (f_equal (λ b, read_body _ (maxResponseSize b)) Hc).
  - unfold group_fetch, fetchBlock, returns. erewrite M_bind_run; [|unfold on; rewrite Hb, HR; reflexivity].
    unfold m_lift, block_of_result, MustDecodeUint64. cbn -[DecodeUint64]. rewrite Hn. by eexists.
Qed.

Lemma node_answers : stable_answers group_fetch (range ["a"; "b"]) ["a"; "b"] node_answer configured 99 100.
Proof.
  split_and!.
  - intros be n s Hbe Hn [Ha Hb].
    assert (HR : returns (group_fetch be n) s (node_answer be n)).
    { assert (n = 99 ∨ n = 100) as [->| ->] by lia;
        apply elem_of_cons in Hbe as [->|[->|[]%not_elem_of_nil]%elem_of_cons].
      - apply (node_fetch "a" 99 "0x63" "0xaa"); [exact Ha|vm_compute; reflexivity..].
      - apply (node_fetch "b" 99 "0x63" "0xaa"); [exact Hb|vm_compute; reflexivity..].
      - apply (node_fetch "a" 100 "0x64" "0xbb"); [exact Ha|vm_compute; reflexivity..].
      - apply (node_fetch "b" 100 "0x64" "0xcc"); [exact Hb|vm_compute; reflexivity..]. }
    destruct HR as [s' HR]. exists s'. split; [exact HR|]. apply calls_fetchBlock in HR as [_ Hc].
    split; by rewrite Hc.
  - intros s Hs. exists ["a"; "b"], s. split; [by destruct s|done].
  - intros be n k h _ _. unfold node_answer. destruct (n =? 99); [by intros [= <- <-]|].
    by destruct (String.eqb be "a"); intros [= <- <-].
Qed.

Example group_consensus_highest_witness :
  ∃ s', UpdateBackendGroupConsensus 2 polled = Ret (true, s') ∧ 99 ≤ cp_GetLatestBlockNumber (p_cp s') ≤ 100.
Proof.
  destruct (returned_fst (getConsensusCandidates polled)
    (λ x, (x.1, (conf <$> p_store x.2 !! "a", conf <$> p_store x.2 !! "b")))
    ([("a", bs_a); ("b", bs_b)], (Some (conf (node "a")), Some (conf (node "b"))))) as (l & s1 & HR & Hl);
    [vm_compute; reflexivity|]. cbn [fst snd] in Hl. injection Hl as -> Ha Hb.
  destruct (group_consensus_highest 2 polled s1 [("a", bs_a); ("b", bs_b)] node_answer configured 99 100)
    as (s' & p & hash & HR' & _ & Hp & Hle & _).
  - exact HR.
  - discriminate.
  - apply (bool_decide_unpack _). vm_compute. exact I.
  - repeat constructor.
  - exact node_answers.
  - split; [exact Ha|exact Hb].
  - split; [exists bs_a; split; [apply list_elem_of_here|reflexivity]|].
    intros x [->|[->|[]%not_elem_of_nil]%elem_of_cons]%elem_of_cons; discriminate.
  - reflexivity.
  - lia.
  - exists "0xaa". split; [intros Hne; destruct (Hne eq_refl)|]. intros be k h _ [= <- <-]. split; reflexivity.
  - simpl. lia.
  - exists s'. rewrite Hp. split; [exact HR'|exact Hle].
Defined.

Example silent_candidates_agree_witness :
  ∃ s', find_consensus (λ (be : string) (n : Z) (s : unit), Ret (inl (ENew "timeout") : error + (Z * string), s))
    (λ s, Ret (["a"], s)) 1 0 7 "" false () = Ret (Some (7, false), s').
Proof.
  apply (silent_candidates_agree _ _ ["a"]).
  - intros be s _. by do 2 eexists.
  - intros s. by do 2 eexists.
Defined.

End two_nodes.

#[local] Instance script_order : Order script := λ _ l w, (l, w).

(** A node that answers with a block that has no number. *)
Example malformed_answers_panic_witness :
  let s := mk_ps (NewConsensusPoller (mk_group "main" ["a"] false ∅ "" false) NewInMemoryConsensusTracker [])
    {["a" := test_backend]} (mk_script 0 [answer 200 (jtext "{'id':67,'result':{'hash':'0xaa'}}")]) in
  panics (fetchBlock "a" "latest") s.
Proof.
  intros s.
  destruct (returned_fst (on "a" (ForwardRPC poller_ctx "67" "eth_getBlockByNumber" [JStr "latest"; JBool false]) s)
    (λ x, match x.1 with inr r => Some (rs_Result r) | _ => None end)
    (Some (AJson (JObj [("hash", JStr "0xaa")])))) as ([e|r] & s1 & HR & Hr); [vm_compute; reflexivity|done|].
  injection Hr as Hr. apply (proj1 (malformed_answers_panic "a" s s1 r) "latest" [("hash", JStr "0xaa")] HR Hr).
  intros (num & n & hash & Hnum & _). discriminate Hnum.
Defined.
