(* ===== verification/BackendGroup.v ===== *)
(** A backend group of proxyd (backend.go): the order in which backends are
    tried, failover between them, the responses that are overridden by the
    consensus of the group, and the multicall strategy.

    The requests of a caller are shared pointers: rewriting and forwarding write
    through them, so every operation returns the requests as it leaves them. *)
From stdpp Require Import base numbers list gmap strings sets pretty.
From S2P Require Import Prelude.
From S2P Require Import GoFloat.
From S2P Require Import SlidingWindow.
From S2P Require Import Json.
From S2P Require Import Geth.
From S2P Require Import Rpc.
From S2P Require Import Reader.
From S2P Require Import Rewriter.
From S2P Require Import Backend.
From S2P Require Import ConsensusTracker.
From S2P Require Import ConsensusPoller.

Local Open Scope string_scope.
Local Open Scope Z_scope.
#[local] Arguments String.append : simpl nomatch.

(** weightedshuffle.ShuffleInplace on names with their weights. *)
Class WeightedShuffle (W : Type) := weighted_shuffle : list (string * Z) → W → list string * W.
Class WeightedShuffleSpec (W : Type) `{WeightedShuffle W} :=
  weighted_shuffle_perm l w : (weighted_shuffle l w).1 ≡ₚ l.*1.

(** ** Overridden responses *)

Record indexedReqRes := mk_indexed { ov_index : nat; ov_req : RPCReq; ov_res : RPCRes }.

(** Inserting at an index past the end of the slice panics. *)
Fixpoint OverrideResponses (res : list RPCRes) (ovs : list indexedReqRes) : go (list RPCRes) :=
  match ovs with
  | [] => Ret res
  | ov :: ovs =>
      match res with
      | [] => OverrideResponses [ov_res ov] ovs
      | _ =>
          if (ov_index ov <=? length res)%nat then
            OverrideResponses (take (ov_index ov) res ++ ov_res ov :: drop (ov_index ov) res)%list ovs
          else Panic "slice bounds out of range"
      end
  end.

Section overwrite.
Context `{Geth}.

(** One request against the consensus: the request as it is left, and its
    response when it is not forwarded. *)
Definition overwrite_one (rctx : RewriteContext) (req : RPCReq) : go (RPCReq * option RPCRes) :=
  '(result, err, req', res) ← RewriteTags rctx req (mk_RPCRes JSONRPCVersion ANil None (rq_ID req));
  match result with
  | RewriteOverrideError =>
      let err_is v := match err with Some e => errors_Is_plain e v | None => false end in
      let e := if err_is ErrRewriteBlockOutOfRange then rpc_var_value ErrBlockOutOfRange
        else if err_is ErrRewriteRangeTooLarge then
          ErrInvalidParams ("block range greater than " +:+ pretty (maxBlockRange rctx) +:+ " max")
        else rpc_var_value ErrParseErr in
      Ret (req', Some (mk_RPCRes (rs_JSONRPC res) (rs_Result res) (Some e) (rs_ID res)))
  | RewriteOverrideResponse => Ret (req', Some res)
  | RewriteOverrideRequest | RewriteNone => Ret (req', None)
  end.

Definition overwrite_all (rctx : RewriteContext) (reqs : list RPCReq) : go (list (RPCReq * option RPCRes)) :=
  go_mapM (overwrite_one rctx) reqs.

(** The requests that are forwarded. *)
Definition rewrittenReqs (l : list (RPCReq * option RPCRes)) : list RPCReq :=
  omap (λ x, match x.2 with None => Some x.1 | Some _ => None end) l.

(** The responses that are overridden, from index [i] on. *)
Fixpoint overriddenResponses (i : nat) (l : list (RPCReq * option RPCRes)) : list indexedReqRes :=
  match l with
  | [] => []
  | (req, Some res) :: l => mk_indexed i req res :: overriddenResponses (S i) l
  | (_, None) :: l => overriddenResponses (S i) l
  end.

(** [OverwriteConsensusResponses]: every request as it is left, those that are
    forwarded, and the overridden responses. *)
Definition OverwriteConsensusResponses {T} `{ConsensusTracker T} (c : ConsensusPoller T) (reqs : list RPCReq) :
    go (list (RPCReq * option RPCRes) * list RPCReq * list indexedReqRes) :=
  let rctx := mk_rctx (cp_GetLatestBlockNumber c) (cp_GetSafeBlockNumber c) (cp_GetFinalizedBlockNumber c)
    (cp_maxBlockRange c) in
  l ← overwrite_all rctx reqs;
  Ret (l, rewrittenReqs l, overriddenResponses 0 l).

(** The caller's requests once the forwarded ones were written to. *)
Fixpoint put_back (l : list (RPCReq * option RPCRes)) (forwarded : list RPCReq) : list RPCReq :=
  match l with
  | [] => []
  | (req, Some _) :: l => req :: put_back l forwarded
  | (req, None) :: l =>
      match forwarded with
      | [] => req :: put_back l []
      | f :: forwarded => f :: put_back l forwarded
      end
  end.
End overwrite.

Definition isValidMulticallTx (reqs : list RPCReq) : bool :=
  match reqs with [r] => String.eqb (rq_Method r) "eth_sendRawTransaction" | _ => false end.

Record BackendGroupRPCResponse := mk_bgres { bg_RPCRes : list RPCRes; ServedBy : string; bg_error : option error }.

(** The responses that arrive at the channel of a multicall, in their order. *)
Fixpoint process_responses (check : bool) (final : option BackendGroupRPCResponse)
    (ch : list BackendGroupRPCResponse) : go BackendGroupRPCResponse :=
  match ch with
  | [] => Ret (default (mk_bgres [] "" (Some (ENew "no multicall response received"))) final)
  | resp :: ch =>
      match bg_error resp with
      | Some _ => process_responses check (Some resp) ch
      | None =>
          if check then
            match bg_RPCRes resp with
            | [] => Panic "index out of range"
            | r :: _ => if IsError r then process_responses check (Some resp) ch else Ret resp
            end
          else Ret resp
      end
  end.

Definition ProcessMulticallResponses (bg : BackendGroup) (ch : list BackendGroupRPCResponse) :
    go BackendGroupRPCResponse := process_responses (multicallRPCErrorCheck bg) None ch.

(** ** The group *)

Section group.
Context {LM : Type} `{LinkedHashMap LM} `{Geth} {W : Type} `{Env W} `{Order W} `{WeightedShuffle W}.
Context {T : Type} `{ConsensusTracker T}.

(** What the backends' pointers point to, and the world. *)
Record group_state := mk_gs { g_store : gmap string (Backend LM); g_world : W }.
#[export] Instance group_state_eta : Eta group_state := λ s, mk_gs (g_store s) (g_world s).

Definition G (A : Type) : Type := M group_state A.

Definition in_world {A} (f : W → A * W) : G A := λ s,
  let '(a, w) := f (g_world s) in Ret (a, mk_gs (g_store s) w).

(** A method of the backend [be] on the requests [reqs]. *)
Definition g_on {A} (be : string) (reqs : list RPCReq) (m : C LM W A) : G (A * list RPCReq) := λ s,
  match g_store s !! be with
  | None => Panic "nil pointer dereference"
  | Some b =>
      match m (mk_call_state b (g_world s) reqs) with
      | Panic why => Panic why
      | Ret (a, cs) => Ret ((a, st_reqs cs), mk_gs (<[be := st_be cs]> (g_store s)) (st_world cs))
      end
  end.

Definition backend_weight (be : string) : G (string * Z) :=
  '(b, _) ← g_on be [] this; mret (be, weight b).

Fixpoint m_mapM {A B} (f : A → G B) (l : list A) : G (list B) :=
  match l with [] => mret [] | x :: l => y ← f x; ys ← m_mapM f l; mret (y :: ys) end.

Definition weightedShuffle (l : list string) : G (list string) :=
  ws ← m_mapM backend_weight l; in_world (weighted_shuffle ws).

(** The backends for which [m] holds, and the others, in their order. *)
Fixpoint split_by (m : C LM W bool) (l : list string) : G (list string * list string) :=
  match l with
  | [] => mret ([], [])
  | be :: l =>
      '(ok, _) ← g_on be [] m;
      '(yes, no) ← split_by m l;
      mret (if ok : bool then (be :: yes, no) else (yes, be :: no))
  end.

(** The members of a consensus group that are healthy, and those degraded. *)
Fixpoint split_consensus (cg : list string) : G (list string * list string) :=
  match cg with
  | [] => mret ([], [])
  | be :: cg =>
      '(healthy, _) ← g_on be [] IsHealthy;
      if negb healthy then split_consensus cg
      else
        '(degraded, _) ← g_on be [] IsDegraded;
        '(h, d) ← split_consensus cg;
        mret (if degraded : bool then (h, be :: d) else (be :: h, d))
  end.

Definition loadBalancedConsensusGroup (bg : BackendGroup) (c : ConsensusPoller T) : G (list string) :=
  '(healthy, degraded) ← split_consensus (GetConsensusGroup c);
  _ ← in_world time_Now;
  healthy ← in_world (permute healthy);
  degraded ← in_world (permute degraded);
  healthy ← (if WeightedRouting bg then weightedShuffle healthy else mret healthy);
  mret (healthy ++ degraded)%list.

Definition orderedBackendsForRequest (bg : BackendGroup) (consensus : option (ConsensusPoller T)) : G (list string) :=
  match consensus with
  | Some c => loadBalancedConsensusGroup bg c
  | None =>
      '(healthy, unhealthy) ← split_by IsHealthy (Backends bg);
      if WeightedRouting bg then
        healthy ← weightedShuffle healthy;
        unhealthy ← weightedShuffle unhealthy;
        mret (healthy ++ unhealthy)%list
      else mret (healthy ++ unhealthy)%list
  end.

(** The errors of a backend that end the failover. *)
Definition fatal_error (err : error) : bool :=
  errors_Is_plain err ErrConsensusGetReceiptsCantBeBatched ||
  errors_Is_plain err ErrConsensusGetReceiptsInvalidTarget ||
  errors_Is err ErrMethodNotWhitelisted || errors_Is err ErrBackendResponseTooLarge.

Fixpoint ForwardRequestToBackendGroup (bg : BackendGroup) (reqs : list RPCReq) (backends : list string)
    (ctx : Ctx) (isBatch : bool) : G (BackendGroupRPCResponse * list RPCReq) :=
  match backends with
  | [] => mret (mk_bgres [] "" (Some (EVar ErrNoBackends)), reqs)
  | back :: backends =>
      let servedBy := bg_Name bg +:+ "/" +:+ back in
      match reqs with
      | [] => mret (mk_bgres [] servedBy None, reqs)
      | _ =>
          '(res, reqs) ← g_on back reqs (Forward ctx isBatch);
          match res with
          | inr res => mret (mk_bgres res servedBy None, reqs)
          | inl err =>
              if fatal_error err then mret (mk_bgres [] "" (Some err), reqs)
              else ForwardRequestToBackendGroup bg reqs backends ctx isBatch
          end
      end
  end.

(** The calls of a multicall run concurrently; they are taken whole, in the
    order in which they end. *)
Fixpoint multicall_requests (bg : BackendGroup) (reqs : list RPCReq) (backends : list string) (ctx : Ctx) :
    G (list BackendGroupRPCResponse * list RPCReq) :=
  match backends with
  | [] => mret ([], reqs)
  | be :: backends =>
      '(resp, reqs) ← ForwardRequestToBackendGroup bg reqs [be] ctx false;
      '(resps, reqs) ← multicall_requests bg reqs backends ctx;
      mret (resp :: resps, reqs)
  end.

Definition ExecuteMulticall (bg : BackendGroup) (reqs : list RPCReq) (ctx : Ctx) :
    G (BackendGroupRPCResponse * list RPCReq) :=
  order ← in_world (permute (Backends bg));
  '(ch, reqs) ← multicall_requests bg reqs order ctx;
  resp ← m_lift (ProcessMulticallResponses bg ch);
  mret (resp, reqs).

(** [BackendGroup.Forward]: the response with the backend that served it, and
    the requests as they are left. *)
Definition group_Forward (bg : BackendGroup) (consensus : option (ConsensusPoller T)) (ctx : Ctx)
    (rpcReqs : list RPCReq) (isBatch : bool) : G (BackendGroupRPCResponse * list RPCReq) :=
  match rpcReqs with
  | [] => mret (mk_bgres [] "" None, rpcReqs)
  | _ =>
      backends ← orderedBackendsForRequest bg consensus;
      '(l, reqs, overridden) ← m_lift (match consensus with
        | Some c => OverwriteConsensusResponses c rpcReqs
        | None => Ret ((λ r, (r, None)) <$> rpcReqs, rpcReqs, [])
        end);
      if String.eqb (GetRoutingStrategy bg) MulticallRoutingStrategy && isValidMulticallTx reqs && negb isBatch then
        '(resp, reqs) ← ExecuteMulticall bg reqs ctx;
        mret (resp, put_back l reqs)
      else
        '(resp, reqs) ← ForwardRequestToBackendGroup bg reqs backends ctx isBatch;
        match bg_error resp with
        | Some _ => mret (resp, put_back l reqs)
        | None =>
            res ← m_lift (OverrideResponses (bg_RPCRes resp) overridden);
            mret (mk_bgres res (ServedBy resp) None, put_back l reqs)
        end
  end.

End group.
Arguments group_state LM W : clear implicits.
Arguments G LM W A : clear implicits.

(** ** Overridden responses come back at the places of their requests *)

(** The responses of all requests, given those of the forwarded ones. *)
Fixpoint fill (l : list (RPCReq * option RPCRes)) (res : list RPCRes) : list RPCRes :=
  match l with
  | [] => res
  | (_, Some r) :: l => r :: fill l res
  | (_, None) :: l => match res with [] => [] | x :: res => x :: fill l res end
  end.

Lemma OverrideResponses_fill_from l pre res : length res = length (rewrittenReqs l) →
  OverrideResponses (pre ++ res) (overriddenResponses (length pre) l) = Ret (pre ++ fill l res)%list.
Proof.
  revert pre res. induction l as [|[req [r|]] l IH]; intros pre res Hlen; simpl in *.
  - done.
  - assert (Hnext : OverrideResponses (pre ++ r :: res) (overriddenResponses (S (length pre)) l) =
      Ret (pre ++ r :: fill l res)%list).
    { specialize (IH (pre ++ [r])%list res Hlen). rewrite length_app, Nat.add_1_r, <-!app_assoc in IH. exact IH. }
    destruct (pre ++ res)%list as [|x l'] eqn:E.
    + apply app_eq_nil in E as [-> ->]. exact Hnext.
    + rewrite <-E. rewrite leb_correct by (rewrite length_app; lia).
      rewrite take_app_length, drop_app_length. exact Hnext.
  - destruct res as [|x res]; [done|]. injection Hlen as Hlen.
    specialize (IH (pre ++ [x])%list res Hlen). rewrite length_app, Nat.add_1_r, <-!app_assoc in IH. exact IH.
Qed.

Lemma OverrideResponses_fill l res : length res = length (rewrittenReqs l) →
  OverrideResponses res (overriddenResponses 0 l) = Ret (fill l res).
Proof. apply (OverrideResponses_fill_from l []). Qed.

Lemma fill_length l res : length res = length (rewrittenReqs l) → length (fill l res) = length l.
Proof.
  revert res. induction l as [|[req [r|]] l IH]; intros res Hlen; simpl in *.
  - by destruct res.
  - by rewrite IH.
  - destruct res; [done|]. simpl. rewrite IH; [done|]. by injection Hlen.
Qed.

(** Merging the responses of the forwarded requests with the overridden
    ones never panics; it gives one response per request, an overridden request
    gets its own response, and a forwarded one that of the backend, in order. *)
Theorem override_positions l res : length res = length (rewrittenReqs l) →
  ∃ out, OverrideResponses res (overriddenResponses 0 l) = Ret out ∧ length out = length l ∧
    (∀ i req r, l !! i = Some (req, Some r) → out !! i = Some r) ∧
    (∀ i req, l !! i = Some (req, None) → out !! i = res !! length (rewrittenReqs (take i l))).
Proof.
  intros Hlen. exists (fill l res). split_and!; [by apply OverrideResponses_fill|by apply fill_length| |].
  - revert res Hlen. induction l as [|[req [r|]] l IH]; intros res Hlen [|i] req' r' Hi; simplify_eq/=; eauto.
    destruct res; [done|]. simplify_eq/=. eauto.
  - revert res Hlen. induction l as [|[req [r|]] l IH]; intros res Hlen [|i] req' Hi; simplify_eq/=; eauto.
    all: destruct res; [done|]; simplify_eq/=; eauto.
Qed.

(** ** Responses have the IDs of their requests *)

Section ids.
Context `{Geth}.

Definition ids_kept (req : RPCReq) (res : RPCRes) (o : outcome) : Prop :=
  rq_ID o.1.2 = rq_ID req ∧ rs_ID o.2 = rs_ID res.

Lemma rewriteParam_ids rctx req res pos required b : ids_kept req res (rewriteParam rctx req res pos required b).
Proof. unfold rewriteParam. repeat (case_match; try done). Qed.

Lemma rewriteRange_ids rctx req res pos o : rewriteRange rctx req res pos = Ret o → ids_kept req res o.
Proof. unfold rewriteRange. repeat (case_match; try done); by intros [= <-]. Qed.

Lemma RewriteTags_ids rctx req res o : RewriteTags rctx req res = Ret o → ids_kept req res o.
Proof.
  unfold RewriteTags, RewriteResponse. destruct (String.eqb _ "eth_blockNumber"); [by intros [= <-]|].
  unfold RewriteRequest. cbv zeta. repeat case_match; try apply rewriteRange_ids; intros [= <-];
    apply rewriteParam_ids || done.
Qed.

Lemma overwrite_one_ids rctx req req' o : overwrite_one rctx req = Ret (req', o) →
  rq_ID req' = rq_ID req ∧ ∀ r, o = Some r → rs_ID r = rq_ID req.
Proof.
  unfold overwrite_one. intros HR. apply go_bind_Ret in HR as ([[[result err] req1] res1] & HT & HR).
  apply RewriteTags_ids in HT as [H1 H2]. simpl in H1, H2.
  destruct result; injection HR as <- <-; (split; [done|]); intros r [= <-]; done.
Qed.
End ids.

(** ** What a backend returns for its requests *)

Lemma go_mapM_length {A B} (f : A → go B) l l' : go_mapM f l = Ret l' → length l' = length l.
Proof.
  revert l'. induction l as [|x l IH]; intros l' HR; simpl in HR; [by injection HR as <-|].
  apply go_bind_Ret in HR as (y & _ & HR). apply go_bind_Ret in HR as (ys & Hys & [= <-]). simpl. f_equal. eauto.
Qed.

Section forward.
Context {LM : Type} `{LinkedHashMap LM} `{Geth} {W : Type} `{Env W}.

(** Calls keep the IDs of the requests. *)
Definition same_ids (s s' : call_state LM W) : Prop := rq_ID <$> st_reqs s' = rq_ID <$> st_reqs s.

#[export] Instance same_ids_preorder : PreOrder same_ids.
Proof. unfold same_ids. split; [done|]. intros x y z ? ?. congruence. Qed.

Lemma same_call_ids {A} (m : C LM W A) : respects same_call m → respects same_ids m.
Proof. intros Hm s a s' HR. apply Hm in HR as [HR _]. unfold same_ids. by rewrite HR. Qed.

Lemma translate_reqs_ids target reqs reqs' ids err :
  translate_reqs target reqs = Ret (reqs', ids, err) → rq_ID <$> reqs' = rq_ID <$> reqs.
Proof.
  revert reqs' ids err. induction reqs as [|r reqs IH]; intros reqs' ids err HR; simpl in HR; [by injection HR as <- _ _|].
  destruct (String.eqb _ _).
  - apply go_bind_Ret in HR as (t & _ & HR). destruct t as [e|params]; [by injection HR as <- _ _|].
    apply go_bind_Ret in HR as ([[l i] e] & Hl & [= <- _ _]). csimpl. f_equal. eauto.
  - apply go_bind_Ret in HR as ([[l i] e] & Hl & [= <- _ _]). csimpl. f_equal. eauto.
Qed.

(** The responses a call can return: sorted for requests with the given IDs. *)
Definition sorted_for (reqs : list RPCReq) (res : list RPCRes) : Prop :=
  length res = length reqs ∧ ∃ reqs' res', rq_ID <$> reqs' = rq_ID <$> reqs ∧ sortBatchRPCResponse reqs' res' = Ret res.

Lemma finished_sorted reqs code ids l res : length l = length reqs →
  finished reqs code ids l = Ret res → sorted_for reqs res.
Proof.
  intros Hlen HR. unfold finished in HR. apply go_bind_Ret in HR as (l1 & Hl1 & HR).
  apply go_bind_Ret in HR as (l2 & Hl2 & HR). split; [|by exists reqs, l2].
  assert (length l1 = length l) by (destruct (code =? 200); [by injection Hl1 as <-|by eapply go_mapM_length]).
  apply go_mapM_length in Hl2. unfold sortBatchRPCResponse in HR. apply go_bind_Ret in HR as (pos & _ & [= <-]).
  rewrite sort_res_perm. congruence.
Qed.

Lemma sorted_for_ids reqs reqs' res : rq_ID <$> reqs = rq_ID <$> reqs' → sorted_for reqs res → sorted_for reqs' res.
Proof.
  intros Hids [Hlen (l & r & Hl & Hs)]. split; [|exists l, r; by rewrite <-Hids].
  rewrite Hlen. apply (f_equal length) in Hids. by rewrite !length_fmap in Hids.
Qed.

Lemma doForward_returns ctx isBatch (s s' : call_state LM W) x : doForward ctx isBatch s = Ret (x, s') →
  same_ids s s' ∧ ∀ res, x = inr res → sorted_for (st_reqs s) res.
Proof.
  intros HR. unfold doForward in HR. run_step HR u s1 H1'. apply same_requests_Incr in H1' as [Hr _].
  run_step HR reqs s2 H2'. injection H2' as <- <-. unfold this in HR. run_step HR b s2 H2'. injection H2' as <- <-.
  destruct (_ && _); [injection HR as <- <-; by split; [unfold same_ids; rewrite Hr|]|].
  run_step HR t s2 Ht. unfold m_lift in Ht. apply go_bind_Ret in Ht as (t' & Ht & [= -> <-]).
  destruct t as [[reqs' ids] err]. run_step HR u2 s2 H2'. injection H2' as _ <-.
  assert (Hids : rq_ID <$> reqs' = rq_ID <$> st_reqs s).
  { rewrite <-Hr. destruct isBatch; [by injection Ht as <- _ _|by eapply translate_reqs_ids]. }
  destruct err as [e|]; [injection HR as <- <-; by split; [unfold same_ids|]|].
  run_step HR body s2 H2'. unfold m_lift in H2'. apply go_bind_Ret in H2' as (? & _ & [= -> <-]).
  destruct (url_error _).
  { run_step HR u3 s3 H3'. apply same_network_error in H3' as [E _]. injection HR as <- <-.
    split; [unfold same_ids; by rewrite E|done]. }
  split; [pose proof HR as [E _]%same_exchange; unfold same_ids; by rewrite E|].
  intros res ->. apply exchange_inr in HR as (httpRes & resB & l & _ & _ & Hlen & Hfin).
  eapply sorted_for_ids; [exact Hids|]. by eapply finished_sorted.
Qed.

Lemma attempts_returns ctx isBatch n i e (s s' : call_state LM W) x : attempts ctx isBatch n i e s = Ret (x, s') →
  same_ids s s' ∧ ∀ res, x = inr res → sorted_for (st_reqs s) res.
Proof.
  revert i e s. induction n as [|n IH]; intros i e s HR; [by injection HR as <- <-|].
  cbn [attempts] in HR. run_step HR r s1 H1'. apply doForward_returns in H1' as [Hids Hres].
  destruct r as [err|res]; [|injection HR as <- <-; split; [done|]; intros ? [= ->]; by apply Hres].
  destruct (final_error err); [by injection HR as <- <-|].
  run_step HR u s2 H2'. assert (Hb : st_reqs s2 = st_reqs s1).
  { unfold back_off in H2'. destruct (rand_Int63n _ _). by injection H2' as _ <-. }
  apply IH in HR as [Hids' Hres']. unfold same_ids in *. rewrite Hb, Hids in Hids'. split; [done|].
  intros res Hx. eapply sorted_for_ids; [|by apply Hres']. by rewrite Hb.
Qed.

Lemma Forward_returns ctx isBatch (s s' : call_state LM W) x : Forward ctx isBatch s = Ret (x, s') →
  same_ids s s' ∧ ∀ res, x = inr res → sorted_for (st_reqs s) res.
Proof.
  intros HR. unfold Forward, this in HR. run_step HR b s1 H1'. injection H1' as <- <-.
  run_step HR r s1 H1'. injection H1' as <- <-. destruct (_ <? _); [by eapply attempts_returns|].
  destruct (st_reqs s) eqn:E; [done|]. rewrite <-E in *. by eapply attempts_returns.
Qed.
End forward.

(** When the IDs are those of the requests, sorted responses are in their order. *)
Lemma sorted_for_order reqs res : sorted_for reqs res → NoDup (rq_ID <$> reqs) →
  rs_ID <$> res ≡ₚ rq_ID <$> reqs → rs_ID <$> res = rq_ID <$> reqs.
Proof.
  intros (_ & reqs' & res' & Hids & HR) Hnd Hp. rewrite <-Hids in *.
  destruct (positions_spec reqs' 0 ∅ Hnd) as (pos & Hpos & Hj & _); [intros; apply lookup_empty|].
  unfold sortBatchRPCResponse in HR. rewrite Hpos in HR. injection HR as <-.
  apply (sorted_ids reqs' res' _ pos); [done| |done|apply sort_res_perm|apply sort_res_sorted].
  by rewrite <-(sort_res_perm (res_pos pos) res').
Qed.

Section group_spec.
Context {LM : Type} `{LinkedHashMap LM} `{Geth} {W : Type} `{Env W} `{Order W} `{WeightedShuffle W}.
Context {T : Type} `{ConsensusTracker T}.

Lemma g_on_spec {A} be reqs (m : C LM W A) (s s' : group_state LM W) a reqs' :
  g_on be reqs m s = Ret ((a, reqs'), s') →
  ∃ b cs, g_store s !! be = Some b ∧ m (mk_call_state b (g_world s) reqs) = Ret (a, cs) ∧ reqs' = st_reqs cs ∧
    s' = mk_gs (<[be := st_be cs]> (g_store s)) (st_world cs).
Proof.
  unfold g_on. destruct (g_store s !! be) as [b|]; [|done]. intros HR. exists b.
  destruct (m _) as [[a' cs]|]; [|done]. injection HR as -> <- <-. by exists cs.
Qed.

Lemma ForwardRequest_returns bg reqs backends ctx isBatch (s s' : group_state LM W) resp reqs' :
  ForwardRequestToBackendGroup bg reqs backends ctx isBatch s = Ret ((resp, reqs'), s') →
  rq_ID <$> reqs' = rq_ID <$> reqs ∧ (bg_error resp = None → reqs ≠ [] → sorted_for reqs (bg_RPCRes resp)) ∧
  (reqs = [] → bg_RPCRes resp = []).
Proof.
  revert reqs s. induction backends as [|be bes IH]; intros reqs s HR; [by injection HR as <- <- <-|].
  cbn [ForwardRequestToBackendGroup] in HR. destruct reqs as [|r reqs]; [by injection HR as <- <- <-|].
  run_step HR t s1 Ht. destruct t as [x reqs1]. apply g_on_spec in Ht as (b & cs & _ & HF & -> & ->).
  apply Forward_returns in HF as [Hids Hres]. unfold same_ids in Hids. cbn [st_reqs] in Hids, Hres.
  destruct x as [err|res]; [|injection HR as <- <- <-; split_and!; [done|intros _ _; by apply Hres|done]].
  destruct (fatal_error err); [injection HR as <- <- <-; by split_and!|].
  apply IH in HR as (Hids' & Hres' & Hempty). rewrite Hids in Hids'. split_and!; [done| |done].
  intros He _. eapply sorted_for_ids; [exact Hids|]. apply Hres'; [done|]. by destruct (st_reqs cs).
Qed.

End group_spec.

(** ** What a multicall returns *)

(** A response the multicall strategy returns at once. *)
Definition accepted (check : bool) (r : BackendGroupRPCResponse) : bool :=
  match bg_error r with
  | Some _ => false
  | None => if check then match bg_RPCRes r with [] => true | x :: _ => negb (IsError x) end else true
  end.

Definition shaped (r : BackendGroupRPCResponse) : Prop := bg_error r = None → bg_RPCRes r ≠ [].

Lemma process_spec check final ch : Forall shaped ch →
  process_responses check final ch = Ret (default (mk_bgres [] "" (Some (ENew "no multicall response received")))
    (head (filter (λ r, accepted check r = true) ch) ∪ last ch ∪ final)).
Proof.
  intros Hs. revert final. induction Hs as [|r ch Hr Hs IH]; intros final; [by destruct final|]. cbn [process_responses].
  assert (Hrest : process_responses check (Some r) ch = Ret (default (mk_bgres [] "" (Some (ENew "no multicall response received")))
    (head (filter (λ r, accepted check r = true) ch) ∪ last (r :: ch) ∪ final))).
  { rewrite IH. do 2 f_equal. rewrite last_cons. destruct (head _), (last ch), final; done. }
  unfold shaped in Hr. destruct (decide (accepted check r = true)) as [Ha|Ha].
  - rewrite filter_cons_True by done. unfold accepted in Ha.
    assert (Hfst : ∀ o, default o (Some r ∪ last (r :: ch) ∪ final) = r) by (intros; by destruct (last (r :: ch)), final).
    destruct (bg_error r); [done|]. destruct check; [|cbn [head]; by rewrite Hfst].
    destruct (bg_RPCRes r) as [|x l]; [by destruct Hr|]. destruct (IsError x); [done|]. cbn [head]. by rewrite Hfst.
  - rewrite filter_cons_False by done. unfold accepted in Ha. destruct (bg_error r); [exact Hrest|].
    destruct check; [|done]. destruct (bg_RPCRes r) as [|x l]; [done|]. destruct (IsError x); [exact Hrest|done].
Qed.

Section multicall.
Context {LM : Type} `{LinkedHashMap LM} `{Geth} {W : Type} `{Env W} `{Order W}.

(** What every backend answers to a multicall. *)
Definition multicall_answer (bg : BackendGroup) (reqs : list RPCReq) (be : string) (r : BackendGroupRPCResponse) : Prop :=
  bg_error r = None → sorted_for reqs (bg_RPCRes r) ∧ ServedBy r = bg_Name bg +:+ "/" +:+ be.

Lemma answer_shaped bg reqs be r : reqs ≠ [] → multicall_answer bg reqs be r → shaped r.
Proof. intros Hne Hr He. destruct (Hr He) as [[Hlen _] _]. intros E. rewrite E in Hlen. by destruct reqs. Qed.

Lemma multicall_requests_spec bg reqs order ctx (s s' : group_state LM W) ch reqs' : reqs ≠ [] →
  multicall_requests bg reqs order ctx s = Ret ((ch, reqs'), s') →
  Forall2 (multicall_answer bg reqs) order ch.
Proof.
  intros Hne. assert (Hgen : ∀ reqs0 s, rq_ID <$> reqs0 = rq_ID <$> reqs →
    multicall_requests bg reqs0 order ctx s = Ret ((ch, reqs'), s') → Forall2 (multicall_answer bg reqs) order ch);
    [|by apply Hgen].
  revert ch. induction order as [|be bes IH]; intros ch reqs0 s0 Hids HR; [injection HR as <- <- <-; constructor|].
  cbn [multicall_requests] in HR. run_step HR t s1 Ht. destruct t as [resp reqs1].
  run_step HR t s2 Ht2. destruct t as [resps reqs2]. injection HR as <- <- <-.
  pose proof Ht as (Hids1 & Hs & _)%ForwardRequest_returns.
  assert (Hne0 : reqs0 ≠ []) by (intros ->; by destruct reqs). constructor.
  - intros He. split; [eapply sorted_for_ids; [exact Hids|by apply Hs]|].
    cbn [ForwardRequestToBackendGroup] in Ht. destruct reqs0 as [|r reqs0]; [done|].
    run_step Ht x s3 Hx. destruct x as [[err|res] rq]; [|by injection Ht as <- _ _].
    destruct (fatal_error err); injection Ht as <- _ _; done.
  - apply (IH _ reqs1 s1); [congruence|done].
Qed.

Lemma ExecuteMulticall_spec bg reqs ctx (s s' : group_state LM W) resp reqs' : reqs ≠ [] →
  ExecuteMulticall bg reqs ctx s = Ret ((resp, reqs'), s') →
  ∃ order ch, order = (permute (Backends bg) (g_world s)).1 ∧ Forall2 (multicall_answer bg reqs) order ch ∧
    resp = default (mk_bgres [] "" (Some (ENew "no multicall response received")))
      (head (filter (λ r, accepted (multicallRPCErrorCheck bg) r = true) ch) ∪ last ch).
Proof.
  intros Hne HR. unfold ExecuteMulticall in HR. run_step HR ord s1 H1'.
  unfold in_world in H1'. destruct (permute (Backends bg) (g_world s)) as [o w] eqn:Ho. injection H1' as -> <-.
  run_step HR t s2 H2'. destruct t as [ch reqs1]. pose proof H2' as Hch. apply multicall_requests_spec in Hch; [|done].
  run_step HR r s3 H3'. unfold m_lift in H3'. apply go_bind_Ret in H3' as (? & H3' & [= -> <-]).
  injection HR as <- <- <-. exists ord, ch. split_and!; [done..|].
  unfold ProcessMulticallResponses in H3'. rewrite process_spec in H3'.
  - injection H3' as <-. by destruct (head _), (last ch).
  - eapply Forall2_Forall_r; [exact Hch|]. apply Forall_forall. intros be _ r' Hr. by eapply answer_shaped.
Qed.

Lemma ExecuteMulticall_returns bg reqs ctx (s s' : group_state LM W) resp reqs' : reqs ≠ [] →
  ExecuteMulticall bg reqs ctx s = Ret ((resp, reqs'), s') → bg_error resp = None → sorted_for reqs (bg_RPCRes resp).
Proof.
  intros Hne (order & ch & _ & Hch & ->)%ExecuteMulticall_spec He; [|done].
  assert (Hin : ∀ r, r ∈ ch → bg_error r = None → sorted_for reqs (bg_RPCRes r)).
  { intros r [i Hi]%list_elem_of_lookup_1 Hr. destruct (Forall2_lookup_r _ _ _ _ _ Hch Hi) as (be & _ & Ha). by apply Ha. }
  revert He. destruct (head (filter _ ch)) as [r|] eqn:Eh.
  - apply head_Some_elem_of, list_elem_of_filter in Eh as [_ Hr].
    destruct (last ch); by apply Hin.
  - destruct (last ch) as [r|] eqn:El; [|done]. apply last_Some_elem_of in El. by apply Hin.
Qed.
End multicall.

Section group_forward.
Context {LM : Type} `{LinkedHashMap LM} `{Geth} {W : Type} `{Env W} `{Order W} `{WeightedShuffle W}.
Context {T : Type} `{ConsensusTracker T}.

(** The requests and their overridden responses, as [group_Forward] prepares them. *)
Definition prepared (rpcReqs : list RPCReq)
    (l : list (RPCReq * option RPCRes)) : Prop :=
  Forall2 (λ req x, rq_ID x.1 = rq_ID req ∧ ∀ r, x.2 = Some r → rs_ID r = rq_ID req) rpcReqs l.

Lemma prepare_spec (consensus : option (ConsensusPoller T)) rpcReqs l reqs ov :
  match consensus with
  | Some c => OverwriteConsensusResponses c rpcReqs
  | None => Ret ((λ r, (r, None)) <$> rpcReqs, rpcReqs, [])
  end = Ret (l, reqs, ov) →
  prepared rpcReqs l ∧ reqs = rewrittenReqs l ∧ ov = overriddenResponses 0 l.
Proof.
  destruct consensus as [c|].
  - unfold OverwriteConsensusResponses. intros HR. apply go_bind_Ret in HR as (l' & Hl & [= -> <- <-]).
    split_and!; [|done..]. unfold prepared, overwrite_all in *. revert l Hl.
    induction rpcReqs as [|r rs IH]; intros l Hl; simpl in Hl; [injection Hl as <-; constructor|].
    apply go_bind_Ret in Hl as ([req' o] & Ho & Hl). apply go_bind_Ret in Hl as (ys & Hys & [= <-]).
    constructor; [|by apply IH]. by apply overwrite_one_ids in Ho.
  - intros [= <- <- <-]. split_and!.
    + unfold prepared. induction rpcReqs; constructor; [|done]. done.
    + unfold rewrittenReqs. induction rpcReqs as [|r rs IH]; csimpl; [done|]. by f_equal.
    + generalize 0%nat. induction rpcReqs as [|r rs IH]; intros n; csimpl; [done|]. by rewrite <-IH.
Qed.

(** A group has one routing strategy: one with a consensus does not multicall. *)
Definition coherent (bg : BackendGroup) (consensus : option (ConsensusPoller T)) : Prop :=
  GetRoutingStrategy bg = MulticallRoutingStrategy → consensus = None.

Lemma group_Forward_returns bg consensus ctx rpcReqs isBatch (s s' : group_state LM W) resp reqs' :
  coherent bg consensus → rpcReqs ≠ [] →
  group_Forward bg consensus ctx rpcReqs isBatch s = Ret ((resp, reqs'), s') → bg_error resp = None →
  ∃ l res, prepared rpcReqs l ∧ length res = length (rewrittenReqs l) ∧
    (rewrittenReqs l ≠ [] → sorted_for (rewrittenReqs l) res) ∧ bg_RPCRes resp = fill l res.
Proof.
  intros Hmc Hne HR He. unfold group_Forward in HR. destruct rpcReqs as [|r rs]; [done|].
  run_step HR backends s1 H1'. run_step HR t s2 H2'. destruct t as [[l reqs] ov].
  unfold m_lift in H2'. apply go_bind_Ret in H2' as (? & H2' & [= -> <-]).
  destruct (_ && _) eqn:Hmulti.
  { apply andb_true_iff in Hmulti as [[Hst Hv]%andb_true_iff _]. apply String.eqb_eq, Hmc in Hst as ->.
    injection H2' as <- <- <-. destruct rs; [|done].
    run_step HR t s3 H3'. destruct t as [resp1 reqs1]. injection HR as <- <- <-.
    apply ExecuteMulticall_returns in H3' as Hs; [|done..]. exists [(r, None)], (bg_RPCRes resp1).
    pose proof (proj1 Hs) as Hlen. split_and!; [|done|done|].
    - constructor; [done|constructor].
    - by destruct (bg_RPCRes resp1) as [|x [|]]. }
  apply prepare_spec in H2' as (Hprep & -> & ->).
  run_step HR t s3 H3'. destruct t as [resp1 reqs1]. apply ForwardRequest_returns in H3' as (_ & Hres & Hempty).
  destruct (bg_error resp1) eqn:E1; [injection HR as <- <- <-; congruence|].
  run_step HR out s4 H4'. unfold m_lift in H4'. apply go_bind_Ret in H4' as (? & H4' & [= -> <-]).
  injection HR as <- <- <-. exists l, (bg_RPCRes resp1).
  assert (Hlen : length (bg_RPCRes resp1) = length (rewrittenReqs l)).
  { destruct (rewrittenReqs l) eqn:Erw; [by rewrite Hempty|]. by apply Hres. }
  split_and!; [done..|by apply Hres|]. simpl. rewrite OverrideResponses_fill in H4' by done. by injection H4'.
Qed.

(** A call of a group that succeeds gives exactly one response per request,
    whatever the backends answered. *)
Theorem group_forward_answers_all bg consensus ctx rpcReqs isBatch (s s' : group_state LM W) resp reqs' :
  coherent bg consensus →
  group_Forward bg consensus ctx rpcReqs isBatch s = Ret ((resp, reqs'), s') → bg_error resp = None →
  length (bg_RPCRes resp) = length rpcReqs.
Proof.
  intros Hmc HR He. destruct (decide (rpcReqs = [])) as [->|Hne]; [by injection HR as <- _ _|].
  apply (group_Forward_returns bg consensus ctx rpcReqs isBatch) in HR as (l & res & Hp & Hlen & _ & ->); [|done..].
  rewrite fill_length by done. symmetry. by eapply Forall2_length.
Qed.

(** The IDs of the overridden responses. *)
Definition overridden_ids (l : list (RPCReq * option RPCRes)) : list string := omap (λ x, rs_ID <$> x.2) l.

Lemma fill_ids l res : length res = length (rewrittenReqs l) →
  rs_ID <$> fill l res ≡ₚ (overridden_ids l ++ (rs_ID <$> res))%list.
Proof.
  revert res. induction l as [|[req [r|]] l IH]; intros res Hlen; csimpl in *; [done| |].
  - by rewrite IH.
  - destruct res as [|x res]; [done|]. injection Hlen as Hlen. csimpl. rewrite IH by done. apply Permutation_middle.
Qed.

Lemma prepared_ids rpcReqs l : prepared rpcReqs l →
  rq_ID <$> rpcReqs ≡ₚ (overridden_ids l ++ (rq_ID <$> rewrittenReqs l))%list.
Proof.
  induction 1 as [|req [req' [r|]] rs l [Hid Hr] _ IH]; csimpl in *; [done| |].
  - rewrite IH, (Hr r eq_refl). done.
  - rewrite IH, Hid. apply Permutation_middle.
Qed.

Lemma fill_in_order rpcReqs l res : prepared rpcReqs l → rs_ID <$> res = rq_ID <$> rewrittenReqs l →
  rs_ID <$> fill l res = rq_ID <$> rpcReqs.
Proof.
  intros Hp. revert res. induction Hp as [|req [req' [r|]] rs l [Hid Hr] _ IH]; intros res Hres; csimpl in *.
  - by destruct res.
  - f_equal; [by apply Hr|by apply IH].
  - destruct res as [|x res]; [done|]. csimpl in *. injection Hres as Hx Hres. f_equal; [congruence|by apply IH].
Qed.

(** C5: when the requests have distinct IDs and the responses of a successful
    call carry exactly these IDs, each response stands at the place of the
    request it answers, also where the consensus of the group answered itself. *)
Theorem group_forward_in_order bg consensus ctx rpcReqs isBatch (s s' : group_state LM W) resp reqs' :
  coherent bg consensus → NoDup (rq_ID <$> rpcReqs) →
  group_Forward bg consensus ctx rpcReqs isBatch s = Ret ((resp, reqs'), s') → bg_error resp = None →
  rs_ID <$> bg_RPCRes resp ≡ₚ rq_ID <$> rpcReqs → rs_ID <$> bg_RPCRes resp = rq_ID <$> rpcReqs.
Proof.
  intros Hmc Hnd HR He Hperm. destruct (decide (rpcReqs = [])) as [->|Hne]; [by injection HR as <- _ _|].
  apply (group_Forward_returns bg consensus ctx rpcReqs isBatch) in HR as (l & res & Hp & Hlen & Hs & Hfill); [|done..].
  rewrite Hfill in *. apply fill_in_order; [done|].
  destruct (decide (rewrittenReqs l = [])) as [E|Hrw]; [rewrite E in *; by destruct res|].
  apply sorted_for_order; [by apply Hs| |].
  - rewrite (prepared_ids _ _ Hp) in Hnd. by apply NoDup_app in Hnd as (_ & _ & ?).
  - rewrite fill_ids, (prepared_ids _ _ Hp) in Hperm by done. by apply Permutation_app_inv_l in Hperm.
Qed.

(** ** Failover *)

(** The backends that were tried and passed over, each on the requests as the
    ones before it left them. *)
Inductive passed_over (ctx : Ctx) (isBatch : bool) :
    list string → list RPCReq → group_state LM W → list RPCReq → group_state LM W → Prop :=
| passed_nil reqs s : passed_over ctx isBatch [] reqs s reqs s
| passed_cons be bes reqs s err reqs1 s1 reqs2 s2 :
    g_on be reqs (Forward ctx isBatch) s = Ret ((inl err, reqs1), s1) → fatal_error err = false →
    passed_over ctx isBatch bes reqs1 s1 reqs2 s2 → passed_over ctx isBatch (be :: bes) reqs s reqs2 s2.

(** C11: failover. A call to a list of backends passes over a prefix of them,
    each of which failed with an error that is not fatal; then it returns the
    responses of the next backend under its name, or that backend's fatal error;
    "no backends" is returned only when every one of them was passed over. *)
Theorem failover bg reqs backends ctx isBatch (s s' : group_state LM W) resp reqs' :
  reqs ≠ [] → ForwardRequestToBackendGroup bg reqs backends ctx isBatch s = Ret ((resp, reqs'), s') →
  ∃ pre rest reqs1 s1, backends = (pre ++ rest)%list ∧ passed_over ctx isBatch pre reqs s reqs1 s1 ∧
    match rest with
    | [] => resp = mk_bgres [] "" (Some (EVar ErrNoBackends))
    | be :: _ => ∃ x, g_on be reqs1 (Forward ctx isBatch) s1 = Ret ((x, reqs'), s') ∧
        match x with
        | inr res => resp = mk_bgres res (bg_Name bg +:+ "/" +:+ be) None
        | inl err => fatal_error err = true ∧ resp = mk_bgres [] "" (Some err)
        end
    end.
Proof.
  revert reqs s. induction backends as [|be bes IH]; intros reqs s Hne HR.
  { injection HR as <- <- <-. exists [], [], reqs, s. split_and!; [done|constructor|done]. }
  cbn [ForwardRequestToBackendGroup] in HR. destruct reqs as [|r reqs]; [done|].
  run_step HR t s1 Ht. destruct t as [x reqs1]. destruct x as [err|res]; cycle 1.
  { injection HR as <- <- <-. exists [], (be :: bes). do 2 eexists. split_and!; [done|constructor|]. by exists (inr res). }
  destruct (fatal_error err) eqn:Hf.
  { injection HR as <- <- <-. exists [], (be :: bes). do 2 eexists. split_and!; [done|constructor|]. by exists (inl err). }
  apply IH in HR as (pre & rest & reqs2 & s2 & -> & Hpre & Hrest).
  - exists (be :: pre), rest, reqs2, s2. split_and!; [done|by econstructor|done].
  - apply g_on_spec in Ht as (b & cs & _ & HF & -> & _). apply Forward_returns in HF as [Hids _].
    unfold same_ids in Hids. simpl in Hids. by destruct (st_reqs cs).
Qed.
End group_forward.

(** ** Multicall *)

Section multicall_spec.
Context {LM : Type} `{LinkedHashMap LM} `{Geth} {W : Type} `{Env W} `{Order W} `{!OrderSpec W}.

(** The multicall strategy asks every backend of the group, and returns the
    response of the first one, in the order of arrival, that did not fail (with
    the error check on, that is not an RPC error either); when all failed it
    returns the last failure. *)
Theorem multicall_first_success bg reqs ctx (s s' : group_state LM W) resp reqs' : reqs ≠ [] → Backends bg ≠ [] →
  ExecuteMulticall bg reqs ctx s = Ret ((resp, reqs'), s') →
  ∃ order ch, order ≡ₚ Backends bg ∧ Forall2 (multicall_answer bg reqs) order ch ∧
    Some resp = head (filter (λ r, accepted (multicallRPCErrorCheck bg) r = true) ch) ∪ last ch.
Proof.
  intros Hne Hbg (order & ch & -> & Hch & ->)%ExecuteMulticall_spec; [|done].
  exists (permute (Backends bg) (g_world s)).1, ch. split_and!; [apply permute_perm|done|].
  destruct (head _), (last ch) eqn:El; try done. apply last_None in El as ->.
  apply Forall2_nil_inv_r in Hch. pose proof (permute_perm (Backends bg) (g_world s)) as Hp.
  rewrite Hch in Hp. by apply Permutation_nil_l in Hp.
Qed.
End multicall_spec.

(** ** The order of the backends *)

Section ordered.
Context {LM : Type} `{LinkedHashMap LM} `{Geth} {W : Type} `{Env W} `{Order W} `{!OrderSpec W}.
Context `{WeightedShuffle W} `{!WeightedShuffleSpec W} {T : Type} `{ConsensusTracker T}.

(** What the measures of [be], as the request finds them, say of its health. *)
Definition reports_healthy (s : group_state LM W) (be : string) (ok : bool) : Prop :=
  ∃ b w cs, g_store s !! be = Some b ∧ IsHealthy (mk_call_state b w []) = Ret (ok, cs).

(** The same for its degradation, read after its health. *)
Definition reports_degraded (s : group_state LM W) (be : string) (d : bool) : Prop :=
  ∃ b w w' cs cs' ok, g_store s !! be = Some b ∧ IsHealthy (mk_call_state b w []) = Ret (ok, cs) ∧
    IsDegraded (mk_call_state (st_be cs) w' []) = Ret (d, cs').

Lemma g_on_other {A} be reqs (m : C LM W A) (s s' : group_state LM W) x be' :
  g_on be reqs m s = Ret (x, s') → be' ≠ be → g_store s' !! be' = g_store s !! be'.
Proof.
  destruct x as [a reqs']. intros (b & cs & _ & _ & _ & ->)%g_on_spec Hne. simpl. by apply lookup_insert_ne.
Qed.

Lemma reports_other (s s' : group_state LM W) be d :
  g_store s' !! be = g_store s !! be →
  (reports_healthy s' be d → reports_healthy s be d) ∧ (reports_degraded s' be d → reports_degraded s be d).
Proof. intros E. unfold reports_healthy, reports_degraded. by rewrite E. Qed.

Lemma split_by_spec l (s s' : group_state LM W) yes no : NoDup l →
  split_by IsHealthy l s = Ret ((yes, no), s') →
  (yes ++ no)%list ≡ₚ l ∧ (∀ be, be ∈ yes → reports_healthy s be true) ∧ (∀ be, be ∈ no → reports_healthy s be false).
Proof.
  intros Hnd. revert s s' yes no. induction l as [|be l IH]; intros s s' yes no HR.
  { injection HR as <- <- <-. split_and!; [done|..]; intros ? []%not_elem_of_nil. }
  apply NoDup_cons in Hnd as [Hbe Hnd]. cbn [split_by] in HR. run_step HR t s1 Ht. pose proof Ht as Hoth.
  destruct t as [ok rq]. apply g_on_spec in Ht as (b & cs & Hb & Hh & _ & _).
  run_step HR t s2 Ht2. destruct t as [y n]. apply IH in Ht2 as (Hp & Hy & Hn); [|done].
  assert (Hself : reports_healthy s be ok) by (by exists b, (g_world s), cs).
  assert (Hback : ∀ be' d, be' ∈ l → reports_healthy s1 be' d → reports_healthy s be' d).
  { intros be' d Hin. apply reports_other. eapply g_on_other; [exact Hoth|]. by intros ->. }
  assert (Hin : ∀ be', be' ∈ y ∨ be' ∈ n → be' ∈ l) by (intros be'; rewrite <-Hp, elem_of_app; done).
  destruct ok; injection HR as <- <- <-; split_and!.
  - by rewrite <-Hp.
  - intros be' [->|Hi]%elem_of_cons; eauto.
  - eauto.
  - by rewrite <-Permutation_middle, Hp.
  - eauto.
  - intros be' [->|Hi]%elem_of_cons; eauto.
Qed.

Lemma split_consensus_spec cg (s s' : group_state LM W) h d : NoDup cg →
  split_consensus cg s = Ret ((h, d), s') →
  (h ++ d)%list ⊆+ cg ∧ (∀ be, be ∈ (h ++ d)%list → reports_healthy s be true) ∧
  (∀ be, be ∈ h → reports_degraded s be false) ∧ (∀ be, be ∈ d → reports_degraded s be true).
Proof.
  intros Hnd. revert s s' h d. induction cg as [|be cg IH]; intros s s' h d HR.
  { injection HR as <- <- <-. split_and!; [done|..]; intros ? []%not_elem_of_nil. }
  apply NoDup_cons in Hnd as [Hbe Hnd]. cbn [split_consensus] in HR. run_step HR t s1 Ht. pose proof Ht as Hoth.
  destruct t as [ok rq]. apply g_on_spec in Ht as (b & cs & Hb & Hh & _ & Hs1).
  assert (Hself : reports_healthy s be ok) by (by exists b, (g_world s), cs).
  assert (Hsub : ∀ s2 h' d', (∀ be', be' ≠ be → g_store s2 !! be' = g_store s !! be') →
    split_consensus cg s2 = Ret ((h', d'), s') → (h' ++ d')%list ⊆+ cg ∧
    (∀ be, be ∈ (h' ++ d')%list → reports_healthy s be true) ∧
    (∀ be, be ∈ h' → reports_degraded s be false) ∧ (∀ be, be ∈ d' → reports_degraded s be true)).
  { intros s2 h' d' Hst (Hp & Ha & Hb' & Hc)%IH; [|done].
    assert (Hin : ∀ be', be' ∈ (h' ++ d')%list → g_store s2 !! be' = g_store s !! be').
    { intros be' Hi. apply Hst. intros ->. apply Hbe. by eapply elem_of_submseteq. }
    split_and!; [done|..]; intros be' Hi; (eapply reports_other; [apply Hin; set_solver|eauto]). }
  destruct ok; simpl in HR; cycle 1.
  { apply Hsub in HR as (Hp & ? & ? & ?); [|intros; by eapply g_on_other]. split_and!; eauto. by apply submseteq_cons. }
  run_step HR t s2 Ht2. pose proof Ht2 as Hoth2. destruct t as [dg rq2].
  apply g_on_spec in Ht2 as (b2 & cs2 & Hb2 & Hd & _ & _). rewrite Hs1 in Hb2. simpl in Hb2.
  rewrite lookup_insert_eq in Hb2. injection Hb2 as <-.
  assert (Hdeg : reports_degraded s be dg) by (by exists b, (g_world s), (g_world s1), cs, cs2, true).
  run_step HR t s3 Ht3. destruct t as [h1 d1]. assert (s3 = s') as -> by (by injection HR).
  apply Hsub in Ht3 as (Hp & Ha & Hb' & Hc); [|intros; erewrite g_on_other by done; by eapply g_on_other].
  destruct dg; injection HR as <- <-; split_and!.
  - rewrite <-Permutation_middle. by apply submseteq_skip.
  - intros be' Hi. rewrite <-Permutation_middle in Hi. apply elem_of_cons in Hi as [->|Hi]; eauto.
  - eauto.
  - intros be' [->|Hi]%elem_of_cons; eauto.
  - by apply submseteq_skip.
  - intros be' [->|Hi]%elem_of_cons; eauto.
  - intros be' [->|Hi]%elem_of_cons; eauto.
  - eauto.
Qed.

Lemma m_mapM_weight l (s s' : group_state LM W) ws : m_mapM backend_weight l s = Ret (ws, s') → ws.*1 = l.
Proof.
  revert s ws. induction l as [|be l IH]; intros s ws HR; [by injection HR as <- _|]. cbn [m_mapM] in HR.
  run_step HR y s1 Hy. run_step HR ys s2 Hys. injection HR as <- <-. csimpl. f_equal; [|by eapply IH].
  unfold backend_weight in Hy. run_step Hy t s3 Ht. destruct t. by injection Hy as <- _.
Qed.

Lemma weightedShuffle_perm l (s s' : group_state LM W) l' : weightedShuffle l s = Ret (l', s') → l' ≡ₚ l.
Proof.
  unfold weightedShuffle. intros HR. run_step HR ws s1 Hws. apply m_mapM_weight in Hws. unfold in_world in HR.
  pose proof (weighted_shuffle_perm ws (g_world s1)) as Hp. destruct (weighted_shuffle ws (g_world s1)).
  injection HR as <- _. by rewrite <-Hws.
Qed.

Lemma shuffle_perm (l : list string) (s s' : group_state LM W) l' : in_world (permute l) s = Ret (l', s') → l' ≡ₚ l.
Proof.
  unfold in_world. pose proof (permute_perm l (g_world s)) as Hp. destruct (permute l (g_world s)).
  by intros [= <- _].
Qed.

(** The order in which a group tries its backends. Without a consensus it
    is a permutation of the group in which those that report healthy come
    first. With a consensus it holds only members of the consensus group that
    report healthy, each at most once, the degraded ones last. *)
Theorem backends_in_order bg (consensus : option (ConsensusPoller T)) (s s' : group_state LM W) l :
  NoDup (Backends bg) → (∀ c, consensus = Some c → NoDup (GetConsensusGroup c)) →
  orderedBackendsForRequest bg consensus s = Ret (l, s') →
  ∃ front back, l = (front ++ back)%list ∧
    match consensus with
    | None => l ≡ₚ Backends bg ∧ (∀ be, be ∈ front → reports_healthy s be true) ∧
        (∀ be, be ∈ back → reports_healthy s be false)
    | Some c => l ⊆+ GetConsensusGroup c ∧ (∀ be, be ∈ l → reports_healthy s be true) ∧
        (∀ be, be ∈ front → reports_degraded s be false) ∧ (∀ be, be ∈ back → reports_degraded s be true)
    end.
Proof.
  intros Hnd Hndc HR. destruct consensus as [c|]; cbn [orderedBackendsForRequest] in HR.
  - specialize (Hndc c eq_refl). unfold loadBalancedConsensusGroup in HR. run_step HR t s1 Ht. destruct t as [h d].
    apply split_consensus_spec in Ht as (Hsub & Hh & Hf & Hb); [|done].
    run_step HR t s2 Hx. clear Hx. run_step HR h1 s3 Hh1%shuffle_perm. run_step HR d1 s4 Hd1%shuffle_perm.
    run_step HR h2 s5 Hh2. injection HR as <- <-.
    assert (Hp : h2 ≡ₚ h).
    { rewrite <-Hh1. destruct (WeightedRouting bg); [by eapply weightedShuffle_perm|by injection Hh2 as ->]. }
    exists h2, d1. split; [done|]. rewrite Hp, Hd1. split_and!; [done|..]; intros be; rewrite ?Hp, ?Hd1; auto.
  - run_step HR t s1 Ht. destruct t as [h u]. apply split_by_spec in Ht as (Hp & Hh & Hu); [|done].
    destruct (WeightedRouting bg).
    + run_step HR h1 s2 Hh1%weightedShuffle_perm. run_step HR u1 s3 Hu1%weightedShuffle_perm. injection HR as <- <-.
      exists h1, u1. split; [done|]. rewrite Hh1, Hu1. split_and!; [done|..]; intros be; rewrite ?Hh1, ?Hu1; auto.
    + injection HR as <- <-. exists h, u. by split_and!.
Qed.
End ordered.

(** ** Witnesses *)

Module group_runs.

#[local] Instance script_order : Order script := λ _ l w, (l, w).
#[local] Instance script_order_spec : OrderSpec script.
Proof. intros A l w. reflexivity. Qed.
#[local] Instance script_weighted : WeightedShuffle script := λ l w, (l.*1, w).
#[local] Instance script_weighted_spec : WeightedShuffleSpec script.
Proof. intros l w. reflexivity. Qed.

Definition node (name : string) : Backend (list (Z * bucket)) := NewBackend name ("http://" +:+ name) "" [].
Definition a_b : BackendGroup := mk_group "main" ["a"; "b"] true ∅ ConsensusAwareRoutingStrategy false.
Definition poller : ConsensusPoller InMemoryConsensusTracker :=
  mk_poller a_b ∅ ["a"; "b"] (mk_cts 100 90 80) [] [] 3 (5 * Minute) (30 * Second) 8 0 Second.
Definition nodes (next : list (error + http_response)) : group_state (list (Z * bucket)) script :=
  mk_gs (list_to_map [("a", node "a"); ("b", node "b")]) (mk_script Second next).

Definition ctx : Ctx := mk_ctx "10.0.0.1" "".
Definition batch : list RPCReq :=
  [mk_RPCReq "2.0" "eth_blockNumber" "[]" "1"; mk_RPCReq "2.0" "eth_getBalance" (jtext "['0xab','latest']") "2";
   mk_RPCReq "2.0" "eth_chainId" "[]" "3"].

Example override_positions_witness :
  let l := [(mk_RPCReq "2.0" "eth_chainId" "[]" "1", None);
            (mk_RPCReq "2.0" "eth_blockNumber" "[]" "2", Some (mk_RPCRes "2.0" (AUint64 7) None "2"))] in
  ∃ out, OverrideResponses [mk_RPCRes "2.0" ANil None "1"] (overriddenResponses 0 l) = Ret out ∧ length out = 2%nat.
Proof.
  intros l. destruct (override_positions l [mk_RPCRes "2.0" ANil None "1"] eq_refl) as (out & HR & Hlen & _).
  exists out. split; [exact HR|exact Hlen].
Defined.

(** The backend answers the two requests it gets in the other order; the first
    request is answered by the consensus. *)
Definition answered : group_state (list (Z * bucket)) script :=
  nodes [answer 200 (jtext "[{'id':3,'result':'0xa'},{'id':2,'result':'0x5'}]")].

Lemma answered_run : ∃ resp reqs' s', group_Forward a_b (Some poller) ctx batch true answered = Ret ((resp, reqs'), s') ∧
  bg_error resp = None ∧ rs_ID <$> bg_RPCRes resp ≡ₚ ["1"; "2"; "3"].
Proof.
  destruct (returned_fst (group_Forward a_b (Some poller) ctx batch true answered)
    (λ x, (bg_error x.1.1, rs_ID <$> bg_RPCRes x.1.1)) (None, ["1"; "2"; "3"])) as ([resp reqs'] & s' & HR & Hx);
    [vm_compute; reflexivity|]. simpl in Hx. injection Hx as He Hids.
  exists resp, reqs', s'. split; [exact HR|]. split; [exact He|]. rewrite Hids. reflexivity.
Qed.

Example group_forward_answers_all_witness :
  ∃ resp reqs' s', group_Forward a_b (Some poller) ctx batch true answered = Ret ((resp, reqs'), s') ∧
    length (bg_RPCRes resp) = 3%nat.
Proof.
  destruct answered_run as (resp & reqs' & s' & HR & He & _). exists resp, reqs', s'. split; [exact HR|].
  apply (group_forward_answers_all a_b (Some poller) ctx batch true answered s' resp reqs'); [discriminate|exact HR|exact He].
Defined.

Example group_forward_in_order_witness :
  ∃ resp reqs' s', group_Forward a_b (Some poller) ctx batch true answered = Ret ((resp, reqs'), s') ∧
    rs_ID <$> bg_RPCRes resp = ["1"; "2"; "3"].
Proof.
  destruct answered_run as (resp & reqs' & s' & HR & He & Hp). exists resp, reqs', s'. split; [exact HR|].
  apply (group_forward_in_order a_b (Some poller) ctx batch true answered s' resp reqs');
    [discriminate| |exact HR|exact He|exact Hp].
  apply (bool_decide_unpack _). vm_compute. exact I.
Defined.

(** Backend "a" is down, "b" answers. *)
Example failover_witness :
  let s := nodes [inl (ENew "connection refused"); answer 200 (jtext "{'id':3,'result':'0xa'}")] in
  let reqs := [mk_RPCReq "2.0" "eth_chainId" "[]" "3"] in
  ∃ resp reqs' s' pre rest reqs1 s1,
    ForwardRequestToBackendGroup a_b reqs ["a"; "b"] ctx false s = Ret ((resp, reqs'), s') ∧
    ServedBy resp = "main/b" ∧ ["a"; "b"] = (pre ++ rest)%list ∧ passed_over ctx false pre reqs s reqs1 s1.
Proof.
  intros s reqs.
  destruct (returned_fst (ForwardRequestToBackendGroup a_b reqs ["a"; "b"] ctx false s)
    (λ x, ServedBy x.1.1) "main/b") as ([resp reqs'] & s' & HR & Hx); [vm_compute; reflexivity|].
  destruct (failover a_b reqs ["a"; "b"] ctx false s s' resp reqs') as (pre & rest & reqs1 & s1 & Hl & Hp & _);
    [discriminate|exact HR|].
  exists resp, reqs', s', pre, rest, reqs1, s1. split; [exact HR|]. split; [exact Hx|]. split; [exact Hl|exact Hp].
Defined.

Example multicall_first_success_witness :
  let s := nodes [inl (ENew "connection refused"); answer 200 (jtext "{'id':3,'result':'0xa'}")] in
  let reqs := [mk_RPCReq "2.0" "eth_sendRawTransaction" "[]" "3"] in
  ∃ resp reqs' s' order ch, ExecuteMulticall a_b reqs ctx s = Ret ((resp, reqs'), s') ∧
    ServedBy resp = "main/b" ∧ order ≡ₚ Backends a_b ∧ Forall2 (multicall_answer a_b reqs) order ch.
Proof.
  intros s reqs.
  destruct (returned_fst (ExecuteMulticall a_b reqs ctx s) (λ x, ServedBy x.1.1) "main/b") as ([resp reqs'] & s' & HR & Hx);
    [vm_compute; reflexivity|].
  destruct (multicall_first_success a_b reqs ctx s s' resp reqs') as (order & ch & Hp & Hch & _);
    [discriminate|discriminate|exact HR|].
  exists resp, reqs', s', order, ch. split; [exact HR|]. split; [exact Hx|]. split; [exact Hp|exact Hch].
Defined.

Example backends_in_order_witness :
  ∃ l s', orderedBackendsForRequest a_b (Some poller) (nodes []) = Ret (l, s') ∧ l ⊆+ ["a"; "b"].
Proof.
  destruct (returned_fst (orderedBackendsForRequest a_b (Some poller) (nodes [])) (λ _, ()) ()) as (l & s' & HR & _);
    [vm_compute; reflexivity|]. exists l, s'. split; [exact HR|].
  destruct (backends_in_order a_b (Some poller) (nodes []) s' l) as (front & back & _ & Hsub & _); [| |exact HR|exact Hsub].
  - apply (bool_decide_unpack _). vm_compute. exact I.
  - intros c [= <-]. apply (bool_decide_unpack _). vm_compute. exact I.
Defined.

End group_runs.
