(* ===== verification/Cache.v ===== *)
(** cache.go and methods.go: the caches of proxyd (memory, Redis, fallback,
    compression) behind one interface, and the cache of RPC results over them. *)
From stdpp Require Import base numbers list gmap strings.
From S2P Require Import Prelude Json Geth Rpc Rewriter Backend.

Local Open Scope string_scope.
Local Open Scope Z_scope.
#[local] Arguments String.append : simpl nomatch.

(** ** The interface *)

(** [Get] gives "" for a key that is not there. *)
Class Cache (C : Type) := {
  Get : string → C → (string * option error) * C;
  Put : string → string → C → option error * C;
}.

(** What the clients of a cache rely on: it gives back only what was put. A
    cache may lose values, and may give an old value of a key. *)
Class CacheSpec (C : Type) `{Cache C} := {
  holds : C → string → string → Prop;
  Get_sound k c v c' : Get k c = ((v, None), c') → v = "" ∨ holds c k v;
  Get_keeps k c r c' k' v' : Get k c = (r, c') → holds c' k' v' → holds c k' v';
  Put_adds k v c e c' k' v' : Put k v c = (e, c') → holds c' k' v' → holds c k' v' ∨ (k' = k ∧ v' = v);
}.

(** A cache that has what was just put. *)
Class FreshCache (C : Type) `{Cache C} :=
  Get_after_Put k v c c' : Put k v c = (None, c') → ∃ c'', Get k c' = ((v, None), c'').

(** ** In memory, over an LRU (golang-lru) *)

Class LRU (L : Type) := {
  lru_New : nat → L;
  lru_Get : string → L → option string * L;
  lru_Add : string → string → L → L;
}.
Class LRUSpec (L : Type) `{LRU L} := {
  lru_entry : L → string → option string;
  lru_New_empty n k : lru_entry (lru_New n) k = None;
  lru_Get_entry k l : (lru_Get k l).1 = lru_entry l k;
  lru_Get_keeps k l k' : lru_entry (lru_Get k l).2 k' = lru_entry l k';
  lru_Add_entry k v l : lru_entry (lru_Add k v l) k = Some v;
  lru_Add_other k v l k' w : k' ≠ k → lru_entry (lru_Add k v l) k' = Some w → lru_entry l k' = Some w;
}.

Definition memoryCacheLimit : nat := 4096.

Section memory.
Context {L : Type} `{LRU L}.

(** Type [cache]. *)
Record memory_cache := mk_memory_cache { lru : L }.

Definition newMemoryCache : memory_cache := mk_memory_cache (lru_New memoryCacheLimit).

Definition memory_Get (key : string) (c : memory_cache) : (string * option error) * memory_cache :=
  let '(val, l) := lru_Get key (lru c) in ((default "" val, None), mk_memory_cache l).
Definition memory_Put (key value : string) (c : memory_cache) : option error * memory_cache :=
  (None, mk_memory_cache (lru_Add key value (lru c))).

#[export] Instance memory_ops : Cache memory_cache := {| Get := memory_Get; Put := memory_Put |}.

#[export] Instance memory_spec `{!LRUSpec L} : CacheSpec memory_cache.
Proof.
  refine {| holds c k v := lru_entry (lru c) k = Some v |}; unfold Get, Put; simpl.
  - intros k [l] v c'. unfold memory_Get. simpl. pose proof (lru_Get_entry k l) as Hk.
    destruct (lru_Get k l) as [o l']. intros [= <- _]. simpl in Hk. subst o. destruct (lru_entry l k); auto.
  - intros k [l] r c' k' v'. unfold memory_Get. simpl. pose proof (lru_Get_keeps k l k') as Hk.
    destruct (lru_Get k l) as [o l']. intros [= _ <-]. simpl in *. by rewrite Hk.
  - intros k v [l] e c' k' v' [= _ <-]. simpl. destruct (decide (k' = k)) as [->|Hne].
    + rewrite lru_Add_entry. intros [= <-]. auto.
    + intros Hk. left. by eapply lru_Add_other.
Defined.

#[export] Instance memory_fresh `{!LRUSpec L} : FreshCache memory_cache.
Proof.
  intros k v [l] c' [= <-]. unfold Get. simpl. unfold memory_Get. simpl.
  pose proof (lru_Get_entry k (lru_Add k v l)) as Hk. rewrite lru_Add_entry in Hk.
  destruct (lru_Get k (lru_Add k v l)) as [o l']. simpl in Hk. subst o. eauto.
Qed.
End memory.
Arguments memory_cache L : clear implicits.

(** ** Primary with a fallback *)

Section fallback.
Context {P S : Type} `{Cache P} `{Cache S}.

Record fallbackCache := mk_fallback { primaryCache : P; secondaryCache : S }.
Definition newFallbackCache (p : P) (s : S) : fallbackCache := mk_fallback p s.

Definition fallback_Get (key : string) (c : fallbackCache) : (string * option error) * fallbackCache :=
  let '((val, err), p) := Get key (primaryCache c) in
  match err with
  | Some _ => let '(r, s) := Get key (secondaryCache c) in (r, mk_fallback p s)
  | None => ((val, None), mk_fallback p (secondaryCache c))
  end.
Definition fallback_Put (key value : string) (c : fallbackCache) : option error * fallbackCache :=
  let '(err, p) := Put key value (primaryCache c) in
  match err with
  | Some _ => let '(r, s) := Put key value (secondaryCache c) in (r, mk_fallback p s)
  | None => (None, mk_fallback p (secondaryCache c))
  end.

#[export] Instance fallback_ops : Cache fallbackCache := {| Get := fallback_Get; Put := fallback_Put |}.

#[export] Instance fallback_spec `{!CacheSpec P} `{!CacheSpec S} : CacheSpec fallbackCache.
Proof.
  refine {| holds c k v := holds (primaryCache c) k v ∨ holds (secondaryCache c) k v |}.
  - intros k [p s] v c'. unfold Get at 1. simpl. unfold fallback_Get. simpl.
    destruct (Get k p) as [[v0 [e|]] p'] eqn:Ep.
    + destruct (Get k s) as [[v1 e1] s'] eqn:Es. intros [= -> -> _]. apply Get_sound in Es as [->|Es]; auto.
    + intros [= -> _]. apply Get_sound in Ep as [->|Ep]; auto.
  - intros k [p s] r c' k' v'. unfold Get at 1. simpl. unfold fallback_Get. simpl.
    destruct (Get k p) as [[v0 [e|]] p'] eqn:Ep.
    + destruct (Get k s) as [r1 s'] eqn:Es. intros [= _ <-] [Hh|Hh]; [left|right]; by eapply Get_keeps.
    + intros [= _ <-] [Hh|Hh]; [left; by eapply Get_keeps|by right].
  - intros k v [p s] e c' k' v'. unfold Put at 1. simpl. unfold fallback_Put. simpl.
    destruct (Put k v p) as [[e0|] p'] eqn:Ep.
    + destruct (Put k v s) as [r1 s'] eqn:Es.
      intros [= _ <-] [Hh|Hh]; [eapply Put_adds in Hh; [|exact Ep]|eapply Put_adds in Hh; [|exact Es]]; simpl; tauto.
    + intros [= _ <-] [Hh|Hh]; [eapply Put_adds in Hh; [|exact Ep]|]; simpl; tauto.
Defined.
End fallback.
Arguments fallbackCache P S : clear implicits.

(** ** Redis *)

(** Commands through a client [H] of a Redis deployment [R], the primary and its
    replicas: a value read somewhere was set before. *)
Class RedisKV (H R : Type) := {
  kv_Get : H → string → R → error + option string;
  kv_SetEx : H → string → string → Z → R → option error * R;
}.
Class RedisKVSpec (H R : Type) `{RedisKV H R} := {
  kv_holds : R → string → string → Prop;
  kv_Get_sound h k r v : kv_Get h k r = inr (Some v) → kv_holds r k v;
  kv_SetEx_adds h k v ttl r e r' k' v' : kv_SetEx h k v ttl r = (e, r') →
    kv_holds r' k' v' → kv_holds r k' v' ∨ (k' = k ∧ v' = v);
}.

Section redis.
Context {H R : Type} `{RedisKV H R}.

(** With the state of the deployment the clients are connected to. *)
Record redisCache := mk_redisCache {
  redisClient : H; redisReadClient : H; prefix : string; ttl : Z; deployment : R
}.
Definition newRedisCache (redisClient redisReadClient : H) (prefix : string) (ttl : Z) (r : R) : redisCache :=
  mk_redisCache redisClient redisReadClient prefix ttl r.

Definition namespaced (c : redisCache) (key : string) : string :=
  if String.eqb (prefix c) "" then key else prefix c +:+ ":" +:+ key.

Definition redis_cache_Get (key : string) (c : redisCache) : (string * option error) * redisCache :=
  match kv_Get (redisReadClient c) (namespaced c key) (deployment c) with
  | inr None => (("", None), c)
  | inl err => (("", Some err), c)
  | inr (Some val) => ((val, None), c)
  end.
Definition redis_cache_Put (key value : string) (c : redisCache) : option error * redisCache :=
  let '(err, r) := kv_SetEx (redisClient c) (namespaced c key) value (ttl c) (deployment c) in
  (err, mk_redisCache (redisClient c) (redisReadClient c) (prefix c) (ttl c) r).

#[export] Instance redis_cache_ops : Cache redisCache := {| Get := redis_cache_Get; Put := redis_cache_Put |}.

Lemma namespaced_inj c k k' : namespaced c k = namespaced c k' → k = k'.
Proof. unfold namespaced. destruct (String.eqb (prefix c) ""); [done|]. intros Hk%string_app_inj%string_app_inj. exact Hk. Qed.

#[export] Instance redis_cache_spec `{!RedisKVSpec H R} : CacheSpec redisCache.
Proof.
  refine {| holds c k v := kv_holds (deployment c) (namespaced c k) v |}; unfold Get, Put; simpl.
  - intros k c v c'. unfold redis_cache_Get. destruct (kv_Get _ _ _) as [e|[v0|]] eqn:E; intros [= <- _]; auto.
    right. by eapply kv_Get_sound.
  - intros k c r c' k' v'. unfold redis_cache_Get. by destruct (kv_Get _ _ _) as [e|[v0|]]; intros [= _ <-].
  - intros k v c e c' k' v'. unfold redis_cache_Put. destruct (kv_SetEx _ _ _ _ _) as [e0 r] eqn:E.
    intros [= _ <-]. simpl. intros Hh. eapply kv_SetEx_adds in Hh as [Hh|[Hk ->]]; [by left|right|exact E].
    split; [|done]. apply (namespaced_inj c). exact Hk.
Defined.
End redis.
Arguments redisCache H R : clear implicits.

(** ** Compression (snappy) *)

Class Snappy := {
  snappy_Encode : string → string;
  snappy_Decode : string → error + string;
}.
Class SnappySpec `{Snappy} := {
  snappy_roundtrip s : snappy_Decode (snappy_Encode s) = inr s;
  snappy_Encode_nonempty s : snappy_Encode s ≠ "";
}.

Section compression.
Context `{Snappy} {C : Type} `{Cache C}.

Record cacheWithCompression := mk_compressed { inner : C }.
Definition newCacheWithCompression (c : C) : cacheWithCompression := mk_compressed c.

Definition compressed_Get (key : string) (c : cacheWithCompression) : (string * option error) * cacheWithCompression :=
  let '((encodedVal, err), i) := Get key (inner c) in
  let c := mk_compressed i in
  match err with
  | Some e => (("", Some e), c)
  | None =>
      if String.eqb encodedVal "" then (("", None), c)
      else match snappy_Decode encodedVal with
        | inl e => (("", Some e), c)
        | inr val => ((val, None), c)
        end
  end.
Definition compressed_Put (key value : string) (c : cacheWithCompression) : option error * cacheWithCompression :=
  let '(err, i) := Put key (snappy_Encode value) (inner c) in (err, mk_compressed i).

#[export] Instance compressed_ops : Cache cacheWithCompression := {| Get := compressed_Get; Put := compressed_Put |}.

#[export] Instance compressed_spec `{!SnappySpec} `{!CacheSpec C} : CacheSpec cacheWithCompression.
Proof.
  refine {| holds c k v := ∃ enc, holds (inner c) k enc ∧ snappy_Decode enc = inr v |}.
  - intros k [i] v c'. unfold Get at 1. simpl. unfold compressed_Get. simpl.
    destruct (Get k i) as [[enc [e|]] i'] eqn:E; [done|].
    destruct (String.eqb_spec enc ""); [intros [= <- _]; by left|].
    destruct (snappy_Decode enc) eqn:Ed; [done|]. intros [= <- _]. apply Get_sound in E as [->|E]; [done|]. eauto.
  - intros k [i] r c' k' v'. unfold Get at 1. simpl. unfold compressed_Get. simpl.
    destruct (Get k i) as [[enc err] i'] eqn:E. intros HR.
    assert (inner c' = i') by (repeat (case_match; simplify_eq/=; try done)). intros (enc' & Hh & Hd).
    exists enc'. split; [|done]. eapply Get_keeps; [exact E|]. congruence.
  - intros k v [i] e c' k' v'. unfold Put at 1. simpl. unfold compressed_Put. simpl.
    destruct (Put k (snappy_Encode v) i) as [e0 i'] eqn:E. intros [= _ <-] (enc & Hh & Hd). simpl in *.
    destruct (Put_adds _ _ _ _ _ _ _ E Hh) as [Hi|[-> ->]]; [eauto|].
    rewrite snappy_roundtrip in Hd. injection Hd as <-. auto.
Defined.

#[export] Instance compressed_fresh `{!SnappySpec} `{!FreshCache C} : FreshCache cacheWithCompression.
Proof.
  intros k v [i] c'. unfold Put at 1. simpl. unfold compressed_Put. simpl.
  destruct (Put k (snappy_Encode v) i) as [e0 i'] eqn:E. intros [= -> <-].
  apply Get_after_Put in E as [i'' E]. exists (mk_compressed i'').
  change (compressed_Get k (mk_compressed i') = ((v, None), mk_compressed i'')). unfold compressed_Get.
  cbn [inner]. rewrite E. destruct (String.eqb_spec (snappy_Encode v) "") as [Hv|_]; [by apply snappy_Encode_nonempty in Hv|].
  by rewrite snappy_roundtrip.
Qed.
End compression.
Arguments cacheWithCompression C : clear implicits.

(** ** Cached results of RPC methods (methods.go) *)

(** The hexadecimal SHA-256 of a text. *)
Class Sha256 := sha256_hex : string → string.
Class Sha256Spec `{Sha256} := sha256_hex_digits s : has_colon (sha256_hex s) = false.

Section rpc_cache.
Context `{Geth} `{Sha256} {C : Type} `{Cache C}.

(** A handler, with its optional filters; the cache it shares is the state of
    its operations, [None] for a nil cache. *)
Record StaticMethodHandler := mk_handler {
  filterGet : option (RPCReq → bool); filterPut : option (RPCReq → RPCRes → bool)
}.

Definition handler_key (req : RPCReq) : string := "cache" +:+ ":" +:+ rq_Method req +:+ ":" +:+ sha256_hex (rq_Params req).

Definition passes {A} (f : option (A → bool)) (x : A) : bool := match f with None => true | Some f => f x end.

Definition GetRPCMethod (e : StaticMethodHandler) (req : RPCReq) (cache : option C) :
    (error + option RPCRes) * option C :=
  match cache with
  | None => (inr None, None)
  | Some c =>
      if negb (passes (filterGet e) req) then (inr None, cache)
      else
        let '((val, err), c) := Get (handler_key req) c in
        match err with
        | Some err => (inl err, Some c)
        | None =>
            if String.eqb val "" then (inr None, Some c)
            else match json_parse val with
              | None => (inl (ENew "invalid character"), Some c)
              | Some v => (inr (Some (mk_RPCRes (rq_JSONRPC req) (dec_any v) None (rq_ID req))), Some c)
              end
        end
  end.

Definition PutRPCMethod (e : StaticMethodHandler) (req : RPCReq) (res : RPCRes) (cache : option C) :
    option error * option C :=
  match cache with
  | None => (None, None)
  | Some c =>
      if negb (passes (filterGet e) req) then (None, cache)
      else if negb (passes ((λ f, f req) <$> filterPut e) res) then (None, cache)
      else let '(err, c) := Put (handler_key req) (marshal_any (rs_Result res)) c in (err, Some c)
  end.

(** ** [rpcCache] *)

Definition staticHandler : StaticMethodHandler := mk_handler None None.

(** debug_getRawReceipts is cached for a block hash, when there are receipts. *)
Definition for_block_hash (req : RPCReq) : bool :=
  match unmarshal_bnhs (rq_Params req) with
  | Some [p] => match bnh_BlockHash p with Some _ => true | None => false end
  | _ => false
  end.
Definition has_receipts (req : RPCReq) (res : RPCRes) : bool :=
  match rs_Result res with AJson (JArr (_ :: _)) => true | _ => false end.
Definition debugGetRawReceiptsHandler : StaticMethodHandler :=
  mk_handler (Some for_block_hash) (Some has_receipts).

Definition static_methods : list string :=
  ["eth_chainId"; "net_version"; "eth_getBlockTransactionCountByHash"; "eth_getUncleCountByBlockHash";
   "eth_getBlockByHash"; "eth_getTransactionByBlockHashAndIndex"; "eth_getUncleByBlockHashAndIndex"].

Definition handlers (method : string) : option StaticMethodHandler :=
  if method_in method static_methods then Some staticHandler
  else if String.eqb method "debug_getRawReceipts" then Some debugGetRawReceiptsHandler
  else None.

Record rpcCache := mk_rpcCache { rc_cache : option C }.
Definition newRPCCache (c : C) : rpcCache := mk_rpcCache (Some c).

Definition GetRPC (req : RPCReq) (c : rpcCache) : (error + option RPCRes) * rpcCache :=
  match handlers (rq_Method req) with
  | None => (inr None, c)
  | Some handler => let '(r, c) := GetRPCMethod handler req (rc_cache c) in (r, mk_rpcCache c)
  end.

Definition PutRPC (req : RPCReq) (res : RPCRes) (c : rpcCache) : option error * rpcCache :=
  match handlers (rq_Method req) with
  | None => (None, c)
  | Some handler => let '(r, c) := PutRPCMethod handler req res (rc_cache c) in (r, mk_rpcCache c)
  end.
End rpc_cache.
Arguments rpcCache C : clear implicits.

(** The cache of a server: what it needs of one. *)
Class RPCCache (C : Type) := {
  cache_GetRPC : RPCReq → C → (error + option RPCRes) * C;
  cache_PutRPC : RPCReq → RPCRes → C → option error * C;
}.
#[export] Instance rpcCache_ops `{Geth} `{Sha256} {C} `{Cache C} : RPCCache (rpcCache C) :=
  {| cache_GetRPC := GetRPC; cache_PutRPC := PutRPC |}.

(** [NoopRPCCache] (server.go). *)
Definition NoopRPCCache : Type := unit.
#[export] Instance noop_ops : RPCCache NoopRPCCache :=
  {| cache_GetRPC _ c := (inr None, c); cache_PutRPC _ _ c := (None, c) |}.

(** ** A cached result is one that was put for the same method and parameters *)

Section sound.
Context `{Geth} `{Sha256} `{!Sha256Spec} {C : Type} `{CacheSpec C}.

Inductive cache_op := OpGet (req : RPCReq) | OpPut (req : RPCReq) (res : RPCRes).

Definition op_req (op : cache_op) : RPCReq := match op with OpGet req => req | OpPut req _ => req end.

Fixpoint run_ops (ops : list cache_op) (c : rpcCache C) : rpcCache C :=
  match ops with
  | [] => c
  | OpGet req :: ops => run_ops ops (GetRPC req c).2
  | OpPut req res :: ops => run_ops ops (PutRPC req res c).2
  end.

Definition cache_holds (c : rpcCache C) (k v : string) : Prop :=
  match rc_cache c with Some c => holds c k v | None => False end.

Lemma handler_key_inj req req' : handler_key req = handler_key req' →
  rq_Method req = rq_Method req' ∧ sha256_hex (rq_Params req) = sha256_hex (rq_Params req').
Proof.
  unfold handler_key. intros Hk%string_app_inj%string_app_inj. apply colon_split in Hk; [done|apply sha256_hex_digits..].
Qed.

Lemma GetRPC_keeps req c k v : cache_holds (GetRPC req c).2 k v → cache_holds c k v.
Proof.
  unfold GetRPC, cache_holds. destruct (handlers _) as [e|]; [|done]. unfold GetRPCMethod.
  destruct c as [[c|]]; [|done]. simpl. destruct (negb _); [done|].
  destruct (Get (handler_key req) c) as [[val err] c'] eqn:E.
  assert (Hk : holds c' k v → holds c k v) by (by eapply Get_keeps).
  destruct err; [done|]. destruct (String.eqb val ""); [done|]. by destruct (json_parse val).
Qed.

Lemma PutRPC_adds req res c k v : cache_holds (PutRPC req res c).2 k v →
  cache_holds c k v ∨ (k = handler_key req ∧ v = marshal_any (rs_Result res)).
Proof.
  unfold PutRPC, cache_holds. destruct (handlers _) as [e|]; [|auto]. unfold PutRPCMethod.
  destruct c as [[c|]]; [|auto]. simpl. destruct (negb _); [auto|]. destruct (negb _); [auto|].
  destruct (Put (handler_key req) _ c) as [err c'] eqn:E. simpl. intros Hh. by eapply Put_adds.
Qed.

Lemma run_ops_holds ops c k v : cache_holds (run_ops ops c) k v →
  cache_holds c k v ∨ ∃ req res, OpPut req res ∈ ops ∧ k = handler_key req ∧ v = marshal_any (rs_Result res).
Proof.
  revert c. induction ops as [|[req|req res] ops IH]; intros c; simpl; [auto| |]; intros Hh;
    apply IH in Hh as [Hh|(q & r & Hin & Hk)]; [| |..].
  - left. by eapply GetRPC_keeps.
  - right. exists q, r. split; [by right|done].
  - apply PutRPC_adds in Hh as [Hh|[-> ->]]; [by left|right]. exists req, res. split; [by left|done].
  - right. exists q, r. split; [by right|done].
Qed.

Lemma GetRPC_hit req c res c' : GetRPC req c = (inr (Some res), c') →
  ∃ v val, cache_holds c (handler_key req) val ∧ json_parse val = Some v ∧
    res = mk_RPCRes (rq_JSONRPC req) (dec_any v) None (rq_ID req).
Proof.
  unfold GetRPC, cache_holds. destruct (handlers _) as [e|]; [|done]. unfold GetRPCMethod.
  destruct c as [[c|]]; [|done]. simpl. destruct (negb _); [done|].
  destruct (Get (handler_key req) c) as [[val err] c1] eqn:E. destruct err; [done|].
  destruct (String.eqb_spec val ""); [done|]. destruct (json_parse val) as [v|] eqn:Hv; [|done].
  intros [= <- _]. exists v, val. split_and!; [|done..]. by apply Get_sound in E as [->|E].
Qed.

(** C10: after any sequence of reads and writes of a cache that started empty, a
    hit carries the result of an earlier write for the same method and
    parameters, under the ID of the new request, as long as the parameters seen
    do not collide under SHA-256; this holds for every cache behind the
    interface (memory, Redis, with a fallback, compressed). *)
Theorem cache_hit_was_put c ops req res c' :
  (∀ k v, ¬ cache_holds c k v) →
  (∀ op, op ∈ ops → sha256_hex (rq_Params (op_req op)) = sha256_hex (rq_Params req) → rq_Params (op_req op) = rq_Params req) →
  GetRPC req (run_ops ops c) = (inr (Some res), c') →
  ∃ req0 res0 v, OpPut req0 res0 ∈ ops ∧ rq_Method req0 = rq_Method req ∧ rq_Params req0 = rq_Params req ∧
    json_parse (marshal_any (rs_Result res0)) = Some v ∧
    res = mk_RPCRes (rq_JSONRPC req) (dec_any v) None (rq_ID req).
Proof.
  intros Hempty Hcol (v & val & Hh & Hv & ->)%GetRPC_hit.
  apply run_ops_holds in Hh as [Hh|(req0 & res0 & Hin & Hk & ->)]; [by apply Hempty in Hh|].
  apply handler_key_inj in Hk as [Hm Hp]. exists req0, res0, v.
  assert (rq_Params req0 = rq_Params req) by (apply (Hcol (OpPut req0 res0)); [done|by simpl]).
  by split_and!.
Qed.
End sound.

(** What is put in a cache that keeps fresh values (the memory cache, with
    or without compression) is what the next read of the same method and
    parameters gives, under the ID of that request. *)
Theorem cache_put_get `{Geth} `{Sha256} {C} `{Cache C} `{!FreshCache C} req req' res v (c : C) c' :
  handlers (rq_Method req) ≠ None → rq_Method req' = rq_Method req → rq_Params req' = rq_Params req →
  (rq_Method req = "debug_getRawReceipts" → for_block_hash req = true ∧ has_receipts req res = true) →
  rs_Result res = AJson v → wf_json v → v ≠ JNull → PutRPC req res (newRPCCache c) = (None, c') →
  ∃ c'', GetRPC req' c' = (inr (Some (mk_RPCRes (rq_JSONRPC req') (AJson v) None (rq_ID req'))), c'').
Proof.
  intros Hh Hm Hp Hd Hres Hwf Hnull. unfold PutRPC, GetRPC, newRPCCache. rewrite Hm.
  destruct (handlers (rq_Method req)) as [e|] eqn:He; [|done].
  assert (Hpass : passes (filterGet e) req' = true ∧ passes (filterGet e) req = true ∧
    passes ((λ f, f req) <$> filterPut e) res = true).
  { unfold handlers in He. destruct (method_in _ _); [by injection He as <-|].
    destruct (String.eqb_spec (rq_Method req) "debug_getRawReceipts") as [Heq|]; [|done].
    injection He as <-. destruct (Hd Heq) as [H1' H2']. simpl. unfold for_block_hash in *. by rewrite Hp. }
  destruct Hpass as (Hg' & Hg & Hput). cbn [rc_cache]. unfold PutRPCMethod. rewrite Hg, Hput. cbn [negb].
  assert (Hkey : handler_key req' = handler_key req) by (unfold handler_key; by rewrite Hm, Hp).
  rewrite Hres. cbn [marshal_any].
  destruct (Put (handler_key req) (json_marshal v) c) as [err c1] eqn:E. intros [= -> <-].
  apply Get_after_Put in E as [c2 E]. unfold GetRPCMethod. cbn [rc_cache]. rewrite Hg', Hkey, E. cbn [negb].
  pose proof (json_roundtrip v Hwf) as Hrt.
  destruct (String.eqb_spec (json_marshal v) "") as [Hv|_]; [by rewrite Hv in Hrt|]. rewrite Hrt.
  exists (mk_rpcCache (Some c2)). by destruct v.
Qed.

(** ** Witnesses *)

(** Concrete parameters: an LRU as a list of entries, the newest first; a
    compressor that marks what it encodes; a digest that drops colons. *)
Module concrete.

Definition entries : Type := nat * list (string * string).
Definition entry (l : list (string * string)) (k : string) : option string :=
  snd <$> find (λ x, String.eqb x.1 k) l.
#[export] Instance list_lru : LRU entries := {|
  lru_New n := (n, []);
  lru_Get k l := (entry l.2 k, l);
  lru_Add k v l := (l.1, (k, v) :: take (pred l.1) (filter (λ x, x.1 ≠ k) l.2));
|}.

Lemma entry_take n l k w : entry (take n l) k = Some w → entry l k = Some w.
Proof.
  revert n. induction l as [|[k' v'] l IH]; intros [|n]; unfold entry in *; simpl; try done.
  destruct (String.eqb k' k); [done|]. apply IH.
Qed.
Lemma entry_filter l k k' w : k' ≠ k → entry (filter (λ x, x.1 ≠ k) l) k' = Some w → entry l k' = Some w.
Proof.
  intros Hne. induction l as [|[k0 v0] l IH]; [done|]. rewrite filter_cons. unfold entry in *. simpl.
  destruct (decide (k0 ≠ k)) as [Hk|Hk]; simpl.
  - destruct (String.eqb k0 k'); [done|]. apply IH.
  - destruct (String.eqb_spec k0 k') as [->|]; [tauto|]. apply IH.
Qed.
#[export] Instance list_lru_spec : LRUSpec entries.
Proof.
  refine {| lru_entry l k := entry l.2 k |}; simpl; try done.
  - intros k v l. unfold entry. simpl. by rewrite String.eqb_refl.
  - intros k v l k' w Hne. unfold entry at 1. simpl. destruct (String.eqb_spec k k'); [done|].
    intros Hw. eapply entry_filter; [exact Hne|]. by eapply entry_take.
Defined.

#[export] Instance marked : Snappy := {|
  snappy_Encode s := "S" +:+ s;
  snappy_Decode s := match s with String _ s => inr s | "" => inl (ENew "snappy: corrupt input") end;
|}.
#[export] Instance marked_spec : SnappySpec.
Proof. by split. Qed.

Fixpoint no_colons (s : string) : string :=
  match s with "" => "" | String c s => if Ascii.eqb c colon then no_colons s else String c (no_colons s) end.
#[export] Instance digest : Sha256 := no_colons.
#[export] Instance digest_spec : Sha256Spec.
Proof.
  intros s. unfold sha256_hex, digest. induction s as [|c s IH]; simpl; [done|].
  destruct (Ascii.eqb c colon) eqn:E; [done|]. simpl. by rewrite E.
Qed.

Definition empty_cache : rpcCache (cacheWithCompression (memory_cache entries)) :=
  newRPCCache (newCacheWithCompression newMemoryCache).
Definition chain_id (id : string) : RPCReq := mk_RPCReq "2.0" "eth_chainId" "[]" id.
Definition put_chain_id : cache_op := OpPut (chain_id "1") (mk_RPCRes "2.0" (AJson (JStr "0xa")) None "1").

Example cache_hit_was_put_witness :
  ∃ c' req0 res0, GetRPC (chain_id "7") (run_ops [put_chain_id] empty_cache) =
      (inr (Some (mk_RPCRes "2.0" (AJson (JStr "0xa")) None "7")), c') ∧
    OpPut req0 res0 ∈ [put_chain_id] ∧ rq_Method req0 = "eth_chainId".
Proof.
  eexists.
  destruct (cache_hit_was_put empty_cache [put_chain_id] (chain_id "7")
    (mk_RPCRes "2.0" (AJson (JStr "0xa")) None "7")
    (GetRPC (chain_id "7") (run_ops [put_chain_id] empty_cache)).2) as (req0 & res0 & v & Hin & Hm & _).
  - intros k v (enc & Hh & _). change (None = Some enc) in Hh. discriminate Hh.
  - intros op ->%list_elem_of_singleton _. reflexivity.
  - vm_compute. reflexivity.
  - exists req0, res0. split; [vm_compute; reflexivity|]. split; [exact Hin|exact Hm].
Defined.

Example cache_put_get_witness :
  ∃ c' c'', PutRPC (chain_id "1") (mk_RPCRes "2.0" (AJson (JStr "0xa")) None "1") empty_cache = (None, c') ∧
    GetRPC (chain_id "7") c' = (inr (Some (mk_RPCRes "2.0" (AJson (JStr "0xa")) None "7")), c'').
Proof.
  eexists.
  destruct (cache_put_get (chain_id "1") (chain_id "7") (mk_RPCRes "2.0" (AJson (JStr "0xa")) None "1") (JStr "0xa")
    (newCacheWithCompression (newMemoryCache (L := entries)))
    (PutRPC (chain_id "1") (mk_RPCRes "2.0" (AJson (JStr "0xa")) None "1") empty_cache).2) as [c'' HR];
    [discriminate|reflexivity..| |reflexivity| |discriminate|reflexivity|].
  - discriminate.
  - vm_compute. exact I.
  - exists c''. split; [reflexivity|exact HR].
Defined.

End concrete.
