(* ===== verification/Ws.v ===== *)
(** The WebSocket proxy of proxyd (backend.go) and the string sets it checks
    methods against (string_set.go).

    The two pumps of a proxied connection run concurrently; a schedule says
    whose round comes next. *)
From stdpp Require Import base numbers list gmap strings sets.
From S2P Require Import Prelude GoFloat SlidingWindow Json Geth Rpc Backend.

Local Open Scope string_scope.
Local Open Scope Z_scope.
#[local] Arguments String.append : simpl nomatch.

(** ** String sets *)

Definition StringSet : Type := gset string.
Definition NewStringSet : StringSet := ∅.
Definition NewStringSetFromStrings (l : list string) : StringSet := list_to_set l.
Definition Has (s : StringSet) (test : string) : bool := bool_decide (test ∈ s).
Definition set_Add (str : string) (s : StringSet) : StringSet := {[str]} ∪ s.
(** In the order of an iteration over a map: any order. *)
Definition Entries (s : StringSet) : list string := elements s.
Definition Extend (s : StringSet) (l : list string) : StringSet :=
  foldr set_Add (NewStringSetFromStrings l) (Entries s).

(** ** Connections (gorilla/websocket) *)

Inductive side := Client | Upstream.

(** The error of a read: a close frame of the peer, or another one. *)
Inductive ws_error := CloseError (code : Z) (text : string) | OtherError (text : string).

Definition TextMessage : Z := 1.
Definition BinaryMessage : Z := 2.
Definition CloseMessage : Z := 8.
Definition CloseNormalClosure : Z := 1000.
Definition CloseNoStatusReceived : Z := 1005.

(** [ReadMessage] gives the type, the message and the error; [Error] is the
    text of a [CloseError]. *)
Class WsConns (W : Type) := {
  ReadMessage : side → W → (Z * string * option ws_error) * W;
  SetWriteDeadline : side → Z → W → option error * W;
  WriteMessage : side → Z → string → W → option error * W;
  CloseConn : side → W → W;
  Dial : string → W → option error * W;
  FormatCloseMessage : Z → string → string;
  close_error_text : Z → string → string;
}.

Section ws.
Context `{Geth} {W : Type} `{Env W} `{WsConns W}.

Record WSProxier := mk_proxier {
  ws_backend : string; methodWhitelist : StringSet; readTimeout : Z; writeTimeout : Z
}.
Definition NewWSProxier (backend : string) (whitelist : StringSet) : WSProxier :=
  mk_proxier backend whitelist (2 * Minute) (10 * Second).

Definition io {A} (f : W → A * W) : M W A := λ w, Ret (f w).

Definition write_conn (s : side) (w : WSProxier) (msgType : Z) (msg : string) : M W (option error) :=
  now ← io time_Now;
  err ← io (SetWriteDeadline s (now + writeTimeout w));
  match err with
  | Some e => mret (Some e)
  | None => io (WriteMessage s msgType msg)
  end.
Definition writeClientConn : WSProxier → Z → string → M W (option error) := write_conn Client.
Definition writeBackendConn : WSProxier → Z → string → M W (option error) := write_conn Upstream.

Definition formatWSError (err : ws_error) : string :=
  match err with
  | CloseError code text =>
      if negb (code =? CloseNoStatusReceived) then FormatCloseMessage code text
      else FormatCloseMessage CloseNormalClosure (close_error_text code text)
  | OtherError text => FormatCloseMessage CloseNormalClosure text
  end.

Definition is_data (msgType : Z) : bool := (msgType =? TextMessage) || (msgType =? BinaryMessage).

(** The request when the message parses, and the error that keeps it from being
    forwarded. *)
Definition prepareClientMsg (w : WSProxier) (msg : string) : option RPCReq * option error :=
  match ParseRPCReq msg with
  | inl err => (None, Some err)
  | inr req =>
      if negb (Has (methodWhitelist w) (rq_Method req)) then (Some req, Some (EVar ErrMethodNotWhitelisted))
      else (Some req, None)
  end.

Definition parseBackendMsg (msg : string) : option RPCRes * option error :=
  match ParseRPCRes msg with
  | inl _ => (None, Some (EVar ErrBackendBadResponse))
  | inr res => (Some res, None)
  end.

(** One round of the loop of [clientPump]: the error with which it ends. *)
Definition client_round (w : WSProxier) : M W (option error) :=
  '(msgType, msg, rerr) ← io (ReadMessage Client);
  closed ← (match rerr with
    | Some e => writeBackendConn w CloseMessage (formatWSError e)
    | None => mret None
    end);
  match closed with
  | Some e => mret (Some e)
  | None =>
      if negb (is_data msgType) then writeBackendConn w msgType msg
      else
        let '(req, err) := prepareClientMsg w msg in
        match err, req with
        | Some err, _ =>
            let id := match req with Some req => rq_ID req | None => "" end in
            out ← m_lift (mustMarshalJSON (MarshalJSON (NewRPCErrorRes id err)));
            writeClientConn w msgType out
        | None, Some req =>
            if String.eqb (rq_Method req) "eth_accounts" then
              out ← m_lift (mustMarshalJSON (MarshalJSON (NewRPCRes (rq_ID req) (AJson (JArr [])))));
              writeClientConn w msgType out
            else writeBackendConn w msgType msg
        | None, None => m_panic "nil pointer dereference"
        end
  end.

Definition backend_round (w : WSProxier) : M W (option error) :=
  '(msgType, msg, rerr) ← io (ReadMessage Upstream);
  closed ← (match rerr with
    | Some e => writeClientConn w CloseMessage (formatWSError e)
    | None => mret None
    end);
  match closed with
  | Some e => mret (Some e)
  | None =>
      if negb (is_data msgType) then writeClientConn w msgType msg
      else
        let '(res, err) := parseBackendMsg msg in
        out ← (match err with
          | Some err =>
              let id := match res with Some res => rs_ID res | None => "" end in
              m_lift (mustMarshalJSON (MarshalJSON (NewRPCErrorRes id err)))
          | None => mret msg
          end);
        writeClientConn w msgType out
  end.

Definition ws_close : M W unit := m_modify (λ w, CloseConn Upstream (CloseConn Client w)).

(** [Proxy] under a schedule of rounds: the error that ended a pump, [None]
    while both still run. *)
Fixpoint Proxy (w : WSProxier) (schedule : list side) : M W (option error) :=
  match schedule with
  | [] => mret None
  | s :: schedule =>
      err ← (match s with Client => client_round w | Upstream => backend_round w end);
      match err with
      | Some e => ws_close;; mret (Some e)
      | None => Proxy w schedule
      end
  end.

(** [Backend.ProxyWS] with the address of the backend. *)
Definition backend_ProxyWS (name url : string) (whitelist : StringSet) : M W (error + WSProxier) :=
  err ← io (Dial url);
  match err with
  | Some e => mret (inl (wrapErr e "error dialing backend"))
  | None => mret (inr (NewWSProxier name whitelist))
  end.

(** [BackendGroup.ProxyWS]: every error of a backend passes it over. *)
Fixpoint group_ProxyWS (backends : list (string * string)) (whitelist : StringSet) : M W (error + WSProxier) :=
  match backends with
  | [] => mret (inl (EVar ErrNoBackends))
  | (name, url) :: backends =>
      res ← backend_ProxyWS name url whitelist;
      match res with
      | inl _ => group_ProxyWS backends whitelist
      | inr proxier => mret (inr proxier)
      end
  end.

End ws.

(** ** What the proxy lets through *)

(** A world that records what is read from and written to the connections. *)
Inductive ws_event := DidRead (s : side) (msgType : Z) (msg : string) | DidWrite (s : side) (msgType : Z) (msg : string).

#[export] Instance recording_env {W} `{Env W} : Env (W * list ws_event) := {|
  time_Now w := let '(t, w1) := time_Now w.1 in (t, (w1, w.2));
  url_error := url_error (W := W);
  http_do r w := let '(res, w1) := http_do r w.1 in (res, (w1, w.2));
  rand_Int63n n w := let '(j, w1) := rand_Int63n n w.1 in (j, (w1, w.2));
  sleep d w := (sleep d w.1, w.2);
|}.

#[export] Instance recording {W} `{WsConns W} : WsConns (W * list ws_event) := {|
  ReadMessage s w := let '((t, m, e), w1) := ReadMessage s w.1 in ((t, m, e), (w1, w.2 ++ [DidRead s t m])%list);
  SetWriteDeadline s d w := let '(e, w1) := SetWriteDeadline s d w.1 in (e, (w1, w.2));
  WriteMessage s t m w := let '(e, w1) := WriteMessage s t m w.1 in (e, (w1, w.2 ++ [DidWrite s t m])%list);
  CloseConn s w := (CloseConn s w.1, w.2);
  Dial u w := let '(e, w1) := Dial u w.1 in (e, (w1, w.2));
  FormatCloseMessage := FormatCloseMessage (W := W);
  close_error_text := close_error_text (W := W);
|}.

Section let_through.
Context `{Geth} {W : Type} `{Env W} `{WsConns W}.

(** A message that may be written upstream. *)
Definition allowed (whitelist : StringSet) (msg : string) : Prop :=
  ∃ req, ParseRPCReq msg = inr req ∧ rq_Method req ∈ whitelist ∧ rq_Method req ≠ "eth_accounts".

(** Every data message written upstream was read from the client, unchanged,
    and is allowed. *)
Definition filtered (whitelist : StringSet) (log : list ws_event) : Prop :=
  ∀ t m, DidWrite Upstream t m ∈ log → is_data t = true → DidRead Client t m ∈ log ∧ allowed whitelist m.

(** A step that only appends the given kind of events. *)
Definition appends (Q : ws_event → Prop) (w w' : W * list ws_event) : Prop :=
  ∃ es, w'.2 = (w.2 ++ es)%list ∧ Forall Q es.

#[export] Instance appends_preorder Q : PreOrder (appends Q).
Proof.
  split; [intros w; exists []; by rewrite app_nil_r|]. intros x y z (e1 & E1 & H1') (e2 & E2 & H2').
  exists (e1 ++ e2)%list. rewrite E2, E1, app_assoc. split; [done|]. by apply Forall_app.
Qed.

Lemma write_appends s w t m : respects (appends (λ e, e = DidWrite s t m)) (write_conn (W := W * list ws_event) s w t m).
Proof.
  unfold write_conn. apply respects_bind; [exact _| |intros now].
  { intros x a y [= HR]. simpl in HR. destruct (time_Now x.1). injection HR as _ <-. exists []. by rewrite app_nil_r. }
  apply respects_bind; [exact _| |intros [e|]].
  - intros x a y [= HR]. simpl in HR. destruct (SetWriteDeadline s _ x.1). injection HR as _ <-. exists [].
    split; simpl; [by rewrite app_nil_r|by apply Forall_nil].
  - apply respects_ret, _.
  - intros x a y [= HR]. simpl in HR. destruct (WriteMessage s t m x.1). injection HR as _ <-.
    exists [DidWrite s t m]. by repeat constructor.
Qed.

Lemma filtered_app whitelist log es : filtered whitelist log →
  (∀ t m, DidWrite Upstream t m ∈ es → is_data t = true → DidRead Client t m ∈ (log ++ es)%list ∧ allowed whitelist m) →
  filtered whitelist (log ++ es).
Proof.
  intros Hf Hes t m [Hin|Hin]%elem_of_app Hd; [|by apply Hes]. destruct (Hf t m Hin Hd). split; [|done].
  apply elem_of_app. by left.
Qed.

(** The writes that never break [filtered]. *)
Definition harmless (e : ws_event) : Prop :=
  match e with DidWrite Upstream t _ => is_data t = false | _ => True end.

Lemma harmless_filtered whitelist (w w' : W * list ws_event) :
  appends harmless w w' → filtered whitelist w.2 → filtered whitelist w'.2.
Proof.
  intros (es & -> & Hes) Hf. apply filtered_app; [done|]. intros t m Hin Hd.
  rewrite Forall_forall in Hes. apply Hes in Hin. simpl in Hin. congruence.
Qed.

Lemma appends_mono (Q Q' : ws_event → Prop) w w' : (∀ e, Q e → Q' e) → appends Q w w' → appends Q' w w'.
Proof. intros HQ (es & E & Hes). exists es. split; [done|]. by eapply Forall_impl. Qed.

Lemma harmless_write s w t m : (s = Upstream → is_data t = false) →
  respects (appends harmless) (write_conn (W := W * list ws_event) s w t m).
Proof.
  intros Hs x a y HR%write_appends. eapply appends_mono; [|exact HR]. intros e ->. by destruct s; [|apply Hs].
Qed.

Lemma harmless_read s : respects (appends harmless) (io (ReadMessage (W := W * list ws_event) s)).
Proof.
  intros x a y [= HR]. simpl in HR. destruct (ReadMessage s x.1) as [[[t m] e] w1]. injection HR as _ <-.
  exists [DidRead s t m]. by repeat constructor.
Qed.

Lemma harmless_backend_round w : respects (appends harmless) (backend_round (W := W * list ws_event) w).
Proof.
  unfold backend_round, writeClientConn. pose proof harmless_read.
  assert (∀ t m, respects (appends harmless) (write_conn (W := W * list ws_event) Client w t m))
    by (intros; by apply harmless_write). respects_tac.
Qed.

Lemma client_round_filtered w (s s' : W * list ws_event) a :
  client_round w s = Ret (a, s') → filtered (methodWhitelist w) s.2 → filtered (methodWhitelist w) s'.2.
Proof.
  intros HR Hf. unfold client_round in HR. run_step HR t s1 H1'. destruct t as [[msgType msg] rerr].
  assert (Hread : DidRead Client msgType msg ∈ s1.2).
  { injection H1' as H1'. simpl in H1'. destruct (ReadMessage Client s.1) as [[[t m] e] w1].
    injection H1' as <- <- <- <-. simpl. apply elem_of_app. right. by left. }
  apply harmless_read, (harmless_filtered (methodWhitelist w)) in H1'; [|done]. clear Hf.
  run_step HR closed s2 H2'.
  assert (Hkeep : (∀ e, e ∈ s1.2 → e ∈ s2.2) ∧ filtered (methodWhitelist w) s2.2).
  { destruct rerr; [|by injection H2' as _ <-].
    apply harmless_write in H2'; [|done]. split; [|by eapply harmless_filtered].
    destruct H2' as (es & -> & _). intros e He. apply elem_of_app. by left. }
  destruct Hkeep as [Hsub Hf]. assert (Hread2 : DidRead Client msgType msg ∈ s2.2) by (by apply Hsub).
  destruct closed; [by injection HR as _ <-|]. destruct (is_data msgType) eqn:Hd; simpl in HR; cycle 1.
  { apply harmless_write in HR; [|done]. by eapply harmless_filtered. }
  assert (Hlift : ∀ (g : go string) s3, (out ← m_lift g; writeClientConn w msgType out) s2 = Ret (a, s3) →
    filtered (methodWhitelist w) s3.2).
  { intros g s3 HL. run_step HL out s4 H4'. unfold m_lift in H4'. apply go_bind_Ret in H4' as (? & _ & [= -> <-]).
    apply harmless_write in HL; [|done]. by eapply harmless_filtered. }
  unfold prepareClientMsg in HR. destruct (ParseRPCReq msg) as [err|req] eqn:Hp; [by eapply Hlift|].
  unfold Has in HR. case_bool_decide as Hw; simpl in HR; [|by eapply Hlift].
  destruct (String.eqb_spec (rq_Method req) "eth_accounts"); [by eapply Hlift|].
  apply write_appends in HR as (es & -> & Hes). apply filtered_app; [done|].
  intros t m Hin _. rewrite Forall_forall in Hes. apply Hes in Hin as [= -> ->].
  split; [apply elem_of_app; by left|]. by exists req.
Qed.

(** Whatever the peers send and however the two pumps interleave. *)
Lemma Proxy_filtered w schedule (s s' : W * list ws_event) a :
  Proxy w schedule s = Ret (a, s') → filtered (methodWhitelist w) s.2 → filtered (methodWhitelist w) s'.2.
Proof.
  revert s. induction schedule as [|sd schedule IH]; intros s HR Hf; [by injection HR as _ <-|].
  cbn [Proxy] in HR. run_step HR err s1 H1'.
  assert (Hf1 : filtered (methodWhitelist w) s1.2).
  { destruct sd; [by eapply client_round_filtered|]. apply harmless_backend_round in H1'. by eapply harmless_filtered. }
  destruct err; [|by eapply IH]. run_step HR u s2 H2'. injection HR as _ <-. injection H2' as _ <-. exact Hf1.
Qed.

(** Dialing writes nothing, and the proxy gets the whitelist of the group. *)
Lemma group_ProxyWS_spec backends whitelist (s s' : W * list ws_event) res :
  group_ProxyWS backends whitelist s = Ret (res, s') →
  s'.2 = s.2 ∧ ∀ w, res = inr w → methodWhitelist w = whitelist.
Proof.
  revert s. induction backends as [|[name url] backends IH]; intros s HR; [by injection HR as <- <-|].
  cbn [group_ProxyWS] in HR. run_step HR r s1 H1'. unfold backend_ProxyWS in H1'. run_step H1' err s2 H2'.
  assert (Hs2 : s2.2 = s.2).
  { injection H2' as H2'. simpl in H2'. destruct (Dial url s.1). by injection H2' as _ <-. }
  destruct err; injection H1' as <- <-.
  - apply IH in HR. by rewrite <-Hs2.
  - injection HR as <- <-. split; [done|]. by intros w [= <-].
Qed.

End let_through.
