(* ===== verification/Server.v ===== *)
(** server.go: the HTTP handler of proxyd. A request set is checked, rate
    limited and cut into batches for the backend groups; cached results are
    served, the rest is forwarded in minibatches, and every response is put at
    the place of its request. *)
From stdpp Require Import base numbers list gmap strings sets pretty.
From S2P Require Import RateLimiter.
From S2P Require Import Prelude.
From S2P Require Import GoFloat.
From S2P Require Import SlidingWindow.
From S2P Require Import Json.
From S2P Require Import Geth.
From S2P Require Import Rpc.
From S2P Require Import Reader.
From S2P Require Import Rewriter.
From S2P Require Import Backend.
From S2P Require Import ConsensusTracker.
From S2P Require Import ConsensusPoller.
From S2P Require Import BackendGroup.
From S2P Require Import Cache.
From S2P Require Import Ws.

Local Open Scope string_scope.
Local Open Scope Z_scope.
#[local] Arguments String.append : simpl nomatch.

(** ** What the server uses of others *)

(** A frontend rate limiter, at a reading of the clock. *)
Class Limiter (L : Type) := lim_Take : Z → string → L → (bool * option error) * L.

(** Decoding of raw transactions (go-ethereum): the bytes of a hex text, the
    transaction they hold, its chain, its sender and its nonce. *)
Record transaction := mk_tx { tx_ChainId : Z; tx_Sender : error + string; tx_Nonce : Z }.
Class TxCodec := {
  Bytes_UnmarshalText : string → error + string;
  tx_UnmarshalBinary : string → error + transaction;
}.

(** The upgrade of an HTTP request to a WebSocket connection, and its limit. *)
Class Upgrader (W : Type) := { ws_Upgrade : W → option error * W; SetReadLimit : Z → W → W }.

(** Whether the deadline of the request's context has passed. *)
Class Deadline (W : Type) := ctx_expired : W → bool * W.

(** ** Configuration and state *)

Definition proxydHealthzMethod : string := "proxyd_healthz".
Definition DefaultMaxBatchRPCCallsLimit : Z := 100.
Definition MaxBatchRPCCallsHardLimit : Z := 1000.
Definition defaultRPCTimeout : Z := 10 * Second.
Definition defaultBodySizeLimit : Z := 256 * 1024.
Definition defaultMaxUpstreamBatchSize : Z := 10.
Definition defaultRateLimitHeader : string := "X-Forwarded-For".

Section server.
Context {LM : Type} `{LinkedHashMap LM} `{Geth} {W : Type} `{Env W} `{Order W} `{WeightedShuffle W} `{Deadline W}.
Context {T : Type} `{ConsensusTracker T} {L : Type} `{Limiter L} {K : Type} `{RPCCache K} `{TxCodec}.

(** The part of a [Server] that does not change. *)
Record Server := mk_server {
  BackendGroups : gmap string (BackendGroup * option (ConsensusPoller T));
  wsBackendGroup : option BackendGroup;
  wsMethodWhitelist : StringSet;
  rpcMethodMappings : gmap string string;
  maxBodySize : Z;
  authenticatedPaths : gmap string string;
  sv_timeout : Z;
  maxUpstreamBatchSize : Z;
  maxBatchSize : Z;
  enableServedByHeader : bool;
  allowedChainIds : list Z;
  limExemptOrigins : list (string → bool);
  limExemptUserAgents : list (string → bool);
  globallyLimitedMethods : gmap string bool;
  rateLimitHeader : string
}.

#[export] Instance Server_eta : Eta Server := λ s,
  mk_server (BackendGroups s) (wsBackendGroup s) (wsMethodWhitelist s) (rpcMethodMappings s) (maxBodySize s)
    (authenticatedPaths s) (sv_timeout s) (maxUpstreamBatchSize s) (maxBatchSize s) (enableServedByHeader s)
    (allowedChainIds s) (limExemptOrigins s) (limExemptUserAgents s) (globallyLimitedMethods s) (rateLimitHeader s).

(** Limiters, the cache, the backends with the world. *)
Record server_state := mk_ss {
  mainLim : L; overrideLims : gmap string L; senderLim : option L; sv_cache : K; sv_group : group_state LM W
}.
#[export] Instance server_state_eta : Eta server_state := λ s,
  mk_ss (mainLim s) (overrideLims s) (senderLim s) (sv_cache s) (sv_group s).

(** The groups are shared: a poller attached to one is seen by the server. *)
Definition set_groups (groups : gmap string (BackendGroup * option (ConsensusPoller T))) (srv : Server) : Server :=
  {{ srv with BackendGroups := groups }}.
Definition set_group_state (g : group_state LM W) (s : server_state) : server_state := {{ s with sv_group := g }}.

Definition S (A : Type) : Type := M server_state A.

Definition on_group {A} (m : G LM W A) : S A := λ s,
  match m (sv_group s) with
  | Ret (a, g) => Ret (a, {{ s with sv_group := g }})
  | Panic why => Panic why
  end.
Definition sv_world {A} (f : W → A * W) : S A := on_group (in_world f).

(** ** [NewServer] *)

Record RateLimitMethodOverride := mk_override { ov_Limit : Z; ov_Interval : Z; ov_Global : bool }.
Record RateLimitConfig := mk_rlc {
  UseRedis : bool; BaseRate : Z; BaseInterval : Z; ExemptOrigins : list string; ExemptUserAgents : list string;
  rl_ErrorMessage : string; MethodOverrides : gmap string RateLimitMethodOverride; IPHeaderOverride : string
}.
Record SenderRateLimitConfig := mk_slc { sl_Enabled : bool; sl_Interval : Z; sl_Limit : Z; sl_AllowedChainIds : list Z }.

(** [regexp.Compile], for all patterns of a list. *)
Definition compile_all (compile : string → error + (string → bool)) (l : list string) : error + list (string → bool) :=
  foldr (λ p acc, match compile p, acc with
    | inl e, _ => inl e
    | inr _, inl e => inl e
    | inr f, inr fs => inr (f :: fs)
    end) (inr []) l.

Definition NewServer (groups : gmap string (BackendGroup * option (ConsensusPoller T)))
    (wsGroup : option BackendGroup) (whitelist : StringSet) (mappings : gmap string string) (maxBodySize : Z)
    (paths : gmap string string) (timeout maxUpstreamBatchSize : Z) (servedByHeader : bool) (cache : K)
    (rl : RateLimitConfig) (sl : SenderRateLimitConfig) (maxBatchSize : Z) (limiterFactory : Z → Z → string → L)
    (noop : L) (compile : string → error + (string → bool)) (g : group_state LM W) : error + (Server * server_state) :=
  let maxBodySize := if maxBodySize =? 0 then defaultBodySizeLimit else maxBodySize in
  let timeout := if timeout =? 0 then defaultRPCTimeout else timeout in
  let maxUpstreamBatchSize := if maxUpstreamBatchSize =? 0 then defaultMaxUpstreamBatchSize else maxUpstreamBatchSize in
  let maxBatchSize := if maxBatchSize =? 0 then DefaultMaxBatchRPCCallsLimit else maxBatchSize in
  let maxBatchSize := if MaxBatchRPCCallsHardLimit <? maxBatchSize then MaxBatchRPCCallsHardLimit else maxBatchSize in
  let limited := 0 <? BaseRate rl in
  let mainLim := if limited then limiterFactory (BaseInterval rl) (BaseRate rl) "main" else noop in
  match (if limited then compile_all compile (ExemptOrigins rl) else inr []),
        (if limited then compile_all compile (ExemptUserAgents rl) else inr []) with
  | inl e, _ | inr _, inl e => inl e
  | inr origins, inr agents =>
      let overrideLims := map_imap (λ method o, Some (limiterFactory (ov_Interval o) (ov_Limit o) method)) (MethodOverrides rl) in
      let globals := (λ _, true) <$> filter (λ x, ov_Global x.2 = true) (MethodOverrides rl) in
      let senderLim := if sl_Enabled sl then Some (limiterFactory (sl_Interval sl) (sl_Limit sl) "senders") else None in
      let header := if negb (String.eqb (IPHeaderOverride rl) "") then IPHeaderOverride rl else defaultRateLimitHeader in
      inr (mk_server groups wsGroup whitelist mappings maxBodySize paths timeout maxUpstreamBatchSize maxBatchSize servedByHeader
             (sl_AllowedChainIds sl) origins agents globals header,
           mk_ss mainLim overrideLims senderLim cache g)
  end.

(** ** Rate limits *)

Definition isUnlimitedOrigin (srv : Server) (origin : string) : bool := existsb (λ p, p origin) (limExemptOrigins srv).
Definition isUnlimitedUserAgent (srv : Server) (agent : string) : bool := existsb (λ p, p agent) (limExemptUserAgents srv).
Definition isGlobalLimit (srv : Server) (method : string) : bool := default false (globallyLimitedMethods srv !! method).

(** The limiter of a method, "" for the base one; [None] for nil. *)
Definition get_lim (method : string) (s : server_state) : option L :=
  if String.eqb method "" then Some (mainLim s) else overrideLims s !! method.
Definition set_lim (method : string) (l : L) (s : server_state) : server_state :=
  if String.eqb method "" then {{ s with mainLim := l }}
  else {{ s with overrideLims := <[method := l]> (overrideLims s) }}.

(** The closure of [HandleRPC]; [exempt] when the origin or the user agent is. *)
Definition isLimited (srv : Server) (exempt : bool) (xff method : string) : S bool :=
  if negb (isGlobalLimit srv method) && exempt then mret false
  else
    lim ← m_gets (get_lim method);
    match lim with
    | None => mret false
    | Some l =>
        now ← sv_world time_Now;
        let '((ok, err), l) := lim_Take now xff l in
        m_modify (set_lim method l);;
        mret (match err with Some _ => true | None => negb ok end)
    end.

Definition isAllowedChainId (srv : Server) (chainId : Z) : bool :=
  match allowedChainIds srv with [] => true | ids => existsb (Z.eqb chainId) ids end.

(** json.Unmarshal into a slice of strings. *)
Definition unmarshal_strings (raw : string) : option (list string) :=
  t ← json_top raw;
  match t with
  | TNull => Some []
  | TArr es => mapM (λ e, match e.2 with JStr s => Some s | JNull => Some "" | _ => None end) es
  | _ => None
  end.

(** [rateLimitSender], when the sender limiter [lim] is set: nil or the error. *)
Definition rateLimitSender (srv : Server) (lim : L) (req : RPCReq) : S (option error) :=
  match unmarshal_strings (rq_Params req) with
  | None => mret (Some (EVar ErrParseErr))
  | Some [param] =>
      match Bytes_UnmarshalText param with
      | inl e => mret (Some (ERPC (ErrInvalidParams (error_Error e))))
      | inr data =>
          match tx_UnmarshalBinary data with
          | inl e => mret (Some (ERPC (ErrInvalidParams (error_Error e))))
          | inr tx =>
              if negb (isAllowedChainId srv (tx_ChainId tx)) then mret (Some (ENew "invalid sender"))
              else match tx_Sender tx with
                | inl e => mret (Some (ERPC (ErrInvalidParams (error_Error e))))
                | inr from =>
                    now ← sv_world time_Now;
                    let '((ok, err), lim) := lim_Take now (from +:+ ":" +:+ pretty (tx_Nonce tx)) lim in
                    m_modify (λ s, {{ s with senderLim := Some lim }});;
                    mret (match err with
                      | Some _ => Some (EVar ErrInternal)
                      | None => if ok then None else Some (EVar ErrOverSenderRateLimit)
                      end)
                end
          end
      end
  | Some _ => mret (Some (ERPC (ErrInvalidParams "missing value for required argument 0")))
  end.

(** ** [handleBatchRPC], the loop over the requests *)

Record batchElem := mk_elem { el_Req : RPCReq; el_Index : nat }.
(** The key [batchGroup]: the group ID and the backend group. *)
Definition batchGroup : Type := nat * string.

Definition createBatchRequest (elems : list batchElem) : list RPCReq := el_Req <$> elems.

(** What becomes of one request: the answer to a health check (of a set of one
    request), an answer of the server itself, or a place in a batch. *)
Inductive verdict := Healthz (res : RPCRes) | Answered (res : RPCRes) | Accepted (req : RPCReq) (group : string).

Definition examine (srv : Server) (exempt : bool) (xff : string) (single : bool) (raw : string) : S verdict :=
  match ParseRPCReq raw with
  | inl err => mret (Answered (NewRPCErrorRes "" err))
  | inr req =>
      let refuse err := mret (Answered (NewRPCErrorRes (rq_ID req) err)) : S verdict in
      if single && String.eqb (rq_Method req) proxydHealthzMethod then
        mret (Healthz (mk_RPCRes JSONRPCVersion (AJson (JStr "OK")) None (rq_ID req)))
      else match ValidateRPCReq req with
        | Some err => mret (Answered (NewRPCErrorRes "" err))
        | None =>
            if String.eqb (rq_Method req) "eth_accounts" then
              mret (Answered (NewRPCRes (rq_ID req) (AJson (JArr []))))
            else
              let group := default "" (rpcMethodMappings srv !! rq_Method req) in
              if String.eqb group "" then refuse (EVar ErrMethodNotWhitelisted)
              else
                limited ← isLimited srv exempt xff "";
                if limited : bool then refuse (EVar ErrOverRateLimit)
                else
                  lims ← m_gets overrideLims;
                  limited ← (match lims !! rq_Method req with
                    | Some _ => isLimited srv exempt xff (rq_Method req)
                    | None => mret false
                    end);
                  if limited : bool then refuse (EVar ErrOverRateLimit)
                  else
                    sender ← m_gets senderLim;
                    err ← (match sender with
                      | Some lim =>
                          if String.eqb (rq_Method req) "eth_sendRawTransaction" then rateLimitSender srv lim req
                          else mret None
                      | None => mret None
                      end);
                    match err with
                    | Some err => refuse err
                    | None => mret (Accepted req group)
                    end
        end
  end.

(** The responses so far, the batches, and how often each ID was seen. *)
Record plan := mk_plan {
  pl_responses : list (option RPCRes); pl_batches : gmap batchGroup (list batchElem); pl_ids : gmap string nat
}.

Definition add_elem (p : plan) (req : RPCReq) (group : string) : plan :=
  let n := Datatypes.S (default 0%nat (pl_ids p !! rq_ID req)) in
  let key : batchGroup := (n, group) in
  mk_plan (pl_responses p ++ [None])%list
    (<[key := (default [] (pl_batches p !! key) ++ [mk_elem req (length (pl_responses p))])%list]> (pl_batches p))
    (<[rq_ID req := n]> (pl_ids p)).
Definition add_response (p : plan) (res : RPCRes) : plan :=
  mk_plan (pl_responses p ++ [Some res])%list (pl_batches p) (pl_ids p).

(** The whole loop: the plan, or the response to a health check. *)
Fixpoint make_plan (srv : Server) (exempt : bool) (xff : string) (single : bool) (p : plan) (raws : list string) :
    S (RPCRes + plan) :=
  match raws with
  | [] => mret (inr p)
  | raw :: raws =>
      v ← examine srv exempt xff single raw;
      match v with
      | Healthz res => mret (inl res)
      | Answered res => make_plan srv exempt xff single (add_response p res) raws
      | Accepted req group => make_plan srv exempt xff single (add_elem p req group) raws
      end
  end.

(** ** [handleBatchRPC], the loop over the batches *)

Record progress := mk_progress { pg_responses : list (option RPCRes); pg_servedBy : gset string; pg_cached : bool }.

(** The cache first: what it answers, and the misses. *)
Fixpoint serve_cached (elems : list batchElem) (pg : progress) : S (progress * list batchElem) :=
  match elems with
  | [] => mret (pg, [])
  | e :: elems =>
      s ← m_get;
      let '(r, c) := cache_GetRPC (el_Req e) (sv_cache s) in
      m_modify (λ s, {{ s with sv_cache := c }});;
      match r with
      | inr (Some res) =>
          serve_cached elems (mk_progress (<[el_Index e := Some res]> (pg_responses pg)) (pg_servedBy pg) true)
      | _ => '(pg, misses) ← serve_cached elems pg; mret (pg, e :: misses)
      end
  end.

(** The minibatches: slices of [n] elements. The source computes their number
    with floats, exactly for the at most 1000 requests of a set. *)
Fixpoint minibatches (n count : nat) (elems : list batchElem) : list (list batchElem) :=
  match count with
  | O => []
  | Datatypes.S count => take n elems :: minibatches n count (drop n elems)
  end.
Definition numBatches (n : Z) (len : nat) : nat :=
  if n <=? 0 then 0%nat else Z.to_nat ((Z.of_nat len + n - 1) `div` n).

(** Responses in their places; what has a result goes to the cache, under the
    request as forwarding left it. *)
Fixpoint place (elems : list batchElem) (reqs : list RPCReq) (res : list RPCRes) (pg : progress) : S progress :=
  match elems with
  | [] => mret pg
  | e :: elems =>
      match res, reqs with
      | r :: res, req :: reqs =>
          (match rs_Error r, rs_Result r with
           | None, ANil | Some _, _ => mret ()
           | None, _ => m_modify (λ s, {{ s with sv_cache := (cache_PutRPC req r (sv_cache s)).2 }})
           end);;
          place elems reqs res (mk_progress (<[el_Index e := Some r]> (pg_responses pg)) (pg_servedBy pg) (pg_cached pg))
      | _, _ => m_panic "index out of range"
      end
  end.

Definition receipts_error (err : error) : bool :=
  errors_Is_plain err ErrConsensusGetReceiptsCantBeBatched || errors_Is_plain err ErrConsensusGetReceiptsInvalidTarget.

Fixpoint forward_minibatches (srv : Server) (ctx : Ctx) (isBatch : bool) (group : string)
    (batches : list (list batchElem)) (pg : progress) : S (error + progress) :=
  match batches with
  | [] => mret (inr pg)
  | elems :: batches =>
      expired ← sv_world ctx_expired;
      if expired : bool then mret (inl (EPlain DeadlineExceeded))
      else match BackendGroups srv !! group with
        | None => m_panic "nil pointer dereference"
        | Some (bg, consensus) =>
            '(resp, reqs) ← on_group (group_Forward bg consensus ctx (createBatchRequest elems) isBatch);
            let pg := mk_progress (pg_responses pg) ({[ServedBy resp]} ∪ pg_servedBy pg) (pg_cached pg) in
            match bg_error resp with
            | Some err =>
                if receipts_error err then mret (inl err)
                else
                  pg ← place elems reqs ((λ e, NewRPCErrorRes (rq_ID (el_Req e)) err) <$> elems) pg;
                  forward_minibatches srv ctx isBatch group batches pg
            | None =>
                pg ← place elems reqs (bg_RPCRes resp) pg;
                forward_minibatches srv ctx isBatch group batches pg
            end
        end
  end.

Definition serve_batch (srv : Server) (ctx : Ctx) (isBatch : bool) (group : string) (elems : list batchElem)
    (pg : progress) : S (error + progress) :=
  '(pg, misses) ← serve_cached elems pg;
  forward_minibatches srv ctx isBatch group
    (minibatches (Z.to_nat (maxUpstreamBatchSize srv)) (numBatches (maxUpstreamBatchSize srv) (length misses)) misses) pg.

Fixpoint serve_batches (srv : Server) (ctx : Ctx) (isBatch : bool) (batches : list (batchGroup * list batchElem))
    (pg : progress) : S (error + progress) :=
  match batches with
  | [] => mret (inr pg)
  | ((_, group), elems) :: batches =>
      r ← serve_batch srv ctx isBatch group elems pg;
      match r with
      | inl err => mret (inl err)
      | inr pg => serve_batches srv ctx isBatch batches pg
      end
  end.

Definition join_servedBy (l : list string) : string :=
  foldl (λ acc sb, (if negb (String.eqb acc "") then acc +:+ ", " else acc) +:+ sb) "" l.

(** [handleBatchRPC]: the responses, whether one came from the cache, and who
    served them; or the error. *)
Definition handleBatchRPC (srv : Server) (ctx : Ctx) (raws : list string) (exempt : bool) (xff : string)
    (isBatch : bool) : S (error + (list (option RPCRes) * bool * string)) :=
  planned ← make_plan srv exempt xff (length raws =? 1)%nat (mk_plan [] ∅ ∅) raws;
  match planned with
  | inl res => mret (inr ([Some res], false, ""))
  | inr p =>
      order ← sv_world (permute (map_to_list (pl_batches p)));
      r ← serve_batches srv ctx isBatch order (mk_progress (pl_responses p) ∅ false);
      match r with
      | inl err => mret (inl err)
      | inr pg =>
          sbs ← sv_world (permute (elements (pg_servedBy pg)));
          mret (inr (pg_responses pg, pg_cached pg, join_servedBy sbs))
      end
  end.

(** ** HTTP *)

(** An incoming request: the path variable, its headers by canonical name, the
    address of the peer, its body. *)
Record http_in := mk_in {
  in_authorization : string; in_Header : string → string; in_RemoteAddr : string; in_Body : http_body
}.
Record http_reply := mk_reply { rp_status : Z; rp_headers : list (string * string); rp_body : string }.

(** strings.Split at colons. *)
Fixpoint split_colon (s : string) : list string :=
  match s with
  | "" => [""]
  | String c s =>
      if Ascii.eqb c colon then "" :: split_colon s
      else match split_colon s with [] => [String c ""] | w :: ws => String c w :: ws end
  end.

(** The context of a request, [None] after a reply 401. *)
Definition populateContext (srv : Server) (r : http_in) : option Ctx :=
  let xff := in_Header r (rateLimitHeader srv) in
  let xff := if String.eqb xff "" then
      match split_colon (in_RemoteAddr r) with [ip; _] => ip | _ => xff end
    else xff in
  let ctx := mk_ctx xff (in_Header r DefaultOpTxProxyAuthHeader) in
  if decide (authenticatedPaths srv = ∅) then Some ctx
  else if String.eqb (in_authorization r) "" || String.eqb (default "" (authenticatedPaths srv !! in_authorization r)) "" then None
  else Some ctx.


(** json.Encoder: a text that cannot be encoded is not written. *)
Definition encode (t : option string) : string := match t with Some t => t +:+ newline | None => "" end.

Definition content_type : string * string := ("content-type", "application/json").

Definition writeRPCRes (headers : list (string * string)) (res : RPCRes) : http_reply :=
  let statusCode := match rs_Error res with
    | Some e => if negb (HTTPErrorCode e =? 0) then HTTPErrorCode e else 200
    | None => 200
    end in
  mk_reply statusCode (headers ++ [content_type])%list (encode (MarshalJSON res)).

Definition writeRPCError (id : string) (err : error) : http_reply :=
  writeRPCRes [] (match as_RPCErr err with
    | Some e => NewRPCErrorRes id (ERPC e)
    | None => NewRPCErrorRes id (EVar ErrInternal)
    end).

Definition marshal_batch (l : list (option RPCRes)) : option string :=
  ts ← mapM (λ r, match r with Some r => MarshalJSON r | None => Some "null" end) l;
  Some ("[" +:+ String.concat "," ts +:+ "]").

Definition writeBatchRPCRes (headers : list (string * string)) (res : list (option RPCRes)) : http_reply :=
  mk_reply 200 (headers ++ [content_type])%list (encode (marshal_batch res)).

Definition cacheStatusHdr : string := "X-Proxyd-Cache-Status".
Definition setCacheHeader (cached : bool) : string * string := (cacheStatusHdr, if cached then "HIT" else "MISS").

Definition reply_headers (srv : Server) (cached : bool) (servedBy : string) : list (string * string) :=
  ((if enableServedByHeader srv then [("x-served-by", servedBy)] else []) ++ [setCacheHeader cached])%list.

Definition HandleHealthz : http_reply := mk_reply 200 [] "OK".

Definition HandleRPC (srv : Server) (r : http_in) : S http_reply :=
  match populateContext srv r with
  | None => mret (mk_reply 401 [] "")
  | Some ctx =>
      let exempt := isUnlimitedOrigin srv (in_Header r "Origin") || isUnlimitedUserAgent srv (in_Header r "User-Agent") in
      let xff := stripXFF (ctx_xff ctx) in
      if String.eqb xff "" then mret (writeRPCError "" (ErrInvalidRequest "request does not include a remote IP"))
      else
        let '(body, err) := read_body (in_Body r) (maxBodySize srv) in
        match err with
        | Some e =>
            if errors_Is_plain e ErrLimitReaderOverLimit then mret (writeRPCError "" (EVar ErrRequestBodyTooLarge))
            else mret (writeRPCError "" (EVar ErrInternal))
        | None =>
            if IsBatch body then
              match ParseBatchRPCReq body with
              | inl _ => mret (writeRPCError "" (EVar ErrParseErr))
              | inr reqs =>
                  if maxBatchSize srv <? Z.of_nat (length reqs) then mret (writeRPCError "" (EVar ErrTooManyBatchRequests))
                  else match reqs with
                    | [] => mret (writeRPCError "" (ErrInvalidRequest "must specify at least one batch call"))
                    | _ =>
                        res ← handleBatchRPC srv ctx reqs exempt xff true;
                        match res with
                        | inl err =>
                            mret (writeRPCError "" (match err with
                              | EPlain DeadlineExceeded => EVar ErrGatewayTimeout
                              | _ => if receipts_error err then ErrInvalidRequest (error_Error err) else EVar ErrInternal
                              end))
                        | inr (batchRes, cached, servedBy) =>
                            mret (writeBatchRPCRes (reply_headers srv cached servedBy) batchRes)
                        end
                    end
              end
            else
              res ← handleBatchRPC srv ctx [body] exempt xff false;
              match res with
              | inl err =>
                  mret (writeRPCError "" (if receipts_error err then ErrInvalidRequest (error_Error err) else EVar ErrInternal))
              | inr (Some backendRes :: _, cached, servedBy) =>
                  mret (writeRPCRes (reply_headers srv cached servedBy) backendRes)
              | inr _ => m_panic "nil pointer dereference"
              end
        end
  end.

(** ** WebSocket requests *)

Context `{WsConns W} `{Upgrader W}.

Definition on_world {A} (m : M W A) : S A := λ s,
  match m (g_world (sv_group s)) with
  | Ret (a, w) => Ret (a, {{ s with sv_group := mk_gs (g_store (sv_group s)) w }})
  | Panic why => Panic why
  end.

(** The backends of the group with their WebSocket addresses. *)
Definition ws_targets (bg : BackendGroup) (s : server_state) : list (string * string) :=
  (λ be, (be, default "" (wsURL <$> g_store (sv_group s) !! be))) <$> Backends bg.

(** [HandleWS] with the goroutine it starts, whose two pumps interleave by the
    schedule: the reply when it is not a connection. *)
Definition HandleWS (srv : Server) (r : http_in) (schedule : list side) : S (option http_reply) :=
  match populateContext srv r with
  | None => mret (Some (mk_reply 401 [] ""))
  | Some _ =>
      err ← on_world (io ws_Upgrade);
      match err with
      | Some _ => mret None
      | None =>
          on_world (m_modify (SetReadLimit (maxBodySize srv)));;
          match wsBackendGroup srv with
          | None => m_panic "nil pointer dereference"
          | Some bg =>
              targets ← m_gets (ws_targets bg);
              res ← on_world (group_ProxyWS targets (wsMethodWhitelist srv));
              match res with
              | inl _ => on_world (m_modify (CloseConn Client));; mret None
              | inr proxier => on_world (Proxy proxier schedule);; mret None
              end
          end
      end
  end.
End server.
Arguments Server T : clear implicits.
Arguments server_state LM W L K : clear implicits.
Arguments S LM W L K A : clear implicits.

(** ** What [NewServer] gives *)

Lemma NewServer_spec {LM W T L K : Type} groups wsGroup whitelist mappings maxBody paths timeout upstream servedBy (cache : K)
    rl sl maxBatch limiterFactory (noop : L) compile (g : group_state LM W) (srv : Server T) st :
  NewServer groups wsGroup whitelist mappings maxBody paths timeout upstream servedBy cache rl sl maxBatch
    limiterFactory noop compile g = inr (srv, st) →
  BackendGroups srv = groups ∧ wsBackendGroup srv = wsGroup ∧ rpcMethodMappings srv = mappings ∧
  maxBatchSize srv ≤ MaxBatchRPCCallsHardLimit ∧ maxUpstreamBatchSize srv ≠ 0 ∧
  (is_Some (senderLim st) → sl_Enabled sl = true).
Proof.
  unfold NewServer. cbv zeta. destruct (if 0 <? BaseRate rl then compile_all compile (ExemptOrigins rl) else _); [done|].
  destruct (if 0 <? BaseRate rl then compile_all compile (ExemptUserAgents rl) else _); [done|].
  intros [= <- <-]. simpl. split_and!; [done..| | |].
  - destruct (Z.ltb_spec MaxBatchRPCCallsHardLimit (if maxBatch =? 0 then DefaultMaxBatchRPCCallsLimit else maxBatch)); [reflexivity|done].
  - destruct (Z.eqb_spec upstream 0); done.
  - destruct (sl_Enabled sl); [done|]. by intros [? ?].
Qed.

(** ** Minibatches *)

Lemma numBatches_enough n len : 0 < n → Z.of_nat len ≤ n * Z.of_nat (numBatches n len).
Proof.
  intros Hn. unfold numBatches. rewrite (proj2 (Z.leb_gt n 0)) by done.
  pose proof (Z.div_mod (Z.of_nat len + n - 1) n ltac:(lia)). pose proof (Z.mod_pos_bound (Z.of_nat len + n - 1) n Hn).
  assert (0 ≤ (Z.of_nat len + n - 1) `div` n) by (apply Z.div_pos; lia). rewrite Z2Nat.id by done. nia.
Qed.

Lemma numBatches_tight n len : 0 < n → n * (Z.of_nat (numBatches n len) - 1) < Z.of_nat len ∨ numBatches n len = 0%nat.
Proof.
  intros Hn. unfold numBatches. rewrite (proj2 (Z.leb_gt n 0)) by done.
  pose proof (Z.div_mod (Z.of_nat len + n - 1) n ltac:(lia)). pose proof (Z.mod_pos_bound (Z.of_nat len + n - 1) n Hn).
  assert (0 ≤ (Z.of_nat len + n - 1) `div` n) by (apply Z.div_pos; lia). rewrite Z2Nat.id by done. left. nia.
Qed.

Lemma minibatches_concat n count elems : (length elems ≤ n * count)%nat → concat (minibatches n count elems) = elems.
Proof.
  revert elems. induction count as [|count IH]; intros elems Hlen; simpl; [destruct elems; [done|simpl in Hlen; lia]|].
  rewrite IH; [apply take_drop|]. rewrite length_drop. lia.
Qed.

Lemma minibatches_sub n count elems b : b ∈ minibatches n count elems → b `sublist_of` elems ∧ (length b ≤ n)%nat.
Proof.
  revert elems. induction count as [|count IH]; intros elems; simpl; [by intros ?%not_elem_of_nil|].
  intros [->|Hin]%elem_of_cons; [split; [apply sublist_take|rewrite length_take; lia]|].
  apply IH in Hin as [Hs Hl]. split; [|done]. etrans; [exact Hs|]. apply sublist_drop.
Qed.

Lemma minibatches_nonempty n count elems b : (0 < n)%nat → (n * (count - 1) < length elems)%nat →
  b ∈ minibatches n count elems → b ≠ [].
Proof.
  intros Hn. revert elems. induction count as [|count IH]; intros elems Hlen; simpl; [by intros ?%not_elem_of_nil|].
  intros [->|Hin]%elem_of_cons.
  - intros E%(f_equal length). rewrite length_take in E. simpl in E. lia.
  - apply (IH (drop n elems)); [|done]. destruct count as [|count]; [by apply not_elem_of_nil in Hin|].
    rewrite length_drop. lia.
Qed.

(** The minibatches of a batch hold its requests in order, none twice and
    none left out; none is empty and none is larger than maxUpstreamBatchSize. *)
Theorem minibatches_partition n elems : 0 < n →
  let mbs := minibatches (Z.to_nat n) (numBatches n (length elems)) elems in
  concat mbs = elems ∧ Forall (λ b, b ≠ [] ∧ Z.of_nat (length b) ≤ n) mbs.
Proof.
  intros Hn mbs. split.
  - apply minibatches_concat. pose proof (numBatches_enough n (length elems) Hn). nia.
  - apply Forall_forall. intros b Hb. split.
    + eapply minibatches_nonempty; [| |exact Hb]; [lia|].
      destruct (numBatches_tight n (length elems) Hn) as [Ht|Hz]; [|unfold mbs in Hb; rewrite Hz in Hb; by apply not_elem_of_nil in Hb].
      destruct (numBatches n (length elems)) as [|k]; [|nia]. unfold mbs in Hb. simpl in Hb. by apply not_elem_of_nil in Hb.
    + apply minibatches_sub in Hb as [_ Hl]. lia.
Qed.

(** ** Every response is put at the place of its request *)

(** A cache whose hits carry the ID of the request. *)
Class RPCCacheSpec (K : Type) `{RPCCache K} :=
  GetRPC_ID req c res c' : cache_GetRPC req c = (inr (Some res), c') → rs_ID res = rq_ID req.
#[export] Instance noop_cache_spec : RPCCacheSpec NoopRPCCache.
Proof. done. Qed.
#[export] Instance rpcCache_spec `{Geth} `{Sha256} `{!Sha256Spec} {C} `{CacheSpec C} : RPCCacheSpec (rpcCache C).
Proof. by intros req c res c' (v & val & _ & _ & ->)%GetRPC_hit. Qed.

Definition answered (l : list (option RPCRes)) (i : nat) : Prop := ∃ r, l !! i = Some (Some r).

(** [l'] has the responses of [l], and one for each of [elems] that satisfies
    [Q]; it has no others. *)
Record fills (Q : RPCReq → RPCRes → Prop) (elems : list batchElem) (l l' : list (option RPCRes)) : Prop := mk_fills {
  fills_length : length l' = length l;
  fills_keep i : answered l i → answered l' i;
  fills_new i r : l' !! i = Some (Some r) → l !! i = Some (Some r) ∨ ∃ e, e ∈ elems ∧ el_Index e = i ∧ Q (el_Req e) r;
  fills_all e : e ∈ elems → (el_Index e < length l)%nat → answered l' (el_Index e)
}.

Lemma fills_nil Q l : fills Q [] l l.
Proof. split; [done|done|auto|]. by intros e ?%not_elem_of_nil. Qed.

Lemma fills_app Q elems1 elems2 l1 l2 l3 :
  fills Q elems1 l1 l2 → fills Q elems2 l2 l3 → fills Q (elems1 ++ elems2) l1 l3.
Proof.
  intros [L1 K1 N1 A1] [L2 K2 N2 A2]. split; [congruence|auto| |].
  - intros i r Hr. destruct (N2 i r Hr) as [Hr2|(e & He & Hi & HQ)]; [destruct (N1 i r Hr2) as [|(e & He & Hi & HQ)]; [by left|]|];
      right; exists e; (split; [apply elem_of_app; auto|done]).
  - intros e [He|He]%elem_of_app Hlt; [apply K2; by apply A1|]. apply A2; [done|congruence].
Qed.

Lemma fills_one (Q : RPCReq → RPCRes → Prop) e r l : Q (el_Req e) r → fills Q [e] l (<[el_Index e := Some r]> l).
Proof.
  intros HQ. split.
  - apply length_insert.
  - intros i [r' Hr']. destruct (decide (i = el_Index e)) as [->|Hne]; [|exists r'; by rewrite list_lookup_insert_ne].
    exists r. apply list_lookup_insert_eq. by eapply lookup_lt_Some.
  - intros i r' Hr'. destruct (decide (i = el_Index e)) as [->|Hne]; [|rewrite list_lookup_insert_ne in Hr' by done; by left].
    right. exists e. split; [by left|]. apply list_lookup_insert_Some in Hr' as [(_ & [= <-] & _)|[]]; done.
  - intros e' ->%list_elem_of_singleton Hlt. exists r. by apply list_lookup_insert_eq.
Qed.

Lemma fills_mono (Q Q' : RPCReq → RPCRes → Prop) elems l l' :
  (∀ req r, Q req r → Q' req r) → fills Q elems l l' → fills Q' elems l l'.
Proof. intros HQ [L1 K1 N1 A1]. split; [done|done| |done]. intros i r Hr. destruct (N1 i r Hr) as [|(e & ? & ? & ?)]; eauto 10. Qed.

Lemma fills_perm Q elems elems' l l' : elems ≡ₚ elems' → fills Q elems l l' → fills Q elems' l l'.
Proof.
  intros Hp [L1 K1 N1 A1]. split; [done|done| |].
  - intros i r Hr. destruct (N1 i r Hr) as [|(e & He & ?)]; [by left|right]. exists e. by rewrite <-Hp.
  - intros e. rewrite <-Hp. apply A1.
Qed.

(** A response made without a backend: under the request's ID, or under none
    when the request is not valid. *)
Definition local_answer (raw : string) (r : RPCRes) : Prop :=
  match ParseRPCReq raw with
  | inl err => r = NewRPCErrorRes "" err
  | inr req => rs_ID r = rq_ID req ∨ (ValidateRPCReq req ≠ None ∧ rs_ID r = "")
  end.

Section served.
Context {LM : Type} `{LinkedHashMap LM} `{Geth} {W : Type} `{Env W} `{Order W} `{WeightedShuffle W} `{Deadline W}.
Context {T : Type} `{ConsensusTracker T} {L : Type} `{Limiter L} {K : Type} `{RPCCache K} `{!RPCCacheSpec K} `{TxCodec}.

(** Where the response [r] to an accepted request comes from: the cache or an
    error, under the request's own ID, or the same place of the responses to one
    call of the backend group [group], with at most maxUpstreamBatchSize
    requests of distinct IDs. *)
Definition origin (srv : Server T) (ctx : Ctx) (isBatch : bool) (group : string) (req : RPCReq) (r : RPCRes) : Prop :=
  rs_ID r = rq_ID req ∨
  ∃ bg consensus reqs (g g' : group_state LM W) resp reqs' j,
    BackendGroups srv !! group = Some (bg, consensus) ∧
    group_Forward bg consensus ctx reqs isBatch g = Ret ((resp, reqs'), g') ∧ bg_error resp = None ∧
    NoDup (rq_ID <$> reqs) ∧ Z.of_nat (length reqs) ≤ maxUpstreamBatchSize srv ∧
    reqs !! j = Some req ∧ bg_RPCRes resp !! j = Some r.

Lemma serve_cached_fills elems pg (s s' : server_state LM W L K) pg' misses :
  serve_cached elems pg s = Ret ((pg', misses), s') →
  ∃ hits, elems ≡ₚ (hits ++ misses)%list ∧ misses `sublist_of` elems ∧
    fills (λ req r, rs_ID r = rq_ID req) hits (pg_responses pg) (pg_responses pg').
Proof.
  revert pg s pg' misses. induction elems as [|e elems IH]; intros pg s pg' misses HR.
  { injection HR as <- <- <-. exists []. split_and!; [done|done|]. apply fills_nil. }
  cbn [serve_cached] in HR. run_step HR s0 s1 H1'. injection H1' as <- <-.
  destruct (cache_GetRPC (el_Req e) (sv_cache s)) as [r c] eqn:Ec. run_step HR u s1 H1'. injection H1' as _ <-.
  assert (Hmiss : ∀ s1, ('(pg, misses) ← serve_cached elems pg; mret (pg, e :: misses)) s1 = Ret ((pg', misses), s') →
    ∃ hits, e :: elems ≡ₚ (hits ++ misses)%list ∧ misses `sublist_of` (e :: elems) ∧
    fills (λ req r, rs_ID r = rq_ID req) hits (pg_responses pg) (pg_responses pg')).
  { intros s1 HM. run_step HM t s2 H2'. destruct t as [pg1 m1]. injection HM as <- <- <-.
    apply IH in H2' as (hits & Hp & Hs & Hf). exists hits. split_and!; [|by constructor|done].
    rewrite Hp. apply Permutation_middle. }
  destruct r as [err|[res|]]; [by eapply Hmiss| |by eapply Hmiss].
  apply IH in HR as (hits & Hp & Hs & Hf). exists (e :: hits). split_and!; [by rewrite Hp|by constructor|].
  apply (fills_app _ [e] hits _ (<[el_Index e := Some res]> (pg_responses pg))); [|exact Hf].
  apply fills_one. by eapply GetRPC_ID.
Qed.

Lemma place_fills elems reqs res pg (s s' : server_state LM W L K) pg' (Q : RPCReq → RPCRes → Prop) :
  place elems reqs res pg s = Ret (pg', s') →
  (∀ j e r, elems !! j = Some e → res !! j = Some r → Q (el_Req e) r) →
  fills Q elems (pg_responses pg) (pg_responses pg').
Proof.
  revert reqs res pg s. induction elems as [|e elems IH]; intros reqs res pg s HR HQ.
  { injection HR as <- _. apply fills_nil. }
  cbn [place] in HR. destruct res as [|r res]; [done|]. destruct reqs as [|req reqs]; [done|].
  run_step HR u s1 H1'. apply IH in HR; [|intros j e' r' He Hr; by apply (HQ (Datatypes.S j))].
  apply (fills_app _ [e] elems _ (<[el_Index e := Some r]> (pg_responses pg))); [|exact HR].
  apply fills_one. by apply (HQ 0%nat).
Qed.

Lemma forward_minibatches_fills (srv : Server T) ctx isBatch group mbs pg (s s' : server_state LM W L K) pg' :
  Forall (λ b, NoDup (rq_ID <$> createBatchRequest b) ∧ Z.of_nat (length b) ≤ maxUpstreamBatchSize srv) mbs →
  forward_minibatches srv ctx isBatch group mbs pg s = Ret (inr pg', s') →
  fills (origin srv ctx isBatch group) (concat mbs) (pg_responses pg) (pg_responses pg').
Proof.
  intros Hmbs. revert pg s. induction Hmbs as [|elems mbs [Hnd Hlen] _ IH]; intros pg s HR.
  { injection HR as <- _. apply fills_nil. }
  cbn [forward_minibatches] in HR. run_step HR expired s1 H1'. destruct expired; [done|].
  destruct (BackendGroups srv !! group) as [[bg consensus]|] eqn:Hg; [|done].
  run_step HR t s2 H2'. destruct t as [resp reqs']. unfold on_group in H2'.
  destruct (group_Forward bg consensus ctx (createBatchRequest elems) isBatch (sv_group s1)) as [[a g]|] eqn:HF; [|done].
  injection H2' as -> _. cbn [concat].
  destruct (bg_error resp) as [err|] eqn:He.
  - destruct (receipts_error err); [done|]. run_step HR pg1 s3 H3'. apply IH in HR.
    eapply fills_app; [|exact HR]. apply (place_fills _ _ _ _ _ _ _ _ H3').
    intros j e r Hj Hr. rewrite list_lookup_fmap, Hj in Hr. injection Hr as <-. by left.
  - run_step HR pg1 s3 H3'. apply IH in HR. eapply fills_app; [|exact HR]. apply (place_fills _ _ _ _ _ _ _ _ H3').
    intros j e r Hj Hr. right. exists bg, consensus, (createBatchRequest elems), (sv_group s1), g, resp, reqs', j.
    split_and!; try done.
    + unfold createBatchRequest. by rewrite length_fmap.
    + unfold createBatchRequest. by rewrite list_lookup_fmap, Hj.
Qed.

Lemma serve_batch_fills (srv : Server T) ctx isBatch group elems pg (s s' : server_state LM W L K) pg' :
  0 < maxUpstreamBatchSize srv → NoDup (rq_ID <$> createBatchRequest elems) →
  serve_batch srv ctx isBatch group elems pg s = Ret (inr pg', s') →
  fills (origin srv ctx isBatch group) elems (pg_responses pg) (pg_responses pg').
Proof.
  intros Hmax Hnd HR. unfold serve_batch in HR. run_step HR t s1 H1'. destruct t as [pg1 misses].
  apply serve_cached_fills in H1' as (hits & Hp & Hsub & Hhits).
  eapply fills_perm; [symmetry; exact Hp|]. eapply fills_app; [eapply fills_mono; [|exact Hhits]; by left|].
  pose proof (numBatches_enough (maxUpstreamBatchSize srv) (length misses) Hmax) as Hn.
  rewrite <-(minibatches_concat (Z.to_nat (maxUpstreamBatchSize srv)) (numBatches (maxUpstreamBatchSize srv) (length misses)) misses) at 1 by nia.
  eapply forward_minibatches_fills; [|exact HR].
  apply Forall_forall. intros b [Hs Hl]%minibatches_sub. split; [|lia].
  eapply sublist_NoDup; [exact Hnd|]. unfold createBatchRequest. do 2 apply fmap_sublist. by etrans.
Qed.

Lemma serve_batches_fills (srv : Server T) ctx isBatch batches pg (s s' : server_state LM W L K) pg' :
  0 < maxUpstreamBatchSize srv → Forall (λ b, NoDup (rq_ID <$> createBatchRequest b.2)) batches →
  serve_batches srv ctx isBatch batches pg s = Ret (inr pg', s') →
  length (pg_responses pg') = length (pg_responses pg) ∧
  (∀ i, answered (pg_responses pg) i → answered (pg_responses pg') i) ∧
  (∀ i r, pg_responses pg' !! i = Some (Some r) → pg_responses pg !! i = Some (Some r) ∨
    ∃ k elems e, (k, elems) ∈ batches ∧ e ∈ elems ∧ el_Index e = i ∧ origin srv ctx isBatch k.2 (el_Req e) r) ∧
  (∀ k elems e, (k, elems) ∈ batches → e ∈ elems → (el_Index e < length (pg_responses pg))%nat →
    answered (pg_responses pg') (el_Index e)).
Proof.
  intros Hmax Hnd. revert pg s. induction Hnd as [|[[n group] elems] batches Hnd _ IH]; intros pg s HR.
  { injection HR as <- _. split_and!; [done|done|auto|]. by intros ??? ?%not_elem_of_nil. }
  cbn [serve_batches] in HR. run_step HR r s1 H1'. destruct r as [err|pg1]; [done|].
  apply serve_batch_fills in H1' as [L1 K1 N1 A1]; [|done|done].
  apply IH in HR as (L2 & K2 & N2 & A2). split_and!; [congruence|auto| |].
  - intros i r Hr. destruct (N2 i r Hr) as [Hr1|(k & es & e & Hin & He & Hi & HO)].
    + destruct (N1 i r Hr1) as [|(e & He & Hi & HO)]; [by left|]. right. exists (n, group), elems, e. split; [by left|done].
    + right. exists k, es, e. split; [by right|done].
  - intros k es e [[= -> ->]|Hin]%elem_of_cons He Hlt; [by apply K2, A1|]. eapply A2; [done|done|congruence].
Qed.

(** The plan after some of the requests: a place for each of them; those that
    have no response yet are in exactly one batch, whose IDs are distinct, with
    the request as parsed, under the group its method is mapped to. *)
Record plan_ok (srv : Server T) (raws : list string) (p : plan) : Prop := mk_plan_ok {
  plan_length : length (pl_responses p) = length raws;
  plan_elem k elems e : pl_batches p !! k = Some elems → e ∈ elems →
    pl_responses p !! el_Index e = Some None ∧
    (∃ raw, raws !! el_Index e = Some raw ∧ ParseRPCReq raw = inr (el_Req e)) ∧
    ValidateRPCReq (el_Req e) = None ∧ rpcMethodMappings srv !! rq_Method (el_Req e) = Some k.2;
  plan_some i : pl_responses p !! i = Some None →
    ∃ k elems e, pl_batches p !! k = Some elems ∧ e ∈ elems ∧ el_Index e = i;
  plan_once k1 elems1 e1 k2 elems2 e2 : pl_batches p !! k1 = Some elems1 → pl_batches p !! k2 = Some elems2 →
    e1 ∈ elems1 → e2 ∈ elems2 → el_Index e1 = el_Index e2 → k1 = k2 ∧ e1 = e2;
  plan_distinct k elems : pl_batches p !! k = Some elems → NoDup (rq_ID <$> createBatchRequest elems);
  plan_local i r : pl_responses p !! i = Some (Some r) → ∃ raw, raws !! i = Some raw ∧ local_answer raw r;
  plan_seen k elems e : pl_batches p !! k = Some elems → e ∈ elems →
    (k.1 ≤ default 0 (pl_ids p !! rq_ID (el_Req e)))%nat
}.

Lemma plan_ok_empty srv : plan_ok srv [] (mk_plan [] ∅ ∅).
Proof. by split. Qed.

Lemma plan_ok_response srv raws p raw r :
  plan_ok srv raws p → local_answer raw r → plan_ok srv (raws ++ [raw])%list (add_response p r).
Proof.
  intros Hp Hr. pose proof (plan_length _ _ _ Hp) as Hlen. split; simpl.
  - rewrite !length_app. simpl. lia.
  - intros k elems e Hk He. destruct (plan_elem _ _ _ Hp k elems e Hk He) as (HN & (raw' & Hraw & HP) & ? & ?).
    split_and!; [by apply lookup_app_l_Some|exists raw'; split; [by apply lookup_app_l_Some|done]|done|done].
  - intros i [Hi|[_ Hi]]%lookup_app_Some; [by apply (plan_some _ _ _ Hp)|].
    destruct (i - _)%nat; [done|]. by destruct n.
  - apply (plan_once _ _ _ Hp).
  - apply (plan_distinct _ _ _ Hp).
  - intros i r' [Hi|[Hge Hi]]%lookup_app_Some.
    + destruct (plan_local _ _ _ Hp i r' Hi) as (raw' & Hraw & ?). exists raw'. split; [by apply lookup_app_l_Some|done].
    + destruct (i - length (pl_responses p))%nat as [|[]] eqn:Ei; [|done|done]. injection Hi as <-.
      exists raw. split; [|done]. rewrite lookup_app_r by lia. by replace (i - length raws)%nat with 0%nat by lia.
  - apply (plan_seen _ _ _ Hp).
Qed.

(** What a batch of the new plan has: the elements it had, and the new one in
    the batch of its key. *)
Lemma add_elem_batch p req group k elems e : pl_batches (add_elem p req group) !! k = Some elems → e ∈ elems →
  (∃ elems', pl_batches p !! k = Some elems' ∧ e ∈ elems') ∨
  (k = (Datatypes.S (default 0%nat (pl_ids p !! rq_ID req)), group) ∧ e = mk_elem req (length (pl_responses p))).
Proof.
  unfold add_elem; cbn [pl_batches]. intros [[<- <-]|[Hne Hk]]%lookup_insert_Some He; [|left; by exists elems].
  apply elem_of_app in He as [He| ->%list_elem_of_singleton]; [|by right].
  left. destruct (pl_batches p !! _) as [es|] eqn:Hk; [by exists es|by apply not_elem_of_nil in He].
Qed.

Lemma add_elem_kept p req group k elems e : pl_batches p !! k = Some elems → e ∈ elems →
  ∃ elems', pl_batches (add_elem p req group) !! k = Some elems' ∧ e ∈ elems'.
Proof.
  intros Hk He. unfold add_elem; cbn [pl_batches]. set (key := (_, group) : batchGroup). destruct (decide (key = k)) as [<-|Hne].
  - exists (elems ++ [mk_elem req (length (pl_responses p))])%list. rewrite lookup_insert_eq.
    split; [by rewrite Hk|]. apply elem_of_app. by left.
  - exists elems. by rewrite lookup_insert_ne.
Qed.

Lemma plan_index srv raws p k elems e : plan_ok srv raws p → pl_batches p !! k = Some elems → e ∈ elems →
  (el_Index e < length (pl_responses p))%nat.
Proof. intros Hp Hk He. destruct (plan_elem _ _ _ Hp k elems e Hk He) as [HN _]. by eapply lookup_lt_Some. Qed.

(** A new element's ID is not in the batch it joins: that batch is numbered past
    the times the ID was seen. *)
Lemma add_elem_distinct srv raws p req group k elems : plan_ok srv raws p →
  pl_batches (add_elem p req group) !! k = Some elems → NoDup (rq_ID <$> createBatchRequest elems).
Proof.
  intros Hp. unfold add_elem; cbn [pl_batches]. intros [[<- <-]|[Hne Hk]]%lookup_insert_Some; [|by eapply plan_distinct].
  destruct (pl_batches p !! _) as [es|] eqn:Hk; simpl; [|apply NoDup_singleton].
  unfold createBatchRequest. rewrite !fmap_app. apply NoDup_app. split_and!; [by eapply plan_distinct| |apply NoDup_singleton].
  intros id (r & -> & (e & -> & He)%list_elem_of_fmap)%list_elem_of_fmap Heq%list_elem_of_singleton.
  pose proof (plan_seen _ _ _ Hp _ _ _ Hk He) as Hs. simpl in Hs, Heq. rewrite Heq in Hs. lia.
Qed.

Lemma plan_ok_elem srv raws p raw req group :
  plan_ok srv raws p → ParseRPCReq raw = inr req → ValidateRPCReq req = None →
  rpcMethodMappings srv !! rq_Method req = Some group → plan_ok srv (raws ++ [raw])%list (add_elem p req group).
Proof.
  intros Hp HP HV HM. pose proof (plan_length _ _ _ Hp) as Hlen. split.
  - simpl. rewrite !length_app. simpl. lia.
  - intros k elems e Hk He. destruct (add_elem_batch _ _ _ _ _ _ Hk He) as [(es & Hk' & He')|[-> ->]].
    + destruct (plan_elem _ _ _ Hp k es e Hk' He') as (HN & (raw' & Hraw & HP') & ? & ?).
      split_and!; [by apply lookup_app_l_Some|exists raw'; split; [by apply lookup_app_l_Some|done]|done|done].
    + simpl. split_and!; [by apply list_lookup_middle|exists raw; split; [by apply list_lookup_middle|done]|done|done].
  - intros i [Hi|[Hge Hi]]%lookup_app_Some.
    + destruct (plan_some _ _ _ Hp i Hi) as (k & es & e & Hk & He & <-).
      destruct (add_elem_kept p req group k es e Hk He) as (es' & ? & ?). by exists k, es', e.
    + destruct (i - length (pl_responses p))%nat as [|[]] eqn:Ei; [|done|done].
      eexists _, _, (mk_elem req (length (pl_responses p))). split_and!; [by apply lookup_insert_eq| |simpl; lia].
      apply elem_of_app. right. by left.
  - intros k1 es1 e1 k2 es2 e2 Hk1 Hk2 He1 He2 Hi.
    destruct (add_elem_batch _ _ _ _ _ _ Hk1 He1) as [(es1' & Hk1' & He1')|[-> ->]],
      (add_elem_batch _ _ _ _ _ _ Hk2 He2) as [(es2' & Hk2' & He2')|[-> ->]].
    + exact (plan_once _ _ _ Hp _ _ _ _ _ _ Hk1' Hk2' He1' He2' Hi).
    + pose proof (plan_index _ _ _ _ _ _ Hp Hk1' He1'). simpl in Hi. lia.
    + pose proof (plan_index _ _ _ _ _ _ Hp Hk2' He2'). simpl in Hi. lia.
    + done.
  - intros k elems. by eapply add_elem_distinct.
  - intros i r [Hi|[Hge Hi]]%lookup_app_Some.
    + destruct (plan_local _ _ _ Hp i r Hi) as (raw' & Hraw & ?). exists raw'. split; [by apply lookup_app_l_Some|done].
    + by destruct (i - length (pl_responses p))%nat as [|[]].
  - intros k elems e Hk He. destruct (add_elem_batch _ _ _ _ _ _ Hk He) as [(es & Hk' & He')|[-> ->]]; simpl.
    + pose proof (plan_seen _ _ _ Hp k es e Hk' He') as Hs. destruct (decide (rq_ID req = rq_ID (el_Req e))) as [->|Hne].
      * rewrite lookup_insert_eq. simpl. lia.
      * by rewrite lookup_insert_ne.
    + by rewrite lookup_insert_eq.
Qed.

Lemma examine_spec (srv : Server T) exempt xff single raw (s s' : server_state LM W L K) v :
  examine srv exempt xff single raw s = Ret (v, s') →
  match v with
  | Healthz r => single = true ∧ local_answer raw r
  | Answered r => local_answer raw r
  | Accepted req group =>
      ParseRPCReq raw = inr req ∧ ValidateRPCReq req = None ∧ rpcMethodMappings srv !! rq_Method req = Some group
  end.
Proof.
  unfold examine, local_answer. intros HR. destruct (ParseRPCReq raw) as [err|req]; [by injection HR as <- <-|].
  destruct (single && _) eqn:Eh; [injection HR as <- <-; apply andb_prop in Eh as [-> _]; by auto|].
  destruct (ValidateRPCReq req) as [err|] eqn:EV; [injection HR as <- <-; by auto|].
  destruct (String.eqb _ "eth_accounts"); [injection HR as <- <-; by auto|]. cbv zeta in HR.
  destruct (String.eqb (default _ _) "") eqn:Eg in HR; [injection HR as <- <-; by auto|].
  run_step HR limited s1 H1'. destruct limited; [injection HR as <- <-; by auto|].
  run_step HR lims s2 H2'. run_step HR limited s3 H3'. destruct limited; [injection HR as <- <-; by auto|].
  run_step HR sender s4 H4'. run_step HR err s5 H5'. destruct err as [err|]; injection HR as <- <-; [by auto|].
  split_and!; [done|done|]. by destruct (rpcMethodMappings srv !! _).
Qed.

Lemma make_plan_ok (srv : Server T) exempt xff single raws : ∀ seen p (s s' : server_state LM W L K) r,
  plan_ok srv seen p → make_plan srv exempt xff single p raws s = Ret (r, s') →
  match r with
  | inl res => single = true ∧ ∃ raw, raw ∈ raws ∧ local_answer raw res
  | inr p' => plan_ok srv (seen ++ raws)%list p'
  end.
Proof.
  induction raws as [|raw raws IH]; intros seen p s s' r Hp HR.
  { injection HR as <- _. by rewrite app_nil_r. }
  cbn [make_plan] in HR. run_step HR v s1 H1'. apply examine_spec in H1'.
  replace (seen ++ raw :: raws)%list with ((seen ++ [raw]) ++ raws)%list by (by rewrite <-app_assoc).
  destruct v as [res|res|req group].
  - injection HR as <- _. destruct H1' as [-> Hl]. split; [done|]. exists raw. split; [by left|done].
  - eapply IH in HR; [|by apply plan_ok_response]. destruct r as [res'|p']; [|done].
    destruct HR as (-> & raw' & Hin & Hl). split; [done|]. exists raw'. split; [by right|done].
  - destruct H1' as (HP & HV & HM). eapply IH in HR; [|by apply plan_ok_elem]. destruct r as [res'|p']; [|done].
    destruct HR as (-> & raw' & Hin & Hl). split; [done|]. exists raw'. split; [by right|done].
Qed.

(** C2: the loop over the requests of a set gives each of them a place. One it
    refuses or answers itself has its response there. One it accepts is in
    exactly one batch, as parsed and valid, for the group its method is mapped
    to, and the requests of a batch have distinct IDs. *)
Theorem plan_sound (srv : Server T) exempt xff single raws (s s' : server_state LM W L K) p :
  make_plan srv exempt xff single (mk_plan [] ∅ ∅) raws s = Ret (inr p, s') → plan_ok srv raws p.
Proof. intros HR. exact (make_plan_ok srv exempt xff single raws [] _ s s' _ (plan_ok_empty srv) HR). Qed.

Lemma sv_world_eq {A} (f : W → A * W) (s s' : server_state LM W L K) a : sv_world f s = Ret (a, s') →
  a = (f (g_world (sv_group s))).1.
Proof. unfold sv_world, on_group, in_world. destruct (f _) as [x w] eqn:E. simpl. by intros [= <- _]. Qed.


(** ** Admission *)

Lemma read_body_ok b limit out : read_body b limit = (out, None) →
  out = body_text b ∧ Z.of_nat (String.length out) ≤ limit.
Proof.
  destruct (read_all_limited (2 + String.length (body_text b)) 0 (λ _, 512%nat) "" b limit) as (out' & err & HR & Ho).
  { intros _. apply Nat.lt_0_succ. }
  { simpl. lia. }
  unfold read_body. rewrite HR. simpl. intros [= -> ->].
  destruct Ho as [(_ & -> & Hle)|[[? _]|(? & ? & _)]]; [|done|done]. split; [done|exact Hle].
Qed.

(** What [HandleRPC] asks of a request before it touches anything: a path with a
    known secret where paths are authenticated, a remote IP, a body within the
    limit and, for a batch, an array of 1 to maxBatchSize elements. *)
Definition admitted (srv : Server T) (r : http_in) : Prop :=
  ∃ ctx, populateContext srv r = Some ctx ∧
    (authenticatedPaths srv ≠ ∅ → ∃ name, authenticatedPaths srv !! in_authorization r = Some name ∧ name ≠ "") ∧
    stripXFF (ctx_xff ctx) ≠ "" ∧
    Z.of_nat (String.length (body_text (in_Body r))) ≤ maxBodySize srv ∧
    (IsBatch (body_text (in_Body r)) = true → ∃ reqs, ParseBatchRPCReq (body_text (in_Body r)) = inr reqs ∧
      1 ≤ Z.of_nat (length reqs) ≤ maxBatchSize srv).

Lemma populateContext_authenticated (srv : Server T) r ctx : populateContext srv r = Some ctx → authenticatedPaths srv ≠ ∅ →
  ∃ name, authenticatedPaths srv !! in_authorization r = Some name ∧ name ≠ "".
Proof.
  unfold populateContext. intros HP Hne. rewrite decide_False in HP by done.
  destruct (authenticatedPaths srv !! in_authorization r) as [name|]; [|by rewrite orb_true_r in HP].
  exists name. split; [done|]. intros ->. by rewrite orb_true_r in HP.
Qed.

(** C14: a request that is not admitted gets 401 or a JSON-RPC error without an
    ID, and leaves the limiters, the cache and the backends as they were. *)
Theorem refused_untouched (srv : Server T) r (s : server_state LM W L K) :
  admitted srv r ∨
  (populateContext srv r = None ∧ HandleRPC srv r s = Ret (mk_reply 401 [] "", s)) ∨
  ∃ err, HandleRPC srv r s = Ret (writeRPCError "" err, s).
Proof.
  unfold HandleRPC. destruct (populateContext srv r) as [ctx|] eqn:HP; [|by right; left].
  destruct (String.eqb_spec (stripXFF (ctx_xff ctx)) "") as [|Hip]; [right; right; by eexists|].
  destruct (read_body (in_Body r) (maxBodySize srv)) as [body [e|]] eqn:HB.
  { destruct (errors_Is_plain e ErrLimitReaderOverLimit); right; right; by eexists. }
  apply read_body_ok in HB as [-> Hsize].
  assert (Hadm : (IsBatch (body_text (in_Body r)) = true → ∃ reqs, ParseBatchRPCReq (body_text (in_Body r)) = inr reqs ∧
    1 ≤ Z.of_nat (length reqs) ≤ maxBatchSize srv) → admitted srv r).
  { intros Hb. exists ctx. split_and!; [done|by eapply populateContext_authenticated|done|done|done]. }
  destruct (IsBatch (body_text (in_Body r))) eqn:HI; [|left; by apply Hadm].
  destruct (ParseBatchRPCReq (body_text (in_Body r))) as [e|reqs] eqn:HPB; [right; right; by eexists|].
  destruct (Z.ltb_spec (maxBatchSize srv) (Z.of_nat (length reqs))); [right; right; by eexists|].
  destruct reqs as [|req reqs]; [right; right; by eexists|].
  left. apply Hadm. intros _. exists (req :: reqs). split; [done|]. simpl in *. lia.
Qed.

(** ** Rate limits *)

Lemma isLimited_spec (srv : Server T) exempt xff method (s s' : server_state LM W L K) b :
  isLimited srv exempt xff method s = Ret (b, s') →
  senderLim s' = senderLim s ∧ (∀ m, m ≠ method → get_lim m s' = get_lim m s) ∧
  (b = false → ∀ l0, get_lim method s = Some l0 →
    (exempt = true ∧ isGlobalLimit srv method = false ∧ get_lim method s' = Some l0) ∨
    ∃ now l, lim_Take now xff l0 = ((true, None), l) ∧ get_lim method s' = Some l).
Proof.
  unfold isLimited. destruct (negb (isGlobalLimit srv method) && exempt) eqn:Ee.
  { intros [= <- <-]. apply andb_prop in Ee as [Hg ->]. apply negb_true_iff in Hg. split_and!; [done|done|]. auto. }
  intros HR. run_step HR lim s1 H1'. injection H1' as <- <-. destruct (get_lim method s) as [l0|] eqn:El.
  2: { injection HR as <- <-. split_and!; [done|done|]. by intros _ ?. }
  run_step HR now s2 H2'. unfold sv_world, on_group, in_world in H2'. destruct (time_Now _) as [t w].
  injection H2' as <- <-. destruct (lim_Take t xff l0) as [[ok err] l] eqn:ET.
  run_step HR u s3 H3'. injection H3' as _ <-. injection HR as <- <-. unfold set_lim, get_lim.
  destruct (String.eqb_spec method "") as [->|Hne]; simpl.
  - split_and!; [done| |].
    + intros m Hm. destruct (String.eqb_spec m ""); done.
    + intros Hb l1 [= <-]. right. exists t, l. destruct err; [done|]. by destruct ok.
  - split_and!; [done| |].
    + intros m Hm. destruct (String.eqb_spec m ""); [done|]. by rewrite lookup_insert_ne.
    + intros Hb l1 [= <-]. right. exists t, l. destruct err; [done|]. rewrite lookup_insert_eq. by destruct ok.
Qed.

(** The transaction a request carries, when the server can decode it and its
    chain is allowed; the key it is limited by. *)
Definition sender_key (srv : Server T) (req : RPCReq) (key : string) : Prop :=
  ∃ param data tx from, unmarshal_strings (rq_Params req) = Some [param] ∧ Bytes_UnmarshalText param = inr data ∧
    tx_UnmarshalBinary data = inr tx ∧ isAllowedChainId srv (tx_ChainId tx) = true ∧ tx_Sender tx = inr from ∧
    key = from +:+ ":" +:+ pretty (tx_Nonce tx).

Lemma rateLimitSender_spec (srv : Server T) lim req (s s' : server_state LM W L K) :
  rateLimitSender srv lim req s = Ret (None, s') →
  (∀ m, get_lim m s' = get_lim m s) ∧
  ∃ key now l, sender_key srv req key ∧ lim_Take now key lim = ((true, None), l) ∧ senderLim s' = Some l.
Proof.
  unfold rateLimitSender. destruct (unmarshal_strings (rq_Params req)) as [[|param []]|] eqn:Eu; [done| |done|done].
  destruct (Bytes_UnmarshalText param) as [|data] eqn:Eb; [done|].
  destruct (tx_UnmarshalBinary data) as [|tx] eqn:Et; [done|].
  destruct (isAllowedChainId srv (tx_ChainId tx)) eqn:Ec; [cbn [negb]|done].
  destruct (tx_Sender tx) as [|from] eqn:Es; [done|].
  intros HR. run_step HR now s2 H2'. unfold sv_world, on_group, in_world in H2'. destruct (time_Now _) as [t w].
  injection H2' as <- <-. destruct (lim_Take t (from +:+ ":" +:+ pretty (tx_Nonce tx)) lim) as [[ok err] l] eqn:ET.
  run_step HR u s3 H3'. injection H3' as _ <-. destruct err; [done|]. destruct ok; [|done]. injection HR as <-.
  split; [done|]. eexists _, t, l. split; [by exists param, data, tx, from|]. done.
Qed.

Lemma valid_method req : ValidateRPCReq req = None → rq_Method req ≠ "".
Proof. unfold ValidateRPCReq. intros HV Em. rewrite Em in HV. simpl in HV. by destruct (negb _). Qed.

Lemma get_lim_method m : m ≠ "" → ∀ st : server_state LM W L K, get_lim m st = overrideLims st !! m.
Proof. intros Hne st. unfold get_lim. by destruct (String.eqb_spec m ""). Qed.

(** C13: a request is accepted only when every limiter that applies to it
    granted it in this call and was updated: the base limiter and the limiter of
    its method, for the remote IP, unless the origin or user agent is exempt and
    the limit is not global; the sender limiter, for the sender and nonce of the
    transaction, whose chain is allowed. *)
Theorem accepted_within_limits (srv : Server T) exempt xff single raw (s s' : server_state LM W L K) req group :
  examine srv exempt xff single raw s = Ret (Accepted req group, s') →
  ((exempt = true ∧ mainLim s' = mainLim s) ∨
    ∃ now, lim_Take now xff (mainLim s) = ((true, None), mainLim s')) ∧
  (∀ l0, overrideLims s !! rq_Method req = Some l0 →
    (exempt = true ∧ isGlobalLimit srv (rq_Method req) = false) ∨
    ∃ now l, lim_Take now xff l0 = ((true, None), l) ∧ overrideLims s' !! rq_Method req = Some l) ∧
  (∀ l0, senderLim s = Some l0 → rq_Method req = "eth_sendRawTransaction" →
    ∃ key now l, sender_key srv req key ∧ lim_Take now key l0 = ((true, None), l) ∧ senderLim s' = Some l).
Proof.
  unfold examine. intros HR. destruct (ParseRPCReq raw) as [err|rq]; [done|]. destruct (single && _); [done|].
  destruct (ValidateRPCReq rq) as [err|] eqn:EV; [done|]. destruct (String.eqb _ "eth_accounts"); [done|].
  cbv zeta in HR. destruct (String.eqb (default _ _) "") in HR; [done|].
  run_step HR limited s1 H1'. destruct limited; [done|]. apply isLimited_spec in H1' as (HS1 & HF1 & HG1).
  run_step HR lims s1' Hl. injection Hl as <- <-. run_step HR limited s3 H3'. destruct limited; [done|].
  run_step HR sender s3' Hl. injection Hl as <- <-. run_step HR err s4 H4'. destruct err as [|]; [done|].
  injection HR as -> _ ->.
  apply valid_method in EV as Hne. pose proof (get_lim_method _ Hne) as Hget.
  assert (Hov : senderLim s3 = senderLim s1 ∧ get_lim "" s3 = get_lim "" s1 ∧
    ∀ l0, overrideLims s1 !! rq_Method req = Some l0 → (exempt = true ∧ isGlobalLimit srv (rq_Method req) = false) ∨
      ∃ now l, lim_Take now xff l0 = ((true, None), l) ∧ overrideLims s3 !! rq_Method req = Some l).
  { destruct (overrideLims s1 !! rq_Method req) as [l1|] eqn:E1; [|by injection H3' as ->].
    apply isLimited_spec in H3' as (? & HF & HG). split_and!; [done|by apply HF|].
    intros l0 [= <-]. rewrite !Hget in HG. destruct (HG eq_refl l1 E1) as [(? & ? & _)|?]; auto. }
  assert (Hse : (∀ m, get_lim m s' = get_lim m s3) ∧ (∀ l0, senderLim s3 = Some l0 → rq_Method req = "eth_sendRawTransaction" →
    ∃ key now l, sender_key srv req key ∧ lim_Take now key l0 = ((true, None), l) ∧ senderLim s' = Some l)).
  { destruct (senderLim s3) as [lim|]; [|by injection H4' as ->].
    destruct (String.eqb_spec (rq_Method req) "eth_sendRawTransaction"); [|by injection H4' as ->].
    apply rateLimitSender_spec in H4' as [HF HK]. split; [done|]. by intros l0 [= <-]. }
  destruct Hov as (HS3 & HM3 & HO3), Hse as [HF4 HK4]. split_and!.
  - destruct (HG1 eq_refl (mainLim s) eq_refl) as [(-> & _ & HM)|(now & l & HT & HM)]; [left|right; exists now];
      rewrite <-HM3, <-HF4 in HM; injection HM as <-; done.
  - intros l0 Hl0. rewrite <-Hget, <-(HF1 _ Hne), Hget in Hl0. destruct (HO3 l0 Hl0) as [|(now & l & HT & Hl)]; [by left|].
    right. exists now, l. split; [done|]. by rewrite <-Hget, HF4, Hget.
  - intros l0 Hl0. rewrite <-HS1, <-HS3 in Hl0. by apply HK4.
Qed.
End served.

(** ** WebSocket connections *)

#[export] Instance recording_upgrader {W} `{Upgrader W} : Upgrader (W * list ws_event) := {|
  ws_Upgrade w := let '(e, w1) := ws_Upgrade w.1 in (e, (w1, w.2));
  SetReadLimit n w := (SetReadLimit n w.1, w.2);
|}.

Section ws_connections.
Context {LM : Type} `{LinkedHashMap LM} `{Geth} {W : Type} `{Env W} `{WsConns W} `{Upgrader W}.
Context {T : Type} `{ConsensusTracker T} {L K : Type}.

(** What was read from and written to the connections so far. *)
Definition ws_log (s : server_state LM (W * list ws_event) L K) : list ws_event := (g_world (sv_group s)).2.

Lemma on_world_run {A} (m : M (W * list ws_event) A) (s s' : server_state LM (W * list ws_event) L K) a :
  on_world m s = Ret (a, s') → m (g_world (sv_group s)) = Ret (a, g_world (sv_group s')).
Proof. unfold on_world. destruct (m _) as [[x w]|]; [|done]. by intros [= <- <-]. Qed.

(** C9: whatever a client and a backend send over a WebSocket connection and
    however the two pumps of the proxy interleave, every data message written
    to the backend is a message read from the client, byte for byte, that parses
    as a request for a method of the server's whitelist other than eth_accounts;
    and without the right path nothing happens. *)
Theorem ws_forwards_only_whitelisted (srv : Server T) r schedule (s s' : server_state LM (W * list ws_event) L K) reply :
  HandleWS srv r schedule s = Ret (reply, s') → filtered (wsMethodWhitelist srv) (ws_log s) →
  filtered (wsMethodWhitelist srv) (ws_log s') ∧
  (populateContext srv r = None → s' = s ∧ reply = Some (mk_reply 401 [] "")).
Proof.
  unfold HandleWS, ws_log. intros HR Hf. destruct (populateContext srv r); [split; [|done]|by injection HR as <- <-].
  run_step HR err s1 H1'. apply on_world_run in H1'.
  assert (Hs1 : (g_world (sv_group s1)).2 = (g_world (sv_group s)).2).
  { injection H1' as H1'. simpl in H1'. destruct (ws_Upgrade _). by injection H1' as _ <-. }
  destruct err; [injection HR as _ <-; by rewrite Hs1|]. run_step HR u s2 H2'. apply on_world_run in H2'.
  injection H2' as _ H2'. assert (Hs2 : (g_world (sv_group s2)).2 = (g_world (sv_group s)).2) by (by rewrite <-H2').
  destruct (wsBackendGroup srv) as [bg|]; [|done]. run_step HR targets s3 H3'. injection H3' as _ <-.
  run_step HR res s4 H4'. apply on_world_run, group_ProxyWS_spec in H4' as [Hs4 Hw]. rewrite Hs2 in Hs4.
  destruct res as [err|w]; run_step HR u' s5 H5'; injection HR as _ <-; apply on_world_run in H5'.
  - injection H5' as _ H5'. rewrite <-H5'. simpl. by rewrite Hs4.
  - rewrite <-(Hw w eq_refl) in *. apply (Proxy_filtered w schedule _ _ _ H5'). by rewrite Hs4.
Qed.
End ws_connections.

(** ** A server with two backends and the in-memory limiter *)
Module server_runs.
Import group_runs.

#[local] Instance script_order : Order script := λ _ l w, (l, w).
#[local] Instance script_order_spec : OrderSpec script.
Proof. intros A l w. reflexivity. Qed.
#[local] Instance script_weighted : WeightedShuffle script := λ l w, (l.*1, w).
#[local] Instance script_deadline : Deadline script := λ w, (false, w).
#[local] Instance memory_Limiter : Limiter MemoryFrontendRateLimiter := Memory_Take.
(** Transactions of chain 10 from one account, whose nonce is their length. *)
#[local] Instance codec : TxCodec := {
  Bytes_UnmarshalText t := inr t;
  tx_UnmarshalBinary d := inr (mk_tx 10 (inr "0xA11CE") (Z.of_nat (String.length d)));
}.

Definition srv : Server InMemoryConsensusTracker :=
  mk_server {["main" := (a_b, Some poller)]} (Some a_b) {["eth_chainId"]}
    (list_to_map [("eth_chainId", "main"); ("eth_getBalance", "main"); ("eth_sendRawTransaction", "main")])
    1000 ∅ (10 * Second) 1 10 true [10] [] [] ∅ "X-Forwarded-For".
Definition st (next : list (error + http_response)) :
    server_state (list (Z * bucket)) script MemoryFrontendRateLimiter NoopRPCCache :=
  mk_ss (NewMemoryFrontendRateLimit Second 5) {["eth_chainId" := NewMemoryFrontendRateLimit Second 1]}
    (Some (NewMemoryFrontendRateLimit Second 1)) () (nodes next).

(** Two requests with the same ID, one that does not parse, and one over the
    limit of its method. *)
Definition raws : list string :=
  [jtext "{'jsonrpc':'2.0','method':'eth_chainId','params':[],'id':1}";
   jtext "{'jsonrpc':'2.0','method':'eth_getBalance','params':['0xab','latest'],'id':1}";
   jtext "{'jsonrpc':";
   jtext "{'jsonrpc':'2.0','method':'eth_chainId','params':[],'id':2}"].
Definition two_answers : list (error + http_response) :=
  [answer 200 (jtext "{'jsonrpc':'2.0','id':1,'result':'0xa'}"); answer 200 (jtext "{'jsonrpc':'2.0','id':1,'result':'0x5'}")].

(** A client that sends the listed messages; the backend only closes. *)
#[local] Instance scripted_client : WsConns (list (Z * string)) := {|
  ReadMessage s w :=
    match s, w with
    | Client, (t, m) :: w => ((t, m, None), w)
    | _, _ => ((-1, "", Some (CloseError CloseNormalClosure "")), w)
    end;
  SetWriteDeadline _ _ w := (None, w);
  WriteMessage _ _ _ w := (None, w);
  CloseConn _ w := w;
  Dial _ w := (None, w);
  FormatCloseMessage _ text := text;
  close_error_text _ text := text;
|}.
#[local] Instance still_env : Env (list (Z * string)) := {|
  time_Now w := (0, w); url_error _ := None; http_do _ w := (inl (ENew "refused"), w);
  rand_Int63n _ w := (0, w); sleep _ w := w
|}.
#[local] Instance accepting : Upgrader (list (Z * string)) := {| ws_Upgrade w := (None, w); SetReadLimit _ w := w |}.

(** One request is forwarded, one for another method is not. *)
Example ws_forwards_only_whitelisted_witness :
  let asked := jtext "{'jsonrpc':'2.0','id':1,'method':'eth_chainId'}" in
  let r := mk_in "" (λ _, "") "10.0.0.1:4000" (mk_body "" None false 0) in
  let s : server_state (list (Z * bucket)) (list (Z * string) * list ws_event) MemoryFrontendRateLimiter NoopRPCCache :=
    mk_ss (NewMemoryFrontendRateLimit Second 5) ∅ None ()
      (mk_gs (g_store (nodes [])) ([(TextMessage, asked); (TextMessage, jtext "{'id':2,'method':'eth_call'}")], [])) in
  ∃ reply s', HandleWS srv r [Client; Client] s = Ret (reply, s') ∧
    DidWrite Upstream TextMessage asked ∈ ws_log s' ∧ filtered {["eth_chainId"]} (ws_log s').
Proof.
  intros asked r s. destruct (HandleWS srv r [Client; Client] s) as [[reply s']|] eqn:HR; [|vm_compute in HR; discriminate HR].
  exists reply, s'. split; [reflexivity|]. split.
  - replace (ws_log s') with (match HandleWS srv r [Client; Client] s with Ret (_, s') => ws_log s' | Panic _ => [] end)
      by (rewrite HR; reflexivity).
    vm_compute. apply list_elem_of_further, list_elem_of_here.
  - apply (ws_forwards_only_whitelisted srv r [Client; Client] s s' reply HR).
    intros t m Hin. destruct (not_elem_of_nil _ Hin).
Defined.

Example minibatches_partition_witness :
  let elems := (λ i, mk_elem (mk_RPCReq "2.0" "eth_chainId" "[]" (pretty i)) i) <$> seq 0 5 in
  0 < 2 ∧ concat (minibatches 2 (numBatches 2 5) elems) = elems.
Proof. intros elems. split; [lia|]. apply (minibatches_partition 2 elems). lia. Defined.

Example plan_sound_witness :
  ∃ p s', make_plan srv false "10.0.0.1" false (mk_plan [] ∅ ∅) raws (st two_answers) = Ret (inr p, s') ∧ plan_ok srv raws p.
Proof.
  destruct (returned_fst (make_plan srv false "10.0.0.1" false (mk_plan [] ∅ ∅) raws (st two_answers))
    (λ r, match r.1 with inr p => true | inl _ => false end) true) as ([res|p] & s' & HR & Hx); [vm_compute; reflexivity|discriminate Hx|].
  exists p, s'. split; [exact HR|]. exact (plan_sound srv false "10.0.0.1" false raws (st two_answers) s' p HR).
Defined.


Example accepted_within_limits_witness :
  let raw := jtext "{'jsonrpc':'2.0','method':'eth_sendRawTransaction','params':['0xab'],'id':1}" in
  ∃ req group s', examine srv false "10.0.0.1" false raw (st []) = Ret (Accepted req group, s') ∧
    ∃ now, Memory_Take now "10.0.0.1" (mainLim (st [])) = ((true, None : option error), mainLim s').
Proof.
  intros raw. destruct (returned_fst (examine srv false "10.0.0.1" false raw (st []))
    (λ v, match v.1 with Accepted _ _ => true | _ => false end) true) as ([res|res|req group] & s' & HR & Hx);
    [vm_compute; reflexivity|discriminate Hx|discriminate Hx|].
  exists req, group, s'. split; [exact HR|].
  destruct (accepted_within_limits srv false "10.0.0.1" false raw (st []) s' req group HR) as ([[? _]|Hm] & _);
    [discriminate|exact Hm].
Defined.
End server_runs.
