(* ===== verification/Wire.v ===== *)
(** proxyd in front of proxyd: what a backend of one is sent ([request_body] of proxyd/backend.go) is what the HTTP handler of the other parses,
    and what that handler writes (writeRPCRes and writeBatchRPCRes of proxyd/server.go) is what the backend decodes. *)
From stdpp Require Import base numbers list gmap strings pretty.
From S2P Require Import Prelude.
From S2P Require Import Json.
From S2P Require Import Geth.
From S2P Require Import Rpc.
From S2P Require Import RpcText.
From S2P Require Import Backend.
From S2P Require Import Server.

Local Open Scope string_scope.
Local Open Scope Z_scope.

(** How the handler understands a body. *)
Definition understood (body : string) (reqs : list RPCReq) : Prop :=
  if IsBatch body then ∃ raws, ParseBatchRPCReq body = inr raws ∧ Forall2 (λ raw r, ParseRPCReq raw = inr r) raws reqs
  else ∃ r, ParseRPCReq body = inr r ∧ reqs = [r].

Section wire.
Context `{Geth}.

(** The reply to a body: a list of responses to a list of requests. *)
Definition reply_body (batch : bool) (responses : list RPCRes) : string :=
  if batch then rp_body (writeBatchRPCRes [] (Some <$> responses))
  else match responses with r :: _ => rp_body (writeRPCRes [] r) | [] => "" end.

Lemma request_body_understood reqs : Forall req_ok reqs →
  ∃ body, request_body reqs = Ret body ∧ IsBatch body = negb (length reqs =? 1)%nat ∧ understood body reqs.
Proof.
  intros Hr. assert (∀ t l, t = json_marshal (JArr l) → IsBatch t = true) as Ha.
  { intros t l ->. unfold json_marshal. by rewrite print_value_arr. }
  assert (∀ m, IsBatch (json_marshal (JObj m)) = false) as Ho by (intros m; unfold json_marshal; by rewrite print_value_obj).
  assert (reqs = [] ∨ (∃ r, reqs = [r]) ∨ (length reqs =? 1)%nat = false) as [->|[[r ->]|Hl]].
  { destruct reqs as [|r [|]]; eauto. }
  - exists "[]". split_and!; [done..|]. by exists [].
  - apply Forall_cons in Hr as [Hr _]. destruct (request_text r Hr) as (m & Em & _ & _ & Ep). exists (json_marshal (JObj m)).
    unfold request_body, understood. rewrite Em, Ho. split_and!; [done..|]. by exists r.
  - destruct (batch_text reqs Hr) as (t & raws & Et & Ep & Hp). exists t.
    assert (IsBatch t = true) as Hb.
    { unfold marshal_RPCReqs in Et. destruct (mapM _ _); [|done]. by injection Et as <-. }
    unfold request_body, understood. rewrite Hb, Et, Hl. split_and!; [by destruct reqs as [|? []]|done|eauto].
Qed.

Lemma responses_decoded reqs responses : length responses = length reqs → Forall res_ok responses →
  decode reqs (reply_body (negb (length reqs =? 1)%nat) responses) = inr (Some ∘ sent_res <$> responses).
Proof.
  intros Hlen Hok. unfold decode, reply_body. rewrite <- Hlen. clear Hlen reqs.
  assert (∃ ms, mapM (λ r, match r with Some r => MarshalJSON r | None => Some "null" end) (Some <$> responses) =
    Some (json_marshal <$> (JObj <$> ms)) ∧
    Forall2 (λ m r, ∃ us, Forall2 readable_member m us ∧ decode_members res_field (raws_as m us) empty_RPCRes = Some r) ms (sent_res <$> responses))
    as (ms & E & Hms).
  { induction Hok as [|r l Hr _ IH]; [by exists []|]. destruct IH as (ms & E & Hms).
    destruct (ok_id _ Hr) as (id & Hid & Eid). exists (res_members r id :: ms). split.
    - cbn [fmap list_fmap mapM]. rewrite (MarshalJSON_json r id Hid Eid). cbn [mbind option_bind]. by rewrite E.
    - cbn. constructor; [|done]. exists (read_members r id). split; [by apply res_members_readable|by apply decode_res]. }
  destruct (length responses =? 1)%nat eqn:El; cbn [negb].
  - destruct responses as [|r [|]]; try done. cbn [fmap list_fmap mapM] in E. inversion Hms as [|m x ms' xs (us & Hm & Em) Hn]. subst.
    inversion Hn. subst. destruct (MarshalJSON r) as [t|] eqn:Er; [|done]. injection E as Et.
    unfold decode_single, writeRPCRes. cbn [rp_body]. rewrite Er. unfold encode. rewrite Et, (unmarshal_obj m us (sent_res r)) by done. done.
  - unfold decode_batch, writeBatchRPCRes, marshal_batch. cbn [rp_body]. rewrite E. cbn [mbind option_bind encode].
    rewrite elems_text_json, (unmarshal_objs ms (sent_res <$> responses)) by done. by rewrite <- list_fmap_compose.
Qed.

End wire.

Module wire_runs.
Definition call : list RPCReq := [mk_RPCReq "2.0" "eth_chainId" "null" "1"; mk_RPCReq "2.0" "eth_call" (jtext "[{'to':'0x00'},'latest']") (jtext "'a'")].
Definition answers : list RPCRes :=
  [mk_RPCRes "2.0" (AUint64 10) None "1"; NewRPCErrorRes (jtext "'a'") (EVar ErrParseErr)].

Lemma printed_text t v : json_parse t = Some v → json_marshal v = t → printed t.
Proof. intros Hv <-. exists v. split; [by eapply json_parse_wf|done]. Qed.

End wire_runs.
