(* ===== verification/MockServer.v ===== *)
(** The mock server of proxyd: tools/mockserver/handler/handler.go, with the main function beside it (tools/mockserver/main.go).

    The handler answers every request of a body from templates, which come from a file and from overrides that tests add.
    It marshals an RPCRes by value, for which encoding/json does not call the method MarshalJSON of a pointer to it: the
    members are written under the names of the fields. The file and its YAML are the environment of the handler. *)
From stdpp Require Import base numbers list strings pretty.
From S2P Require Import Prelude.
From S2P Require Import Json.
From S2P Require Import Geth.
From S2P Require Import Rpc.
From S2P Require Import RpcText.

Local Open Scope string_scope.
Local Open Scope Z_scope.

Record MethodTemplate := mk_template { Method : string; Block : string; Response : string; ResponseCode : Z }.
(** A slice of pointers to templates, which may be nil. *)
Definition templates : Type := list (option MethodTemplate).
Record MockedHandler := mk_handler { Overrides : templates; Autoload : bool; AutoloadFile : string }.

(** The file system, and yaml.Unmarshal into a slice of templates: what it has decoded, with or without an error. *)
Class Templates (W : Type) := {
  os_ReadFile : string → W → option string * W;
  yaml_templates : string → templates;
}.

(** http.ResponseWriter: the status that was sent, if any, and the body. Only the first header counts, interim
    ones apart; a code that is none makes it panic. *)
Record writer := mk_writer { header : option Z; written : string }.
Definition WriteHeader (code : Z) (w : writer) : go writer :=
  match header w with
  | Some _ => Ret w
  | None =>
      if (code <? 100) || (999 <? code) then Panic "invalid WriteHeader code"
      else if (100 <=? code) && (code <=? 199) && negb (code =? 101) then Ret w
      else Ret (mk_writer (Some code) (written w))
  end.

(** A [map[string]interface{}], nil when the value is no object. *)
Definition request : Type := list (string * json).
Definition as_map (v : json) : request := match v with JObj m => m | _ => [] end.
Definition requests_of (body : string) : list request :=
  if IsBatch body then match json_parse body with Some (JArr l) => as_map <$> l | _ => [] end
  else [match json_parse body with Some v => as_map v | None => [] end].

(** [r["method"] == s] *)
Definition method_is (r : request) (s : string) : bool :=
  match obj_get r "method" with Some (JStr m) => String.eqb m s | _ => false end.
Definition block_of (r : request) : go string :=
  if method_is r "eth_getBlockByNumber" || method_is r "debug_getRawReceipts" then
    match obj_get r "params" with
    | Some (JArr (JStr block :: _)) => Ret block
    | Some (JArr []) => Panic "index out of range [0] with length 0"
    | _ => Panic "interface conversion"
    end
  else Ret "".

Definition matches (r : request) (block : string) (t : MethodTemplate) : bool := method_is r (Method t) && String.eqb (Block t) block.
(** The loop over the templates: the last match is the response, and every match may write the header. *)
Fixpoint select (r : request) (block : string) (ts : templates) (selected : string) (w : writer) : go (string * writer) :=
  match ts with
  | [] => Ret (selected, w)
  | None :: _ => Panic "nil pointer dereference"
  | Some t :: ts =>
      if matches r block t then
        w ← (if negb (ResponseCode t =? 0) then WriteHeader (ResponseCode t) w else Ret w);
        select r block ts (Response t) w
      else select r block ts selected w
  end.

Section handler.
Context `{Geth}.

(** json.Marshal of an RPCRes: the fields by their names. *)
Definition marshal_value (r : RPCRes) : option string :=
  id ← marshal_raw (rs_ID r);
  Some (members_text [("JSONRPC", quoted (rs_JSONRPC r)); ("Result", marshal_any (rs_Result r));
    ("Error", match rs_Error r with Some e => marshal_RPCErr e | None => "null" end); ("ID", id)]).

Definition answer (r : request) (selectedResponse : string) : go (option string) :=
  if String.eqb selectedResponse "" then Ret None
  else match unmarshal_RPCRes selectedResponse with
    | None => Panic "error unmarshalling the response"
    | Some rpcRes =>
        let idJson := json_marshal (default JNull (obj_get r "id")) in
        Ret (Some (default "" (marshal_value (mk_RPCRes (rs_JSONRPC rpcRes) (rs_Result rpcRes) (rs_Error rpcRes) idJson))))
    end.

Fixpoint serve (ts : templates) (rs : list request) (w : writer) : go (list string * writer) :=
  match rs with
  | [] => Ret ([], w)
  | r :: rs =>
      block ← block_of r;
      '(selected, w) ← select r block ts "" w;
      res ← answer r selected;
      '(responses, w) ← serve ts rs w;
      Ret ((match res with Some t => [t] | None => [] end ++ responses)%list, w)
  end.

Definition resBody (batched : bool) (responses : list string) : string :=
  if batched then "[" +:+ String.concat "," responses +:+ "]"
  else match responses with t :: _ => t | [] => "" end.

Context {W : Type} `{Templates W}.

Definition LoadFromFile (file : string) : M W templates := λ w,
  let '(contents, w) := os_ReadFile file w in Ret (yaml_templates (default "" contents), w).

Definition Handler (mh : MockedHandler) (body : string) : M W writer :=
  loaded ← (if Autoload mh then LoadFromFile (AutoloadFile mh) else mret []);
  let template := (loaded ++ Overrides mh)%list in
  '(responses, w) ← m_lift (serve template (requests_of body) (mk_writer None ""));
  mret (mk_writer (header w) (written w +:+ resBody (IsBatch body) responses)).
End handler.

Definition AddOverride (template : MethodTemplate) (mh : MockedHandler) : MockedHandler :=
  mk_handler (Overrides mh ++ [Some template])%list (Autoload mh) (AutoloadFile mh).
Definition ResetOverrides (mh : MockedHandler) : MockedHandler := mk_handler [] (Autoload mh) (AutoloadFile mh).

(** main: the handler that it serves, or the exit without the arguments. *)
Definition mock_main (path_Join : string → string → string) (dir : string) (args : list string) : option MockedHandler :=
  match args with _ :: _ :: file :: _ => Some (mk_handler [] true (path_Join dir file)) | _ => None end.

(** ** What a client reads *)

(** The template that answers a request is the last that matches. *)
Definition block_named (r : request) : string := match block_of r with Ret b => b | Panic _ => "" end.
Definition chosen (ts : list MethodTemplate) (r : request) : option MethodTemplate := last (filter (λ t, matches r (block_named r) t = true) ts).
Definition reply (ts : list MethodTemplate) (r : request) : option RPCRes :=
  t ← chosen ts r;
  if String.eqb (Response t) "" then None
  else res ← unmarshal_RPCRes (Response t);
    Some (mk_RPCRes (rs_JSONRPC res) (rs_Result res) (rs_Error res) (json_marshal (default JNull (obj_get r "id")))).
(** The status is the first one that a matching template has. *)
Definition codes (ts : list MethodTemplate) (r : request) : list Z :=
  filter (λ c, c ≠ 0) (ResponseCode <$> filter (λ t, matches r (block_named r) t = true) ts).

Record template_ok (t : MethodTemplate) : Prop := mk_template_ok {
  ok_response : Response t = "" ∨ is_Some (unmarshal_RPCRes (Response t));
  ok_code : ResponseCode t = 0 ∨ 200 ≤ ResponseCode t ≤ 999;
}.
(** A request for a block names one. *)
Definition addressed (r : request) : Prop := ∃ b, block_of r = Ret b.

Lemma select_run r ts sel w : Forall template_ok ts → select r (block_named r) (Some <$> ts) sel w =
  Ret (match chosen ts r with Some t => Response t | None => sel end,
       mk_writer (match header w with Some c => Some c | None => head (codes ts r) end) (written w)).
Proof.
  intros Hts. revert sel w. induction Hts as [|t ts Ht _ IH]; intros sel w; [by destruct w as [[]]|].
  unfold chosen, codes in *. cbn [fmap list_fmap select]. rewrite !filter_cons. destruct (matches r (block_named r) t) eqn:Em.
  - rewrite decide_True by done. cbn [fmap list_fmap]. rewrite filter_cons.
    assert (∀ w', select r (block_named r) (Some <$> ts) (Response t) w' = Ret (match last (t :: filter (λ t, matches r (block_named r) t = true) ts) with
      Some t => Response t | None => sel end, mk_writer (match header w' with Some c => Some c | None =>
        head (filter (λ c, c ≠ 0) (ResponseCode <$> filter (λ t, matches r (block_named r) t = true) ts)) end) (written w'))) as Hsel.
    { intros w'. rewrite IH, last_cons. by destruct (last _). }
    destruct (Z.eqb_spec (ResponseCode t) 0) as [E0|E0]; cbn [negb].
    + rewrite decide_False by auto. by rewrite <- Hsel.
    + rewrite decide_True by done. destruct (ok_code t Ht) as [|Hc]; [done|]. unfold WriteHeader.
      destruct (header w) as [c|] eqn:Ew; [cbn [mbind go_bind]; rewrite Hsel, Ew; done|].
      assert ((ResponseCode t <? 100) || (999 <? ResponseCode t) = false) as -> by lia.
      assert ((100 <=? ResponseCode t) && (ResponseCode t <=? 199) && negb (ResponseCode t =? 101) = false) as -> by lia.
      cbn [mbind go_bind]. by rewrite Hsel.
  - rewrite decide_False by done. apply IH.
Qed.

Section answers.
Context `{Geth}.

Definition value_members (r : RPCRes) (id : json) : list (string * json) :=
  [("JSONRPC", JStr (rs_JSONRPC r)); ("Result", any_json (rs_Result r));
   ("Error", match rs_Error r with Some e => JObj (err_members e) | None => JNull end); ("ID", id)].
Definition value_read (r : RPCRes) (id : json) : list (string * json) :=
  [("JSONRPC", JStr (rs_JSONRPC r)); ("Result", any_json (rs_Result r));
   ("Error", match rs_Error r with Some e => JObj (obj_of (err_members e)) | None => JNull end); ("ID", id)].

Lemma marshal_value_json r id : wf_json id → rs_ID r = json_marshal id → marshal_value r = Some (json_marshal (JObj (value_members r id))).
Proof.
  intros Hid E. unfold marshal_value. rewrite marshal_raw_printed by (by exists id). rewrite E. cbn [mbind option_bind].
  rewrite <- members_text_json. unfold value_members, texts. cbn [fmap list_fmap fst snd]. rewrite <- marshal_any_json.
  destruct (rs_Error r); [by rewrite <- marshal_RPCErr_json|done].
Qed.

(** The members of the fields, whatever their case, are the members that a client looks for. *)
Lemma value_decoded r id : res_ok r → wf_json id → rs_ID r = json_marshal id →
  Forall2 readable_member (value_members r id) (value_read r id) ∧
  decode_members res_field (raws_as (value_members r id) (value_read r id)) empty_RPCRes = Some (sent_res r).
Proof.
  intros [Ha He _] Hid E. split.
  - assert (∀ k v, wf_json v → readable_member (k, v) (k, v)) as Hw by (intros k v Hv; by split; [|apply readable_wf]).
    unfold value_members, value_read. constructor; [by apply Hw|]. constructor; [by apply Hw, any_json_wf|].
    constructor; [split; [done|cbn [snd]]|by constructor; [apply Hw|]]. destruct (rs_Error r); [apply readable_obj, err_members_readable|by apply readable_wf].
  - unfold value_members, value_read, sent_res. destruct r as [version result error rid]. cbn [rs_JSONRPC rs_Result rs_Error rs_ID] in *. subst rid.
    destruct error as [e|]; cbn [raws_as zip_with fst snd].
    + specialize (He e eq_refl). pose proof (λ u, dec_err_fresh e u He) as Hd. decode_steps. done.
    + assert (∀ raw, dec_err raw JNull None = Some None) as Hd by done. decode_steps. done.
Qed.

Lemma obj_get_wf m k v : Forall (λ kv, wf_json kv.2) m → obj_get m k = Some v → wf_json v.
Proof.
  induction m as [|[k' v'] m IH]; intros Hm; cbn; [done|]. apply Forall_cons in Hm as [Hv Hm].
  destruct (String.eqb k k'); [by intros [= <-]|by apply IH].
Qed.
Definition request_ok (r : request) : Prop := Forall (λ kv, wf_json kv.2) r ∧ addressed r.

Lemma as_map_wf v : wf_json v → Forall (λ kv, wf_json kv.2) (as_map v).
Proof. intros Hv. destruct v; cbn [as_map]; [by constructor..|]. by apply wf_json_obj in Hv as [_ Hv]. Qed.
Lemma requests_wf body : Forall (λ r, Forall (λ kv, wf_json kv.2) r) (requests_of body).
Proof.
  unfold requests_of. destruct (IsBatch body).
  - destruct (json_parse body) as [v|] eqn:E; [|constructor]. apply json_parse_wf in E. destruct v as [| | | |l|]; try constructor.
    apply wf_json_arr in E. apply Forall_fmap. eapply Forall_impl; [exact E|]. apply as_map_wf.
  - constructor; [|constructor]. destruct (json_parse body) as [v|] eqn:E; [|constructor]. apply as_map_wf. by eapply json_parse_wf.
Qed.

(** What a response is written as can be read as [x]. *)
Definition spells (m : list (string * json)) (x : RPCRes) : Prop :=
  ∃ us, Forall2 readable_member m us ∧ decode_members res_field (raws_as m us) empty_RPCRes = Some x.

Lemma answer_run ts r : Forall template_ok ts → request_ok r →
  ∃ m, answer r (match chosen ts r with Some t => Response t | None => "" end) = Ret ((λ m, json_marshal (JObj m)) <$> m) ∧
    match m, reply ts r with Some m, Some x => spells m x | None, None => True | _, _ => False end.
Proof.
  intros Hts [Hr _]. unfold answer, reply. destruct (chosen ts r) as [t|] eqn:Et; [|by exists None]. cbn [mbind option_bind].
  destruct (String.eqb_spec (Response t) "") as [E|E]; [by exists None|].
  assert (t ∈ ts) as Hin. { apply last_Some_elem_of in Et. by apply list_elem_of_filter in Et as [_ ?]. }
  rewrite Forall_forall in Hts. destruct (ok_response t (Hts t Hin)) as [|[res Eres]]; [done|]. rewrite Eres. cbn [mbind option_bind].
  set (id := default JNull (obj_get r "id")). assert (wf_json id) as Hid.
  { subst id. destruct (obj_get r "id") eqn:Eg; [by eapply obj_get_wf|done]. }
  destruct (unmarshal_ok _ _ Eres) as (Ha & Hs & He). set (x := mk_RPCRes _ _ _ (json_marshal id)).
  assert (res_ok x) as Hx by (split; [done|intros e Ee; by apply He|by exists id]).
  assert (sent_res x = x) as Ex.
  { unfold sent_res, x. cbn. rewrite Hs. f_equal. destruct (rs_Error res) as [e|]; [|done]. destruct (He e eq_refl) as [_ Hz]. destruct e. cbn in *. by rewrite Hz. }
  exists (Some (value_members x id)). rewrite (marshal_value_json x id Hid eq_refl). split; [done|]. exists (value_read x id).
  destruct (value_decoded x id Hx Hid eq_refl) as [H1 H2]. by rewrite Ex in H2.
Qed.

Lemma serve_run ts rs w : Forall template_ok ts → Forall request_ok rs → ∃ ms, Forall2 spells ms (omap (reply ts) rs) ∧
  serve (Some <$> ts) rs w = Ret ((λ m, json_marshal (JObj m)) <$> ms,
    mk_writer (match header w with Some c => Some c | None => head (rs ≫= codes ts) end) (written w)).
Proof.
  intros Hts Hrs. revert w. induction Hrs as [|r rs Hr _ IH]; intros w; [exists []; by destruct w as [[]]|].
  cbn [serve]. destruct Hr as [Hwf [b Hb]]. assert (block_named r = b) as Eb by (unfold block_named; by rewrite Hb).
  rewrite Hb. cbn [mbind go_bind]. rewrite <- Eb, select_run by done. cbn [mbind go_bind].
  destruct (answer_run ts r Hts) as (m & Em & Hm); [by split; [|exists b]|]. rewrite Em. cbn [mbind go_bind].
  set (w1 := mk_writer _ _). destruct (IH w1) as (ms & Hms & E). rewrite E. cbn [mbind go_bind].
  exists (match m with Some m => m :: ms | None => ms end). split.
  - cbn. destruct m, (reply ts r); try done; by constructor.
  - f_equal. f_equal; [by destruct m|]. f_equal. unfold w1. cbn [header]. destruct (header w) as [c|]; [done|]. cbn.
    by destruct (codes ts r).
Qed.
End answers.

(** With templates that can be decoded, the mock server answers every body whose requests for blocks name them: proxyd
    reads in its answer, for each request that has a template, in order, the response of the last template that matches it, under the
    ID of the request. The status is that of the first match that has one. *)
Theorem mock_answers `{Geth} {W} `{Templates W} mh body (w w' : W) loaded ts :
  (if Autoload mh then LoadFromFile (AutoloadFile mh) else mret []) w = Ret (loaded, w') → (loaded ++ Overrides mh)%list = Some <$> ts →
  Forall template_ok ts → Forall addressed (requests_of body) →
  let replies := omap (reply ts) (requests_of body) in
  ∃ out, Handler mh body w = Ret (mk_writer (head (requests_of body ≫= codes ts)) out, w') ∧
    if IsBatch body then unmarshal_RPCRes_list out = Some (Some <$> replies)
    else match replies with x :: _ => unmarshal_RPCRes out = Some x | [] => out = "" end.
Proof.
  intros El Et Hts Hrs replies. assert (Forall request_ok (requests_of body)) as Hok.
  { apply Forall_and. split; [apply requests_wf|done]. }
  destruct (serve_run ts (requests_of body) (mk_writer None "") Hts Hok) as (ms & Hms & E).
  exists (resBody (IsBatch body) ((λ m, json_marshal (JObj m)) <$> ms)). split.
  - unfold Handler. rewrite (M_bind_run _ _ _ _ _ El). cbv beta zeta. rewrite Et. unfold mbind at 1, M_bind, m_lift. rewrite E. done.
  - unfold resBody. fold replies in Hms. destruct (IsBatch body).
    + rewrite (list_fmap_compose JObj json_marshal), elems_text_json, <- (str_app_nil (json_marshal _)). by apply unmarshal_objs.
    + destruct Hms as [|m x ms xs (us & Hm & Ex) _]; [done|]. cbn. rewrite <- (str_app_nil (json_marshal _)). by eapply unmarshal_obj.
Qed.

(** A request for a block without parameters makes the handler panic, whatever the templates are. *)
Lemma blockless_request_panics `{Geth} {W} `{Templates W} mh (w : W) : Autoload mh = false →
  panics (Handler mh (jtext "{'method':'eth_getBlockByNumber','id':1}")) w.
Proof. intros E. unfold panics, Handler. rewrite E. by eexists. Qed.

(** The override that was added last answers, and a reset leaves the file alone. *)
Lemma override_wins t mh ts r : (Overrides mh = Some <$> ts) → matches r (block_named r) t = true →
  Overrides (AddOverride t mh) = Some <$> (ts ++ [t])%list ∧ chosen (ts ++ [t])%list r = Some t.
Proof.
  intros E Hm. split; [cbn; by rewrite E, fmap_app|]. unfold chosen. rewrite filter_app, filter_cons_True by done.
  by rewrite filter_nil, last_snoc.
Qed.

Module mock_runs.
Definition block_template : MethodTemplate := mk_template "eth_getBlockByNumber" "latest" (jtext "{'jsonrpc':'2.0','id':67,'result':{'number':'0x101'}}") 0.
Definition error_template : MethodTemplate := mk_template "eth_call" "" (jtext "{'jsonrpc':'2.0','error':{'code':-32000,'message':'no','data':'d'}}") 503.
#[local] Instance file : Templates unit := {| os_ReadFile := λ _ w, (Some "file", w); yaml_templates := λ _, [Some block_template] |}.
Definition mock : MockedHandler := AddOverride error_template (mk_handler [] true "responses.yml").
Definition batch : string := jtext "[{'method':'eth_call','id':'a'},{'method':'eth_none','id':2},{'method':'eth_getBlockByNumber','params':['latest',false],'id':3}]".

(** The members are written with the names of the fields. *)
Lemma field_names_run : written <$> (fst <$> returned (Handler mock (jtext "{'method':'eth_getBlockByNumber','params':['latest',false],'id':3}") tt)) =
  Some (jtext "{'JSONRPC':'2.0','Result':{'number':'0x101'},'Error':null,'ID':3}").
Proof. vm_compute. reflexivity. Qed.

Lemma mock_answers_witness : ∃ out, Handler mock batch tt = Ret (mk_writer (Some 503) out, tt) ∧ ∃ x y, unmarshal_RPCRes_list out = Some [Some x; Some y] ∧
  rs_ID x = jtext "'a'" ∧ rs_ID y = "3".
Proof.
  destruct (mock_answers mock batch tt tt [Some block_template] [block_template; error_template]) as (out & E & Hr).
  - reflexivity.
  - reflexivity.
  - constructor; [|constructor; [|constructor]]; split; try (right; eexists; vm_compute; reflexivity); [left; reflexivity|right; cbn; lia].
  - replace (requests_of batch) with [[("id", JStr "a"); ("method", JStr "eth_call")]; [("id", JNum "2"); ("method", JStr "eth_none")];
      [("id", JNum "3"); ("method", JStr "eth_getBlockByNumber"); ("params", JArr [JStr "latest"; JBool false])]] by (vm_compute; reflexivity).
    repeat apply Forall_cons_2; try apply Forall_nil_2; eexists; reflexivity.
  - exists out. split; [rewrite E; do 3 f_equal; vm_compute; reflexivity|].
    replace (omap _ _) with [mk_RPCRes "2.0" ANil (Some (mk_RPCErr (-32000) "no" "d" 0)) (jtext "'a'"); mk_RPCRes "2.0" (AJson (JObj [("number", JStr "0x101")])) None "3"]
      in Hr by (vm_compute; reflexivity).
    eexists _, _. split; [exact Hr|]. split; reflexivity.
Defined.
End mock_runs.
