(* ===== verification/Start.v ===== *)
(** config.go, redis.go, tls.go and proxyd.go: from a configuration to a running
    server. [Start] checks the configuration, builds the backends, groups,
    cache, limiters and pollers and puts them together; the listeners it starts
    are not part of the model. *)
From stdpp Require Import base numbers list gmap strings sets pretty.
From S2P Require Import RateLimiter.
From S2P Require Import Prelude.
From S2P Require Import GoFloat.
From S2P Require Import SlidingWindow.
From S2P Require Import Json.
From S2P Require Import Geth.
From S2P Require Import Rpc.
From S2P Require Import Backend.
From S2P Require Import ConsensusTracker.
From S2P Require Import ConsensusPoller.
From S2P Require Import BackendGroup.
From S2P Require Import Cache.
From S2P Require Import Ws.
From S2P Require Import Server.

Local Open Scope string_scope.
Local Open Scope Z_scope.
#[local] Arguments String.append : simpl nomatch.

(** ** Configuration *)

Record ServerConfig := mk_ServerConfig {
  RPCPort : Z; WSPort : Z; MaxBodySizeBytes : Z; MaxConcurrentRPCs : Z; TimeoutSeconds : Z;
  sc_MaxUpstreamBatchSize : Z; EnableXServedByHeader : bool
}.
Record CacheConfig := mk_CacheConfig { cc_Enabled : bool; TTL : Z }.
Record RedisConfig := mk_RedisConfig {
  URL : string; rd_Namespace : string; ReadURL : string; FallbackToMemory : bool; RedisCluster : bool
}.
Record BackendOptions := mk_BackendOptions {
  ResponseTimeoutSeconds : Z; MaxResponseSizeBytes : Z; bo_MaxRetries : Z; OutOfServiceSeconds : Z;
  bo_MaxDegradedLatencyThreshold : Z; bo_MaxLatencyThreshold : Z; bo_MaxErrorRateThreshold : float64
}.
Record BackendConfig := mk_BackendConfig {
  Username : string; Password : string; RPCURL : string; WSURL : string; bc_MaxRPS : Z; bc_MaxWSConns : Z;
  CAFile : string; ClientCertFile : string; ClientKeyFile : string; StripTrailingXFF : bool;
  Headers : list (string * string); Weight : Z; ConsensusSkipPeerCountCheck : bool;
  ConsensusForcedCandidate : bool; ConsensusReceiptsTarget : string
}.
Record BackendGroupConfig := mk_BackendGroupConfig {
  gc_Backends : list string; gc_WeightedRouting : bool; gc_RoutingStrategy : RoutingStrategy;
  MulticallRPCErrorCheck : bool; ConsensusAware : bool; ConsensusAsyncHandler : string;
  ConsensusPollerInterval : Z; ConsensusBanPeriod : Z; ConsensusMaxUpdateThreshold : Z;
  ConsensusMaxBlockLag : Z; ConsensusMaxBlockRange : Z; ConsensusMinPeerCount : Z;
  ConsensusHA : bool; ConsensusHAHeartbeatInterval : Z; ConsensusHALockPeriod : Z;
  ConsensusHARedis : RedisConfig; gc_Fallbacks : list string
}.
#[export] Instance BackendGroupConfig_eta : Eta BackendGroupConfig := λ c,
  mk_BackendGroupConfig (gc_Backends c) (gc_WeightedRouting c) (gc_RoutingStrategy c) (MulticallRPCErrorCheck c)
    (ConsensusAware c) (ConsensusAsyncHandler c) (ConsensusPollerInterval c) (ConsensusBanPeriod c)
    (ConsensusMaxUpdateThreshold c) (ConsensusMaxBlockLag c) (ConsensusMaxBlockRange c) (ConsensusMinPeerCount c)
    (ConsensusHA c) (ConsensusHAHeartbeatInterval c) (ConsensusHALockPeriod c) (ConsensusHARedis c) (gc_Fallbacks c).

(** A nil map [Authentication] is [None]. *)
Record Config := mk_Config {
  WSBackendGroup : string; cf_Server : ServerConfig; cf_Cache : CacheConfig; cf_Redis : RedisConfig;
  cf_RateLimit : RateLimitConfig; cf_BackendOptions : BackendOptions; cf_Backends : gmap string BackendConfig;
  bt_MaxSize : Z; bt_ErrorMessage : string; Authentication : option (gmap string string);
  cf_BackendGroups : gmap string BackendGroupConfig; RPCMethodMappings : gmap string string;
  WSMethodWhitelist : list string; WhitelistErrorMessage : string; SenderRateLimit : SenderRateLimitConfig
}.

(** How a start ends early: with an error, or the process with log.Crit. *)
Inductive stop := Fails (e : error) | Exits (why : string).

(** [BackendGroupConfig.ValidateRoutingStrategy], which completes the strategy;
    [None] when it exits. *)
Definition ValidateRoutingStrategy (b : BackendGroupConfig) : option (bool * BackendGroupConfig) :=
  if ConsensusAware b && negb (String.eqb (gc_RoutingStrategy b) "") then None
  else
    let b := if ConsensusAware b then {{ b with gc_RoutingStrategy := ConsensusAwareRoutingStrategy }} else b in
    if String.eqb (gc_RoutingStrategy b) ConsensusAwareRoutingStrategy then Some (true, b)
    else if String.eqb (gc_RoutingStrategy b) MulticallRoutingStrategy then Some (true, b)
    else if String.eqb (gc_RoutingStrategy b) FallbackRoutingStrategy then Some (true, b)
    else if String.eqb (gc_RoutingStrategy b) "" then
      Some (true, {{ b with gc_RoutingStrategy := FallbackRoutingStrategy }})
    else Some (false, b).

(** ** What starting uses of its surroundings

    Environment variables, files, and Redis clients [H]; behind a client are
    the keys [KV] of the cache and the counters [RC] of the limiters. *)
Class Boot (W H KV RC : Type) := {
  os_Getenv : string → string;
  os_ReadFile : string → W → (error + string) * W;
  AppendCertsFromPEM : string → bool;
  LoadX509KeyPair : string → string → W → option error * W;
  redis_ParseURL : string → error + H;
  redis_ParseClusterURL : string → error + H;
  redis_Ping : H → W → option error * W;
  regexp_Compile : string → error + (string → bool);
  keys_of : H → KV;
  counters_of : H → RC;
}.

(** An error that ends a start. *)
Definition fails {A} (e : error) : stop + A := inl (Fails e).

(** Steps that may stop. *)
Notation step W A := (M W (stop + A)%type).
Definition s_ret {W A} (a : A) : step W A := mret (inr a).
Definition s_stop {W A} (e : stop) : step W A := mret (inl e).
Definition s_bind {W A B} (m : step W A) (k : A → step W B) : step W B :=
  r ← m; match r with inl e => mret (inl e) | inr a => k a end.
Notation "x ⇐ m ; k" := (s_bind m (λ x, k)) (at level 100, m at next level, right associativity).
Definition s_check {W} (b : bool) (msg : string) : step W unit :=
  if b then s_stop (Fails (ENew msg)) else s_ret ().
(** A pure function that may fail. *)
Definition s_try {W A} (r : error + A) : step W A :=
  match r with inl e => s_stop (Fails e) | inr a => s_ret a end.

Fixpoint s_mapM {W A B} (f : A → step W B) (l : list A) : step W (list B) :=
  match l with
  | [] => s_ret []
  | a :: l => b ⇐ f a; bs ⇐ s_mapM f l; s_ret (b :: bs)
  end.
Fixpoint s_fold {W A B} (f : B → A → step W B) (b : B) (l : list A) : step W B :=
  match l with
  | [] => s_ret b
  | a :: l => b ⇐ f b a; s_fold f b l
  end.

(** ** Trackers, limiters and caches a start may choose *)

Inductive any_tracker := InMemory (t : InMemoryConsensusTracker) | Shared (t : RedisConsensusTracker).
#[export] Instance any_tracker_ops : ConsensusTracker any_tracker := {|
  GetLatestBlockNumber t := match t with InMemory t => GetLatestBlockNumber t | Shared t => GetLatestBlockNumber t end;
  SetLatestBlockNumber n t :=
    match t with InMemory t => InMemory (SetLatestBlockNumber n t) | Shared t => Shared (SetLatestBlockNumber n t) end;
  GetSafeBlockNumber t := match t with InMemory t => GetSafeBlockNumber t | Shared t => GetSafeBlockNumber t end;
  SetSafeBlockNumber n t :=
    match t with InMemory t => InMemory (SetSafeBlockNumber n t) | Shared t => Shared (SetSafeBlockNumber n t) end;
  GetFinalizedBlockNumber t :=
    match t with InMemory t => GetFinalizedBlockNumber t | Shared t => GetFinalizedBlockNumber t end;
  SetFinalizedBlockNumber n t :=
    match t with InMemory t => InMemory (SetFinalizedBlockNumber n t) | Shared t => Shared (SetFinalizedBlockNumber n t) end;
|}.

Inductive any_limiter (RC : Type) :=
| LNoop
| LMemory (m : MemoryFrontendRateLimiter)
| LRedis (r : RedisFrontendRateLimiter RC)
| LFallback (p : RedisFrontendRateLimiter RC * MemoryFrontendRateLimiter).
Arguments LNoop {RC}.
Arguments LMemory {RC} m.
Arguments LRedis {RC} r.
Arguments LFallback {RC} p.

#[export] Instance any_limiter_ops {RC} `{RedisCounters error RC} : Limiter (any_limiter RC) := λ now key l,
  match l with
  | LNoop => ((true, None), LNoop)
  | LMemory m => let '(r, m) := Memory_Take now key m in (r, LMemory m)
  | LRedis r => let '(x, r) := Redis_Take now key r in (x, LRedis r)
  | LFallback p =>
      let '(x, p) := Take (NewFallbackRateLimiter redis_limiter memory_limiter) now key p in (x, LFallback p)
  end.

Inductive any_cache (ML H KV : Type) :=
| CMemory (c : memory_cache ML)
| CRedis (c : redisCache H KV)
| CFallback (c : fallbackCache (redisCache H KV) (memory_cache ML)).
Arguments CMemory {ML H KV} c.
Arguments CRedis {ML H KV} c.
Arguments CFallback {ML H KV} c.

#[export] Instance any_cache_ops {ML H KV} `{LRU ML} `{RedisKV H KV} : Cache (any_cache ML H KV) := {|
  Get k c := match c with
    | CMemory c => let '(r, c) := Get k c in (r, CMemory c)
    | CRedis c => let '(r, c) := Get k c in (r, CRedis c)
    | CFallback c => let '(r, c) := Get k c in (r, CFallback c)
    end;
  Put k v c := match c with
    | CMemory c => let '(r, c) := Put k v c in (r, CMemory c)
    | CRedis c => let '(r, c) := Put k v c in (r, CRedis c)
    | CFallback c => let '(r, c) := Put k v c in (r, CFallback c)
    end;
|}.

(** The cache of a server; [None] is the one that NewServer puts for nil. *)
Definition server_cache (ML H KV : Type) : Type := option (rpcCache (cacheWithCompression (any_cache ML H KV))).
#[export] Instance server_cache_ops `{Geth} `{Sha256} `{Snappy} {ML H KV} `{LRU ML} `{RedisKV H KV} :
    RPCCache (server_cache ML H KV) := {|
  cache_GetRPC req c := match c with
    | Some c => let '(r, c) := cache_GetRPC req c in (r, Some c)
    | None => (inr None, None)
    end;
  cache_PutRPC req res c := match c with
    | Some c => let '(r, c) := cache_PutRPC req res c in (r, Some c)
    | None => (None, None)
    end;
|}.

(** ** Start *)

Section start.
Context {LM : Type} `{LinkedHashMap LM} `{Geth} {W : Type} `{Order W}.
Context {ML C KV RC : Type} `{LRU ML} `{RedisKV C KV} `{RedisCounters error RC} `{Boot W C KV RC}.

(** The operations of [Boot] at these types. *)
Definition getenv : string → string := os_Getenv (W := W) (H := C) (KV := KV) (RC := RC).

Definition dollar : Ascii.ascii := Ascii.ascii_of_nat 36.
Definition backslash : Ascii.ascii := Ascii.ascii_of_nat 92.

Definition ReadFromEnvOrConfig (value : string) : error + string :=
  match value with
  | String c rest =>
      if Ascii.eqb c dollar then
        let envValue := getenv rest in
        if String.eqb envValue "" then inl (ENew ("config env var " +:+ value +:+ " not found")) else inr envValue
      else if Ascii.eqb c backslash then inr rest
      else inr value
  | "" => inr value
  end.

Definition NewRedisClient (url : string) (enable_cluster : bool) : error + C :=
  if enable_cluster then redis_ParseClusterURL (W := W) (KV := KV) (RC := RC) url
  else redis_ParseURL (W := W) (KV := KV) (RC := RC) url.

Definition CheckRedisConnection (client : C) : M W (option error) := λ w,
  let '(err, w) := redis_Ping (KV := KV) (RC := RC) client w in
  Ret ((λ e, wrapErr e "error connecting to redis") <$> err, w).

(** A client that does not answer is refused, unless memory may stand in. *)
Definition check_redis (client : C) (fallback : bool) : step W unit :=
  err ← CheckRedisConnection client;
  match err with
  | Some e => if fallback then s_ret () else s_stop (Fails e)
  | None => s_ret ()
  end.

(** The primary and the read client; as in the source, the check after the read
    client is made is of the primary one. *)
Definition redis_clients (c : RedisConfig) : step W (option C * option C) :=
  redisClient ⇐ (if String.eqb (URL c) "" then s_ret None
    else
      rURL ⇐ s_try (ReadFromEnvOrConfig (URL c));
      client ⇐ s_try (NewRedisClient rURL (RedisCluster c));
      _ ⇐ check_redis client (FallbackToMemory c);
      s_ret (Some client));
  if String.eqb (ReadURL c) "" then s_ret (redisClient, redisClient)
  else match redisClient with
    | None => s_stop (Fails (ENew "must specify a Redis primary URL. only read endpoint is set"))
    | Some client =>
        rURL ⇐ s_try (ReadFromEnvOrConfig (ReadURL c));
        read ⇐ s_try (NewRedisClient rURL (RedisCluster c));
        _ ⇐ check_redis client (FallbackToMemory c);
        s_ret (redisClient, Some read)
    end.

Definition CreateTLSClient (ca : string) : step W unit :=
  r ← (λ w, Ret (os_ReadFile (H := C) (KV := KV) (RC := RC) ca w));
  match r with
  | inl e => s_stop (Fails (wrapErr e "error reading CA"))
  | inr pem =>
      if AppendCertsFromPEM (W := W) (H := C) (KV := KV) (RC := RC) pem then s_ret ()
      else s_stop (Fails (ENew "error parsing TLS client cert"))
  end.

Definition ParseKeyPair (crt key : string) : step W unit :=
  err ← (λ w, Ret (LoadX509KeyPair (H := C) (KV := KV) (RC := RC) crt key w));
  match err with
  | Some e => s_stop (Fails (wrapErr e "error loading x509 key pair"))
  | None => s_ret ()
  end.

(** Whether the backend gets a TLS configuration; it only configures the HTTP
    client. *)
Definition configureBackendTLS (cfg : BackendConfig) : step W bool :=
  if String.eqb (CAFile cfg) "" then s_ret false
  else
    _ ⇐ CreateTLSClient (CAFile cfg);
    if negb (String.eqb (ClientCertFile cfg) "") && negb (String.eqb (ClientKeyFile cfg) "") then
      _ ⇐ ParseKeyPair (ClientCertFile cfg) (ClientKeyFile cfg); s_ret true
    else s_ret true.

Definition ReceiptsTargetDebugGetRawReceipts : string := "debug_getRawReceipts".
Definition ReceiptsTargetAlchemyGetTransactionReceipts : string := "alchemy_getTransactionReceipts".
Definition ReceiptsTargetParityGetTransactionReceipts : string := "parity_getBlockReceipts".
Definition ReceiptsTargetEthGetTransactionReceipts : string := "eth_getBlockReceipts".
Definition receipts_targets : list string :=
  [ReceiptsTargetDebugGetRawReceipts; ReceiptsTargetAlchemyGetTransactionReceipts;
   ReceiptsTargetEthGetTransactionReceipts; ReceiptsTargetParityGetTransactionReceipts].

Definition validateReceiptsTarget (val : string) : error + string :=
  let val := if String.eqb val "" then ReceiptsTargetDebugGetRawReceipts else val in
  if existsb (String.eqb val) receipts_targets then inr val else inl (ENew ("invalid receipts target: " +:+ val)).

Definition secondsToDuration (seconds : Z) : Z := i64 (seconds * Second).

(** An option that is set only when the value is. *)
Definition opt_if {A} (b : bool) (o : A) : list A := if b then [o] else [].

(** The options every backend gets. *)
Definition common_opts (o : BackendOptions) : list (BackendOpt (LM := LM)) :=
  (opt_if (negb (ResponseTimeoutSeconds o =? 0)%Z) (WithTimeout (secondsToDuration (ResponseTimeoutSeconds o))) ++
   opt_if (negb (bo_MaxRetries o =? 0)%Z) (WithMaxRetries (bo_MaxRetries o)) ++
   opt_if (negb (MaxResponseSizeBytes o =? 0)%Z) (WithMaxResponseSize (MaxResponseSizeBytes o)) ++
   opt_if (negb (OutOfServiceSeconds o =? 0)%Z) (WithOutOfServiceDuration (secondsToDuration (OutOfServiceSeconds o))) ++
   opt_if (0 <? bo_MaxDegradedLatencyThreshold o)%Z (WithMaxDegradedLatencyThreshold (bo_MaxDegradedLatencyThreshold o)) ++
   opt_if (0 <? bo_MaxLatencyThreshold o)%Z (WithMaxLatencyThreshold (bo_MaxLatencyThreshold o)) ++
   opt_if (fltb (f_of_Z 0) (bo_MaxErrorRateThreshold o)) (WithMaxErrorRateThreshold (bo_MaxErrorRateThreshold o)))%list.

(** The body of the loop over the backends. *)
Definition start_backend (o : BackendOptions) (b : string * BackendConfig) : step W (string * Backend LM) :=
  let '(name, cfg) := b in
  rpcURL ⇐ s_try (ReadFromEnvOrConfig (RPCURL cfg));
  wsURL ⇐ s_try (ReadFromEnvOrConfig (WSURL cfg));
  _ ⇐ s_check (String.eqb rpcURL "") ("must define an RPC URL for backend " +:+ name);
  auth ⇐ (if String.eqb (Password cfg) "" then s_ret []
    else passwordVal ⇐ s_try (ReadFromEnvOrConfig (Password cfg)); s_ret [WithBasicAuth (Username cfg) passwordVal]);
  headers ⇐ s_mapM (λ '(k, v), v ⇐ s_try (ReadFromEnvOrConfig v); s_ret (k, v)) (Headers cfg);
  _ ⇐ configureBackendTLS cfg;
  receiptsTarget ⇐ s_try (ReadFromEnvOrConfig (ConsensusReceiptsTarget cfg));
  receiptsTarget ⇐ s_try (validateReceiptsTarget receiptsTarget);
  s_ret (name, NewBackend name rpcURL wsURL (common_opts o ++
    opt_if (negb (bc_MaxRPS cfg =? 0)%Z) (WithMaxRPS (bc_MaxRPS cfg)) ++
    opt_if (negb (bc_MaxWSConns cfg =? 0)%Z) (WithMaxWSConns (bc_MaxWSConns cfg)) ++ auth ++
    [WithHeaders headers] ++ opt_if (StripTrailingXFF cfg) WithStrippedTrailingXFF ++
    [WithProxydIP (getenv "PROXYD_IP"); WithConsensusSkipPeerCountCheck (ConsensusSkipPeerCountCheck cfg);
     WithConsensusForcedCandidate (ConsensusForcedCandidate cfg); WithWeight (Weight cfg);
     WithConsensusReceiptTarget receiptsTarget])%list).

(** The backends of a group: which of them are fallbacks, and how many were
    found to be. *)
Fixpoint group_members (byName : gmap string (Backend LM)) (fallbacks : list string) (names : list string)
    (fb : gmap string bool) (count : nat) : error + (gmap string bool * nat) :=
  match names with
  | [] => inr (fb, count)
  | bName :: names =>
      match byName !! bName with
      | None => inl (ENew ("backend " +:+ bName +:+ " is not defined"))
      | Some _ =>
          let found := length (filter (λ f, bName = f) fallbacks) in
          let fb := if decide (found = 0%nat) then fb else <[bName := true]> fb in
          let fb := match fb !! bName with Some _ => fb | None => <[bName := false]> fb end in
          group_members byName fallbacks names fb (count + found)
      end
  end.

(** The body of the loop over the groups. *)
Definition start_group (byName : gmap string (Backend LM)) (g : string * BackendGroupConfig) :
    step W (string * BackendGroup) :=
  let '(bgName, bg) := g in
  members ⇐ s_try (group_members byName (gc_Fallbacks bg) (gc_Backends bg) ∅ 0);
  let '(fb, count) := members in
  _ ⇐ s_check (negb (count =? length (gc_Fallbacks bg))%nat)
    ("error: number of fallbacks instantiated (" +:+ pretty count +:+ ") did not match configured (" +:+
      pretty (length (gc_Fallbacks bg)) +:+ ") for backend group " +:+ bgName);
  s_ret (bgName, mk_group bgName (gc_Backends bg) (gc_WeightedRouting bg) fb (gc_RoutingStrategy bg)
    (MulticallRPCErrorCheck bg)).

(** Ranging over a map: its entries in any order. *)
Definition in_order {A} (m : gmap string A) : M W (list (string * A)) := λ w, Ret (permute (map_to_list m) w).
Definition ranged {A} (m : gmap string A) : step W (list (string * A)) := l ← in_order m; s_ret l.

(** The messages of the shared errors that the configuration replaces. *)
Record messages := mk_messages { over_rate_limit : string; not_whitelisted : string; too_many : string }.
Definition replaced (msg new : string) : string := if String.eqb new "" then msg else new.
Definition start_messages (c : Config) : messages := mk_messages
  (replaced (Message (rpc_var_value ErrOverRateLimit)) (rl_ErrorMessage (cf_RateLimit c)))
  (replaced (Message (rpc_var_value ErrMethodNotWhitelisted)) (WhitelistErrorMessage c))
  (replaced (Message (rpc_var_value ErrTooManyBatchRequests)) (bt_ErrorMessage c)).

Definition defaultCacheTtl : Z := 60 * Minute.
Definition start_cache (c : Config) (clients : option C * option C) : server_cache ML C KV :=
  if cc_Enabled (cf_Cache c) then
    Some (newRPCCache (newCacheWithCompression (match clients with
      | (Some redisClient, Some redisReadClient) =>
          let ttl := if negb (TTL (cf_Cache c) =? 0)%Z then TTL (cf_Cache c) else defaultCacheTtl in
          let redis := newRedisCache redisClient redisReadClient (rd_Namespace (cf_Redis c)) ttl
            (keys_of (W := W) (RC := RC) redisClient) in
          if FallbackToMemory (cf_Redis c) then CFallback (newFallbackCache redis newMemoryCache) else CRedis redis
      | _ => CMemory newMemoryCache
      end)))
  else None.

(** The closure [limiterFactory]; the client is not nil when Redis is used. *)
Definition start_limiter (c : Config) (redisClient : option C) (dur max : Z) (prefix : string) : any_limiter RC :=
  match UseRedis (cf_RateLimit c), redisClient with
  | true, Some client =>
      let limiter := NewRedisFrontendRateLimiter (counters_of (W := W) (KV := KV) client) dur max prefix in
      if FallbackToMemory (cf_Redis c) then LFallback (limiter, NewMemoryFrontendRateLimit dur max) else LRedis limiter
  | _, _ => LMemory (NewMemoryFrontendRateLimit dur max)
  end.

(** The poller of a consensus aware group. Whether it polls by itself (the
    handler "noop" does not) is left to the steps it takes. *)
Definition start_poller (bgName : string) (bg : BackendGroup) (c : BackendGroupConfig) : step W (ConsensusPoller any_tracker) :=
  if existsb (λ be, match FallbackBackends bg !! be with None => true | Some _ => false end) (gc_Backends c) then
    s_stop (Exits "error backend not found in backend fallback configurations")
  else
    tracker ⇐ (if ConsensusHA c then
        if String.eqb (URL (ConsensusHARedis c)) "" then
          s_stop (Exits "must specify a consensus_ha_redis config when consensus_ha is true")
        else
          client ⇐ s_try (NewRedisClient (URL (ConsensusHARedis c)) (RedisCluster (ConsensusHARedis c)));
          _ ⇐ check_redis client false;
          s_ret [WithTracker (Shared (NewRedisConsensusTracker
            (rd_Namespace (ConsensusHARedis c) +:+ ":" +:+ bg_Name bg) (getenv "HOSTNAME")
            (opt_if (0 <? ConsensusHALockPeriod c)%Z (WithLockPeriod (ConsensusHALockPeriod c)) ++
             opt_if (0 <? ConsensusHAHeartbeatInterval c)%Z (WithHeartbeatInterval (ConsensusHAHeartbeatInterval c)))%list))]
      else s_ret []);
    s_ret (NewConsensusPoller bg (InMemory NewInMemoryConsensusTracker) (
      opt_if (0 <? ConsensusBanPeriod c)%Z (WithBanPeriod (ConsensusBanPeriod c)) ++
      opt_if (0 <? ConsensusMaxUpdateThreshold c)%Z (WithMaxUpdateThreshold (ConsensusMaxUpdateThreshold c)) ++
      opt_if (0 <? ConsensusMaxBlockLag c)%Z (WithMaxBlockLag (ConsensusMaxBlockLag c)) ++
      opt_if (0 <? ConsensusMinPeerCount c)%Z (WithMinPeerCount (ConsensusMinPeerCount c)) ++
      opt_if (0 <? ConsensusMaxBlockRange c)%Z (WithMaxBlockRange (ConsensusMaxBlockRange c)) ++
      opt_if (0 <? ConsensusPollerInterval c)%Z (WithPollerInterval (ConsensusPollerInterval c)) ++ tracker)%list).

(** The body of the last loop: the group with its poller. *)
Definition start_consensus (cfgs : gmap string BackendGroupConfig) (g : string * (BackendGroup * option (ConsensusPoller any_tracker))) :
    step W (string * (BackendGroup * option (ConsensusPoller any_tracker))) :=
  let '(bgName, (bg, consensus)) := g in
  match cfgs !! bgName ≫= ValidateRoutingStrategy with
  | None => s_stop (Exits "consensus_aware and routing strategy are mutually exclusive")
  | Some (false, _) => s_stop (Exits "Invalid routing strategy provided")
  | Some (true, c) =>
      if String.eqb (gc_RoutingStrategy c) ConsensusAwareRoutingStrategy then
        cp ⇐ start_poller bgName bg c; s_ret (bgName, (bg, Some cp))
      else s_ret (bgName, (bg, consensus))
  end.

(** The checks that need nothing but the configuration. *)
Definition check_sizes (c : Config) : step W unit :=
  _ ⇐ s_check (bool_decide (cf_Backends c = ∅)) "must define at least one backend";
  _ ⇐ s_check (bool_decide (cf_BackendGroups c = ∅)) "must define at least one backend group";
  _ ⇐ s_check (bool_decide (RPCMethodMappings c = ∅)) "must define at least one RPC method mapping";
  s_check (match default ∅ (Authentication c) !! "none" with Some _ => true | None => false end)
    "cannot use none as an auth key".
Definition check_sender_limit (l : SenderRateLimitConfig) : step W unit :=
  if sl_Enabled l then
    _ ⇐ s_check (sl_Limit l <=? 0)%Z "limit in sender_rate_limit must be > 0";
    s_check (sl_Interval l <? Second)%Z "interval in sender_rate_limit must be >= 1s"
  else s_ret ().

Definition start_ws_group (c : Config) (groups : gmap string BackendGroup) : step W (option BackendGroup) :=
  ws ⇐ (if String.eqb (WSBackendGroup c) "" then s_ret None
    else match groups !! WSBackendGroup c with
      | None => s_stop (Fails (ENew ("ws backend group " +:+ WSBackendGroup c +:+ " does not exist")))
      | Some bg => s_ret (Some bg)
      end);
  _ ⇐ s_check (match ws with None => negb (WSPort (cf_Server c) =? 0)%Z | Some _ => false end)
    "a ws port was defined, but no ws group was defined";
  s_ret ws.

Definition check_mappings (mappings : gmap string string) (groups : gmap string BackendGroup) : step W unit :=
  l ⇐ ranged mappings;
  s_fold (λ _ '(_, bg), s_check (match groups !! bg with None => true | Some _ => false end)
    ("undefined backend group " +:+ bg)) () l.

Definition resolve_auth (auth : option (gmap string string)) : step W (gmap string string) :=
  match auth with
  | None => s_ret ∅
  | Some auth =>
      l ⇐ ranged auth;
      s_fold (λ acc '(secret, alias), resolved ⇐ s_try (ReadFromEnvOrConfig secret); s_ret (<[resolved := alias]> acc)) ∅ l
  end.

(** What a start gives: the server, its state, the shared error messages and
    the size of the semaphore of the backends' HTTP clients. *)
Record started := mk_started {
  sd_server : Server any_tracker; sd_state : server_state LM W (any_limiter RC) (server_cache ML C KV);
  sd_messages : messages; sd_maxConcurrentRPCs : Z
}.

Definition Start (c : Config) : step W started :=
  _ ⇐ check_sizes c;
  clients ⇐ redis_clients (cf_Redis c);
  _ ⇐ s_check (match clients.1 with None => UseRedis (cf_RateLimit c) | Some _ => false end)
    "must specify a Redis URL if UseRedis is true in rate limit config";
  _ ⇐ check_sender_limit (SenderRateLimit c);
  backends ⇐ ranged (cf_Backends c);
  backends ⇐ s_mapM (start_backend (cf_BackendOptions c)) backends;
  let backendsByName := list_to_map backends : gmap string (Backend LM) in
  groups ⇐ ranged (cf_BackendGroups c);
  groups ⇐ s_mapM (start_group backendsByName) groups;
  let backendGroups := list_to_map groups : gmap string BackendGroup in
  wsBackendGroup ⇐ start_ws_group c backendGroups;
  _ ⇐ check_mappings (RPCMethodMappings c) backendGroups;
  resolvedAuth ⇐ resolve_auth (Authentication c);
  w ← (m_get : M W W);
  match NewServer ((λ bg : BackendGroup, (bg, None : option (ConsensusPoller any_tracker))) <$> backendGroups) wsBackendGroup (NewStringSetFromStrings (WSMethodWhitelist c))
      (RPCMethodMappings c) (MaxBodySizeBytes (cf_Server c)) resolvedAuth (secondsToDuration (TimeoutSeconds (cf_Server c)))
      (sc_MaxUpstreamBatchSize (cf_Server c)) (EnableXServedByHeader (cf_Server c)) (start_cache c clients)
      (cf_RateLimit c) (SenderRateLimit c) (bt_MaxSize c) (start_limiter c clients.1) LNoop
      (regexp_Compile (W := W) (H := C) (KV := KV) (RC := RC)) (mk_gs backendsByName w) with
  | inl err => s_stop (Fails (wrapErr err "error creating server"))
  | inr (srv, st) =>
      groups ⇐ ranged (BackendGroups srv);
      groups ⇐ s_mapM (start_consensus (cf_BackendGroups c)) groups;
      let attached := list_to_map groups : gmap string (BackendGroup * option (ConsensusPoller any_tracker)) in
      w ← (m_get : M W W);
      s_ret (mk_started (set_groups attached srv)
        (set_group_state (mk_gs backendsByName w) st) (start_messages c)
        (if (MaxConcurrentRPCs (cf_Server c) =? 0)%Z then MaxInt64 else MaxConcurrentRPCs (cf_Server c)))
  end.
End start.

(** ** A start that succeeds *)

Lemma s_bind_Ret {W A B} (m : step W A) (k : A → step W B) w b w' :
  s_bind m k w = Ret (inr b, w') → ∃ a w1, m w = Ret (inr a, w1) ∧ k a w1 = Ret (inr b, w').
Proof. unfold s_bind. intros HR. run_step HR r w1 H1. destruct r as [e|a]; [done|]. by exists a, w1. Qed.

Tactic Notation "s_step" hyp(HR) ident(a) ident(w) simple_intropattern(Ha) :=
  apply s_bind_Ret in HR as (a & w & Ha & HR).

Lemma s_mapM_Forall2 {W A B} (f : A → step W B) l : ∀ w bs w', s_mapM f l w = Ret (inr bs, w') →
  Forall2 (λ a b, ∃ w1 w2, f a w1 = Ret (inr b, w2)) l bs.
Proof.
  induction l as [|a l IH]; intros w bs w' HR; [by injection HR as <- _|].
  cbn [s_mapM] in HR. s_step HR b w1 Hb. s_step HR bs' w2 Hbs. injection HR as <- _.
  constructor; [by exists w, w1|by eapply IH].
Qed.

Lemma s_check_ok {W} b msg (w w' : W) u : s_check b msg w = Ret (inr u, w') → b = false.
Proof. by destruct b. Qed.

Lemma s_try_ok {W A} (r : error + A) (w w' : W) a : s_try r w = Ret (inr a, w') → r = inr a.
Proof. destruct r; [done|]. by intros [= <- _]. Qed.

Lemma Forall_opt_if {A} (P : A → Prop) b o : P o → Forall P (opt_if b o).
Proof. intros Ho. destruct b; [by apply Forall_singleton|apply Forall_nil_2]. Qed.

Section started.
Context {LM : Type} `{LinkedHashMap LM} `{Geth} {W : Type} `{Order W} `{!OrderSpec W}.
Context {ML C KV RC : Type} `{LRU ML} `{RedisKV C KV} `{RedisCounters error RC} `{Boot W C KV RC}.

Lemma ranged_perm {A} (m : gmap string A) (w w' : W) l : ranged m w = Ret (inr l, w') → l ≡ₚ map_to_list m.
Proof.
  unfold ranged. intros HR. run_step HR l' w1 H1'. injection HR as <- _. injection H1' as H1'.
  pose proof (permute_perm (map_to_list m) w) as Hp. by rewrite H1' in Hp.
Qed.

(** A loop over a map that keeps the keys: its results, as a map. *)
Lemma mapM_entries {A B} (f : string * A → step W (string * B)) (m : gmap string A) (w w' w0 w0' : W) l l' :
  (∀ a w1 w2 b, f a w1 = Ret (inr b, w2) → b.1 = a.1) → ranged m w0 = Ret (inr l, w0') →
  s_mapM f l w = Ret (inr l', w') →
  (∀ k b, (list_to_map l' : gmap string B) !! k = Some b →
    ∃ a w1 w2, m !! k = Some a ∧ f (k, a) w1 = Ret (inr (k, b), w2)) ∧
  (∀ k, is_Some (m !! k) → is_Some ((list_to_map l' : gmap string B) !! k)).
Proof.
  intros Hf Hl Hm. apply ranged_perm in Hl. apply s_mapM_Forall2 in Hm.
  assert (Hk : l'.*1 = l.*1).
  { clear Hl. induction Hm as [|a b l0 l1 (w1 & w2 & Hab) _ IH]; [done|]. by rewrite !fmap_cons, (Hf _ _ _ _ Hab), IH. }
  assert (Hnd : NoDup (l'.*1)) by (rewrite Hk, Hl; apply NoDup_fst_map_to_list). split.
  - intros k b Hb%elem_of_list_to_map_2. apply list_elem_of_lookup in Hb as [i Hi].
    destruct (Forall2_lookup_r _ _ _ _ _ Hm Hi) as ([k' a] & Ha & w1 & w2 & Hab).
    pose proof (Hf _ _ _ _ Hab) as Hkk. simpl in Hkk. subst k'. exists a, w1, w2. split; [|done].
    apply elem_of_map_to_list. rewrite <-Hl. by eapply list_elem_of_lookup_2.
  - intros k [a Ha]. apply elem_of_map_to_list in Ha. rewrite <-Hl in Ha.
    apply (list_elem_of_fmap_2 fst) in Ha. simpl in Ha. rewrite <-Hk in Ha.
    apply list_elem_of_fmap in Ha as ([k' b] & -> & Hb). exists b. by apply elem_of_list_to_map.
Qed.

(** Options that leave the name and the address of a backend alone. *)
Definition keeps_address (o : BackendOpt (LM := LM)) : Prop := ∀ b, Name (o b) = Name b ∧ rpcURL (o b) = rpcURL b.

Lemma Override_address opts (b : Backend LM) : Forall keeps_address opts →
  Name (Override opts b) = Name b ∧ rpcURL (Override opts b) = rpcURL b.
Proof.
  unfold Override. intros Ho. revert b. induction Ho as [|o opts Ho _ IH]; intros b; [done|].
  simpl. destruct (IH (o b)) as [-> ->]. apply Ho.
Qed.

Lemma receipts_targets_in val val' : validateReceiptsTarget val = inr val' → val' ∈ receipts_targets.
Proof.
  unfold validateReceiptsTarget. destruct (existsb _ receipts_targets) eqn:E; [|done]. intros [= <-].
  apply existsb_exists in E as (t & Hin & ->%String.eqb_eq). by apply list_elem_of_In.
Qed.

Lemma start_backend_spec o name cfg (w w' : W) name' (b : Backend LM) :
  start_backend o (name, cfg) w = Ret (inr (name', b), w') →
  name' = name ∧ Name b = name ∧ rpcURL b ≠ "" ∧ receiptsTarget b ∈ receipts_targets.
Proof.
  unfold start_backend. intros HR. s_step HR url w1 _. s_step HR ws w2 _. s_step HR u w3 Hurl.
  apply s_check_ok, String.eqb_neq in Hurl. s_step HR auth w4 Hauth. s_step HR headers w5 _. s_step HR u' w6 _.
  s_step HR t w7 _. s_step HR t' w8 Ht. apply s_try_ok, receipts_targets_in in Ht.
  injection HR as <- <- _. split; [done|].
  assert (Ha : Forall keeps_address auth).
  { destruct (String.eqb _ ""); [injection Hauth as <- _; apply Forall_nil_2|].
    s_step Hauth p w9 _. injection Hauth as <- _. by apply Forall_singleton. }
  unfold NewBackend. match goal with |- Name (Override ?l _) = _ ∧ _ => assert (Hl : Forall keeps_address l) end.
  { repeat first [exact Ha|apply Forall_nil_2|by apply Forall_opt_if|apply Forall_cons_2; [done|]|apply Forall_app; split]. }
  destruct (Override_address _ (mk_Backend name url "" ws "" "" [] (5 * Second) 0 MaxInt64 0 0 0 false "" false false
    (5 * Second) (10 * Second) (fdiv (f_of_Z 1) (f_of_Z 2)) (NewSlidingWindow []) (NewSlidingWindow [])
    (NewSlidingWindow []) 0) Hl) as [-> ->].
  split_and!; [done|done|]. unfold Override. rewrite !foldl_app. cbn [foldl]. rewrite foldl_app. exact Ht.
Qed.

Lemma group_members_spec (byName : gmap string (Backend LM)) fallbacks names : ∀ fb count fb' count',
  group_members byName fallbacks names fb count = inr (fb', count') →
  (∀ be, is_Some (fb !! be) → is_Some (fb' !! be)) ∧
  ∀ be, be ∈ names → is_Some (byName !! be) ∧ is_Some (fb' !! be).
Proof.
  induction names as [|n names IH]; intros fb count fb' count'; cbn [group_members].
  { intros [= <- <-]. split; [done|]. by intros be ?%not_elem_of_nil. }
  destruct (byName !! n) as [b|] eqn:Hn; [|done]. cbv zeta.
  set (fb1 := if decide _ then fb else _). set (fb2 := match fb1 !! n with Some _ => _ | None => _ end).
  assert (Hfb : (∀ be, is_Some (fb !! be) → is_Some (fb2 !! be)) ∧ is_Some (fb2 !! n)).
  { assert (∀ be, is_Some (fb !! be) → is_Some (fb1 !! be)).
    { intros be Hbe. unfold fb1. destruct (decide _); [done|]. apply lookup_insert_is_Some'. by right. }
    unfold fb2. destruct (fb1 !! n) eqn:E1; [split; [done|by rewrite E1]|].
    split; [intros be Hbe; apply lookup_insert_is_Some'; auto|apply lookup_insert_is_Some'; auto]. }
  intros HR. apply IH in HR as [Hkeep Hall]. destruct Hfb as [Hfb Hfbn]. split; [auto|].
  intros be [->|Hbe]%elem_of_cons; [|by apply Hall]. split; [by rewrite Hn|auto].
Qed.

(** A group in which every backend is a fallback or not splits into both. *)
Lemma Primaries_Fallbacks bg : (∀ be, be ∈ Backends bg → is_Some (FallbackBackends bg !! be)) →
  (Primaries bg ++ Fallbacks bg)%list ≡ₚ Backends bg.
Proof.
  unfold Primaries, Fallbacks. induction (Backends bg) as [|be l IH]; intros Hall; [done|].
  destruct (Hall be) as [b Hb]; [by left|]. rewrite !filter_cons, Hb.
  assert (Hl : ∀ be', be' ∈ l → is_Some (FallbackBackends bg !! be')) by (intros be' Hbe'; apply Hall; by right).
  specialize (IH Hl). destruct b.
  - rewrite decide_False, decide_True by done. by rewrite <-Permutation_middle, IH.
  - rewrite decide_True, decide_False by done. simpl. by rewrite IH.
Qed.

Lemma start_group_spec (byName : gmap string (Backend LM)) name cfg (w w' : W) name' bg :
  start_group byName (name, cfg) w = Ret (inr (name', bg), w') →
  name' = name ∧ bg_Name bg = name ∧ routingStrategy bg = gc_RoutingStrategy cfg ∧
  (Primaries bg ++ Fallbacks bg)%list ≡ₚ Backends bg ∧ ∀ be, be ∈ Backends bg → is_Some (byName !! be).
Proof.
  unfold start_group. intros HR. s_step HR members w1 Hm. destruct members as [fb count]. s_step HR u w2 _.
  apply s_try_ok, group_members_spec in Hm as [_ Hm]. injection HR as <- <- _. split_and!; [done..| |].
  - apply Primaries_Fallbacks. intros be Hbe. by apply Hm.
  - intros be Hbe. by apply Hm.
Qed.

Lemma ValidateRoutingStrategy_multicall b ok b' : ValidateRoutingStrategy b = Some (ok, b') →
  gc_RoutingStrategy b = MulticallRoutingStrategy → gc_RoutingStrategy b' = MulticallRoutingStrategy.
Proof.
  unfold ValidateRoutingStrategy. intros HV Hb. rewrite Hb in HV. destruct (ConsensusAware b); [done|]. simpl in HV.
  rewrite Hb in HV. by injection HV as _ <-.
Qed.

(** A new poller of a group, whose options leave the states of backends alone. *)
Definition new_poller (bg : BackendGroup) (cp : ConsensusPoller any_tracker) : Prop :=
  ∃ opts, Forall (λ opt, ∀ c, backend_state (opt c) = backend_state c) opts ∧
    cp = NewConsensusPoller bg (InMemory NewInMemoryConsensusTracker) opts.

Lemma start_poller_new bgName bg c (w w' : W) cp : start_poller bgName bg c w = Ret (inr cp, w') → new_poller bg cp.
Proof.
  unfold start_poller. intros HR. destruct (existsb _ _); [done|]. s_step HR t w1 Ht. injection HR as <- _.
  eexists. split; [|reflexivity].
  assert (Forall (λ opt : ConsensusOpt, ∀ c, backend_state (opt c) = backend_state c) t).
  { destruct (ConsensusHA c); [|injection Ht as <- _; apply Forall_nil_2]. destruct (String.eqb _ ""); [done|].
    s_step Ht cl w2 _. s_step Ht u w3 _. injection Ht as <- _. by apply Forall_singleton. }
  repeat (apply Forall_app; split); try done; by apply Forall_opt_if.
Qed.

Lemma start_consensus_spec cfgs name bg (w w' : W) name' bg' consensus :
  start_consensus cfgs (name, (bg, None)) w = Ret (inr (name', (bg', consensus)), w') →
  name' = name ∧ bg' = bg ∧
  (∀ cfg, cfgs !! name = Some cfg → routingStrategy bg = gc_RoutingStrategy cfg → coherent bg consensus) ∧
  ∀ cp, consensus = Some cp → new_poller bg cp.
Proof.
  unfold start_consensus. intros HR. destruct (cfgs !! name) as [cfg|]; simpl in HR; [|done].
  destruct (ValidateRoutingStrategy cfg) as [[[] c]|] eqn:HV; [|done|done].
  destruct (String.eqb_spec (gc_RoutingStrategy c) ConsensusAwareRoutingStrategy) as [Hc|Hc].
  - s_step HR cp w1 Hcp. injection HR as <- <- <- _. split_and!; [done|done| |].
    + intros cfg' [= <-] Hbg. unfold coherent, GetRoutingStrategy. rewrite Hbg. intros Hm.
      rewrite (ValidateRoutingStrategy_multicall _ _ _ HV Hm) in Hc. done.
    + intros cp' [= <-]. by eapply start_poller_new.
  - injection HR as <- <- <- _. split_and!; [done|done|by intros|done].
Qed.

(** The loops keep the keys. *)
Lemma start_backend_key o a (w1 w2 : W) (b : string * Backend LM) : start_backend o a w1 = Ret (inr b, w2) → b.1 = a.1.
Proof. destruct a, b. by intros [-> _]%start_backend_spec. Qed.
Lemma start_group_key (byName : gmap string (Backend LM)) a (w1 w2 : W) b : start_group byName a w1 = Ret (inr b, w2) → b.1 = a.1.
Proof. destruct a, b. by intros [-> _]%start_group_spec. Qed.
Lemma start_consensus_key cfgs a (w1 w2 : W) b : start_consensus cfgs a w1 = Ret (inr b, w2) → b.1 = a.1.
Proof.
  destruct a as [name [bg consensus]]. unfold start_consensus. intros HR.
  destruct (cfgs !! name ≫= _) as [[[] c]|]; [|done|done].
  destruct (String.eqb _ _); [s_step HR cp w3 _|]; by injection HR as <- _.
Qed.

(** What holds of a started proxyd. *)
Record well_started (c : Config) (d : started (LM := LM) (W := W) (ML := ML) (C := C) (KV := KV) (RC := RC)) : Prop := mk_ws {
  ws_methods method group : rpcMethodMappings (sd_server d) !! method = Some group →
    is_Some (BackendGroups (sd_server d) !! group);
  ws_groups name bg consensus : BackendGroups (sd_server d) !! name = Some (bg, consensus) →
    bg_Name bg = name ∧ coherent bg consensus ∧ (Primaries bg ++ Fallbacks bg)%list ≡ₚ Backends bg ∧
    (∀ be, be ∈ Backends bg → is_Some (g_store (sv_group (sd_state d)) !! be)) ∧
    ∀ cp, consensus = Some cp → new_poller bg cp;
  ws_backends name b : g_store (sv_group (sd_state d)) !! name = Some b →
    Name b = name ∧ rpcURL b ≠ "" ∧ receiptsTarget b ∈ receipts_targets;
  ws_batch : maxBatchSize (sd_server d) ≤ MaxBatchRPCCallsHardLimit;
  ws_upstream : maxUpstreamBatchSize (sd_server d) ≠ 0;
  ws_sender : is_Some (senderLim (sd_state d)) → Second ≤ sl_Interval (SenderRateLimit c) ∧ 0 < sl_Limit (SenderRateLimit c);
  ws_port : WSPort (cf_Server c) ≠ 0 → is_Some (wsBackendGroup (sd_server d))
}.

Lemma check_mappings_ok mappings groups (w w' : W) u : check_mappings mappings groups w = Ret (inr u, w') →
  ∀ method group, mappings !! method = Some group → is_Some (groups !! group).
Proof.
  unfold check_mappings. intros HR. s_step HR l w1 Hl. apply ranged_perm in Hl.
  intros method group Hm%elem_of_map_to_list. rewrite <-Hl in Hm. clear Hl. revert u w1 HR.
  induction l as [|[m g] l IH]; intros u w1 HR; [by apply not_elem_of_nil in Hm|].
  cbn [s_fold] in HR. s_step HR u1 w2 H1'. destruct u1. apply s_check_ok in H1'.
  apply elem_of_cons in Hm as [[= -> ->]|Hm]; [|exact (IH Hm _ _ HR)].
  destruct (groups !! g); [by eexists|done].
Qed.

Lemma start_ws_group_ok c groups (w w' : W) ws : start_ws_group c groups w = Ret (inr ws, w') →
  WSPort (cf_Server c) ≠ 0 → is_Some ws.
Proof.
  unfold start_ws_group. intros HR Hp. s_step HR ws' w1 _. s_step HR u w2 Hc. injection HR as <- _.
  apply s_check_ok in Hc. destruct ws'; [by eexists|]. apply negb_false_iff, Z.eqb_eq in Hc. done.
Qed.

Lemma check_sender_limit_ok l (w w' : W) u : check_sender_limit l w = Ret (inr u, w') → sl_Enabled l = true →
  Second ≤ sl_Interval l ∧ 0 < sl_Limit l.
Proof.
  unfold check_sender_limit. intros HR Hl. rewrite Hl in HR. s_step HR u' w1 H1'.
  apply s_check_ok, Z.leb_gt in H1'. apply s_check_ok, Z.ltb_ge in HR. done.
Qed.

(** C16: a start that succeeds gives a server whose methods are mapped to groups
    that exist. The backends of a group exist and are either primaries or
    fallbacks; a group has a poller or the multicall strategy, not both, and the
    poller is new. Backends have an address and a known receipts target, batches
    are limited, the sender limiter is within its bounds, and a WebSocket port
    has a group. *)
Theorem start_well_formed (c : Config) (w w' : W) d : Start (ML := ML) (C := C) (KV := KV) (RC := RC) c w = Ret (inr d, w') →
  well_started c d.
Proof.
  unfold Start. intros HR. s_step HR u1 w1 _. s_step HR clients w2 _. s_step HR u2 w3 _. s_step HR u3 w4 Hsender.
  s_step HR bes0 w5 Hbes0. s_step HR bes w6 Hbes. s_step HR gs0 w7 Hgs0. s_step HR gs w8 Hgs.
  cbv zeta in HR. s_step HR wsg w9 Hws. s_step HR u4 w10 Hmap. s_step HR auth w11 _. run_step HR w12 w13 Hget.
  destruct (NewServer _ _ _ _ _ _ _ _ _ _ _ _ _ _ _ _ _) as [err|[srv st]] eqn:HN; [done|].
  s_step HR gs1 w14 Hgs1. s_step HR gs2 w15 Hgs2. cbv zeta in HR. run_step HR w16 w17 Hget'. injection HR as <- _.
  apply NewServer_spec in HN as (HG & HW & HM & Hbatch & Hup & Hsl).
  pose proof (mapM_entries _ _ _ _ _ _ _ _ (λ a w1 w2 b, start_backend_key _ a w1 w2 b) Hbes0 Hbes) as [Hb _].
  pose proof (mapM_entries _ _ _ _ _ _ _ _ (λ a w1 w2 b, start_group_key _ a w1 w2 b) Hgs0 Hgs) as [Hg _].
  pose proof (mapM_entries _ _ _ _ _ _ _ _ (λ a w1 w2 b, start_consensus_key _ a w1 w2 b) Hgs1 Hgs2) as [Hc Hdom].
  rewrite HG in Hc, Hdom. split; simpl.
  - intros method group Hm. rewrite HM in Hm. apply Hdom. rewrite lookup_fmap. apply fmap_is_Some.
    exact (check_mappings_ok _ _ _ _ _ Hmap method group Hm).
  - intros name bg consensus Hname. destruct (Hc _ _ Hname) as ([bg0 c0] & v1 & v2 & Hl & Hsc).
    rewrite lookup_fmap in Hl. apply fmap_Some in Hl as (bg1 & Hbg1 & [= -> ->]).
    destruct (Hg _ _ Hbg1) as (cfg & v3 & v4 & Hcfg & Hsg).
    apply start_group_spec in Hsg as (_ & Hn & Hr & Hpf & Hin).
    apply start_consensus_spec in Hsc as (_ & -> & Hcoh & Hnew).
    split_and!; [done|by eapply Hcoh|done|done|done].
  - intros name b Hname. destruct (Hb _ _ Hname) as (cfg & v1 & v2 & _ & Hsb).
    apply start_backend_spec in Hsb as (_ & ?). done.
  - done.
  - done.
  - intros Hs%Hsl. by eapply check_sender_limit_ok.
  - intros Hp. rewrite HW. by eapply start_ws_group_ok.
Qed.
End started.

(** ** A configuration that starts *)
Module start_runs.
Import concrete.

(** Nothing changes; "$RPC" is set; every Redis answers. *)
#[local] Instance still_order : Order unit := λ _ l w, (l, w).
#[local] Instance still_order_spec : OrderSpec unit.
Proof. intros A l w. reflexivity. Qed.
#[local] Instance map_kv : RedisKV string (gmap string string) := {|
  kv_Get _ k r := inr (r !! k);
  kv_SetEx _ k v _ r := (None, <[k := v]> r);
|}.
#[local] Instance boot : Boot unit string (gmap string string) (gmap string (Z * Z)) := {|
  os_Getenv v := if String.eqb v "RPC" then "http://node-b" else "";
  os_ReadFile _ w := (inl (ENew "no such file"), w);
  AppendCertsFromPEM _ := false;
  LoadX509KeyPair _ _ w := (None, w);
  redis_ParseURL u := inr u;
  redis_ParseClusterURL u := inr u;
  redis_Ping _ w := (None, w);
  regexp_Compile p := inr (String.eqb p);
  keys_of _ := ∅;
  counters_of _ := ∅;
|}.

Definition backend (url : string) : BackendConfig :=
  mk_BackendConfig "" "" url "" 0 0 "" "" "" false [] 1 false false "".
Definition no_redis : RedisConfig := mk_RedisConfig "" "" "" false false.
Definition group (strategy : string) (fallbacks : list string) : BackendGroupConfig :=
  mk_BackendGroupConfig ["a"; "b"] false strategy false false "" 0 0 0 0 0 0 false 0 0 no_redis fallbacks.
Definition proxyd : Type :=
  started (LM := list (Z * bucket)) (W := unit) (ML := entries) (C := string) (KV := gmap string string) (RC := gmap string (Z * Z)).
Definition run (c : Config) : go ((stop + proxyd) * unit) := Start c tt.

Definition config : Config :=
  mk_Config "main" (mk_ServerConfig 8080 8081 0 0 5 0 false) (mk_CacheConfig true 0)
    (mk_RedisConfig "redis://cache" "ns" "" true false) (mk_rlc true 10 Second [] [] "" ∅ "")
    (mk_BackendOptions 0 0 3 0 0 0 (f_of_Z 0)) (list_to_map [("a", backend "http://node-a"); ("b", backend "$RPC")])
    2000 "" None (list_to_map [("main", group ConsensusAwareRoutingStrategy ["b"]); ("all", group MulticallRoutingStrategy [])])
    (list_to_map [("eth_chainId", "main"); ("eth_sendRawTransaction", "all")]) ["eth_chainId"] ""
    (mk_slc true Second 5 []).

Example start_well_formed_witness :
  ∃ d : proxyd, run config = Ret (inr d, tt) ∧ well_started config d ∧ maxBatchSize (sd_server d) = 1000.
Proof.
  destruct (run config) as [[[e|d] []]|] eqn:HR; [vm_compute in HR; discriminate HR| |vm_compute in HR; discriminate HR].
  exists d. split; [reflexivity|]. split; [exact (start_well_formed config tt tt d HR)|].
  replace (maxBatchSize (sd_server d)) with
    (match run config with Ret (inr d, _) => maxBatchSize (sd_server d) | _ => 0 end) by (rewrite HR; reflexivity).
  vm_compute. reflexivity.
Defined.
End start_runs.
