(* ===== verification/Limits.v ===== *)
(** The limit on the requests that proxyd has in flight: [LimitedHTTPClient.DoLimited] of proxyd/backend.go, over the semaphore that
    [Start] of proxyd/proxyd.go makes and gives to every backend.

    Calls run in goroutines, so the model is a step relation on all of them. The semaphore is golang.org/x/sync/semaphore, an interface
    with what it documents; an exchange with a backend and the end of the context of a request are events from outside. *)
From stdpp Require Import base numbers list gmap fin_maps strings relations.
From S2P Require Import Prelude.

Local Open Scope string_scope.
Local Open Scope Z_scope.

(** [acquires s s']: [Acquire] of one unit, called on [s], can return nil and leave [s']. *)
Class Weighted (S : Type) := {
  NewWeighted : Z → S;
  acquires : S → S → Prop;
  Release : S → S;
}.
Class WeightedSpec (S : Type) `{Weighted S} (size held : S → Z) : Prop := {
  new_size n : size (NewWeighted n) = n ∧ held (NewWeighted n) = 0;
  acquires_spec s s' : acquires s s' → held s < size s ∧ held s' = held s + 1 ∧ size s' = size s;
  acquires_free s : held s < size s → ∃ s', acquires s s';
  release_spec s : 0 < held s → held (Release s) = held s - 1 ∧ size (Release s) = size s;
}.

(** Where a call of [DoLimited] is: in [Acquire], in [Do], or returned with an error of the first or with what the second gave. *)
Inductive call := Acquiring | Doing | TooMany (err : string) | Done (result : string + Z).
#[export] Instance call_eq_dec : EqDecision call.
Proof. solve_decision. Defined.

(** The calls with the backend of each, the semaphore of all, and the values of [tooManyRequestErrorsTotal]. *)
Record client {S : Type} := mk_client { sem : S; calls : gmap nat (string * call); tooManyRequestErrorsTotal : gmap string Z }.
Arguments client : clear implicits.
Arguments mk_client {S} _ _ _.

Section client.
Context {S : Type} `{Weighted S}.

Definition rpcRequestSemaphore (MaxConcurrentRPCs : Z) : S :=
  NewWeighted (if MaxConcurrentRPCs =? 0 then 2 ^ 63 - 1 else MaxConcurrentRPCs).
Definition client_New (MaxConcurrentRPCs : Z) : client S := mk_client (rpcRequestSemaphore MaxConcurrentRPCs) ∅ ∅.

Definition Inc (name : string) (counts : gmap string Z) : gmap string Z := <[name := default 0 (counts !! name) + 1]> counts.
Definition wrapped (err : string) : string := "too many requests " ++ err.

Inductive DoLimited : client S → client S → Prop :=
| step_called s cs n i name : cs !! i = None → DoLimited (mk_client s cs n) (mk_client s (<[i := (name, Acquiring)]> cs) n)
| step_acquired s s' cs n i name : cs !! i = Some (name, Acquiring) → acquires s s' →
    DoLimited (mk_client s cs n) (mk_client s' (<[i := (name, Doing)]> cs) n)
| step_refused s cs n i name err : cs !! i = Some (name, Acquiring) →
    DoLimited (mk_client s cs n) (mk_client s (<[i := (name, TooMany (wrapped err))]> cs) (Inc name n))
| step_done s cs n i name result : cs !! i = Some (name, Doing) →
    DoLimited (mk_client s cs n) (mk_client (Release s) (<[i := (name, Done result)]> cs) n).
End client.

(** ** The limit *)

Definition is_doing (x : string * call) : bool := match x.2 with Doing => true | _ => false end.
Definition is_refused (name : string) (x : string * call) : bool := String.eqb x.1 name && match x.2 with TooMany _ => true | _ => false end.
(** How many calls are such. *)
Definition number (f : string * call → bool) (cs : gmap nat (string * call)) : Z := Z.of_nat (size (filter (λ ix, f ix.2 = true) cs)).

Lemma number_insert f cs i x : number f (<[i := x]> cs) =
  number f cs - (match cs !! i with Some y => if f y then 1 else 0 | None => 0 end) + (if f x then 1 else 0).
Proof.
  assert (∀ cs i x, cs !! i = None → number f (<[i := x]> cs) = number f cs + (if f x then 1 else 0)) as Hnew.
  { clear. intros cs i x E. unfold number. destruct (f x) eqn:Ef.
    - rewrite map_filter_insert_True by done. rewrite map_size_insert_None; [lia|]. apply map_lookup_filter_None. by left.
    - rewrite map_filter_insert_not' by (naive_solver congruence). lia. }
  destruct (cs !! i) as [y|] eqn:E; [|rewrite Hnew by done; lia].
  rewrite <- (insert_delete_id cs i y E) at 2. rewrite <- insert_delete_eq, !Hnew by apply lookup_delete_eq. lia.
Qed.
Lemma number_empty f : number f ∅ = 0.
Proof. unfold number. by rewrite map_filter_empty, map_size_empty. Qed.
Lemma number_nonneg f cs : 0 ≤ number f cs.
Proof. unfold number. lia. Qed.
Lemma number_pos f cs i x : cs !! i = Some x → f x = true → 0 < number f cs.
Proof.
  intros E Ef. rewrite <- (insert_id cs i x E), number_insert, E, Ef. rewrite <- (insert_delete_id cs i x E), number_insert, lookup_delete_eq, Ef.
  pose proof (number_nonneg f (delete i cs)). lia.
Qed.

Section limit.
Context {S : Type} `{Weighted S} {size held : S → Z} `{!WeightedSpec S size held}.

Record limited (max : Z) (c : client S) : Prop := mk_limited {
  limited_size : size (sem c) = max;
  limited_held : held (sem c) = number is_doing (calls c);
  limited_bound : number is_doing (calls c) ≤ Z.max 0 max;
  limited_refused name : default 0 (tooManyRequestErrorsTotal c !! name) = number (is_refused name) (calls c);
}.

Lemma refused_insert name cs i (x y : string * call) :
  cs !! i = Some x → is_refused name x = false → is_refused name y = false → number (is_refused name) (<[i := y]> cs) = number (is_refused name) cs.
Proof. intros E Ex Ey. rewrite number_insert, E, Ex, Ey. lia. Qed.

Lemma limited_step max c c' : limited max c → DoLimited c c' → limited max c'.
Proof.
  intros [Hs Hh Hb Hr] Hst. destruct Hst as [s cs n i name E|s s' cs n i name E Ha|s cs n i name err E|s cs n i name result E]; cbn in *.
  - split; cbn; [done|rewrite number_insert, E; cbn; lia..|]. intros nm. rewrite number_insert, E, Hr.
    assert (is_refused nm (name, Acquiring) = false) as -> by apply andb_false_r. lia.
  - destruct (acquires_spec s s' Ha) as (Hlt & Hh' & Hs'). split; cbn; [lia|rewrite number_insert, E; cbn; lia..|].
    intros nm. rewrite Hr. symmetry. apply (refused_insert _ _ _ _ _ E); apply andb_false_r.
  - split; cbn; [done|rewrite number_insert, E; cbn; lia..|]. intros nm. rewrite number_insert, E. unfold Inc.
    assert (is_refused nm (name, Acquiring) = false) as -> by apply andb_false_r.
    assert (is_refused nm (name, TooMany (wrapped err)) = String.eqb name nm) as -> by apply andb_true_r. destruct (String.eqb_spec name nm) as [->|Hn].
    + rewrite lookup_insert_eq. cbn. rewrite Hr. lia.
    + rewrite lookup_insert_ne, Hr by done. lia.
  - assert (0 < number is_doing cs) as Hp by (by eapply number_pos).
    destruct (release_spec s) as [Hh' Hs']; [lia|]. split; cbn; [lia|rewrite number_insert, E; cbn; lia..|].
    intros nm. rewrite Hr. symmetry. apply (refused_insert _ _ _ _ _ E); apply andb_false_r.
Qed.
Lemma limited_New n : limited (if n =? 0 then 2 ^ 63 - 1 else n) (client_New n).
Proof.
  destruct (new_size (S := S) (size := size) (held := held) (if n =? 0 then 2 ^ 63 - 1 else n)) as [Hs Hh]. split; cbn; [done|by rewrite number_empty|rewrite number_empty; lia|].
  intros name. by rewrite lookup_empty, number_empty.
Qed.
Lemma limited_reachable n c : rtc DoLimited (client_New n) c → limited (if n =? 0 then 2 ^ 63 - 1 else n) c.
Proof.
  intros Hr. pose proof (limited_New n) as H0. revert H0. induction Hr as [|c1 c2 c3 Hst _ IH]; [done|]. intros H1. apply IH. by eapply limited_step.
Qed.
End limit.


(** A negative limit, which no check of the configuration refuses, lets no request through. *)
Lemma negative_limit_blocks {S} `{Weighted S} {size held : S → Z} `{!WeightedSpec S size held} n (c : client S) i name :
  n < 0 → rtc DoLimited (client_New n) c → calls c !! i ≠ Some (name, Doing).
Proof.
  intros Hn Hr E. destruct (limited_reachable (size := size) (held := held) _ _ Hr) as [_ _ Hb _].
  assert (0 < number is_doing (calls c)) as Hp by (by eapply number_pos). destruct (Z.eqb_spec n 0); lia.
Qed.

Module limit_runs.
(** The units of a semaphore and those that are held. *)
#[local] Instance counted : Weighted (Z * Z) := {|
  NewWeighted n := (n, 0);
  acquires s s' := s.2 < s.1 ∧ s' = (s.1, s.2 + 1);
  Release s := (s.1, s.2 - 1);
|}.
#[local] Instance counted_spec : WeightedSpec (Z * Z) fst snd.
Proof. split; [done|intros s s' [Hlt ->]; cbn; lia|intros s Hlt; by exists (s.1, s.2 + 1)|done]. Qed.

(** Two calls and one unit: the second waits for the first. *)
Definition queued : client (Z * Z) := mk_client (1, 0) (<[1%nat := ("b", Acquiring)]> {[0%nat := ("a", Done (inr 200))]}) ∅.
Lemma queued_reachable : rtc DoLimited (client_New 1) queued.
Proof.
  eapply rtc_l; [by apply (step_called _ _ _ 0%nat "a")|]. eapply rtc_l; [by apply (step_acquired _ (1, 1) _ _ 0%nat "a")|].
  eapply rtc_l; [by apply (step_called _ _ _ 1%nat "b")|]. eapply rtc_l; [by apply (step_done _ _ _ 0%nat "a" (inr 200))|]. apply rtc_refl.
Qed.
End limit_runs.
