(* ===== verification/Bytes.v ===== *)
(** What op-signer uses of Go's standard library on byte slices: big.Int.Bytes,
    copy, hash/crc32, and encoding/asn1 for the DER values of a signature and
    of a public key. Bytes are integers from 0 to 255. *)
From stdpp Require Import base numbers list strings.
From S2P Require Import Prelude.

Local Open Scope Z_scope.

Notation bytes := (list Z).
Definition is_byte (b : Z) : Prop := 0 ≤ b < 256.

(** ** Integers *)

(** The value of big-endian bytes, big.Int.SetBytes. *)
Definition be_val (l : bytes) : Z := foldl (λ acc b, acc * 256 + b) 0 l.

Fixpoint be_go (fuel : nat) (n : Z) (acc : bytes) : bytes :=
  match fuel with
  | O => acc
  | S fuel => if n =? 0 then acc else be_go fuel (n `div` 256) (n `mod` 256 :: acc)
  end.
(** big.Int.Bytes: the absolute value, without leading zeros. *)
Definition be_bytes (n : Z) : bytes := be_go (S (Z.to_nat (Z.log2 (Z.abs n)))) (Z.abs n) [].

(** copy(dst[off:], src), which panics when [off] is not in the slice. *)
Definition copy_at (dst : bytes) (off : Z) (src : bytes) : go bytes :=
  if (off <? 0) || (Z.of_nat (length dst) <? off) then Panic "slice bounds out of range"%string
  else
    let i := Z.to_nat off in
    let n := Nat.min (length src) (length dst - i) in
    Ret (take i dst ++ take n src ++ drop (i + n) dst)%list.

(** ** CRC-32 with the Castagnoli polynomial *)

Definition crc_bit (crc : Z) : Z :=
  if Z.testbit crc 0 then Z.lxor (Z.shiftr crc 1) 0x82F63B78 else Z.shiftr crc 1.
Definition crc_byte (crc b : Z) : Z := Nat.iter 8 crc_bit (Z.lxor crc b).
Definition crc32c (data : bytes) : Z := Z.lxor (foldl crc_byte 0xFFFFFFFF data) 0xFFFFFFFF.

(** ** DER *)

(** The bytes of a long length, most significant first. *)
Fixpoint der_long (n : nat) (len : Z) (bs : bytes) : option (Z * bytes) :=
  match n with
  | O => if len <? 0x80 then None else Some (len, bs)
  | S n =>
      match bs with
      | [] => None
      | b :: bs =>
          if 2 ^ 23 <=? len then None
          else let len := len * 256 + b in if len =? 0 then None else der_long n len bs
      end
  end.

(** parseTagAndLength: the first byte (class, form and tag), the length, and
    what follows. Tags over 30 are not expected anywhere. *)
Definition der_header (bs : bytes) : option (Z * Z * bytes) :=
  match bs with
  | t :: b :: bs =>
      if Z.land t 0x1f =? 0x1f then None
      else if Z.land b 0x80 =? 0 then Some (t, Z.land b 0x7f, bs)
      else
        let n := Z.land b 0x7f in
        if n =? 0 then None
        else match der_long (Z.to_nat n) 0 bs with
          | Some (len, bs) => Some (t, len, bs)
          | None => None
          end
  | _ => None
  end.

(** The next element: its first byte, its contents, and the rest. *)
Definition der_next (bs : bytes) : option (Z * bytes * bytes) :=
  match der_header bs with
  | Some (t, len, bs) =>
      if Z.of_nat (length bs) <? len then None
      else Some (t, take (Z.to_nat len) bs, drop (Z.to_nat len) bs)
  | None => None
  end.
Definition der_expect (tag : Z) (bs : bytes) : option (bytes * bytes) :=
  match der_next bs with
  | Some (t, content, rest) => if t =? tag then Some (content, rest) else None
  | None => None
  end.

Definition tag_integer : Z := 0x02.
Definition tag_bit_string : Z := 0x03.
Definition tag_oid : Z := 0x06.
Definition tag_sequence : Z := 0x30.

(** parseBigInt with checkInteger. *)
Definition der_int (bs : bytes) : option Z :=
  match bs with
  | [] => None
  | b :: rest =>
      let minimal := match rest with
        | [] => true
        | c :: _ => negb ((b =? 0) && (Z.land c 0x80 =? 0)) && negb ((b =? 0xff) && (Z.land c 0x80 =? 0x80))
        end in
      if minimal then
        Some (if Z.land b 0x80 =? 0x80 then be_val bs - 256 ^ Z.of_nat (length bs) else be_val bs)
      else None
  end.

(** parseBitString: the bytes and the number of padding bits. *)
Definition der_bit_string (bs : bytes) : option (bytes * Z) :=
  match bs with
  | [] => None
  | padding :: data =>
      if (7 <? padding) || ((length data =? 0)%nat && (0 <? padding)) ||
         negb (Z.land (List.last data 0) (2 ^ padding - 1) =? 0) && negb (length data =? 0)%nat
      then None else Some (data, padding)
  end.

(** BitString.RightAlign. *)
Fixpoint shift_right (carry shift : Z) (bs : bytes) : bytes :=
  match bs with
  | [] => []
  | b :: bs => Z.lor (Z.land (Z.shiftl carry (8 - shift)) 0xff) (Z.shiftr b shift) :: shift_right b shift bs
  end.
Definition RightAlign (data : bytes) (padding : Z) : bytes :=
  if padding =? 0 then data else shift_right 0 padding data.

(** ** Laws *)

Lemma be_fold a k : foldl (λ acc b, acc * 256 + b) a k = a * 256 ^ Z.of_nat (length k) + be_val k.
Proof.
  unfold be_val. revert a. induction k as [|b k IH]; intros a; [change (a = a * 1 + 0); lia|]. cbn [foldl length].
  rewrite (IH (a * 256 + b)), (IH (0 * 256 + b)), Nat2Z.inj_succ, Z.pow_succ_r by lia. ring.
Qed.
Lemma be_val_app l k : be_val (l ++ k) = be_val l * 256 ^ Z.of_nat (length k) + be_val k.
Proof. unfold be_val at 1. rewrite foldl_app. apply be_fold. Qed.
Lemma be_val_cons b l : be_val (b :: l) = b * 256 ^ Z.of_nat (length l) + be_val l.
Proof. unfold be_val at 1. cbn [foldl]. rewrite be_fold. lia. Qed.

Lemma be_val_zeros n : be_val (replicate n 0) = 0.
Proof. induction n as [|n IH]; [done|]. cbn [replicate]. rewrite be_val_cons, IH. lia. Qed.

Lemma be_go_spec fuel n acc : 0 ≤ n < 2 ^ Z.of_nat fuel →
  be_val (be_go fuel n acc) = n * 256 ^ Z.of_nat (length acc) + be_val acc ∧
  (Forall is_byte acc → Forall is_byte (be_go fuel n acc)).
Proof.
  revert n acc. induction fuel as [|fuel IH]; intros n acc Hn.
  { simpl in Hn. assert (n = 0) as -> by lia. simpl. done. }
  cbn [be_go]. destruct (Z.eqb_spec n 0) as [->|Hne]; [done|].
  rewrite Nat2Z.inj_succ, Z.pow_succ_r in Hn by lia.
  assert (0 ≤ n `div` 256 < 2 ^ Z.of_nat fuel) as Hd.
  { split; [apply Z.div_pos; lia|]. apply Z.div_lt_upper_bound; lia. }
  destruct (IH (n `div` 256) (n `mod` 256 :: acc) Hd) as [-> Hb]. split.
  - rewrite be_val_cons. cbn [length]. rewrite Nat2Z.inj_succ, Z.pow_succ_r by lia.
    rewrite (Z.div_mod n 256) at 3 by lia. ring.
  - intros Ha. apply Hb. constructor; [|done]. apply Z.mod_pos_bound. lia.
Qed.

Lemma be_bytes_val n : be_val (be_bytes n) = Z.abs n ∧ Forall is_byte (be_bytes n).
Proof.
  unfold be_bytes. set (m := Z.abs n). assert (0 ≤ m < 2 ^ Z.of_nat (S (Z.to_nat (Z.log2 m)))) as Hm.
  { split; [lia|]. rewrite Nat2Z.inj_succ, Z2Nat.id by apply Z.log2_nonneg.
    destruct (Z.eq_dec m 0) as [->|]; [done|]. apply Z.log2_spec. lia. }
  destruct (be_go_spec _ m [] Hm) as [-> Hb]. split; [change (m * 1 + 0 = m); lia|]. apply Hb. constructor.
Qed.

Lemma be_val_bound l : Forall is_byte l → 0 ≤ be_val l < 256 ^ Z.of_nat (length l).
Proof.
  induction 1 as [|b l Hb _ IH]; [done|]. rewrite be_val_cons. cbn [length].
  rewrite Nat2Z.inj_succ, Z.pow_succ_r by lia. unfold is_byte in Hb. nia.
Qed.

Lemma be_go_length fuel n acc (k : nat) : 0 ≤ n < 256 ^ Z.of_nat k → (length (be_go fuel n acc) ≤ k + length acc)%nat.
Proof.
  revert n acc k. induction fuel as [|fuel IH]; intros n acc k Hn; simpl; [lia|].
  destruct (Z.eqb_spec n 0) as [->|Hne]; [lia|]. destruct k as [|k]; [simpl in Hn; lia|].
  rewrite Nat2Z.inj_succ, Z.pow_succ_r in Hn by lia.
  etrans; [apply (IH (n `div` 256) _ k)|simpl; lia].
  split; [apply Z.div_pos; lia|]. apply Z.div_lt_upper_bound; lia.
Qed.

(** The bytes of an integer fit in [k] bytes exactly when the integer does. *)
Lemma be_bytes_length n (k : nat) : (length (be_bytes n) ≤ k)%nat ↔ Z.abs n < 256 ^ Z.of_nat k.
Proof.
  split.
  - intros Hl. destruct (be_bytes_val n) as [<- Hb]. apply be_val_bound in Hb.
    eapply Z.lt_le_trans; [apply Hb|]. apply Z.pow_le_mono_r; lia.
  - intros Hn. unfold be_bytes. etrans; [apply (be_go_length _ _ _ k); lia|]. simpl. lia.
Qed.

Lemma copy_at_in (dst src : bytes) (i : nat) : (i + length src ≤ length dst)%nat →
  copy_at dst (Z.of_nat i) src = Ret (take i dst ++ src ++ drop (i + length src) dst)%list.
Proof.
  intros Hl. unfold copy_at. rewrite (proj2 (Z.ltb_ge _ _)), (proj2 (Z.ltb_ge _ _)) by lia. simpl.
  rewrite Nat2Z.id. replace (Nat.min (length src) (length dst - i)) with (length src) by lia. by rewrite firstn_all.
Qed.

(** 32 bytes of an integer that has at most that many. *)
Definition pad32 (n : Z) : bytes := (replicate (32 - length (be_bytes n)) 0 ++ be_bytes n)%list.

Lemma pad32_spec n : 0 ≤ n < 2 ^ 256 →
  (length (be_bytes n) ≤ 32)%nat ∧ length (pad32 n) = 32%nat ∧ be_val (pad32 n) = n ∧ Forall is_byte (pad32 n).
Proof.
  intros Hn. destruct (be_bytes_val n) as [Hv Hb]. assert (length (be_bytes n) ≤ 32)%nat as Hl.
  { apply be_bytes_length. rewrite Z.abs_eq by lia. change (256 ^ Z.of_nat 32) with (2 ^ 256). lia. }
  unfold pad32. split_and!; [done| | |].
  - rewrite length_app, length_replicate. lia.
  - rewrite be_val_app, be_val_zeros, Hv. lia.
  - apply Forall_app. split; [|done]. apply Forall_replicate. unfold is_byte. lia.
Qed.

(** ** Encoding of signatures *)

(** The contents of the DER integer of [n ≥ 0]: a zero byte before a set sign
    bit. *)
Definition int_contents (n : Z) : bytes :=
  match be_bytes n with
  | [] => [0]
  | b :: l => if 0x80 <=? b then 0 :: b :: l else b :: l
  end.
Definition der_integer (n : Z) : bytes := tag_integer :: Z.of_nat (length (int_contents n)) :: int_contents n.
(** SEQUENCE of two INTEGERs, as a signer encodes (R, S). *)
Definition der_signature (r s : Z) : bytes :=
  let c := (der_integer r ++ der_integer s)%list in tag_sequence :: Z.of_nat (length c) :: c.

(** A fact on bytes, by trying them all. *)
Lemma byte_ind (P : Z → bool) : forallb P (seqZ 0 256) = true → ∀ b, is_byte b → P b = true.
Proof. intros HP b Hb. rewrite forallb_forall in HP. apply HP, list_elem_of_In, elem_of_seqZ. unfold is_byte in Hb. lia. Qed.

Lemma sign_bit b : is_byte b → Z.land b 0x80 = if 0x80 <=? b then 0x80 else 0.
Proof.
  intros Hb. apply Z.eqb_eq. revert b Hb.
  apply (byte_ind (λ b, Z.land b 0x80 =? if 0x80 <=? b then 0x80 else 0)). vm_compute. reflexivity.
Qed.
Lemma short_length b : is_byte b → Z.land b 0x7f = if 0x80 <=? b then b - 0x80 else b.
Proof.
  intros Hb. apply Z.eqb_eq. revert b Hb.
  apply (byte_ind (λ b, Z.land b 0x7f =? if 0x80 <=? b then b - 0x80 else b)). vm_compute. reflexivity.
Qed.

Lemma be_bytes_lead n b l : be_bytes n = b :: l → is_byte b ∧ b ≠ 0.
Proof.
  intros Hn. destruct (be_bytes_val n) as [Hv Hb]. rewrite Hn in Hv, Hb. inversion Hb as [|? ? Hb1 Hb2]; subst.
  split; [done|]. intros ->. rewrite be_val_cons in Hv. apply be_val_bound in Hb2.
  assert (length (be_bytes n) ≤ length l)%nat as Hl by (apply be_bytes_length; lia). rewrite Hn in Hl. simpl in Hl. lia.
Qed.

Lemma der_int_contents n : 0 ≤ n → der_int (int_contents n) = Some n.
Proof.
  intros Hn. unfold int_contents. destruct (be_bytes_val n) as [Hv _].
  destruct (be_bytes n) as [|b l] eqn:Hb.
  { unfold be_val in Hv. simpl in Hv. f_equal. rewrite <-(Z.abs_eq n) by done. by rewrite <-Hv. }
  apply be_bytes_lead in Hb as [Hb Hne]. rewrite (Z.abs_eq n) in Hv by done. pose proof (sign_bit b Hb) as Hs.
  destruct (Z.leb_spec 0x80 b) as [Hge|Hlt]; unfold der_int.
  - rewrite Hs. cbn [Z.eqb andb negb]. change (Z.land 0 0x80 =? 0x80) with false. cbn iota.
    rewrite be_val_cons, Z.mul_0_l, Z.add_0_l. by rewrite Hv.
  - rewrite (proj2 (Z.eqb_neq b 0)), (proj2 (Z.eqb_neq b 0xff)), Hs by lia. rewrite Hv. by destruct l.
Qed.

Lemma int_contents_length n : 0 ≤ n < 2 ^ 256 → (0 < length (int_contents n) ≤ 33)%nat.
Proof.
  intros Hn. assert (length (be_bytes n) ≤ 32)%nat as Hl.
  { apply be_bytes_length. rewrite Z.abs_eq by lia. change (256 ^ Z.of_nat 32) with (2 ^ 256). lia. }
  unfold int_contents. destruct (be_bytes n) as [|b l]; [simpl; lia|]. destruct (0x80 <=? b); simpl in *; lia.
Qed.

(** An element with a short length is read back. *)
Lemma der_expect_short tag c rest : Z.land tag 0x1f ≠ 0x1f → (length c < 128)%nat →
  der_expect tag (tag :: Z.of_nat (length c) :: c ++ rest) = Some (c, rest).
Proof.
  intros Ht Hc. unfold der_expect, der_next, der_header. rewrite (proj2 (Z.eqb_neq _ _)) by done.
  assert (is_byte (Z.of_nat (length c))) as Hb by (unfold is_byte; lia).
  rewrite (sign_bit _ Hb), (short_length _ Hb), (proj2 (Z.leb_gt 0x80 _)) by lia. cbn [Z.eqb].
  rewrite length_app, (proj2 (Z.ltb_ge _ _)) by lia.
  by rewrite Nat2Z.id, take_app_length, drop_app_length, Z.eqb_refl.
Qed.
