(* ===== verification/Signer.v ===== *)
(** op-signer/service and op-signer/service/provider: clients known by their
    certificate ask for signatures of transactions and block payloads with the
    keys the configuration gives them; a cloud KMS signs, and its signatures are
    brought into the compact recoverable form of Ethereum.

    An error is its message. *)
From stdpp Require Import base numbers list strings.
From S2P Require Import Prelude.
From S2P Require Import Bytes.

Local Open Scope string_scope.
Local Open Scope Z_scope.
#[local] Arguments String.append : simpl nomatch.

(** ** cloudkms.go *)

(** encoding/pem: the first block, if any, and the rest. *)
Class Pem := pem_Decode : bytes → option bytes * bytes.

(** go-ethereum's secp256k1. *)
Class Secp256k1 := {
  VerifySignature : bytes → bytes → bytes → bool;
  RecoverPubkey : bytes → bytes → string + bytes;
}.
Definition curve_order : Z := 0xFFFFFFFFFFFFFFFFFFFFFFFFFFFFFFFEBAAEDCE6AF48A03BBFD25E8CD0364141.

Record PublicKey := mk_PublicKey { Pem_ : bytes; PemCrc32C : Z }.
Record AsymmetricSignRequest := mk_sign_request { rq_Name : string; Sha256 : bytes; DigestCrc32C : Z }.
Record AsymmetricSignResponse := mk_sign_response {
  rs_Name : string; VerifiedDigestCrc32C : bool; Signature : bytes; SignatureCrc32C : Z
}.

(** [CloudKMSClient]. *)
Class CloudKMSClient (W : Type) := {
  kms_GetPublicKey : string → W → (string + PublicKey) * W;
  kms_AsymmetricSign : AsymmetricSignRequest → W → (string + AsymmetricSignResponse) * W;
}.

(** [SignatureProvider]. *)
Class SignatureProvider (W : Type) := {
  SignDigest : string → bytes → M W (string + bytes);
  GetPublicKey : string → M W (string + bytes);
}.

Definition createSignRequestFromDigest (keyName : string) (digest : bytes) : AsymmetricSignRequest :=
  mk_sign_request keyName digest (crc32c digest).

(** asn1.Unmarshal into struct { R, S }: what follows S is ignored. *)
Definition unmarshal_signature (der : bytes) : option (Z * Z) :=
  '(content, _) ← der_expect tag_sequence der;
  '(r, rest) ← der_expect tag_integer content;
  r ← der_int r;
  '(s, _) ← der_expect tag_integer rest;
  s ← der_int s;
  Some (r, s).

Definition convertToCompactSignature (derSignature : bytes) : go (string + bytes) :=
  match unmarshal_signature derSignature with
  | None => Ret (inl "asn1.Unmarshal error")
  | Some (r, s) =>
      let s := if curve_order `div` 2 <? s then curve_order - s else s in
      let rBytes := be_bytes r in
      let sBytes := be_bytes s in
      match copy_at (replicate 64 0) (32 - Z.of_nat (length rBytes)) rBytes with
      | Panic why => Panic why
      | Ret signature =>
          match copy_at signature (64 - Z.of_nat (length sBytes)) sBytes with
          | Panic why => Panic why
          | Ret signature => Ret (inr signature)
          end
      end
  end.

(** The loop of [calculateRecoveryID] from [i] on, [n] more rounds. *)
Fixpoint recovery_loop `{Secp256k1} (signature digest pubKey : bytes) (n : nat) (i : Z) (err : string) : string + Z :=
  match n with
  | O => inl ("failed to calculate recovery id, should never happen: " +:+ err)
  | S n =>
      match RecoverPubkey digest (signature ++ [i])%list with
      | inl e => recovery_loop signature digest pubKey n (i + 1) e
      | inr publicKey =>
          if bool_decide (publicKey = pubKey) then inr i else recovery_loop signature digest pubKey n (i + 1) err
      end
  end.
Definition calculateRecoveryID `{Secp256k1} (signature digest pubKey : bytes) : string + Z :=
  recovery_loop signature digest pubKey 4 0 "%!w(<nil>)".

Definition compactSignatureMalleabilityCheck (sig : bytes) : go (option string) :=
  match sig !! 32%nat with
  | None => Panic "index out of range"
  | Some b => Ret (
      if b <? 0 then Some "highest bit is negative"
      else if negb (Bool.eqb (Z.shiftr b 7 =? 1) (Z.land b 0x80 =? 0x80)) then Some "highest bit"
      else if Z.land b 0x80 =? 0x80 then Some "highest bit"
      else None)
  end.

Definition convertToCompactRecoverableSignature `{Secp256k1} (derSignature digest publicKey : bytes) :
    go (string + bytes) :=
  match convertToCompactSignature derSignature with
  | Panic why => Panic why
  | Ret (inl e) => Ret (inl ("failed to convert to compact signature: " +:+ e))
  | Ret (inr signature) =>
      match compactSignatureMalleabilityCheck signature with
      | Panic why => Panic why
      | Ret (Some e) => Ret (inl ("signature failed malleability check: " +:+ e))
      | Ret None => Ret (
          if negb (VerifySignature publicKey digest signature) then inl "signature could not be verified with public key"
          else match calculateRecoveryID signature digest publicKey with
            | inl e => inl ("failed to calculate recovery id: " +:+ e)
            | inr recId => inr (signature ++ [recId])%list
            end)
      end
  end.

Definition oidPublicKeyECDSA : bytes := [0x2a; 0x86; 0x48; 0xce; 0x3d; 0x02; 0x01].
Definition oidNamedCurveSECP256K1 : bytes := [0x2b; 0x81; 0x04; 0x00; 0x0a].

(** asn1.Unmarshal into [publicKeyInfo]: the algorithm, the full bytes of its
    parameters (none when they are missing), the key with its padding, and what
    follows. *)
Definition unmarshal_key_info (der : bytes) : option (bytes * bytes * (bytes * Z) * bytes) :=
  '(content, rest) ← der_expect tag_sequence der;
  '(alg, key) ← der_expect tag_sequence content;
  '(oid, params) ← der_expect tag_oid alg;
  params ← (match params with
    | [] => Some []
    | _ => '(_, _, after) ← der_next params; Some (take (length params - length after) params)
    end);
  '(bits, _) ← der_expect tag_bit_string key;
  key ← der_bit_string bits;
  Some (oid, params, key, rest).

(** [x509ParseECDSAPublicKey]. Object identifiers are compared in their
    encoding, which is unique. *)
Definition x509ParseECDSAPublicKey (derBytes : bytes) : go (string + bytes) :=
  match unmarshal_key_info derBytes with
  | None => Ret (inl "asn1: syntax error")
  | Some (oid, paramsData, (data, padding), rest) =>
      if negb (length rest =? 0)%nat then Ret (inl "x509: trailing data after ASN.1 of public-key")
      else if negb (bool_decide (oid = oidPublicKeyECDSA)) then Ret (inl "x509: unknown public key algorithm")
      else
        let asn1Data := RightAlign data padding in
        match der_expect tag_oid paramsData with
        | None => Ret (inl "x509: failed to parse ECDSA parameters as named curve")
        | Some (namedCurveOID, rest) =>
            if negb (length rest =? 0)%nat then Ret (inl "x509: trailing data after ECDSA parameters")
            else if negb (bool_decide (namedCurveOID = oidNamedCurveSECP256K1)) then
              Ret (inl "x509: unsupported elliptic curve")
            else match asn1Data with
              | [] => Panic "index out of range"
              | b :: _ => if negb (b =? 4) then Ret (inl "x509: only uncompressed keys are supported") else Ret (inr asn1Data)
              end
        end
  end.

Definition decodePublicKeyPEM `{Pem} (key : bytes) : go (string + bytes) :=
  let '(block, rest) := pem_Decode key in
  match rest with
  | _ :: _ => Ret (inl "crypto: failed to parse PEM string, not all bytes in PEM key were decoded")
  | [] =>
      match block with
      | None => Panic "nil pointer dereference"
      | Some der =>
          match x509ParseECDSAPublicKey der with
          | Panic why => Panic why
          | Ret (inl e) => Ret (inl ("crypto: failed to parse PEM string: " +:+ e))
          | Ret (inr pk) => Ret (inr pk)
          end
      end
  end.

Section kms.
Context `{Pem} `{Secp256k1} {W : Type} `{CloudKMSClient W}.

Definition cloud_GetPublicKey (keyName : string) : M W (string + bytes) :=
  result ← (λ w, Ret (kms_GetPublicKey keyName w));
  match result with
  | inl e => mret (inl ("kms get public key request failed: " +:+ e))
  | inr pk =>
      if negb (crc32c (Pem_ pk) =? PemCrc32C pk) then
        mret (inl "cloud kms public key response corrupted in transit")
      else m_lift (decodePublicKeyPEM (Pem_ pk))
  end.

Definition cloud_SignDigest (keyName : string) (digest : bytes) : M W (string + bytes) :=
  publicKey ← cloud_GetPublicKey keyName;
  match publicKey with
  | inl e => mret (inl ("failed to get public key: " +:+ e))
  | inr publicKey =>
      let request := createSignRequestFromDigest keyName digest in
      result ← (λ w, Ret (kms_AsymmetricSign request w));
      match result with
      | inl e => mret (inl ("cloud kms sign request failed: " +:+ e))
      | inr result =>
          if negb (String.eqb (rs_Name result) (rq_Name request)) then
            mret (inl "cloud kms sign request corrupted in transit")
          else if negb (VerifiedDigestCrc32C result) then mret (inl "cloud kms sign request corrupted in transit")
          else if negb (crc32c (Signature result) =? SignatureCrc32C result) then
            mret (inl "cloud kms sign response corrupted in transit")
          else m_lift (convertToCompactRecoverableSignature (Signature result) digest publicKey)
      end
  end.

#[export] Instance cloud_provider : SignatureProvider W := {| SignDigest := cloud_SignDigest; GetPublicKey := cloud_GetPublicKey |}.
End kms.

(** ** Signatures *)

Lemma copy_at_length dst off src l : copy_at dst off src = Ret l → length l = length dst.
Proof.
  unfold copy_at. destruct (_ || _) eqn:E; [done|]. apply orb_false_iff in E as [E1 E2].
  apply Z.ltb_ge in E1, E2. intros [= <-]. rewrite !length_app, !length_take, length_drop. lia.
Qed.

Lemma compact_length der sig : convertToCompactSignature der = Ret (inr sig) → length sig = 64%nat.
Proof.
  unfold convertToCompactSignature. destruct (unmarshal_signature der) as [[r s]|]; [|done]. cbv zeta.
  destruct (copy_at (replicate 64 0) _ _) as [l1|] eqn:E1; [|done].
  destruct (copy_at l1 _ _) as [l2|] eqn:E2; [|done]. intros [= <-].
  by rewrite (copy_at_length _ _ _ _ E2), (copy_at_length _ _ _ _ E1).
Qed.

(** The canonical value of S: the lower one of S and N - S. *)
Definition low_s (s : Z) : Z := if curve_order `div` 2 <? s then curve_order - s else s.

Lemma low_s_range s : 0 ≤ s ≤ curve_order → 0 ≤ low_s s ≤ curve_order `div` 2.
Proof.
  unfold low_s. pose proof (Z.div_mod curve_order 2 ltac:(lia)) as Hd. change (curve_order `mod` 2) with 1 in Hd.
  destruct (Z.ltb_spec (curve_order `div` 2) s); lia.
Qed.

Lemma der_expect_integer n rest : 0 ≤ n < 2 ^ 256 →
  der_expect tag_integer (der_integer n ++ rest)%list = Some (int_contents n, rest).
Proof. intros Hn. apply der_expect_short; [done|]. apply int_contents_length in Hn. lia. Qed.

Lemma unmarshal_der_signature r s : 0 ≤ r < 2 ^ 256 → 0 ≤ s < 2 ^ 256 → unmarshal_signature (der_signature r s) = Some (r, s).
Proof.
  intros Hr Hs. pose proof (int_contents_length r Hr) as Hlr. pose proof (int_contents_length s Hs) as Hls.
  unfold unmarshal_signature, der_signature. cbv zeta.
  assert (length (der_integer r ++ der_integer s)%list < 128)%nat as Hl.
  { rewrite length_app. unfold der_integer. cbn [length]. lia. }
  pose proof (der_expect_short tag_sequence (der_integer r ++ der_integer s)%list [] ltac:(done) Hl) as E.
  rewrite app_nil_r in E. rewrite E. cbn [mbind option_bind].
  rewrite der_expect_integer by done. cbn [mbind option_bind]. rewrite der_int_contents by lia. cbn [mbind option_bind].
  pose proof (der_expect_integer s [] Hs) as E2. rewrite app_nil_r in E2. rewrite E2. cbn [mbind option_bind].
  by rewrite der_int_contents by lia.
Qed.

Lemma compact_padded r s : 0 ≤ r < 2 ^ 256 → 0 ≤ s < 2 ^ 256 → 0 ≤ low_s s →
  convertToCompactSignature (der_signature r s) = Ret (inr (pad32 r ++ pad32 (low_s s))%list).
Proof.
  intros Hr Hs Hlow. assert (low_s s < 2 ^ 256) as Hlow'.
  { unfold low_s. destruct (Z.ltb_spec (curve_order `div` 2) s); [|lia]. change (2 ^ 256) with 0x10000000000000000000000000000000000000000000000000000000000000000.
    unfold curve_order. lia. }
  destruct (pad32_spec r Hr) as (Hlr & Hpr & _). destruct (pad32_spec (low_s s)) as (Hls & Hps & _); [lia|].
  unfold convertToCompactSignature. rewrite unmarshal_der_signature by done. cbv zeta. fold (low_s s).
  change 32 with (Z.of_nat 32). rewrite <-Nat2Z.inj_sub by done.
  rewrite copy_at_in by (rewrite length_replicate; lia). rewrite take_replicate, drop_replicate, Nat.min_l by lia.
  replace (64 - (32 - length (be_bytes r) + length (be_bytes r)))%nat with 32%nat by lia.
  rewrite app_assoc. fold (pad32 r). change 64 with (Z.of_nat 64). rewrite <-Nat2Z.inj_sub by lia.
  rewrite copy_at_in by (rewrite length_app, length_replicate; lia).
  rewrite drop_ge, app_nil_r by (rewrite length_app, length_replicate; lia).
  rewrite take_app_ge by lia. rewrite take_replicate, <-app_assoc. rewrite Hpr.
  unfold pad32 at 3. do 5 f_equal. lia.
Qed.

Lemma not_malleable b : is_byte b → b < 0x80 →
  (if b <? 0 then Some "highest bit is negative"
   else if negb (Bool.eqb (Z.shiftr b 7 =? 1) (Z.land b 0x80 =? 0x80)) then Some "highest bit"
   else if Z.land b 0x80 =? 0x80 then Some "highest bit" else None) = None.
Proof.
  intros Hb Hlt. rewrite (sign_bit b Hb), (proj2 (Z.leb_gt 0x80 b) Hlt), (proj2 (Z.ltb_ge b 0)) by apply Hb.
  assert (Z.shiftr b 7 = 0) as ->; [|done]. rewrite Z.shiftr_div_pow2 by done. apply Z.div_small. split; [apply Hb|done].
Qed.

(** C35: the signature (R, S) of the KMS, DER encoded, becomes 64 bytes: R, and
    the lower one of S and N - S, each as 32 bytes. That is the canonical form:
    S is at most half of the curve order, and the check for malleability
    passes. *)
Theorem compact_signature_canonical r s : 0 ≤ r < 2 ^ 256 → 0 ≤ s ≤ curve_order →
  ∃ sig, convertToCompactSignature (der_signature r s) = Ret (inr sig) ∧ length sig = 64%nat ∧
    be_val (take 32 sig) = r ∧ be_val (drop 32 sig) ≤ curve_order `div` 2 ∧
    (be_val (drop 32 sig) = s ∨ be_val (drop 32 sig) = curve_order - s) ∧
    compactSignatureMalleabilityCheck sig = Ret None.
Proof.
  intros Hr Hs. pose proof (low_s_range s Hs) as Hl.
  assert (curve_order `div` 2 < 0x80 * 256 ^ 31 ∧ curve_order < 2 ^ 256) as [Hhalf Horder] by (split; vm_compute; reflexivity).
  destruct (pad32_spec r Hr) as (_ & Hpr & Hvr & _). destruct (pad32_spec (low_s s)) as (_ & Hps & Hvs & Hbs); [lia|].
  exists (pad32 r ++ pad32 (low_s s))%list. rewrite compact_padded by lia.
  rewrite take_app_length', drop_app_length' by done. split_and!; [done|rewrite length_app; lia|done|lia| |].
  - rewrite Hvs. unfold low_s. destruct (_ <? _); auto.
  - unfold compactSignatureMalleabilityCheck. rewrite lookup_app_r by lia. replace (32 - length (pad32 r))%nat with 0%nat by lia.
    destruct (pad32 (low_s s)) as [|b l]; [done|]. simpl. f_equal. inversion Hbs as [|? ? Hb Hbl]; subst.
    apply not_malleable; [done|]. rewrite be_val_cons in Hvs. apply be_val_bound in Hbl.
    injection Hps as Hps. rewrite Hps in Hvs. change (Z.of_nat 31) with 31 in Hvs. nia.
Qed.

Lemma recovery_loop_spec `{Secp256k1} sig digest pk n i err j : recovery_loop sig digest pk n i err = inr j →
  i ≤ j < i + Z.of_nat n ∧ RecoverPubkey digest (sig ++ [j])%list = inr pk.
Proof.
  revert i err. induction n as [|n IH]; intros i err; [done|]. cbn [recovery_loop].
  destruct (RecoverPubkey digest (sig ++ [i])%list) as [e|pk'] eqn:E; [intros HR%IH; split; [lia|apply HR]|].
  case_bool_decide as Hpk; [|intros HR%IH; split; [lia|apply HR]].
  intros [= <-]. split; [lia|]. by rewrite E, Hpk.
Qed.

Section sound.
Context `{Pem} `{Secp256k1} {W : Type} `{CloudKMSClient W}.

(** C19: a signature that is returned is of 65 bytes, by the key that was asked
    for: its first 64 bytes verify with the public key the KMS gave for the key
    name, its last is a recovery id with which exactly that public key is
    recovered. The KMS signed the digest it was asked to sign, under the name it
    was asked for, and neither was changed in transit. *)
Theorem sign_digest_sound keyName digest (w w' : W) sig : cloud_SignDigest keyName digest w = Ret (inr sig, w') →
  ∃ pk w1 response, cloud_GetPublicKey keyName w = Ret (inr pk, w1) ∧
    kms_AsymmetricSign (mk_sign_request keyName digest (crc32c digest)) w1 = (inr response, w') ∧
    rs_Name response = keyName ∧ VerifiedDigestCrc32C response = true ∧
    crc32c (Signature response) = SignatureCrc32C response ∧
    convertToCompactSignature (Signature response) = Ret (inr (take 64 sig)) ∧ length sig = 65%nat ∧
    VerifySignature pk digest (take 64 sig) = true ∧ RecoverPubkey digest sig = inr pk ∧
    ∃ recId, sig = (take 64 sig ++ [recId])%list ∧ 0 ≤ recId < 4.
Proof.
  unfold cloud_SignDigest. intros HR. run_step HR pk w1 H1'. destruct pk as [e|pk]; [done|].
  cbv zeta in HR. run_step HR r w2 H2'. injection H2' as H2'. destruct r as [e|response]; [done|].
  destruct (String.eqb_spec (rs_Name response) (rq_Name (createSignRequestFromDigest keyName digest))) as [Hn|]; [|done].
  destruct (VerifiedDigestCrc32C response) eqn:Hv; [|done].
  destruct (Z.eqb_spec (crc32c (Signature response)) (SignatureCrc32C response)) as [Hc|]; [|done]. cbn [negb] in HR.
  unfold m_lift in HR. apply go_bind_Ret in HR as (x & HC & [= -> <-]). unfold convertToCompactRecoverableSignature in HC.
  destruct (convertToCompactSignature (Signature response)) as [[e|compact]|] eqn:Hcs; [done| |done].
  destruct (compactSignatureMalleabilityCheck compact) as [[e|]|]; [done| |done].
  destruct (VerifySignature pk digest compact) eqn:Hver; [|done]. cbn [negb] in HC.
  destruct (calculateRecoveryID compact digest pk) as [e|recId] eqn:Hrec; [done|]. injection HC as <-.
  apply recovery_loop_spec in Hrec as [Hrange Hrec]. apply compact_length in Hcs as Hlen.
  rewrite take_app_length' by done. exists pk, w1, response. split_and!; try done.
  - rewrite length_app, Hlen. done.
  - exists recId. split; [done|]. lia.
Qed.
End sound.

(** ** auth.go, config.go *)

(** hexutil of go-ethereum. *)
Class Hexutil := { hexutil_Decode : string → string + bytes; hexutil_DecodeBig : string → string + Z }.

(** Addresses as 20 bytes. *)
Notation address := (list Z).
Record AuthConfig := mk_auth {
  ClientName : string; KeyName : string; ChainID : Z; FromAddress : address; ToAddresses : list string; MaxValue : string
}.
Record SignerServiceConfig := mk_config { Auth : list AuthConfig }.

(** [NewAuthMiddleware]: the name of the client by the DNS names of its verified
    certificate, or 401. *)
Definition client_name (leaf : option (list string)) : string + string :=
  match leaf with
  | None => inl "client certificate was not provided"
  | Some [] => inl "client certificate verified but did not contain DNS SAN extension"
  | Some (name :: _) => inr name
  end.

Section config.
Context `{Hexutil}.

(** hexutil.MustDecodeBig. *)
Definition MaxValueToInt (c : AuthConfig) : go Z :=
  match hexutil_DecodeBig (MaxValue c) with inl why => Panic why | inr v => Ret v end.

Fixpoint check_addresses (c : AuthConfig) (addresses : list string) : option string :=
  match addresses with
  | [] => None
  | a :: addresses =>
      match hexutil_Decode a with
      | inl e => Some ("invalid toAddress '" +:+ a +:+ "' in auth config: " +:+ e)
      | inr _ =>
          match (if String.eqb (MaxValue c) "" then inr 0 else hexutil_DecodeBig (MaxValue c)) with
          | inl e => Some ("invalid maxValue '" +:+ a +:+ "' in auth config: " +:+ e)
          | inr _ => check_addresses c addresses
          end
      end
  end.

(** [ReadConfig] on the decoded file: the first error, in order. *)
Fixpoint check_auth (l : list AuthConfig) : option string :=
  match l with
  | [] => None
  | c :: l => match check_addresses c (ToAddresses c) with Some e => Some e | None => check_auth l end
  end.
Definition ReadConfig (decoded : string + SignerServiceConfig) : string + SignerServiceConfig :=
  match decoded with
  | inl e => inl e
  | inr config => match check_auth (Auth config) with Some e => inl e | None => inr config end
  end.
End config.

Fixpoint find_auth (clientName : string) (fromAddress : option address) (l : list AuthConfig) : option AuthConfig :=
  match l with
  | [] => None
  | ac :: l =>
      if String.eqb (ClientName ac) clientName then
        match fromAddress with
        | Some from => if bool_decide (from = FromAddress ac) then Some ac else find_auth clientName fromAddress l
        | None => Some ac
        end
      else find_auth clientName fromAddress l
  end.
Definition GetAuthConfigForClient (s : SignerServiceConfig) (clientName : string) (fromAddress : option address) :
    string + AuthConfig :=
  if String.eqb clientName "" then inl "client name is empty"
  else match find_auth clientName fromAddress (Auth s) with
    | Some ac => inr ac
    | None => inl ("client '" +:+ clientName +:+ "' is not authorized to use any keys")
    end.

(** ** service.go *)

Inductive sign_error :=
| Forbidden (body : string)
| InvalidTransactionError (message : string)
| UnauthorizedTransactionError (message : string)
| InvalidBlockPayloadError (message : string)
| UnauthorizedBlockPayloadError (message : string).

(** The codes of errors.go; the first is an HTTP status. *)
Definition ErrorCode (e : sign_error) : Z :=
  match e with
  | Forbidden _ => 403
  | InvalidTransactionError _ => -32010
  | UnauthorizedTransactionError _ => -32011
  | InvalidBlockPayloadError _ => -32012
  | UnauthorizedBlockPayloadError _ => -32013
  end.

(** What the service uses of op-service and go-ethereum: the arguments of a
    request, the transaction of them, its digest under the latest signer of its
    chain, its sender by its signature. *)
Class TransactionArgs (A Tx : Type) := {
  args_Check : A → option string;
  args_From : A → option address;
  args_To : A → option address;
  args_Value : A → option Z;
  ToTransactionData : A → string + Tx;
  tx_Digest : Tx → bytes;
  WithSignature : Tx → bytes → string + Tx;
  tx_Sender : Tx → string + address;
  MarshalBinary : Tx → string + bytes;
  address_Hex : address → string;
}.
Class BlockPayloadArgs (B : Type) := {
  payload_Check : B → option string;
  SenderAddress : B → option address;
  payload_ChainID : B → option Z;
  ToSigningHash : B → string + bytes;
}.

(** strings.EqualFold where one side is a hexadecimal address. *)
Definition EqualFold (s t : string) : bool := String.eqb (to_lower s) (to_lower t).
Definition containsNormalized (l : list string) (e : string) : bool := existsb (λ a, EqualFold a e) l.

Section service.
Context `{Hexutil} {W : Type} `{SignatureProvider W} {A Tx : Type} `{TransactionArgs A Tx} {B : Type} `{BlockPayloadArgs B}.

(** The limits a client has: a nil address or value is dereferenced. *)
Definition check_limits (ac : AuthConfig) (args : A) : go (option sign_error) :=
  match (match ToAddresses ac with
    | [] => Ret true
    | allowed =>
        match args_To args with
        | None => Panic "nil pointer dereference"
        | Some to => Ret (containsNormalized allowed (address_Hex to))
        end
    end) with
  | Panic why => Panic why
  | Ret false => Ret (Some (UnauthorizedTransactionError "to address not authorized"))
  | Ret true =>
      if String.eqb (MaxValue ac) "" then Ret None
      else match args_Value args with
        | None => Panic "nil pointer dereference"
        | Some value =>
            match MaxValueToInt ac with
            | Panic why => Panic why
            | Ret most => Ret (if most <? value then Some (UnauthorizedTransactionError "value exceeds maximum") else None)
            end
        end
  end.

(** Signing of the transaction once the client may. *)
Definition sign_tx (ac : AuthConfig) (args : A) (tx : Tx) : M W (sign_error + bytes) :=
  signature ← SignDigest (KeyName ac) (tx_Digest tx);
  mret (match signature with
    | inl e => inl (InvalidTransactionError e)
    | inr signature =>
        match WithSignature tx signature with
        | inl e => inl (InvalidTransactionError e)
        | inr signed =>
            match tx_Sender signed with
            | inl e => inl (InvalidTransactionError e)
            | inr signerFrom =>
                if match args_From args with Some from => negb (bool_decide (from = signerFrom)) | None => false end then
                  inl (InvalidTransactionError "unexpected from address")
                else match MarshalBinary signed with
                  | inl e => inl (InvalidTransactionError e)
                  | inr txraw => inr txraw
                  end
            end
        end
    end).

Definition SignTransaction (config : SignerServiceConfig) (clientName : string) (args : A) : M W (sign_error + bytes) :=
  match GetAuthConfigForClient config clientName None with
  | inl e => mret (inl (Forbidden e))
  | inr ac =>
      match args_Check args with
      | Some e => mret (inl (InvalidTransactionError e))
      | None =>
          limits ← m_lift (check_limits ac args);
          match limits with
          | Some e => mret (inl e)
          | None =>
              match ToTransactionData args with
              | inl e => mret (inl (InvalidTransactionError e))
              | inr tx => sign_tx ac args tx
              end
          end
      end
  end.

Definition SignBlockPayload (config : SignerServiceConfig) (clientName : string) (args : B) : M W (sign_error + bytes) :=
  match GetAuthConfigForClient config clientName (SenderAddress args) with
  | inl e => mret (inl (Forbidden e))
  | inr ac =>
      match payload_Check args with
      | Some e => mret (inl (InvalidBlockPayloadError e))
      | None =>
          match SenderAddress args with
          | None => m_panic "nil pointer dereference"
          | Some sender =>
              if negb (bool_decide (sender = FromAddress ac)) then
                mret (inl (UnauthorizedBlockPayloadError "unexpected from address"))
              else match payload_ChainID args with
              | None => m_panic "nil pointer dereference"
              | Some chain =>
                  if negb (u64 (Z.abs chain) =? ChainID ac) then
                    mret (inl (UnauthorizedBlockPayloadError "unexpected chainId"))
                  else match ToSigningHash args with
                    | inl e => mret (inl (InvalidBlockPayloadError e))
                    | inr signingHash =>
                        signature ← SignDigest (KeyName ac) signingHash;
                        mret (match signature with
                          | inl e => inl (InvalidBlockPayloadError e)
                          | inr signature => inr signature
                          end)
                    end
              end
          end
      end
  end.

(** ** What may be signed *)

Lemma find_auth_spec name from l ac : find_auth name from l = Some ac →
  ac ∈ l ∧ ClientName ac = name ∧ ∀ a, from = Some a → a = FromAddress ac.
Proof.
  induction l as [|x l IH]; [done|]. cbn [find_auth]. intros HF.
  destruct (String.eqb_spec (ClientName x) name) as [Hn|].
  - destruct from as [a|].
    + case_bool_decide as Ha; [injection HF as <-; split_and!; [by left|done|by intros ? [= <-]]|].
      destruct (IH HF) as (? & ? & ?). split_and!; [by right|done|done].
    + injection HF as <-. split_and!; [by left|done|done].
  - destruct (IH HF) as (? & ? & ?). split_and!; [by right|done|done].
Qed.

Lemma GetAuthConfig_spec config name from ac : GetAuthConfigForClient config name from = inr ac →
  ac ∈ Auth config ∧ ClientName ac = name ∧ name ≠ "" ∧ ∀ a, from = Some a → a = FromAddress ac.
Proof.
  unfold GetAuthConfigForClient. destruct (String.eqb_spec name ""); [done|].
  destruct (find_auth _ _ _) eqn:E; [|done]. intros [= <-]. apply find_auth_spec in E as (? & ? & ?). done.
Qed.

(** What a client's configuration allows. *)
Definition allowed_tx (ac : AuthConfig) (args : A) : Prop :=
  (ToAddresses ac ≠ [] → ∃ to a, args_To args = Some to ∧ a ∈ ToAddresses ac ∧ EqualFold a (address_Hex to) = true) ∧
  (MaxValue ac ≠ "" → ∃ v most, args_Value args = Some v ∧ hexutil_DecodeBig (MaxValue ac) = inr most ∧ v ≤ most).

Lemma check_limits_ok ac args : check_limits ac args = Ret None → allowed_tx ac args.
Proof.
  unfold check_limits, allowed_tx. intros HR.
  assert (Hto : (match ToAddresses ac with [] => Ret true | allowed => match args_To args with
    | None => Panic "nil pointer dereference" | Some to => Ret (containsNormalized allowed (address_Hex to)) end end) = Ret true)
    by (destruct (match ToAddresses ac with [] => _ | _ => _ end) as [[]|]; done).
  rewrite Hto in HR. split.
  - destruct (ToAddresses ac) as [|a l]; [done|]. intros _. destruct (args_To args) as [to|]; [|done].
    injection Hto as Hto. apply (existsb_exists (λ x, EqualFold x (address_Hex to)) (a :: l)) in Hto as (x & Hin & Hx). exists to, x. split_and!; [done|by apply list_elem_of_In|done].
  - intros Hmax. apply String.eqb_neq in Hmax. rewrite Hmax in HR. destruct (args_Value args) as [v|]; [|done].
    unfold MaxValueToInt in HR. destruct (hexutil_DecodeBig (MaxValue ac)) as [|most]; [done|].
    destruct (Z.ltb_spec most v); [done|]. eauto 10.
Qed.

(** C17: op-signer signs a transaction only for a client of its configuration,
    with the key configured for that client, when the recipient and the value
    are within what the client may; the signature is of the digest of the very
    transaction of the arguments, and the sender of what is returned is the one
    asked for. *)
Theorem sign_transaction_authorised config client args (w w' : W) raw :
  SignTransaction config client args w = Ret (inr raw, w') →
  ∃ ac tx signature signed from, ac ∈ Auth config ∧ ClientName ac = client ∧ client ≠ "" ∧ allowed_tx ac args ∧
    args_Check args = None ∧ ToTransactionData args = inr tx ∧
    SignDigest (KeyName ac) (tx_Digest tx) w = Ret (inr signature, w') ∧ WithSignature tx signature = inr signed ∧
    tx_Sender signed = inr from ∧ (∀ a, args_From args = Some a → a = from) ∧ MarshalBinary signed = inr raw.
Proof.
  unfold SignTransaction. intros HR. destruct (GetAuthConfigForClient config client None) as [e|ac] eqn:Hac; [done|].
  apply GetAuthConfig_spec in Hac as (Hin & Hname & Hne & _). destruct (args_Check args) eqn:Hcheck; [done|].
  run_step HR limits w1 H1'. unfold m_lift in H1'. apply go_bind_Ret in H1' as (l & Hl & [= -> <-]).
  destruct limits as [e|]; [done|]. apply check_limits_ok in Hl.
  destruct (ToTransactionData args) as [e|tx] eqn:Htx; [done|]. unfold sign_tx in HR.
  run_step HR signature w2 H2'. injection HR as HR <-. destruct signature as [e|signature]; [done|].
  destruct (WithSignature tx signature) as [e|signed] eqn:Hsig; [done|].
  destruct (tx_Sender signed) as [e|from] eqn:Hfrom; [done|].
  exists ac, tx, signature, signed, from. destruct (args_From args) as [a|].
  - case_bool_decide; [|done]. cbn [negb] in HR. destruct (MarshalBinary signed); [done|]. injection HR as ->.
    split_and!; try done. by intros ? [= <-].
  - destruct (MarshalBinary signed); [done|]. injection HR as ->. split_and!; done.
Qed.

(** Op-signer signs a block payload only for a client of its configuration
    whose configured sender is the one of the payload and whose configured chain
    is the chain of the payload in its low 64 bits. *)
Theorem sign_block_authorised config client args (w w' : W) signature :
  SignBlockPayload config client args w = Ret (inr signature, w') →
  ∃ ac sender chain hash, ac ∈ Auth config ∧ ClientName ac = client ∧ client ≠ "" ∧
    SenderAddress args = Some sender ∧ sender = FromAddress ac ∧ payload_ChainID args = Some chain ∧
    u64 (Z.abs chain) = ChainID ac ∧ payload_Check args = None ∧ ToSigningHash args = inr hash ∧
    SignDigest (KeyName ac) hash w = Ret (inr signature, w').
Proof.
  unfold SignBlockPayload. intros HR.
  destruct (GetAuthConfigForClient config client (SenderAddress args)) as [e|ac] eqn:Hac; [done|].
  apply GetAuthConfig_spec in Hac as (Hin & Hname & Hne & Hfrom). destruct (payload_Check args) eqn:Hcheck; [done|].
  destruct (SenderAddress args) as [sender|]; [|done].
  destruct (bool_decide (sender = FromAddress ac)); [|done]. cbn [negb] in HR.
  destruct (payload_ChainID args) as [chain|]; [|done].
  destruct (Z.eqb_spec (u64 (Z.abs chain)) (ChainID ac)) as [Hchain|]; [|done]. cbn [negb] in HR.
  destruct (ToSigningHash args) as [e|hash] eqn:Hhash; [done|]. run_step HR sig w1 H1'. injection HR as HR <-.
  destruct sig as [e|sig]; [done|]. injection HR as ->. exists ac, sender, chain, hash. split_and!; try done. by apply Hfrom.
Qed.

(** A configuration without recipients is read with any maximum value, and the
    first transaction of its client panics. *)
Theorem max_value_unchecked ac client args (w : W) why : ToAddresses ac = [] → ClientName ac = client → client ≠ "" →
  MaxValue ac ≠ "" → hexutil_DecodeBig (MaxValue ac) = inl why → args_Check args = None → is_Some (args_Value args) →
  ReadConfig (inr (mk_config [ac])) = inr (mk_config [ac]) ∧
  SignTransaction (mk_config [ac]) client args w = Panic why.
Proof.
  intros Hto Hname Hne Hmax Hdec Hcheck [v Hv]. split; [unfold ReadConfig; simpl; by rewrite Hto|].
  unfold SignTransaction, GetAuthConfigForClient. simpl. apply String.eqb_neq in Hne, Hmax.
  rewrite Hne, Hname, String.eqb_refl, Hcheck. unfold check_limits, MaxValueToInt. by rewrite Hto, Hmax, Hv, Hdec.
Qed.
End service.

(** ** Runs

    A KMS with one key that signs everything with the same (R, S); a curve whose
    signatures recover the key under the id 1. *)
Module signer_runs.

Definition pk : bytes := [4; 17; 34; 51].
(** The DER encoding of the key, as in the PEM of the KMS. *)
Definition pk_der : bytes :=
  [0x30; 0x19; 0x30; 0x10; 0x06; 0x07; 0x2a; 0x86; 0x48; 0xce; 0x3d; 0x02; 0x01; 0x06; 0x05; 0x2b; 0x81; 0x04; 0x00; 0x0a;
   0x03; 0x05; 0x00; 4; 17; 34; 51].
#[local] Instance plain_pem : Pem := λ key, (Some key, []).
#[local] Instance toy_curve : Secp256k1 := {|
  VerifySignature k _ _ := bool_decide (k = pk);
  RecoverPubkey _ sig := if bool_decide (last sig = Some 1) then inr pk else inl "no point";
|}.
Definition r_value : Z := 0xC0FFEE.
Definition s_value : Z := curve_order - 5.
#[local] Instance one_key : CloudKMSClient unit := {|
  kms_GetPublicKey _ w := (inr (mk_PublicKey pk_der (crc32c pk_der)), w);
  kms_AsymmetricSign r w :=
    (inr (mk_sign_response (rq_Name r) true (der_signature r_value s_value) (crc32c (der_signature r_value s_value))), w);
|}.
Definition digest : bytes := replicate 32 7.

(** The check value of CRC-32C. *)
Example crc32c_check : crc32c [49; 50; 51; 52; 53; 54; 55; 56; 57] = 0xE3069283.
Proof. vm_compute. reflexivity. Qed.

Example compact_signature_canonical_witness :
  ∃ sig, convertToCompactSignature (der_signature r_value s_value) = Ret (inr sig) ∧ be_val (take 32 sig) = r_value.
Proof.
  destruct (compact_signature_canonical r_value s_value) as (sig & HC & _ & Hr & _);
    [split; vm_compute; [intros E; discriminate E|reflexivity]|split; vm_compute; intros E; discriminate E|].
  exists sig. split; [exact HC|exact Hr].
Defined.

Example sign_digest_sound_witness :
  ∃ sig, cloud_SignDigest "key" digest tt = Ret (inr sig, tt) ∧ length sig = 65%nat ∧ RecoverPubkey digest sig = inr pk.
Proof.
  destruct (cloud_SignDigest "key" digest tt) as [[[e|sig] []]|] eqn:HR;
    [vm_compute in HR; discriminate HR| |vm_compute in HR; discriminate HR].
  exists sig. split; [reflexivity|].
  destruct (sign_digest_sound "key" digest tt tt sig HR) as (k & w1 & resp & Hk & _ & _ & _ & _ & _ & Hlen & _ & Hrec & _).
  split; [exact Hlen|]. rewrite Hrec. f_equal.
  assert (Hpk : cloud_GetPublicKey "key" tt = Ret (inr pk, tt)) by (vm_compute; reflexivity).
  rewrite Hk in Hpk. injection Hpk as -> _. reflexivity.
Defined.

(** Transactions are the values they send, to one address. *)
Definition alice : address := replicate 20 170.
#[local] Instance toy_args : TransactionArgs Z Z := {|
  args_Check _ := None;
  args_From _ := Some alice;
  args_To _ := Some alice;
  args_Value v := Some v;
  ToTransactionData v := inr v;
  tx_Digest v := be_bytes v;
  WithSignature v _ := inr v;
  tx_Sender _ := inr alice;
  MarshalBinary v := inr (be_bytes v);
  address_Hex _ := "0xAAaa";
|}.
#[local] Instance toy_hexutil : Hexutil := {|
  hexutil_Decode s := inr [];
  hexutil_DecodeBig s := if String.eqb s "0x64" then inr 100 else inl "hex string without 0x prefix";
|}.
Definition bob : AuthConfig := mk_auth "bob" "key" 10 alice ["0xaaaa"] "0x64".

Example sign_transaction_authorised_witness :
  ∃ raw, SignTransaction (mk_config [bob]) "bob" 99 tt = Ret (inr raw, tt) ∧ allowed_tx bob 99.
Proof.
  destruct (SignTransaction (mk_config [bob]) "bob" 99 tt) as [[[e|raw] []]|] eqn:HR;
    [vm_compute in HR; discriminate HR| |vm_compute in HR; discriminate HR].
  exists raw. split; [reflexivity|].
  destruct (sign_transaction_authorised (mk_config [bob]) "bob" 99 tt tt raw HR)
    as (ac & _ & _ & _ & _ & Hin & _ & _ & Hallowed & _).
  apply list_elem_of_singleton in Hin as ->. exact Hallowed.
Defined.

#[local] Instance toy_payload : BlockPayloadArgs Z := {|
  payload_Check _ := None; SenderAddress _ := Some alice; payload_ChainID c := Some c; ToSigningHash c := inr (be_bytes c)
|}.
Example sign_block_authorised_witness :
  ∃ sig, SignBlockPayload (mk_config [bob]) "bob" 10 tt = Ret (inr sig, tt) ∧ bob ∈ Auth (mk_config [bob]).
Proof.
  destruct (SignBlockPayload (mk_config [bob]) "bob" 10 tt) as [[[e|sig] []]|] eqn:HR;
    [vm_compute in HR; discriminate HR| |vm_compute in HR; discriminate HR].
  exists sig. split; [reflexivity|].
  destruct (sign_block_authorised (mk_config [bob]) "bob" 10 tt tt sig HR) as (ac & _ & _ & _ & Hin & _).
  apply list_elem_of_singleton in Hin as Hac. rewrite Hac in Hin. exact Hin.
Defined.

Example max_value_unchecked_witness :
  SignTransaction (mk_config [mk_auth "bob" "key" 10 alice [] "100"]) "bob" 99 tt = Panic "hex string without 0x prefix".
Proof.
  apply (max_value_unchecked (mk_auth "bob" "key" 10 alice [] "100") "bob" 99 tt "hex string without 0x prefix");
    try reflexivity; try discriminate. exists 99. reflexivity.
Defined.
End signer_runs.
