(* ===== verification/Pms.v ===== *)
(** peer-mgmt-service: keeps the members of each network connected to one another.
    A tick drops the states that expired, polls the members, and asks the nodes
    that miss a peer to connect to it.

    The RPC clients of the nodes are an interface; a call is recorded with
    whether it succeeded, so that the calls a tick makes can be stated. *)
From stdpp Require Import base numbers list gmap strings.
From S2P Require Import Prelude.
From S2P Require Import GoFloat.

Local Open Scope string_scope.
Local Open Scope Z_scope.
#[local] Arguments String.append : simpl nomatch.

(** ** config.go *)

Record MetricsConfig := mk_metrics { m_Enabled : bool; m_Debug : bool; m_Host : string; m_Port : string }.
Record HealthzConfig := mk_healthz { h_Enabled : bool; h_Host : string; h_Port : string }.
Record NodeConfig := mk_node {
  RPCAddress : string; cfg_PeerID : string; PeerAddress : string; PeerAddressLocal : string;
  Cluster : string; PreventInbound : bool; PreventOutbound : bool;
}.
Record NetworkConfig := mk_network { Members : list string }.
Record Config := mk_pms_config {
  LogLevel : string; DryRun : bool; Metrics : MetricsConfig; Healthz : HealthzConfig;
  PollInterval : Z; NodeStateExpiration : Z; RPCTimeout : Z;
  Nodes : gmap string NodeConfig; Networks : gmap string NetworkConfig;
}.
#[export] Instance eta_Config : Eta Config := λ r,
  mk_pms_config (LogLevel r) (DryRun r) (Metrics r) (Healthz r) (PollInterval r) (NodeStateExpiration r)
    (RPCTimeout r) (Nodes r) (Networks r).

(** The first member of a network that is not a node of the configuration. *)
Fixpoint check_members (nodes : gmap string NodeConfig) (name : string) (members : list string) : option string :=
  match members with
  | [] => None
  | member :: members =>
      match nodes !! member with
      | None => Some ("network [" ++ name ++ "] member [" ++ member ++ "] is not configured")
      | Some _ => check_members nodes name members
      end
  end.

Fixpoint check_nodes (l : list (string * NodeConfig)) : option string :=
  match l with
  | [] => None
  | (name, node) :: l =>
      if String.eqb (RPCAddress node) "" then Some ("node [" ++ name ++ "] rpc address is missing") else check_nodes l
  end.

Fixpoint check_networks (nodes : gmap string NodeConfig) (l : list (string * NetworkConfig)) : option string :=
  match l with
  | [] => None
  | (name, network) :: l =>
      if (length (Members network) <? 2)%nat then Some ("network [" ++ name ++ "] has less than 2 members")
      else match check_members nodes name (Members network) with
           | Some err => Some err
           | None => check_networks nodes l
           end
  end.

(** The error, or the configuration with its default log level. *)
Definition Validate `{Order W} (c : Config) : M W (string + Config) := λ w,
  if m_Enabled (Metrics c) && (String.eqb (m_Host (Metrics c)) "" || String.eqb (m_Port (Metrics c)) "")
  then Ret (inl "metrics is enabled but host or port are missing", w) else
  if h_Enabled (Healthz c) && (String.eqb (h_Host (Healthz c)) "" || String.eqb (h_Port (Healthz c)) "")
  then Ret (inl "healthz is enabled but host or port are missing", w) else
  if (size (Nodes c) =? 0)%nat then Ret (inl "no nodes configured", w) else
  if (size (Networks c) =? 0)%nat then Ret (inl "no networks configured", w) else
  let '(nodes, w) := permute (map_to_list (Nodes c)) w in
  match check_nodes nodes with
  | Some err => Ret (inl err, w)
  | None =>
      let '(networks, w) := permute (map_to_list (Networks c)) w in
      match check_networks (Nodes c) networks with
      | Some err => Ret (inl err, w)
      | None => Ret (inr (if String.eqb (LogLevel c) "" then {{ c with LogLevel := "debug" }} else c), w)
      end
  end.

(** ** network.go *)

(** op-node's p2p.PeerInfo, of what the service reads; the connectedness by its name. *)
Record PeerInfo := mk_peer { PeerID : string; Addresses : list string; Connectedness : string }.
Record NodeState := mk_node_state {
  self : PeerInfo; peers : gmap string PeerInfo; knownPeers : list string; updatedAt : Z
}.
#[export] Instance eta_NodeState : Eta NodeState := λ r, mk_node_state (self r) (peers r) (knownPeers r) (updatedAt r).
Record NetworkState := mk_network_state { nodes : gmap string NodeState; nodesByPeerID : gmap string string }.
#[export] Instance eta_NetworkState : Eta NetworkState := λ r, mk_network_state (nodes r) (nodesByPeerID r).

Record Network := mk_Network {
  n_name : string; networkConfig : NetworkConfig; nodesConfig : gmap string NodeConfig; n_config : Config
}.
Definition New (config : Config) (name : string) (networkConfig : NetworkConfig) (nodesConfig : gmap string NodeConfig) :
  Network * NetworkState :=
  (mk_Network name networkConfig nodesConfig config, mk_network_state ∅ ∅).

(** service.go: the networks that are started, with the nodes of their members, which
    Validate has found in the configuration. *)
Definition networkNodes (c : Config) (network : NetworkConfig) : gmap string NodeConfig :=
  foldl (λ m member, match Nodes c !! member with Some nc => <[member := nc]> m | None => m end) ∅ (Members network).
Definition start_networks (c : Config) : gmap string (Network * NetworkState) :=
  map_imap (λ name network, Some (New c name network (networkNodes c network))) (Networks c).

(** ** The clients of the nodes *)

Inductive peer_op := UnprotectPeer | UnblockPeer | DisconnectPeer | ConnectPeer | ProtectPeer.
Inductive call :=
| Dial (rpc : string)
| Invoke (op : peer_op) (rpc arg : string).

Class OpP2P (W : Type) := {
  p2p_Dial : string → W → bool * W;
  p2p_Self : string → W → option PeerInfo * W;
  p2p_Peers : string → W → option (gmap string PeerInfo) * W;
  p2p_Invoke : peer_op → string → string → W → bool * W;
  p2p_Now : W → Z * W;
}.

(** ** What is reported of a network *)

(** A peer is healthy when it is a member and the node is connected to it. *)
Definition healthy (s : NetworkState) (peerPeerID : string) (peer : PeerInfo) : bool :=
  String.eqb (to_lower (Connectedness peer)) "connected" && bool_decide (is_Some (nodesByPeerID s !! peerPeerID)).

(** What is reported of a node: the gauges of its peers by whether they are known and by
    their connectedness, reset before they are set, and the number of healthy ones. *)
Definition reported (st : NodeState) : gmap string PeerInfo :=
  filter (λ '(peerPeerID, _), peerPeerID ≠ PeerID (self st)) (peers st).
Definition knownness (s : NetworkState) (peerPeerID : string) : string :=
  if bool_decide (is_Some (nodesByPeerID s !! peerPeerID)) then "known" else "unknown".
Definition count_peer (m : gmap (string * string) Z) (key : string * string) : gmap (string * string) Z :=
  <[key := default 0 (m !! key) + 1]> m.
Definition knownnessConnectedness (s : NetworkState) (st : NodeState) : gmap (string * string) Z :=
  foldl (λ m '(peerPeerID, peer), count_peer m (knownness s peerPeerID, to_lower (Connectedness peer))) ∅
    (map_to_list (reported st)).
Definition reset_gauges : gmap (string * string) Z :=
  list_to_map (known ← ["known"; "unknown"];
               (λ conn, (known, conn, 0)) <$> ["notconnected"; "connected"; "canconnect"; "cannotconnect"]).
Definition healthy_of (s : NetworkState) (st : NodeState) : nat :=
  length (filter (λ '(peerPeerID, peer), healthy s peerPeerID peer = true) (map_to_list (reported st))).

Record report := mk_report {
  connectedness : gmap string (gmap (string * string) Z);
  healthyPeers : nat; memberCount : nat; percentageHealthy : float64
}.
Definition network_report (n : Network) (s : NetworkState) : report :=
  let healthyPeers := sum_list ((λ '(_, st), healthy_of s st) <$> map_to_list (nodes s)) in
  let members := length (Members (networkConfig n)) in
  let expectedHealthy := f_of_Z (Z.of_nat members * (Z.of_nat members - 1)) in
  mk_report ((λ st, knownnessConnectedness s st ∪ reset_gauges) <$> nodes s) healthyPeers members
    (fdiv (f_of_Z (Z.of_nat healthyPeers)) expectedHealthy).

(** The state of a network, the world, and the calls made of the nodes
    and the reports so far. *)
Record pms (W : Type) := mk_pms { net : NetworkState; pw : W; calls : list (call * bool); reports : list report }.
Arguments mk_pms {W} _ _ _ _.
Arguments net {W} _.
Arguments pw {W} _.
Arguments calls {W} _.
Arguments reports {W} _.

Section network.
Context {W : Type} `{OpP2P W, Order W}.

Notation P := (M (pms W)).

Definition p_world {A} (f : W → A * W) : P A := λ s,
  let '(a, w) := f (pw s) in Ret (a, mk_pms (net s) w (calls s) (reports s)).
Definition p_state (f : NetworkState → NetworkState) : P unit := m_modify (λ s, mk_pms (f (net s)) (pw s) (calls s) (reports s)).
Definition made (c : call) (ok : bool) : P unit := m_modify (λ s, mk_pms (net s) (pw s) (calls s ++ [(c, ok)])%list (reports s)).
Definition p_call (c : call) : P bool :=
  ok ← p_world (match c with Dial rpc => p2p_Dial rpc | Invoke op rpc arg => p2p_Invoke op rpc arg end);
  _ ← made c ok; mret ok.

Definition p_range {A} (m : gmap string A) : P (list (string * A)) := p_world (permute (map_to_list m)).

(** ** poll.go *)

Definition cleanup (n : Network) : P unit :=
  s ← m_gets net; l ← p_range (nodes s);
  m_for (λ '(nodeName, nodeState),
    now ← p_world p2p_Now;
    if NodeStateExpiration (n_config n) <? now - updatedAt nodeState then
      p_state (λ s, mk_network_state (delete nodeName (nodes s)) (delete (PeerID (self nodeState)) (nodesByPeerID s)))
    else mret tt) l.

Definition pollNode (nodeName : string) (nodeConfig : NodeConfig) : P unit :=
  ok ← p_call (Dial (RPCAddress nodeConfig));
  if negb ok then mret tt else
  r ← p_world (p2p_Self (RPCAddress nodeConfig));
  match r with
  | None => mret tt
  | Some self_ =>
      r ← p_world (p2p_Peers (RPCAddress nodeConfig));
      match r with
      | None => mret tt
      | Some peers_ =>
          now ← p_world p2p_Now;
          p_state (λ s,
            let byID := match nodes s !! nodeName with
                        | Some old => if String.eqb (PeerID (self old)) (PeerID self_) then nodesByPeerID s
                                      else delete (PeerID (self old)) (nodesByPeerID s)
                        | None => nodesByPeerID s
                        end in
            mk_network_state (<[nodeName := mk_node_state self_ peers_ [] now]> (nodes s))
              (<[PeerID self_ := nodeName]> byID))
      end
  end.

Definition poll (n : Network) : P unit :=
  l ← p_range (nodesConfig n); m_for (λ '(nodeName, nodeConfig), pollNode nodeName nodeConfig) l.

(** The names of the members among the peers of a node, in the order of a pass over the peers. *)
Definition known_peers (s : NetworkState) (st : NodeState) (l : list (string * PeerInfo)) : list string :=
  omap (λ '(peerPeerID, _), if String.eqb peerPeerID (PeerID (self st)) then None else nodesByPeerID s !! peerPeerID) l.

Definition updateGraph : P unit :=
  s ← m_gets net; l ← p_range (nodes s);
  m_for (λ '(nodeName, nodeState),
    ps ← p_range (peers nodeState);
    p_state (λ s, {{ s with nodes := alter (λ st, {{ st with knownPeers := known_peers s st ps }}) nodeName (nodes s) }})) l.

Definition reportMetrics (n : Network) : P unit :=
  m_modify (λ s, mk_pms (net s) (pw s) (calls s) (reports s ++ [network_report n (net s)])%list).

(** The peers a node should have, each with whether it is connected. *)
Definition expectedPeers (n : Network) (s : NetworkState) (nodeName : string) (st : NodeState)
    (l : list (string * PeerInfo)) : gmap string bool :=
  let expected := foldl (λ m member, if String.eqb member nodeName then m else <[member := false]> m) ∅
                    (Members (networkConfig n)) in
  foldl (λ m '(peerPeerID, peer),
    match nodesByPeerID s !! peerPeerID with
    | Some peerName => if String.eqb (to_lower (Connectedness peer)) "connected" then <[peerName := true]> m else m
    | None => m
    end) expected l.

(** The address at which a node reaches a peer: the configured one, else the first the
    peer announces, with the identity of the peer put in. *)
Definition PEER_ID_PLACEHOLDER : string := "{peer_id}".
Definition HasPrefix (s pre : string) : bool := String.prefix pre s.
Definition HasSuffix (s suf : string) : bool :=
  (String.length suf <=? String.length s)%nat &&
  String.eqb (String.substring (String.length s - String.length suf) (String.length suf) s) suf.
Definition peer_address (nodeConfig peerConfig : NodeConfig) (peerState : NodeState) : go string :=
  let peerAddr := if String.eqb (Cluster nodeConfig) (Cluster peerConfig)
                     && negb (String.eqb (PeerAddressLocal peerConfig) "")
                  then PeerAddressLocal peerConfig else PeerAddress peerConfig in
  peerAddr ← (if String.eqb peerAddr "" then
                match Addresses (self peerState) with
                | [] => Panic "index out of range [0] with length 0"
                | a :: _ => Ret a
                end
              else Ret peerAddr);
  let peerID := if String.eqb (cfg_PeerID peerConfig) "" then PeerID (self peerState) else cfg_PeerID peerConfig in
  Ret (if HasPrefix peerAddr "/dns4/" && HasSuffix peerAddr ("/p2p/" ++ PEER_ID_PLACEHOLDER)
       then String.substring 0 (String.length peerAddr - String.length PEER_ID_PLACEHOLDER) peerAddr ++ peerID
       else peerAddr).

(** Calls one after the other, up to the first that fails. *)
Fixpoint in_turn (l : list call) : P bool :=
  match l with
  | [] => mret true
  | c :: l => ok ← p_call c; if (ok : bool) then in_turn l else mret false
  end.

Definition connect_calls (nodeConfig peerConfig : NodeConfig) (nodeState peerState : NodeState) (peerAddr : string) : list call :=
  let client := RPCAddress nodeConfig in
  let peerClient := RPCAddress peerConfig in
  let peer := PeerID (self peerState) in
  let node := PeerID (self nodeState) in
  [Invoke UnprotectPeer client peer; Invoke UnprotectPeer peerClient node;
   Invoke UnblockPeer client peer; Invoke UnblockPeer peerClient node;
   Invoke DisconnectPeer client peer; Invoke DisconnectPeer peerClient node;
   Invoke ConnectPeer client peerAddr; Invoke ProtectPeer client peer].

(** Without the override the tests put in its place. *)
Definition connectPeer (n : Network) (nodeName peerName : string) : P unit :=
  s ← m_gets net;
  match nodes s !! nodeName, nodesConfig n !! nodeName, nodes s !! peerName, nodesConfig n !! peerName with
  | Some nodeState, Some nodeConfig, Some peerState, Some peerConfig =>
      if PreventOutbound nodeConfig then mret tt else
      if PreventInbound peerConfig then mret tt else
      ok ← in_turn [Dial (RPCAddress nodeConfig); Dial (RPCAddress peerConfig)];
      if negb ok then mret tt else
      peerAddr ← m_lift (peer_address nodeConfig peerConfig peerState);
      _ ← in_turn (connect_calls nodeConfig peerConfig nodeState peerState peerAddr);
      mret tt
  | _, _, _, _ => mret tt
  end.

Definition resolve_node (n : Network) (nodeName : string) (nodeState : NodeState) : P unit :=
  s ← m_gets net;
  ps ← p_range (peers nodeState);
  l ← p_range (expectedPeers n s nodeName nodeState ps);
  m_for (λ '(peerName, connected), if (connected : bool) then mret tt else connectPeer n nodeName peerName) l.
Definition resolveState (n : Network) : P unit :=
  s ← m_gets net; l ← p_range (nodes s);
  m_for (λ '(nodeName, nodeState), resolve_node n nodeName nodeState) l.

Definition Tick (n : Network) : P unit :=
  _ ← cleanup n;
  _ ← poll n;
  _ ← updateGraph;
  _ ← reportMetrics n;
  if DryRun (n_config n) then mret tt else resolveState n.

(** scheduler.go: the ticks of a network, one after the other. *)
Fixpoint ticks (n : Network) (k : nat) : P unit :=
  match k with O => mret tt | S k => _ ← Tick n; ticks n k end.

(** ** The registry of peer identities *)

(** Every identity of the registry is that of the node it names, and the nodes with a
    state are members. *)
Definition registered (n : Network) (s : NetworkState) : Prop :=
  (∀ pid name, nodesByPeerID s !! pid = Some name → ∃ st, nodes s !! name = Some st ∧ PeerID (self st) = pid) ∧
  (∀ name, is_Some (nodes s !! name) → is_Some (nodesConfig n !! name)).

Definition keeps_registered (n : Network) (s s' : pms W) : Prop := registered n (net s) → registered n (net s').
Definition same_net (s s' : pms W) : Prop := net s' = net s.
#[local] Instance keeps_refl n : Reflexive (keeps_registered n).
Proof. by intros s Hs. Qed.
#[local] Instance keeps_trans n : Transitive (keeps_registered n).
Proof. intros s1 s2 s3 H12 H23 Hs. auto. Qed.
#[local] Instance same_net_refl : Reflexive same_net.
Proof. done. Qed.
#[local] Instance same_net_trans : Transitive same_net.
Proof. intros s1 s2 s3 H12 H23. unfold same_net in *. congruence. Qed.

Lemma p_world_same_net {A} (f : W → A * W) : respects same_net (p_world f).
Proof. intros s a s'. unfold p_world. destruct (f _). by intros [= <- <-]. Qed.
Lemma p_call_same_net c : respects same_net (p_call c).
Proof.
  apply respects_bind; [exact _|apply p_world_same_net|intros ok].
  apply respects_bind; [exact _| |intros; apply respects_ret; exact _]. by intros s a s' [= <- <-].
Qed.
Lemma same_net_keeps n {A} (m : P A) : respects same_net m → respects (keeps_registered n) m.
Proof. intros Hm s a s' E Hs. by rewrite (Hm _ _ _ E). Qed.

Lemma p_range_elem {A} (m : gmap string A) s l s' : p_range m s = Ret (l, s') → OrderSpec W →
  l ≡ₚ map_to_list m ∧ net s' = net s ∧ calls s' = calls s.
Proof.
  unfold p_range, p_world. intros E Ho. pose proof (permute_perm (map_to_list m) (pw s)) as Hp.
  destruct (permute _ _) as [k w]. by injection E as <- <-.
Qed.

Lemma delete_registered n s name st : registered n s → nodes s !! name = Some st →
  registered n (mk_network_state (delete name (nodes s)) (delete (PeerID (self st)) (nodesByPeerID s))).
Proof.
  intros [Hr Hn] Hst. split; cbn.
  - intros pid other [Hpid Hl]%lookup_delete_Some. destruct (Hr _ _ Hl) as (st' & Hst' & Heq).
    exists st'. rewrite lookup_delete_ne; [done|]. intros ->. simplify_eq.
  - intros other [st' Hl]. apply Hn. apply lookup_delete_Some in Hl as [_ Hl]. eauto.
Qed.

(** A state that is no longer that of the node had been deleted or replaced since, which a
    pass does not do: each node is visited once. *)
Lemma cleanup_pass n (l : list (string * NodeState)) (f : string * NodeState → P unit) s a s' :
  f = (λ '(nodeName, nodeState),
    now ← p_world p2p_Now;
    if NodeStateExpiration (n_config n) <? now - updatedAt nodeState then
      p_state (λ s, mk_network_state (delete nodeName (nodes s)) (delete (PeerID (self nodeState)) (nodesByPeerID s)))
    else mret tt) →
  m_for f l s = Ret (a, s') → NoDup l.*1 → (∀ x, x ∈ l → nodes (net s) !! x.1 = Some x.2) →
  registered n (net s) → registered n (net s').
Proof.
  intros Hf. revert s. induction l as [|[name st] l IH]; intros s E Hd Hl Hs; cbn in E.
  { by injection E as <- <-. }
  run_step E u s1 E1. rewrite Hf in E1. run_step E1 now s2 E2.
  apply p_world_same_net in E2. apply NoDup_cons in Hd as [Hname Hd].
  destruct (_ <? _).
  - injection E1 as <- <-. eapply IH; [exact E|done| |].
    + intros x Hx. cbn. rewrite E2, lookup_delete_ne; [apply Hl; by right|].
      cbn. intros Heq. apply Hname. apply list_elem_of_fmap. by exists x.
    + cbn. rewrite E2. apply delete_registered; [done|]. apply (Hl (name, st)). by left.
  - injection E1 as <- <-. eapply IH; [exact E|done| |by rewrite E2].
    intros x Hx. rewrite E2. apply Hl. by right.
Qed.

Context `{!OrderSpec W}.

Lemma cleanup_registered n : respects (keeps_registered n) (cleanup n).
Proof.
  intros s a s' E Hs. unfold cleanup in E. run_step E s0 s1 E1. injection E1 as <- <-.
  run_step E l s2 E2. apply p_range_elem in E2 as (Hl & Hnet & _); [|exact _].
  eapply cleanup_pass; [reflexivity|exact E| | |by rewrite Hnet].
  - rewrite Hl. apply NoDup_fst_map_to_list.
  - intros [name st] Hx. rewrite Hl in Hx. rewrite Hnet. by apply elem_of_map_to_list in Hx.
Qed.

Lemma poll_registered_state n s name self_ ps known now : registered n s → is_Some (nodesConfig n !! name) →
  registered n (mk_network_state (<[name := mk_node_state self_ ps known now]> (nodes s))
    (<[PeerID self_ := name]>
      match nodes s !! name with
      | Some old => if String.eqb (PeerID (self old)) (PeerID self_) then nodesByPeerID s
                    else delete (PeerID (self old)) (nodesByPeerID s)
      | None => nodesByPeerID s
      end)).
Proof.
  intros [Hr Hn] Hc. split; cbn.
  - intros pid other [[<- <-]|[Hne Hl]]%lookup_insert_Some.
    { rewrite lookup_insert_eq. eauto. }
    assert (nodesByPeerID s !! pid = Some other ∧ other ≠ name) as [Hl' Ho].
    { destruct (nodes s !! name) as [old|] eqn:Hold.
      - destruct (String.eqb_spec (PeerID (self old)) (PeerID self_)) as [Heq|Heq].
        + split; [done|]. intros ->. destruct (Hr _ _ Hl) as (st & Hst & <-). by simplify_eq.
        + apply lookup_delete_Some in Hl as [Hd Hl]. split; [done|]. intros ->.
          destruct (Hr _ _ Hl) as (st & Hst & <-). simplify_eq.
      - split; [done|]. intros ->. destruct (Hr _ _ Hl) as (st & Hst & _). simplify_eq. }
    destruct (Hr _ _ Hl') as (st & Hst & Heq). exists st. by rewrite lookup_insert_ne.
  - intros other [st [[<- _]|[_ Hl]]%lookup_insert_Some]; eauto.
Qed.

Lemma pollNode_registered n name nc : nodesConfig n !! name = Some nc → respects (keeps_registered n) (pollNode name nc).
Proof.
  intros Hc. unfold pollNode.
  apply respects_bind; [exact _|apply same_net_keeps, p_call_same_net|intros []; cbn [negb]; [|by apply respects_ret; exact _]].
  apply respects_bind; [exact _|apply same_net_keeps, p_world_same_net|intros [self_|]; [|by apply respects_ret; exact _]].
  apply respects_bind; [exact _|apply same_net_keeps, p_world_same_net|intros [ps|]; [|by apply respects_ret; exact _]].
  apply respects_bind; [exact _|apply same_net_keeps, p_world_same_net|intros now].
  intros s a s' [= <- <-] Hs. cbn. apply poll_registered_state; eauto.
Qed.

Lemma p_range_bind {A B} (R : pms W → pms W → Prop) `{!Reflexive R, !Transitive R} (m : gmap string A)
    (f : list (string * A) → P B) :
  (∀ s s', same_net s s' → R s s') → (∀ l, l ≡ₚ map_to_list m → respects R (f l)) → respects R (p_range m ≫= f).
Proof.
  intros Hsame Hf s b s' E. run_step E l s1 E1. pose proof E1 as E1'.
  apply p_range_elem in E1 as [Hl _]; [|exact _]. apply p_world_same_net in E1'.
  transitivity s1; [by apply Hsame|]. by eapply Hf.
Qed.

Lemma keeps_same_net n s s' : same_net s s' → keeps_registered n s s'.
Proof. intros E Hs. by rewrite E. Qed.

Lemma poll_registered n : respects (keeps_registered n) (poll n).
Proof.
  apply p_range_bind; [exact _|exact _|apply keeps_same_net|intros l Hl].
  apply respects_for; [exact _|exact _|intros [name nc] Hx].
  apply pollNode_registered. rewrite Hl in Hx. by apply elem_of_map_to_list in Hx.
Qed.

Lemma updateGraph_registered n : respects (keeps_registered n) updateGraph.
Proof.
  apply respects_bind; [exact _|by apply respects_gets; exact _|intros s0].
  apply p_range_bind; [exact _|exact _|apply keeps_same_net|intros l _].
  apply respects_for; [exact _|exact _|intros [name st] _].
  apply p_range_bind; [exact _|exact _|apply keeps_same_net|intros ps _].
  intros s a s' [= <- <-] [Hr Hn]. split; cbn.
  - intros pid other Hl. destruct (Hr _ _ Hl) as (st' & Hst & Heq).
    destruct (decide (name = other)) as [->|Hne].
    + rewrite lookup_alter_eq, Hst. by eexists.
    + rewrite lookup_alter_ne by done. eauto.
  - intros other Hl. apply Hn. destruct (decide (name = other)) as [->|Hne].
    + rewrite lookup_alter_eq in Hl. by apply fmap_is_Some in Hl.
    + by rewrite lookup_alter_ne in Hl.
Qed.

(** ** The calls that connect peers *)

(** The calls of a list, each with its outcome, up to the first that fails. *)
Inductive ran : list call → list (call * bool) → Prop :=
| ran_nil : ran [] []
| ran_fail c l : ran (c :: l) [(c, false)]
| ran_ok c l r : ran l r → ran (c :: l) ((c, true) :: r).

Lemma ran_app l k r1 r2 : ran l r1 → Forall (λ x, x.2 = true) r1 → ran k r2 → ran (l ++ k) (r1 ++ r2).
Proof.
  induction 1 as [|c l|c l r Hr IH]; intros Hall Hk; cbn; [done| |].
  - by inversion Hall.
  - apply Forall_cons in Hall as [_ Hall]. constructor. auto.
Qed.
Lemma ran_failed l k r : ran l r → ¬ Forall (λ x, x.2 = true) r → ran (l ++ k) r.
Proof.
  induction 1 as [|c l|c l r Hr IH]; intros Hall; cbn; [by destruct Hall|constructor|].
  constructor. apply IH. contradict Hall. by constructor.
Qed.

Lemma p_call_run c s ok s' : p_call c s = Ret (ok, s') → net s' = net s ∧ calls s' = (calls s ++ [(c, ok)])%list.
Proof.
  intros E. unfold p_call in E. run_step E b s1 E1. run_step E u s2 E2. injection E2 as <- <-. injection E as <- <-.
  unfold p_world in E1. cbv zeta in E1. destruct (match c with Dial _ => _ | _ => _ end _). by injection E1 as <- <-.
Qed.

Lemma in_turn_run l s ok s' : in_turn l s = Ret (ok, s') → ∃ r, net s' = net s ∧ calls s' = (calls s ++ r)%list ∧
  ran l r ∧ (ok = true ↔ Forall (λ x, x.2 = true) r).
Proof.
  revert s. induction l as [|c l IH]; intros s E; cbn in E.
  { injection E as <- <-. exists []. rewrite app_nil_r. split_and!; [done|done|constructor|]. by split. }
  run_step E b s1 E1. apply p_call_run in E1 as [Hn Hc]. destruct b.
  - destruct (IH _ E) as (r & -> & -> & Hr & Hok). exists ((c, true) :: r).
    rewrite Hn, Hc, <- app_assoc. split_and!; [done|done|by constructor|].
    rewrite Hok, Forall_cons. naive_solver.
  - injection E as <- <-. exists [(c, false)]. split_and!; [done|done|constructor|].
    rewrite Forall_singleton. naive_solver.
Qed.

(** What is asked of a node and a peer to connect them, once the address of the peer is found. *)
Definition connect_plan (nodeConfig peerConfig : NodeConfig) (nodeState peerState : NodeState) : list call :=
  let client := RPCAddress nodeConfig in
  let peerClient := RPCAddress peerConfig in
  let both op := [Invoke op client (PeerID (self peerState)); Invoke op peerClient (PeerID (self nodeState))] in
  [Dial client; Dial peerClient] ++
  match peer_address nodeConfig peerConfig peerState with
  | Ret peerAddr => both UnprotectPeer ++ both UnblockPeer ++ both DisconnectPeer ++
      [Invoke ConnectPeer client peerAddr; Invoke ProtectPeer client (PeerID (self peerState))]
  | Panic _ => []
  end.

(** The calls made for a node and a peer: none when the state or configuration of one of
    them is missing or forbids the connection. *)
Definition connect_run (n : Network) (s : NetworkState) (pair : string * string) (r : list (call * bool)) : Prop :=
  match nodes s !! pair.1, nodesConfig n !! pair.1, nodes s !! pair.2, nodesConfig n !! pair.2 with
  | Some nodeState, Some nodeConfig, Some peerState, Some peerConfig =>
      if PreventOutbound nodeConfig || PreventInbound peerConfig then r = []
      else ran (connect_plan nodeConfig peerConfig nodeState peerState) r
  | _, _, _, _ => r = []
  end.

Lemma connectPeer_run n a b s u s' : connectPeer n a b s = Ret (u, s') →
  ∃ r, net s' = net s ∧ calls s' = (calls s ++ r)%list ∧ connect_run n (net s) (a, b) r.
Proof.
  intros E. unfold connectPeer in E. run_step E s0 s1 E1. injection E1 as <- <-. unfold connect_run. cbn [fst snd].
  assert (∀ s1, (mret u : P unit) s1 = Ret (u, s') → s1 = s → ∃ r, net s' = net s ∧ calls s' = (calls s ++ r)%list ∧ r = []) as Hskip.
  { intros s1 [= <-] ->. exists []. by rewrite app_nil_r. }
  destruct u.
  destruct (nodes (net s) !! a) as [ns|], (nodesConfig n !! a) as [nc|], (nodes (net s) !! b) as [ps|],
    (nodesConfig n !! b) as [pc|]; try by eapply Hskip.
  destruct (PreventOutbound nc); cbn [orb]; [by eapply Hskip|].
  destruct (PreventInbound pc); [by eapply Hskip|]. clear Hskip.
  run_step E ok s1 E1. apply in_turn_run in E1 as (r & Hn & Hc & Hr & Hok). unfold connect_plan.
  destruct ok; cbn [negb] in E.
  - run_step E addr s2 E2. unfold m_lift in E2. apply go_bind_Ret in E2 as (addr' & -> & [= <- <-]).
    run_step E ok s3 E3. injection E as <-. apply in_turn_run in E3 as (r' & -> & -> & Hr' & _).
    exists (r ++ r')%list. rewrite Hn, Hc, app_assoc. split_and!; [done|done|].
    apply ran_app; [done|by apply Hok|done].
  - injection E as <-. exists r. split_and!; [done|done|]. apply ran_failed; [done|]. by intros Hall%Hok.
Qed.

(** A pass that leaves the network alone and makes some calls for each element. *)
Lemma p_for_run {A B} (f : A → P unit) (G : A → list B → Prop) (Q : B → list (call * bool) → Prop) (t : NetworkState) l s u s' :
  (∀ x s u s', x ∈ l → net s = t → f x s = Ret (u, s') →
     ∃ o rs, net s' = t ∧ calls s' = (calls s ++ concat rs)%list ∧ G x o ∧ Forall2 Q o rs) →
  net s = t → m_for f l s = Ret (u, s') →
  ∃ os rs, net s' = t ∧ calls s' = (calls s ++ concat rs)%list ∧ Forall2 G l os ∧ Forall2 Q (concat os) rs.
Proof.
  intros Hf. revert s. induction l as [|x l IH]; intros s Hs E; cbn in E.
  { injection E as <- <-. exists [], []. rewrite app_nil_r. by split_and!. }
  run_step E v s1 E1. apply Hf in E1 as (o & rs & Hs1 & Hc & Hg & Hq); [|by left|done].
  destruct (IH) with (s := s1) as (os & rs' & Hs' & Hc' & Hg' & Hq'); [|done|exact E|].
  { intros y s2 u2 s2' Hy. apply Hf. by right. }
  exists (o :: os), (rs ++ rs')%list. rewrite Hc', Hc, concat_app, app_assoc. split_and!; [done|done|by constructor|].
  by apply Forall2_app.
Qed.

Lemma NoDup_fmap_fst_filter {A B C} (a : C) (Q : A * B → Prop) `{∀ x, Decision (Q x)} (l : list (A * B)) :
  NoDup l.*1 → NoDup ((λ x, (a, x.1)) <$> filter Q l).
Proof.
  induction l as [|x l IH]; intros Hd; [constructor|]. apply NoDup_cons in Hd as [Hx Hd].
  rewrite filter_cons. destruct (decide (Q x)); [|by apply IH]. rewrite fmap_cons. apply NoDup_cons. split; [|by apply IH].
  intros (y & [= Hy] & [_ Hin]%list_elem_of_filter)%list_elem_of_fmap. apply Hx, list_elem_of_fmap. by exists y.
Qed.

(** ** Which peers are missing *)

Definition connected_to (s : NetworkState) (st : NodeState) (peerName : string) : Prop :=
  ∃ pid peer, peers st !! pid = Some peer ∧ nodesByPeerID s !! pid = Some peerName ∧
    to_lower (Connectedness peer) = "connected".

(** A node with a state that is not connected to a member. *)
Definition missing (n : Network) (s : NetworkState) (pair : string * string) : Prop :=
  ∃ st, nodes s !! pair.1 = Some st ∧ pair.2 ∈ Members (networkConfig n) ∧ pair.2 ≠ pair.1 ∧ ¬ connected_to s st pair.2.

Lemma expected_members nodeName l (m : gmap string bool) b v :
  foldl (λ m member, if String.eqb member nodeName then m else <[member := false]> m) m l !! b = Some v ↔
  (b ∈ l ∧ b ≠ nodeName ∧ v = false) ∨ (¬ (b ∈ l ∧ b ≠ nodeName) ∧ m !! b = Some v).
Proof.
  revert m. induction l as [|x l IH]; intros m; cbn.
  { set_solver. }
  rewrite IH, elem_of_cons. destruct (String.eqb_spec x nodeName) as [->|Hne].
  - naive_solver.
  - destruct (decide (b = x)) as [->|Hbx].
    + rewrite lookup_insert_eq. destruct (decide (x ∈ l)); naive_solver.
    + rewrite lookup_insert_ne by done. naive_solver.
Qed.

Lemma mark_healthy s l (m : gmap string bool) b :
  foldl (λ m '(peerPeerID, peer),
    match nodesByPeerID s !! peerPeerID with
    | Some peerName => if String.eqb (to_lower (Connectedness peer)) "connected" then <[peerName := true]> m else m
    | None => m
    end) m l !! b = Some false ↔
  m !! b = Some false ∧
  ¬ ∃ pid peer, (pid, peer) ∈ l ∧ nodesByPeerID s !! pid = Some b ∧ to_lower (Connectedness peer) = "connected".
Proof.
  revert m. induction l as [|[pid peer] l IH]; intros m; cbn.
  { set_solver. }
  rewrite IH. setoid_rewrite elem_of_cons.
  destruct (nodesByPeerID s !! pid) as [name|] eqn:Hp; [|naive_solver].
  destruct (String.eqb_spec (to_lower (Connectedness peer)) "connected") as [Hc|Hc]; [|naive_solver].
  destruct (decide (name = b)) as [->|Hne].
  - rewrite lookup_insert_eq. naive_solver.
  - rewrite lookup_insert_ne by done. naive_solver.
Qed.

Lemma expectedPeers_missing n s a st ps b : nodes s !! a = Some st → ps ≡ₚ map_to_list (peers st) →
  expectedPeers n s a st ps !! b = Some false ↔ missing n s (a, b).
Proof.
  intros Hst Hps. unfold expectedPeers, missing, connected_to. cbn [fst snd].
  rewrite mark_healthy, expected_members, lookup_empty.
  setoid_rewrite Hps. setoid_rewrite elem_of_map_to_list. rewrite Hst. naive_solver.
Qed.

(** The missing peers of one node. *)
Definition missing_of (n : Network) (s : NetworkState) (x : string * NodeState) (o : list (string * string)) : Prop :=
  NoDup o ∧ ∀ pair, pair ∈ o ↔ pair.1 = x.1 ∧ missing n s pair.

Lemma resolve_node_run n a st s u s' : nodes (net s) !! a = Some st → resolve_node n a st s = Ret (u, s') →
  ∃ o rs, net s' = net s ∧ calls s' = (calls s ++ concat rs)%list ∧ missing_of n (net s) (a, st) o ∧
    Forall2 (connect_run n (net s)) o rs.
Proof.
  intros Hst E. unfold resolve_node in E. run_step E s0 s1 E1. injection E1 as <- <-.
  run_step E ps s1 E1. apply p_range_elem in E1 as (Hps & Hn1 & Hc1); [|exact _].
  run_step E l s2 E2. apply p_range_elem in E2 as (Hl & Hn2 & Hc2); [|exact _].
  apply (p_for_run _ (λ x o, o = if (x.2 : bool) then [] else [(a, x.1)]) (connect_run n (net s)) (net s)) in E
    as (os & rs & Hn & Hc & Hos & Hrs); [| |congruence].
  - exists (concat os), rs. rewrite Hc, Hc2, Hc1. split_and!; [done|done| |done].
    assert (concat os = (λ x, (a, x.1)) <$> filter (λ x, x.2 = false) l) as ->.
    { clear -Hos. induction Hos as [|[x []] o l os -> Hos IH]; [done| |]; cbn; by rewrite IH. }
    split.
    + apply NoDup_fmap_fst_filter. rewrite Hl. apply NoDup_fst_map_to_list.
    + intros [a' b]. rewrite list_elem_of_fmap. setoid_rewrite list_elem_of_filter. setoid_rewrite Hl. cbn.
      split.
      * intros ([b' v] & [= -> ->] & Hv & Hx). cbn in *. subst v. split; [done|].
        apply elem_of_map_to_list in Hx. by apply (expectedPeers_missing n _ a st ps).
      * intros [-> Hm]. exists (b, false). split_and!; [done|done|].
        apply elem_of_map_to_list. by apply expectedPeers_missing.
  - intros [b []] t v t' _ Ht Hf.
    + injection Hf as <- <-. exists [], []. rewrite app_nil_r. by split_and!.
    + apply connectPeer_run in Hf as (r & Hn & Hc & Hr). exists [(a, b)], [r]. cbn. rewrite app_nil_r, Hc.
      split_and!; [congruence|done|done|]. constructor; [by rewrite <- Ht|done].
Qed.

Lemma missing_concat n s l os : NoDup l.*1 → Forall2 (missing_of n s) l os → NoDup (concat os) ∧
  ∀ pair, pair ∈ concat os ↔ pair.1 ∈ l.*1 ∧ missing n s pair.
Proof.
  intros Hd Hos. induction Hos as [|x o l os [Ho Hx] Hos IH]; cbn; [split; [constructor|set_solver]|].
  apply NoDup_cons in Hd as [Hnx Hd]. destruct (IH Hd) as [Hd' Hin]. split.
  - apply NoDup_app. split_and!; [done| |done]. intros pair [Hp _]%Hx [Hq _]%Hin. by rewrite Hp in Hq.
  - intros pair. rewrite elem_of_app, elem_of_cons, Hx, Hin. naive_solver.
Qed.

Lemma resolveState_run n s u s' : resolveState n s = Ret (u, s') → ∃ order rs,
  net s' = net s ∧ calls s' = (calls s ++ concat rs)%list ∧ NoDup order ∧
  (∀ pair, pair ∈ order ↔ missing n (net s) pair) ∧ Forall2 (connect_run n (net s)) order rs.
Proof.
  intros E. unfold resolveState in E. run_step E s0 s1 E1. injection E1 as <- <-.
  run_step E l s1 E1. apply p_range_elem in E1 as (Hl & Hn1 & Hc1); [|exact _].
  apply (p_for_run _ (missing_of n (net s)) (connect_run n (net s)) (net s)) in E
    as (os & rs & Hn & Hc & Hos & Hrs); [| |done].
  - apply missing_concat in Hos as [Hd Hin]; [|rewrite Hl; apply NoDup_fst_map_to_list].
    exists (concat os), rs. rewrite Hc, Hc1. split_and!; [done|done|done| |done].
    intros [a b]. rewrite Hin, Hl. split; [by intros []|]. intros Hm. split; [|done].
    destruct Hm as (st & Hst & _). apply list_elem_of_fmap. exists (a, st). split; [done|]. by apply elem_of_map_to_list.
  - intros [a st] t v t' Hx Ht Hf. rewrite Hl in Hx. apply elem_of_map_to_list in Hx. rewrite <- Ht in *.
    by apply resolve_node_run in Hf.
Qed.

(** ** Ticks *)

Definition same_calls (s s' : pms W) : Prop := calls s' = calls s.
#[local] Instance same_calls_refl : Reflexive same_calls.
Proof. done. Qed.
#[local] Instance same_calls_trans : Transitive same_calls.
Proof. intros s1 s2 s3 H12 H23. unfold same_calls in *. congruence. Qed.
Lemma p_world_same_calls {A} (f : W → A * W) : respects same_calls (p_world f).
Proof. intros s a s'. unfold p_world. destruct (f _). by intros [= <- <-]. Qed.
Lemma p_state_same_calls f : respects same_calls (p_state f).
Proof. by intros s a s' [= <- <-]. Qed.
#[local] Hint Resolve p_world_same_calls p_state_same_calls : respects.

Lemma cleanup_calls n : respects same_calls (cleanup n).
Proof.
  unfold cleanup, p_range. respects_tac. apply respects_for; [exact _|exact _|intros [name st] _]. respects_tac.
Qed.
Lemma updateGraph_calls : respects same_calls updateGraph.
Proof.
  unfold updateGraph, p_range. respects_tac. apply respects_for; [exact _|exact _|intros [name st] _]. respects_tac.
Qed.

Lemma pollNode_calls name nc s u s' : pollNode name nc s = Ret (u, s') →
  ∃ ok, calls s' = (calls s ++ [(Dial (RPCAddress nc), ok)])%list.
Proof.
  intros E. unfold pollNode in E. run_step E ok s1 E1. apply p_call_run in E1 as [_ Hc]. exists ok. rewrite <- Hc.
  match type of E with ?m s1 = _ => assert (respects same_calls m) as Hm by (destruct ok; cbn [negb]; respects_tac) end.
  exact (Hm _ _ _ E).
Qed.

Lemma poll_calls n s u s' : poll n s = Ret (u, s') → ∃ dials, calls s' = (calls s ++ dials)%list ∧
  dials.*1 ≡ₚ (λ x, Dial (RPCAddress x.2)) <$> map_to_list (nodesConfig n).
Proof.
  intros E. unfold poll in E. run_step E l s1 E1. apply p_range_elem in E1 as (Hl & _ & Hc1); [|exact _].
  setoid_rewrite <- Hl. rewrite <- Hc1. clear Hl Hc1. revert s1 E.
  induction l as [|[name nc] l IH]; intros s1 E; cbn in E.
  { injection E as <- <-. exists []. by rewrite app_nil_r. }
  run_step E v s2 E2. apply pollNode_calls in E2 as [ok Hc]. destruct (IH _ E) as (dials & -> & Hd).
  exists ((Dial (RPCAddress nc), ok) :: dials). rewrite Hc, <- app_assoc. split; [done|]. cbn. by rewrite Hd.
Qed.

(** What a tick calls: every configured member is dialled, and then, unless it is a dry run,
    the missing pairs are connected. *)
Definition tick_calls (n : Network) (s s' : pms W) : Prop := ∃ dials order rs,
  calls s' = (calls s ++ dials ++ concat rs)%list ∧
  dials.*1 ≡ₚ (λ x, Dial (RPCAddress x.2)) <$> map_to_list (nodesConfig n) ∧
  NoDup order ∧ (∀ pair, pair ∈ order ↔ DryRun (n_config n) = false ∧ missing n (net s') pair) ∧
  Forall2 (connect_run n (net s')) order rs.
Lemma Tick_calls n s u s' : Tick n s = Ret (u, s') → tick_calls n s s'.
Proof.
  intros E. unfold Tick in E. run_step E u1 s1 E1. apply cleanup_calls in E1.
  run_step E u2 s2 E2. apply poll_calls in E2 as (dials & E2 & Hd).
  run_step E u3 s3 E3. apply updateGraph_calls in E3. run_step E u4 s4 E4. injection E4 as <- <-.
  exists dials. unfold same_calls in *. destruct (DryRun (n_config n)).
  - injection E as <- <-. exists [], []. cbn. rewrite E3, E2, E1, app_nil_r. split_and!; [done|done|constructor|set_solver|constructor].
  - apply resolveState_run in E as (order & rs & Hn & Hc & Ho & Hin & Hrs). cbn in Hn, Hc, Hin, Hrs.
    exists order, rs. rewrite Hc, E3, E2, E1, Hn, <- app_assoc. split_and!; [done|done|done| |done].
    intros pair. rewrite Hin. naive_solver.
Qed.

Lemma connectPeer_same_net n a b : respects same_net (connectPeer n a b).
Proof. intros s u s' E. by apply connectPeer_run in E as (r & Hn & _). Qed.

Lemma Tick_registered n : respects (keeps_registered n) (Tick n).
Proof.
  unfold Tick. apply respects_bind; [exact _|apply cleanup_registered|intros _].
  apply respects_bind; [exact _|apply poll_registered|intros _].
  apply respects_bind; [exact _|apply updateGraph_registered|intros _].
  apply respects_bind; [exact _|by apply same_net_keeps; intros s u s' [= <- <-]|intros _].
  destruct (DryRun _); [by apply respects_ret; exact _|].
  intros s u s' (order & rs & Hn & _)%resolveState_run. by apply keeps_same_net.
Qed.

Lemma ticks_registered n k : respects (keeps_registered n) (ticks n k).
Proof.
  induction k as [|k IH]; cbn; [by apply respects_ret; exact _|].
  apply respects_bind; [exact _|apply Tick_registered|by intros _].
Qed.

(** ** Ticks return *)

(** Every state has an address its node announced. *)
Definition announced (s : pms W) : Prop := ∀ name st, nodes (net s) !! name = Some st → Addresses (self st) ≠ [].

Lemma secure_world {A} (f : W → A * W) : secure announced (p_world f).
Proof. intros s Hs. unfold p_world. destruct (f _). by eexists _, _. Qed.
Lemma secure_call c : secure announced (p_call c).
Proof.
  apply secure_bind; [apply secure_world|intros ok]. apply secure_bind; [|intros; apply secure_ret]. intros s Hs. by eexists _, _.
Qed.
Lemma secure_in_turn l : secure announced (in_turn l).
Proof.
  induction l as [|c l IH]; cbn; [apply secure_ret|]. apply secure_bind; [apply secure_call|]. intros []; [done|apply secure_ret].
Qed.
Lemma secure_state f : (∀ s w c r, announced (mk_pms s w c r) → announced (mk_pms (f s) w c r)) → secure announced (p_state f).
Proof. intros Hf s Hs. eexists _, _. split; [done|]. destruct s. by apply Hf. Qed.
#[local] Hint Resolve secure_ret secure_world secure_gets secure_call secure_in_turn : core.

Lemma cleanup_safe n : secure announced (cleanup n).
Proof.
  unfold cleanup, p_range. repeat (apply secure_bind; [auto|intros]). apply secure_for. intros [name st].
  apply secure_bind; [auto|intros now]. destruct (_ <? _); [|auto]. apply secure_state.
  intros s w c r Hs other st'. cbn. intros [_ Hl]%lookup_delete_Some. by eapply Hs.
Qed.

Lemma peer_address_Ret nc pc st : Addresses (self st) ≠ [] → ∃ addr, peer_address nc pc st = Ret addr.
Proof. unfold peer_address. intros Ha. cbv zeta. destruct (Addresses _) as [|addr l]; [done|].
  match goal with |- context [if String.eqb ?x "" then Ret addr else _] => destruct (String.eqb x "") end; by eexists.
Qed.

Lemma connectPeer_safe n a b : secure announced (connectPeer n a b).
Proof.
  intros s Hs. unfold connectPeer. unfold mbind at 1, M_bind at 1. cbn [m_gets].
  destruct (nodes (net s) !! a) as [ns|], (nodesConfig n !! a) as [nc|], (nodes (net s) !! b) as [ps|] eqn:Hb,
    (nodesConfig n !! b) as [pc|]; try by apply secure_ret.
  destruct (peer_address_Ret nc pc ps) as [addr Ha]; [by eapply Hs|]. revert s Hs Hb. intros s Hs _. revert s Hs.
  change (secure announced (if PreventOutbound nc then mret tt else if PreventInbound pc then mret tt else
    ok ← in_turn [Dial (RPCAddress nc); Dial (RPCAddress pc)];
    if negb ok then mret tt else
    peerAddr ← m_lift (peer_address nc pc ps);
    _ ← in_turn (connect_calls nc pc ns ps peerAddr); mret tt)).
  destruct (PreventOutbound nc); [auto|]. destruct (PreventInbound pc); [auto|].
  apply secure_bind; [auto|intros []; cbn [negb]; [|auto]]. rewrite Ha.
  apply secure_bind; [intros s Hs; by eexists _, _|intros]. by apply secure_bind.
Qed.

Lemma resolveState_safe n : secure announced (resolveState n).
Proof.
  unfold resolveState, p_range. repeat (apply secure_bind; [auto|intros]). apply secure_for. intros [name st].
  unfold resolve_node, p_range. repeat (apply secure_bind; [auto|intros]). apply secure_for. intros [b []]; [auto|].
  apply connectPeer_safe.
Qed.

Lemma updateGraph_safe : secure announced updateGraph.
Proof.
  unfold updateGraph, p_range. repeat (apply secure_bind; [auto|intros]). apply secure_for. intros [name st].
  apply secure_bind; [auto|intros ps]. apply secure_state. intros s w c r Hs other st'. cbn.
  intros Hl. destruct (decide (name = other)) as [->|Hne].
  - rewrite lookup_alter_eq in Hl. destruct (nodes s !! other) as [old|] eqn:Ho; [|done]. injection Hl as <-.
    exact (Hs other old Ho).
  - rewrite lookup_alter_ne in Hl by done. by eapply Hs.
Qed.

Section announcing.
Hypothesis announces : ∀ rpc w i w', p2p_Self rpc w = (Some i, w') → Addresses i ≠ [].

Lemma pollNode_safe name nc : secure announced (pollNode name nc).
Proof.
  unfold pollNode. apply secure_bind; [auto|intros []; cbn [negb]; [|auto]].
  intros s Hs. unfold mbind at 1, M_bind at 1, p_world at 1.
  destruct (p2p_Self (RPCAddress nc) (pw s)) as [[i|] w'] eqn:Hi; [|by eexists _, _].
  apply announces in Hi. assert (announced (mk_pms (net s) w' (calls s) (reports s))) as Hs' by done.
  revert Hs'. generalize (mk_pms (net s) w' (calls s) (reports s)). clear s w' Hs.
  assert (secure announced (p_world (p2p_Peers (RPCAddress nc)) ≫= λ r, match r with
    | None => mret tt
    | Some ps => now ← p_world p2p_Now; p_state (λ s,
        let byID := match nodes s !! name with
                    | Some old => if String.eqb (PeerID (self old)) (PeerID i) then nodesByPeerID s
                                  else delete (PeerID (self old)) (nodesByPeerID s)
                    | None => nodesByPeerID s end in
        mk_network_state (<[name := mk_node_state i ps [] now]> (nodes s)) (<[PeerID i := name]> byID))
    end)) as Hk; [|exact Hk].
  apply secure_bind; [auto|intros [ps|]; [|auto]]. apply secure_bind; [auto|intros now]. apply secure_state.
  intros s w c r Hs other st. cbn. intros [[_ <-]|[_ Hl]]%lookup_insert_Some; [done|]. by eapply Hs.
Qed.

Lemma Tick_safe n : secure announced (Tick n).
Proof.
  unfold Tick. apply secure_bind; [apply cleanup_safe|intros _]. apply secure_bind; [|intros _].
  - unfold poll, p_range. apply secure_bind; [auto|intros l]. apply secure_for. intros [name nc]. apply pollNode_safe.
  - apply secure_bind; [apply updateGraph_safe|intros _]. apply secure_bind; [intros s Hs; by eexists _, _|intros _].
    destruct (DryRun _); [auto|apply resolveState_safe].
Qed.
Lemma ticks_safe n k : secure announced (ticks n k).
Proof. induction k as [|k IH]; cbn; [auto|]. by apply secure_bind; [apply Tick_safe|]. Qed.

Lemma ticks_once n s u s' : ticks n 1 s = Ret (u, s') → Tick n s = Ret (u, s').
Proof. cbn. unfold mbind, M_bind, mret, M_ret. by destruct (Tick n s) as [[[] s1]|]. Qed.

(** When the nodes announce at least one address of their own, every number of ticks
    of a network returns. *)
Theorem ticks_return n k (w : W) : ∃ u s', ticks n k (mk_pms (mk_network_state ∅ ∅) w [] []) = Ret (u, s').
Proof.
  destruct (ticks_safe n k (mk_pms (mk_network_state ∅ ∅) w [] [])) as (u & s' & E & _); [by intros name st|eauto].
Qed.

(** C20: when the nodes announce at least one address of their own, a tick that follows any number of ticks of a network
    returns. It dials every configured member once to poll it, and then, unless it is a
    dry run, makes calls for exactly the pairs of a node and another member that the node is
    not connected to, each pair once: the node and the peer unprotect, unblock and
    disconnect each other before the node connects to the peer and protects it, the calls
    end with the first that fails, and none is made where the node or the peer has no
    state, or forbids the connection. *)
Theorem tick_connects_missing n k (w : W) : ∃ s s', ticks n k (mk_pms (mk_network_state ∅ ∅) w [] []) = Ret (tt, s) ∧
  Tick n s = Ret (tt, s') ∧ tick_calls n s s'.
Proof.
  destruct (ticks_safe n k (mk_pms (mk_network_state ∅ ∅) w [] [])) as ([] & s & E & Hs); [by intros name st|].
  destruct (Tick_safe n s Hs) as ([] & s' & E' & _). exists s, s'. split_and!; [done..|]. by eapply Tick_calls.
Qed.
End announcing.

(** ** Validated configurations *)

Lemma check_members_ok cn name l : check_members cn name l = None → ∀ m, m ∈ l → is_Some (cn !! m).
Proof.
  induction l as [|m l IH]; cbn; [set_solver|]. destruct (cn !! m) eqn:Hm; [|done].
  intros Hl m' [->|Hm']%elem_of_cons; [by rewrite Hm|by apply IH].
Qed.
Lemma check_networks_ok cn l : check_networks cn l = None →
  ∀ x, x ∈ l → (2 ≤ length (Members x.2))%nat ∧ ∀ m, m ∈ Members x.2 → is_Some (cn !! m).
Proof.
  induction l as [|[name nw] l IH]; cbn [check_networks]; [set_solver|]. destruct (Nat.ltb_spec (length (Members nw)) 2); [done|].
  destruct (check_members _ _ _) eqn:Hm; [done|]. intros Hl x [->|Hx]%elem_of_cons; [|by apply IH].
  split; [done|]. by eapply check_members_ok.
Qed.
Lemma check_nodes_ok l : check_nodes l = None → ∀ x, x ∈ l → RPCAddress x.2 ≠ "".
Proof.
  induction l as [|[name nc] l IH]; cbn; [set_solver|]. destruct (String.eqb_spec (RPCAddress nc) ""); [done|].
  intros Hl x [->|Hx]%elem_of_cons; [done|by apply IH].
Qed.

Lemma networkNodes_lookup c network m nc :
  networkNodes c network !! m = Some nc ↔ m ∈ Members network ∧ Nodes c !! m = Some nc.
Proof.
  unfold networkNodes. set (f := λ _ _, _).
  enough (∀ l (acc : gmap string NodeConfig), foldl f acc l !! m = Some nc ↔
    (m ∈ l ∧ Nodes c !! m = Some nc) ∨ (¬ (m ∈ l ∧ is_Some (Nodes c !! m)) ∧ acc !! m = Some nc)) as Hf.
  { rewrite Hf, lookup_empty. naive_solver. }
  induction l as [|x l IH]; intros acc; cbn; [set_solver|]. rewrite IH, elem_of_cons. unfold f.
  destruct (decide (x = m)) as [->|Hne].
  - destruct (Nodes c !! m) as [nc'|] eqn:Hm.
    + rewrite lookup_insert_eq. destruct (decide (m ∈ l)); naive_solver.
    + unfold is_Some. naive_solver.
  - destruct (Nodes c !! x); [rewrite lookup_insert_ne by done|]; naive_solver.
Qed.

(** What Validate checks of the networks of a configuration. *)
Definition valid_networks (c : Config) : Prop := ∀ name nw, Networks c !! name = Some nw →
  (2 ≤ length (Members nw))%nat ∧ ∀ m, m ∈ Members nw → ∃ nc, Nodes c !! m = Some nc ∧ RPCAddress nc ≠ "".

Lemma Validate_ok c (w w' : W) c' : Validate c w = Ret (inr c', w') →
  Nodes c' = Nodes c ∧ Networks c' = Networks c ∧ valid_networks c'.
Proof.
  unfold Validate. intros E. do 4 (match type of E with context [if ?b then _ else _] => destruct b; [done|] end).
  pose proof (permute_perm (map_to_list (Nodes c)) w) as Hp1.
  destruct (permute (map_to_list (Nodes c)) w) as [l1 w1]. destruct (check_nodes l1) eqn:Hc1; [done|].
  pose proof (permute_perm (map_to_list (Networks c)) w1) as Hp2.
  destruct (permute (map_to_list (Networks c)) w1) as [l2 w2]. destruct (check_networks _ l2) eqn:Hc2; [done|].
  injection E as <- <-. cbn [fst] in *.
  assert (valid_networks c) as Hv.
  { intros name nw Hnw. apply elem_of_map_to_list in Hnw. rewrite <- Hp2 in Hnw.
    destruct (check_networks_ok _ _ Hc2 _ Hnw) as [Hlen Hm]. split; [done|]. intros m [nc Hnc]%Hm.
    exists nc. split; [done|]. apply (check_nodes_ok _ Hc1 (m, nc)). rewrite Hp1. by apply elem_of_map_to_list. }
  by destruct (String.eqb _ _).
Qed.

(** C21: in a network of a validated configuration, after any number of ticks, every
    identity of the registry is that of the node it names, the nodes with a state are members
    of the network, and every member is configured with the address of its RPC. *)
Theorem registry_sound c c' (w0 w1 w : W) name n s0 k u s' : Validate c w0 = Ret (inr c', w1) →
  start_networks c' !! name = Some (n, s0) → ticks n k (mk_pms s0 w [] []) = Ret (u, s') →
  (∀ pid node, nodesByPeerID (net s') !! pid = Some node →
     ∃ st, nodes (net s') !! node = Some st ∧ PeerID (self st) = pid) ∧
  (∀ node, is_Some (nodes (net s') !! node) → node ∈ Members (networkConfig n)) ∧
  (∀ node, node ∈ Members (networkConfig n) → ∃ nc, nodesConfig n !! node = Some nc ∧ RPCAddress nc ≠ "").
Proof.
  intros (_ & _ & Hv)%Validate_ok Hn E. unfold start_networks in Hn. rewrite map_lookup_imap in Hn.
  destruct (Networks c' !! name) as [nw|] eqn:Hnw; [|done]. injection Hn as <- <-. apply ticks_registered in E.
  destruct E as [Hr Hm]. { split; cbn; [intros pid node; by rewrite lookup_empty|intros node [st]; by rewrite lookup_empty in *]. }
  cbn in *. split_and!; [done| |].
  - intros node [nc [? _]%networkNodes_lookup]%Hm. done.
  - intros node Hin. destruct (Hv _ _ Hnw) as [_ Hall]. destruct (Hall _ Hin) as (nc & Hnc & Ha). exists nc.
    split; [|done]. by apply networkNodes_lookup.
Qed.
End network.

(** ** A network of three nodes *)

Module pms_runs.
Definition node (rpc : string) : NodeConfig := mk_node rpc "" "" "" "" false false.
(** Node c accepts no connections. *)
Definition config : Config :=
  mk_pms_config "debug" false (mk_metrics false false "" "") (mk_healthz false "" "") 1 10 1
    {[ "a" := node "rpc-a"; "b" := node "rpc-b"; "c" := mk_node "rpc-c" "" "/dns4/c/p2p/{peer_id}" "" "" true false ]}
    {[ "net" := mk_network ["a"; "b"; "c"] ]}.

(** Node a is connected to b, node b to nobody, node c does not answer; disconnecting fails
    at node a. *)
#[local] Instance world : OpP2P nat := {|
  p2p_Dial := λ rpc w, (negb (String.eqb rpc "rpc-c"), S w);
  p2p_Self := λ rpc w, (Some (mk_peer ("id-" ++ rpc) ["/ip4/" ++ rpc] "Connected"), S w);
  p2p_Peers := λ rpc w,
    (Some (if String.eqb rpc "rpc-a" then {[ "id-rpc-b" := mk_peer "id-rpc-b" [] "Connected" ]} else ∅), S w);
  p2p_Invoke := λ op rpc arg w, (match op with DisconnectPeer => negb (String.eqb rpc "rpc-a") | _ => true end, S w);
  p2p_Now := λ w, (Z.of_nat w, S w);
|}.
#[local] Instance in_turn_order : Order nat := λ A l w, (l, w).
#[local] Instance in_turn_order_spec : OrderSpec nat.
Proof. by intros A l w. Qed.

Definition network : Network := (New config "net" (mk_network ["a"; "b"; "c"]) (Nodes config)).1.
Definition start : pms nat := mk_pms (mk_network_state ∅ ∅) O [] [].

(** One tick: every node is dialled, and b is asked to connect to a until a fails to disconnect it. *)
Definition first_calls : list (call * bool) :=
  [(Dial "rpc-c", false); (Dial "rpc-a", true); (Dial "rpc-b", true);
   (Dial "rpc-b", true); (Dial "rpc-a", true);
   (Invoke UnprotectPeer "rpc-b" "id-rpc-a", true); (Invoke UnprotectPeer "rpc-a" "id-rpc-b", true);
   (Invoke UnblockPeer "rpc-b" "id-rpc-a", true); (Invoke UnblockPeer "rpc-a" "id-rpc-b", true);
   (Invoke DisconnectPeer "rpc-b" "id-rpc-a", true); (Invoke DisconnectPeer "rpc-a" "id-rpc-b", false)].

Lemma first_tick_run : (λ x, calls x.2) <$> returned (Tick network start) = Some first_calls.
Proof. vm_compute. reflexivity. Qed.

Lemma nodes_announce : ∀ rpc (w : nat) i w', p2p_Self rpc w = (Some i, w') → Addresses i ≠ [].
Proof. by intros rpc w i w' [= <- _]. Qed.

(** The tick after the first one. *)
Lemma tick_connects_missing_witness : ∃ s s', Tick network start = Ret (tt, s) ∧ calls s = first_calls ∧
  Tick network s = Ret (tt, s') ∧ tick_calls network s s'.
Proof.
  destruct (tick_connects_missing nodes_announce network 1 O) as (s & s' & E & E' & Hc).
  apply ticks_once in E. exists s, s'. split; [exact E|]. split; [|exact (conj E' Hc)].
  pose proof first_tick_run as Hf. unfold start in Hf. rewrite E in Hf. by injection Hf.
Defined.

Lemma registry_sound_witness : ∃ u s', ticks network 2 start = Ret (u, s') ∧
  nodesByPeerID (net s') !! "id-rpc-a" = Some "a" ∧ "a" ∈ Members (networkConfig network).
Proof.
  assert ((λ x, nodesByPeerID (net x.2) !! "id-rpc-a") <$> returned (ticks network 2 start) = Some (Some "a")) as Hrun
    by (vm_compute; reflexivity).
  apply returned_fst in Hrun as (u & s' & E & Hc). exists u, s'. split; [exact E|]. split; [exact Hc|].
  destruct (registry_sound config config O O O "net" network (mk_network_state ∅ ∅) 2 u s')
    as (Hr & Hm & _).
  - vm_compute. reflexivity.
  - vm_compute. reflexivity.
  - exact E.
  - apply Hm. destruct (Hr _ _ Hc) as (st & Hst & _). exists st. exact Hst.
Defined.

Lemma ticks_return_witness : ∃ u s', ticks network 5 (mk_pms (mk_network_state ∅ ∅) O [] []) = Ret (u, s').
Proof. exact (ticks_return nodes_announce network 5 O). Defined.
End pms_runs.
