(* ===== verification/TxProxy.v ===== *)
(** op-txproxy: passes conditional transactions to a block builder, when they call an
    entrypoint of ERC-4337, their condition is valid and its cost is within the limits.

    The transactions, conditions and limiter of the libraries are interfaces. The
    metrics are the counts of requests and of failures by their label. *)
From stdpp Require Import base numbers list gmap strings.
From S2P Require Import Prelude.
From S2P Require Import Bytes.

Local Open Scope string_scope.
Local Open Scope Z_scope.

(** params of go-ethereum. *)
Class TxParams := {
  TransactionConditionalMaxCost : Z;
  TransactionConditionalRejectedErrCode : Z;
  TransactionConditionalCostExceededMaxErrCode : Z;
  EntryPoint_v060Addr : bytes;
  EntryPoint_v070Addr : bytes;
}.

(** types.Transaction and types.TransactionConditional. *)
Class TxTypes (Tx Cond : Type) := {
  UnmarshalBinary : bytes → string + Tx;
  tx_Hash : Tx → bytes;
  tx_To : Tx → option bytes;
  Cost : Cond → Z;
  cond_Validate : Cond → option string;
}.

(** rate.Limiter and client.RPC, of one service. *)
Class TxBackend (Cond W : Type) := {
  NewRPC : string → W → option string * W;
  NewLimiter : Z → Z → W → W;
  WaitN : Z → W → option string * W;
  CallContext : string → bytes → Cond → W → option string * W;
}.

(** An error of the service, or one passed on. *)
Inductive tx_error :=
| JsonError (message : string) (code : Z)
| OtherError (message : string).
Definition tx_error_message (e : tx_error) : string := match e with JsonError m _ => m | OtherError m => m end.

Section txproxy.
Context `{TxParams} {Tx Cond W : Type} `{TxTypes Tx Cond, TxBackend Cond W}.

Definition rateLimitErr : tx_error := JsonError "rate limited" TransactionConditionalCostExceededMaxErrCode.
Definition endpointDisabledErr : tx_error := JsonError "endpoint disabled" TransactionConditionalRejectedErrCode.
Definition entrypointSupportErr : tx_error := JsonError "only 4337 Entrypoint contract support" TransactionConditionalRejectedErrCode.
Definition failedValidationErr : tx_error := JsonError "failed conditional validation" TransactionConditionalRejectedErrCode.
Definition maxCostExceededErr : tx_error := JsonError "max cost exceeded" TransactionConditionalRejectedErrCode.

Record CLIConfig := mk_cli {
  SendRawTransactionConditionalEnabled : bool;
  SendRawTransactionConditionalBackend : string;
  SendRawTransactionConditionalRateLimit : Z;
}.
Record ConditionalTxService := mk_service {
  cfg : CLIConfig; entrypointAddresses : gmap bytes bool;
  requests : nat; failures : gmap string nat; costs : list Z;
}.
#[local] Instance eta_service : Eta ConditionalTxService := λ r,
  mk_service (cfg r) (entrypointAddresses r) (requests r) (failures r) (costs r).

Record txs := mk_txs { service : ConditionalTxService; tx_world : W }.
#[local] Instance eta_txs : Eta txs := λ r, mk_txs (service r) (tx_world r).

Notation X := (M txs).
Definition in_service (f : ConditionalTxService → ConditionalTxService) : X unit :=
  m_modify (λ s, mk_txs (f (service s)) (tx_world s)).
Definition in_backend {A} (f : W → A * W) : X A := λ s,
  let '(a, w) := f (tx_world s) in Ret (a, mk_txs (service s) w).

Definition NewConditionalTxService (c : CLIConfig) : M W (string + ConditionalTxService) := λ w,
  match NewRPC (SendRawTransactionConditionalBackend c) w with
  | (Some err, w) => Ret (inl ("failed to dial backend " ++ SendRawTransactionConditionalBackend c ++ ": " ++ err), w)
  | (None, w) =>
      Ret (inr (mk_service c {[ EntryPoint_v060Addr := true; EntryPoint_v070Addr := true ]} 0 ∅ []),
           NewLimiter (SendRawTransactionConditionalRateLimit c) TransactionConditionalMaxCost w)
  end.

Definition zero_hash : bytes := replicate 32 0.

Definition sendCondTx (txBytes : bytes) (cond : Cond) : X (bytes * option tx_error) :=
  match UnmarshalBinary txBytes with
  | inl err => mret (zero_hash, Some (OtherError ("failed to unmarshal tx: " ++ err)))
  | inr tx =>
      let txHash := tx_Hash tx in
      let cost := Cost cond in
      s ← m_gets service;
      if negb (match tx_To tx with None => false | Some to => default false (entrypointAddresses s !! to) end)
      then mret (txHash, Some entrypointSupportErr) else
      match cond_Validate cond with
      | Some _ => mret (txHash, Some failedValidationErr)
      | None =>
          if TransactionConditionalMaxCost <? cost then mret (txHash, Some maxCostExceededErr) else
          err ← in_backend (WaitN cost);
          match err with
          | Some _ => mret (txHash, Some rateLimitErr)
          | None =>
              _ ← in_service (λ s, {{ s with costs := (costs s ++ [cost])%list }});
              err ← in_backend (CallContext "eth_sendRawTransactionConditional" txBytes cond);
              mret (txHash, OtherError <$> err)
          end
      end
  end.

Definition fail_with (label : string) (s : ConditionalTxService) : ConditionalTxService :=
  {{ s with failures := <[label := S (default O (failures s !! label))]> (failures s) }}.

Definition SendRawTransactionConditional (txBytes : bytes) (cond : Cond) : X (bytes * option tx_error) :=
  _ ← in_service (λ s, {{ s with requests := S (requests s) }});
  s ← m_gets service;
  if negb (SendRawTransactionConditionalEnabled (cfg s)) then
    _ ← in_service (fail_with "disabled"); mret (zero_hash, Some endpointDisabledErr)
  else
    r ← sendCondTx txBytes cond;
    match r with
    | (_, Some err) => _ ← in_service (fail_with (tx_error_message err)); mret (zero_hash, Some err)
    | (hash, None) => mret (hash, None)
    end.

(** Requests one after the other. *)
Fixpoint serve (l : list (bytes * Cond)) : X (list (bytes * option tx_error)) :=
  match l with
  | [] => mret []
  | (txBytes, cond) :: l => r ← SendRawTransactionConditional txBytes cond; rs ← serve l; mret (r :: rs)
  end.

(** ** What is passed on *)

(** The transaction and the condition pass the checks of the service. *)
Definition eligible (c : CLIConfig) (txBytes : bytes) (cond : Cond) (tx : Tx) : Prop :=
  SendRawTransactionConditionalEnabled c = true ∧ UnmarshalBinary txBytes = inr tx ∧
  (tx_To tx = Some EntryPoint_v060Addr ∨ tx_To tx = Some EntryPoint_v070Addr) ∧
  cond_Validate cond = None ∧ Cost cond ≤ TransactionConditionalMaxCost.

(** The error of the first check that is not passed. *)
Definition refusal (c : CLIConfig) (txBytes : bytes) (cond : Cond) : option tx_error :=
  if negb (SendRawTransactionConditionalEnabled c) then Some endpointDisabledErr else
  match UnmarshalBinary txBytes with
  | inl e => Some (OtherError ("failed to unmarshal tx: " ++ e))
  | inr tx =>
      if negb (bool_decide (tx_To tx ∈ [Some EntryPoint_v060Addr; Some EntryPoint_v070Addr])) then Some entrypointSupportErr
      else if bool_decide (is_Some (cond_Validate cond)) then Some failedValidationErr
      else if TransactionConditionalMaxCost <? Cost cond then Some maxCostExceededErr
      else None
  end.

Lemma refused_not_eligible c txBytes cond err tx : refusal c txBytes cond = Some err → ¬ eligible c txBytes cond tx.
Proof.
  intros Hr (He & Hu & Hto & Hv & Hc). unfold refusal in Hr. rewrite He, Hu, Hv in Hr. cbn [negb] in Hr.
  rewrite bool_decide_true in Hr by set_solver. rewrite bool_decide_false in Hr by by intros [].
  apply Z.ltb_ge in Hc. by rewrite Hc in Hr.
Qed.

(** What a request does to the limiter and the builder, and its answer. *)
Inductive outcome (c : CLIConfig) (txBytes : bytes) (cond : Cond) (w : W) : bytes → option tx_error → W → Prop :=
| refused err : (¬ ∃ tx, eligible c txBytes cond tx) → refusal c txBytes cond = Some err →
    outcome c txBytes cond w zero_hash (Some err) w
| limited tx e w' : eligible c txBytes cond tx → WaitN (Cost cond) w = (Some e, w') →
    outcome c txBytes cond w zero_hash (Some rateLimitErr) w'
| failed tx w1 e w' : eligible c txBytes cond tx → WaitN (Cost cond) w = (None, w1) →
    CallContext "eth_sendRawTransactionConditional" txBytes cond w1 = (Some e, w') →
    outcome c txBytes cond w zero_hash (Some (OtherError e)) w'
| passed tx w1 w' : eligible c txBytes cond tx → WaitN (Cost cond) w = (None, w1) →
    CallContext "eth_sendRawTransactionConditional" txBytes cond w1 = (None, w') →
    outcome c txBytes cond w (tx_Hash tx) None w'.

(** The configuration and the entrypoints of a service stay as they were made. *)
Definition made_of (c : CLIConfig) (s : ConditionalTxService) : Prop :=
  cfg s = c ∧ entrypointAddresses s = {[ EntryPoint_v060Addr := true; EntryPoint_v070Addr := true ]}.

Lemma entrypoint_lookup (to : bytes) :
  default false (({[ EntryPoint_v060Addr := true; EntryPoint_v070Addr := true ]} : gmap bytes bool) !! to) = true ↔
  to = EntryPoint_v060Addr ∨ to = EntryPoint_v070Addr.
Proof.
  destruct (decide (to = EntryPoint_v060Addr)) as [->|H6]; [rewrite lookup_insert_eq; naive_solver|].
  rewrite lookup_insert_ne by done. destruct (decide (to = EntryPoint_v070Addr)) as [->|H7].
  - rewrite lookup_singleton_eq. naive_solver.
  - rewrite lookup_singleton_ne by done. naive_solver.
Qed.

Definition sent (c : CLIConfig) (txBytes : bytes) (cond : Cond) (s : txs) (m : X (bytes * option tx_error)) : Prop :=
  ∃ hash err s', m s = Ret ((hash, err), s') ∧ made_of c (service s') ∧
    outcome c txBytes cond (tx_world s) (if err then zero_hash else hash) err (tx_world s').

Lemma outcome_refused c txBytes cond w err : refusal c txBytes cond = Some err →
  outcome c txBytes cond w zero_hash (Some err) w.
Proof. intros Hr. apply refused; [|done]. intros [tx Hx]. by eapply refused_not_eligible. Qed.

Lemma sendCondTx_outcome c txBytes cond s : made_of c (service s) → SendRawTransactionConditionalEnabled c = true →
  sent c txBytes cond s (sendCondTx txBytes cond).
Proof.
  intros Hm He. pose proof (outcome_refused c txBytes cond (tx_world s)) as Href.
  unfold refusal in Href. rewrite He in Href. cbn [negb] in Href.
  unfold sent, sendCondTx. destruct (UnmarshalBinary txBytes) as [e|tx] eqn:Hu.
  { eexists _, _, s. split_and!; [done|done|]. by apply Href. }
  unfold mbind at 1, M_bind at 1. cbn [m_gets]. rewrite (proj2 Hm).
  assert (match tx_To tx with None => false | Some to => default false
    (({[ EntryPoint_v060Addr := true; EntryPoint_v070Addr := true ]} : gmap bytes bool) !! to) end =
    bool_decide (tx_To tx ∈ [Some EntryPoint_v060Addr; Some EntryPoint_v070Addr])) as ->.
  { apply eq_true_iff_eq. rewrite bool_decide_eq_true. destruct (tx_To tx) as [to|]; [rewrite entrypoint_lookup|]; set_solver. }
  case_bool_decide as Hto; cbn [negb] in *.
  2:{ eexists _, _, s. split_and!; [done|done|]. by apply Href. }
  destruct (cond_Validate cond) as [e|] eqn:Hv.
  { eexists _, _, s. split_and!; [done|done|]. apply Href. by rewrite bool_decide_true by eauto. }
  rewrite bool_decide_false in Href by by intros [].
  destruct (Z.ltb_spec TransactionConditionalMaxCost (Cost cond)) as [Hc|Hc].
  { eexists _, _, s. split_and!; [done|done|]. by apply Href. }
  clear Href. assert (eligible c txBytes cond tx) as Hx by (split_and!; [done|done|set_solver|done|done]).
  unfold mbind at 1, M_bind at 1, in_backend at 1. destruct (WaitN (Cost cond) (tx_world s)) as [[e|] w1] eqn:Hw.
  { eexists _, _, _. split_and!; [done|done|]. by eapply limited. }
  unfold mbind, M_bind, in_service, m_modify, in_backend. cbn [tx_world service].
  destruct (CallContext _ txBytes cond w1) as [[e|] w2] eqn:Hcall; eexists _, _, _; (split_and!; [done|done|]); cbn.
  - by eapply failed.
  - by eapply passed.
Qed.

Lemma send_outcome c txBytes cond s : made_of c (service s) → ∃ hash err s',
  SendRawTransactionConditional txBytes cond s = Ret ((hash, err), s') ∧ made_of c (service s') ∧
  outcome c txBytes cond (tx_world s) hash err (tx_world s').
Proof.
  intros Hm. unfold SendRawTransactionConditional. unfold mbind at 1, M_bind at 1, in_service at 1. cbn [m_modify].
  set (s1 := mk_txs _ _). assert (made_of c (service s1)) as Hm1 by done.
  unfold mbind at 1, M_bind at 1. cbn [m_gets]. rewrite (proj1 Hm1).
  destruct (SendRawTransactionConditionalEnabled c) eqn:He; cbn [negb].
  - destruct (sendCondTx_outcome c txBytes cond s1 Hm1 He) as (hash & err & s' & E & Hm' & Ho).
    rewrite (M_bind_run _ _ _ _ _ E). destruct err as [err|]; eexists _, _, _; split_and!; done.
  - eexists _, _, _. split_and!; [done|done|]. apply outcome_refused. unfold refusal. by rewrite He.
Qed.

Lemma serve_made c l s : made_of c (service s) → ∃ rs s', serve l s = Ret (rs, s') ∧ made_of c (service s').
Proof.
  revert s. induction l as [|[b cond] l IH]; intros s Hm; cbn; [by eexists _, _|].
  destruct (send_outcome c b cond s Hm) as (hash & err & s1 & E & Hm1 & _). rewrite (M_bind_run _ _ _ _ _ E).
  destruct (IH s1 Hm1) as (rs & s2 & E2 & Hm2). rewrite (M_bind_run _ _ _ _ _ E2). by eexists _, _.
Qed.

(** C22: a service that was made answers every request, whatever came before: a transaction
    reaches the block builder only if the endpoint is enabled, the transaction decodes and calls one
    of the two entrypoints, its condition is valid, costs no more than the maximum and the limiter
    lets that cost pass; the answer is the hash of the transaction when the builder takes it,
    and the zero hash with the error of the first check, the limiter or the builder otherwise, and a
    refused request costs nothing of the limit. *)
Theorem conditional_tx_outcome c (w w1 : W) svc past txBytes cond :
  NewConditionalTxService c w = Ret (inr svc, w1) →
  ∃ rs s hash err s', serve past (mk_txs svc w1) = Ret (rs, s) ∧
    SendRawTransactionConditional txBytes cond s = Ret ((hash, err), s') ∧
    outcome c txBytes cond (tx_world s) hash err (tx_world s').
Proof.
  intros E. assert (made_of c svc) as Hm.
  { unfold NewConditionalTxService in E. destruct (NewRPC _ w) as [[e|] w']; [done|]. by injection E as <- <-. }
  destruct (serve_made c past (mk_txs svc w1) Hm) as (rs & s & Es & Hs).
  destruct (send_outcome c txBytes cond s Hs) as (hash & err & s' & E' & _ & Ho). by exists rs, s, hash, err, s'.
Qed.
End txproxy.

(** ** A limiter of ten units *)

Module txproxy_runs.
#[local] Instance params : TxParams := {|
  TransactionConditionalMaxCost := 8; TransactionConditionalRejectedErrCode := -32003;
  TransactionConditionalCostExceededMaxErrCode := -32005; EntryPoint_v060Addr := [6]; EntryPoint_v070Addr := [7]
|}.
(** A transaction is its target, a condition its cost. *)
#[local] Instance types : TxTypes bytes Z := {|
  UnmarshalBinary := λ b, match b with [] => inl "EOF" | _ => inr b end;
  tx_Hash := λ b, (b ++ [1])%list; tx_To := λ b, Some b; Cost := λ c, c;
  cond_Validate := λ c, if c <? 0 then Some "negative" else None
|}.
#[local] Instance backend : TxBackend Z Z := {|
  NewRPC := λ url w, (None, w); NewLimiter := λ r burst w, 10;
  WaitN := λ n w, if n <=? w then (None, w - n) else (Some "would exceed", w);
  CallContext := λ method b c w, (None, w)
|}.
Definition cli : CLIConfig := mk_cli true "builder" 5.

(** The second transaction passes after the first has used part of the limit. *)
Lemma conditional_tx_outcome_witness : ∃ w1 svc, NewConditionalTxService cli 0 = Ret (inr svc, w1) ∧
  ∃ rs s hash err s', serve [([6], 4)] (mk_txs svc w1) = Ret (rs, s) ∧
    SendRawTransactionConditional [7] 5 s = Ret ((hash, err), s') ∧
    outcome cli [7] 5 (tx_world s) hash err (tx_world s').
Proof.
  exists 10, (mk_service cli {[ [6] := true; [7] := true ]} 0 ∅ []).
  assert (NewConditionalTxService cli 0 = Ret (inr (mk_service cli {[ [6] := true; [7] := true ]} 0 ∅ []), 10)) as E by reflexivity.
  split; [exact E|]. exact (conditional_tx_outcome cli 0 10 _ [([6], 4)] [7] 5 E).
Defined.
End txproxy_runs.
