(* ===== verification/Ufm.v ===== *)
(** op-ufm: providers of a network send transactions and measure when the others see
    them. This file has the configuration (config/config.go), the pools of the service
    (service/service.go), the pool of a network (provider/tx_pool.go) and the heartbeat of
    a provider (provider/heartbeat.go), which reads the transactions in flight; RoundTrip.v
    has the sending of one.

    The providers of a network share its pool. A transaction is reached through a pointer
    that other heartbeats may hold while the pool forgets it, so the pool has a store of
    transaction states; the heartbeats interleave at their critical sections. *)
From stdpp Require Import base numbers list gmap sets strings relations.
From S2P Require Import Prelude.

Local Open Scope string_scope.
Local Open Scope Z_scope.
#[local] Arguments String.append : simpl nomatch.

(** ** config.go *)

Record SignerServiceConfig := mk_signer { URL : string; TLSCaCert : string; TLSCert : string; TLSKey : string }.
Record MetricsConfig := mk_metrics { m_Enabled : bool; m_Debug : bool; m_Host : string; m_Port : string }.
Record HealthzConfig := mk_healthz { h_Enabled : bool; h_Host : string; h_Port : string }.
Record WalletConfig := mk_wallet {
  ChainID : Z; SignerMethod : string; Address : string; PrivateKey : string; TxValue : Z
}.
Record ProviderConfig := mk_provider_config {
  Network : string; p_URL : string; ReadOnly : bool; ReadInterval : Z; SendInterval : Z;
  SendTransactionRetryInterval : Z; SendTransactionRetryTimeout : Z; SendTransactionCoolDown : Z;
  ReceiptRetrievalInterval : Z; ReceiptRetrievalTimeout : Z; p_Wallet : string
}.
Record Config := mk_config {
  LogLevel : string; Signer : SignerServiceConfig; Metrics : MetricsConfig; Healthz : HealthzConfig;
  Wallets : gmap string WalletConfig; Providers : gmap string ProviderConfig
}.
#[export] Instance eta_Config : Eta Config := λ r,
  mk_config (LogLevel r) (Signer r) (Metrics r) (Healthz r) (Wallets r) (Providers r).

Notation missing x := (String.eqb x "").

Definition check_wallet (c : Config) (name : string) (w : WalletConfig) : option string :=
  let signer := String.eqb (SignerMethod w) "signer" in
  let static := String.eqb (SignerMethod w) "static" in
  first_error [
    (ChainID w =? 0, "wallet [" ++ name ++ "] chain_id is missing");
    (negb signer && negb static, "wallet [" ++ name ++ "] signer_method is invalid");
    (signer && missing (URL (Signer c)), "signer url is missing");
    (signer && missing (TLSCaCert (Signer c)), "signer tls_ca_cert is missing");
    (signer && missing (TLSCert (Signer c)), "signer tls_cert is missing");
    (signer && missing (TLSKey (Signer c)), "signer tls_key is missing");
    (static && missing (PrivateKey w), "wallet [" ++ name ++ "] private_key is missing");
    (missing (Address w), "wallet [" ++ name ++ "] address is missing");
    (TxValue w =? 0, "wallet [" ++ name ++ "] tx_value is missing")].

Definition check_provider (c : Config) (name : string) (p : ProviderConfig) : option string :=
  first_error [
    (missing (p_URL p), "provider [" ++ name ++ "] url is missing");
    (ReadInterval p =? 0, "provider [" ++ name ++ "] read_interval is missing");
    (SendInterval p =? 0, "provider [" ++ name ++ "] send_interval is missing");
    (SendTransactionRetryInterval p =? 0, "provider [" ++ name ++ "] send_transaction_retry_interval is missing");
    (SendTransactionRetryTimeout p =? 0, "provider [" ++ name ++ "] send_transaction_retry_timeout is missing");
    (SendTransactionCoolDown p =? 0, "provider [" ++ name ++ "] send_transaction_cool_down is missing");
    (ReceiptRetrievalInterval p =? 0, "provider [" ++ name ++ "] receipt_retrieval_interval is missing");
    (ReceiptRetrievalTimeout p =? 0, "provider [" ++ name ++ "] receipt_retrieval_timeout is missing");
    (missing (p_Wallet p), "provider [" ++ name ++ "] wallet is missing");
    (bool_decide (Wallets c !! p_Wallet p = None),
      "provider [" ++ name ++ "] has an invalid wallet [" ++ p_Wallet p ++ "]")].

(** The first error of a pass over the entries of a map. *)
Fixpoint check_all {A} (check : string → A → option string) (l : list (string * A)) : option string :=
  match l with
  | [] => None
  | (name, a) :: l => match check name a with Some err => Some err | None => check_all check l end
  end.

Definition Validate `{Order W} (c : Config) : M W (string + Config) := λ w,
  match first_error [
    (m_Enabled (Metrics c) && (missing (m_Host (Metrics c)) || missing (m_Port (Metrics c))),
      "metrics is enabled but host or port are missing");
    (h_Enabled (Healthz c) && (missing (h_Host (Healthz c)) || missing (h_Port (Healthz c))),
      "healthz is enabled but host or port are missing");
    ((size (Wallets c) =? 0)%nat, "at least one wallet must be set");
    ((size (Providers c) =? 0)%nat, "at least one provider must be set")] with
  | Some err => Ret (inl err, w)
  | None =>
      let '(wallets, w) := permute (map_to_list (Wallets c)) w in
      match check_all (check_wallet c) wallets with
      | Some err => Ret (inl err, w)
      | None =>
          let '(providers, w) := permute (map_to_list (Providers c)) w in
          match check_all (check_provider c) providers with
          | Some err => Ret (inl err, w)
          | None => Ret (inr (if missing (LogLevel c) then {{ c with LogLevel := "debug" }} else c), w)
          end
      end
  end.

(** ** tx_pool.go *)

(** A hash is its Hex; the zero time is 0. *)
Record TransactionState := mk_tx {
  Hash : string; SentAt : Z; ProviderSource : string; FirstSeen : Z; SeenBy : gmap string Z
}.
#[export] Instance eta_TransactionState : Eta TransactionState := λ r,
  mk_tx (Hash r) (SentAt r) (ProviderSource r) (FirstSeen r) (SeenBy r).

(** [store] has the states by their pointers, of which [allocated] is the next. *)
Record NetworkTransactionPool := mk_pool {
  store : gmap nat TransactionState; allocated : nat;
  Transactions : gmap string nat; Expected : Z; LastSend : Z
}.
#[export] Instance eta_NetworkTransactionPool : Eta NetworkTransactionPool := λ r,
  mk_pool (store r) (allocated r) (Transactions r) (Expected r) (LastSend r).

(** ** service.go *)

Record Provider := mk_provider {
  p_name : string; p_config : ProviderConfig; signerConfig : SignerServiceConfig; walletConfig : WalletConfig
}.

(** The providers of each network, in the order of the pass. *)
Definition networks_of (l : list (string * ProviderConfig)) : gmap string (list string) :=
  foldl (λ networks '(name, pc),
    <[Network pc := (default [] (networks !! Network pc) ++ [name])%list]> networks) ∅ l.

Definition network_pool (providers : list string) : NetworkTransactionPool :=
  mk_pool ∅ 0 ∅ (Z.of_nat (length providers) - 1) 0.

(** The pools by network, and the providers with the network whose pool they share;
    Validate has checked that their wallets exist. *)
Definition start_service `{Order W} (c : Config) :
  M W (gmap string NetworkTransactionPool * gmap string Provider) := λ w,
  let '(l, w) := permute (map_to_list (Providers c)) w in
  let pools := network_pool <$> networks_of l in
  let providers := map_imap (λ name pc,
    (λ wallet, mk_provider name pc (Signer c) wallet) <$> Wallets c !! p_Wallet pc) (Providers c) in
  Ret ((pools, providers), w).

(** ** heartbeat.go *)

Inductive ufm_metric :=
| TransactionsInFlight (network : string) (count : Z)
| FirstSeenLatency (source seen : string) (latency : Z)
| ProviderToProviderLatency (source seen : string) (latency : Z)
| RoundTripLatency (provider : string) (latency : Z)
| GasUsed (provider : string) (val : Z)
| ErrorDetails (provider label error : string).

Inductive lookup_error := NotFound | OtherLookupError (message : string).

(** What a heartbeat asks of the clock and of the client of its provider. *)
Class Heart (W : Type) := {
  heart_Now : W → Z * W;
  heart_Dial : string → W → bool * W;
  TransactionByHash : string → string → W → option lookup_error * W;
}.
(** The clock is past the zero time. *)
Class HeartSpec (W : Type) `{Heart W} := heart_now_pos : ∀ w, 0 < (heart_Now w).1.

Record ufm (W : Type) := mk_ufm { txPool : NetworkTransactionPool; metrics : list ufm_metric; uw : W }.
Arguments mk_ufm {W} _ _ _.
Arguments txPool {W} _.
Arguments metrics {W} _.
Arguments uw {W} _.

Section heartbeat.
Context {W : Type} `{Heart W, Order W}.

Notation U := (M (ufm W)).

Definition u_world {A} (f : W → A * W) : U A := λ s,
  let '(a, w) := f (uw s) in Ret (a, mk_ufm (txPool s) (metrics s) w).
Definition u_pool (f : NetworkTransactionPool → NetworkTransactionPool) : U unit :=
  m_modify (λ s, mk_ufm (f (txPool s)) (metrics s) (uw s)).
Definition u_metric (m : ufm_metric) : U unit :=
  m_modify (λ s, mk_ufm (txPool s) (metrics s ++ [m])%list (uw s)).

(** The state behind a pointer; the pool is only given pointers of its store. *)
Definition u_tx (ptr : nat) : U TransactionState := λ s,
  match store (txPool s) !! ptr with
  | Some st => Ret (st, s)
  | None => Panic "invalid memory address or nil pointer dereference"
  end.
Definition u_set_tx (ptr : nat) (st : TransactionState) : U unit :=
  u_pool (λ pool, {{ pool with store := <[ptr := st]> (store pool) }}).

(** Whether a provider is to look for a transaction: not its own, not seen yet. *)
Definition expects (name : string) (st : TransactionState) : bool :=
  negb (String.eqb (ProviderSource st) name) && bool_decide (SeenBy st !! name = None).

Definition expectedTransactions (name : string) (pool : NetworkTransactionPool) (ptrs : list nat) : list nat :=
  filter (λ ptr, expects name <$> store pool !! ptr = Some true) ptrs.

Definition begin_heartbeat (p : Provider) : U (list nat) :=
  pool ← m_gets txPool;
  _ ← u_metric (TransactionsInFlight (Network (p_config p)) (Z.of_nat (size (Transactions pool))));
  l ← u_world (permute (map_to_list (Transactions pool)));
  mret (expectedTransactions (p_name p) pool l.*2).

(** Whether the provider has the transaction; a failed dial leaves no client. *)
Definition look (p : Provider) (dialled : bool) (ptr : nat) : U bool :=
  st ← u_tx ptr;
  if negb dialled then m_panic "invalid memory address or nil pointer dereference" else
  err ← u_world (TransactionByHash (p_URL (p_config p)) (Hash st));
  match err with
  | Some (OtherLookupError _) => mret false
  | _ => mret true
  end.

(** Under the lock of the transaction. *)
Definition mark (p : Provider) (ptr : nat) : U unit :=
  st ← u_tx ptr;
  now ← u_world heart_Now;
  let latency := now - SentAt st in
  _ ← (if FirstSeen st =? 0 then
         now ← u_world heart_Now;
         _ ← u_set_tx ptr {{ st with FirstSeen := now }};
         u_metric (FirstSeenLatency (ProviderSource st) (p_name p) latency)
       else mret tt);
  st ← u_tx ptr;
  match SeenBy st !! p_name p with
  | Some _ => mret tt
  | None =>
      now ← u_world heart_Now;
      _ ← u_set_tx ptr {{ st with SeenBy := <[p_name p := now]> (SeenBy st) }};
      u_metric (ProviderToProviderLatency (ProviderSource st) (p_name p) latency)
  end.

(** Under the lock of the pool. *)
Definition forget (ptr : nat) : U unit :=
  st ← u_tx ptr;
  u_pool (λ pool,
    if Z.of_nat (size (SeenBy st)) =? Expected pool
    then {{ pool with Transactions := delete (Hash st) (Transactions pool) }} else pool).

Definition Heartbeat (p : Provider) : U unit :=
  expected ← begin_heartbeat p;
  match expected with
  | [] => mret tt
  | _ =>
      dialled ← u_world (heart_Dial (p_URL (p_config p)));
      m_for (λ ptr,
        seen ← look p dialled ptr;
        if (seen : bool) then _ ← mark p ptr; forget ptr else mret tt) expected
  end.

(** roundtrip.go: the transaction that was sent is added to the pool, under its lock. *)
Definition add_transaction (source hash : string) (sentAt : Z) (pool : NetworkTransactionPool) : NetworkTransactionPool :=
  mk_pool (<[allocated pool := mk_tx hash sentAt source 0 ∅]> (store pool)) (S (allocated pool))
    (<[hash := allocated pool]> (Transactions pool)) (Expected pool) sentAt.

(** ** The heartbeats of a network side by side *)

Inductive activity :=
| Idle
| Checking (l : list nat)
| Looked (ptr : nat) (l : list nat)
| Marked (ptr : nat) (l : list nat).
Record system := mk_system { shared : ufm W; heartbeats : gmap string activity }.

Definition pointers (a : activity) : list nat :=
  match a with Idle => [] | Checking l => l | Looked x l | Marked x l => x :: l end.

Section interleaving.
Context (ps : gmap string Provider).

(** A heartbeat goes on to its next critical section; a transaction is sent; the world moves on. *)
Inductive hb_step : system → system → Prop :=
| step_begin name p l s s' hs : ps !! name = Some p → hs !! name = Some Idle → begin_heartbeat p s = Ret (l, s') →
    hb_step (mk_system s hs) (mk_system s' (<[name := Checking l]> hs))
| step_end name s hs : hs !! name = Some (Checking []) → hb_step (mk_system s hs) (mk_system s (<[name := Idle]> hs))
| step_look name p x l seen s s' hs : ps !! name = Some p → hs !! name = Some (Checking (x :: l)) →
    look p true x s = Ret (seen, s') →
    hb_step (mk_system s hs) (mk_system s' (<[name := if seen : bool then Looked x l else Checking l]> hs))
| step_mark name p x l s s' hs : ps !! name = Some p → hs !! name = Some (Looked x l) →
    mark p x s = Ret (tt, s') → hb_step (mk_system s hs) (mk_system s' (<[name := Marked x l]> hs))
| step_forget name x l s s' hs : hs !! name = Some (Marked x l) →
    forget x s = Ret (tt, s') → hb_step (mk_system s hs) (mk_system s' (<[name := Checking l]> hs))
| step_send name p hash sentAt s hs : ps !! name = Some p → ReadOnly (p_config p) = false →
    hb_step (mk_system s hs)
      (mk_system (mk_ufm (add_transaction name hash sentAt (txPool s)) (metrics s) (uw s)) hs)
| step_world w s hs : hb_step (mk_system s hs) (mk_system (mk_ufm (txPool s) (metrics s) w) hs).

(** ** What the pool knows *)

Definition others (st : TransactionState) : gset string := dom ps ∖ {[ProviderSource st]}.

(** A state of the store: its source is a provider, and it is seen first when it is seen. *)
Definition sighted (st : TransactionState) : Prop :=
  ProviderSource st ∈ dom ps ∧ dom (SeenBy st) ⊆ others st ∧ (FirstSeen st = 0 ↔ SeenBy st = ∅).

Record pool_ok (pool : NetworkTransactionPool) : Prop := mk_pool_ok {
  ok_store ptr st : store pool !! ptr = Some st → sighted st;
  ok_fresh ptr : (allocated pool ≤ ptr)%nat → store pool !! ptr = None;
  ok_pool h ptr : Transactions pool !! h = Some ptr → ∃ st, store pool !! ptr = Some st ∧ Hash st = h;
  ok_expected : Expected pool = Z.of_nat (size ps) - 1
}.

(** The pointers a heartbeat holds are of transactions of others. *)
Definition threads_ok (pool : NetworkTransactionPool) (hs : gmap string activity) : Prop :=
  ∀ name a, hs !! name = Some a →
    name ∈ dom ps ∧ ∀ x, x ∈ pointers a → ∃ st, store pool !! x = Some st ∧ ProviderSource st ≠ name.

(** A transaction of the pool that all others have seen is about to be forgotten. *)
Definition leaving (pool : NetworkTransactionPool) (hs : gmap string activity) : Prop :=
  ∀ h ptr st, Transactions pool !! h = Some ptr → store pool !! ptr = Some st → dom (SeenBy st) = others st →
    ∃ name l, hs !! name = Some (Marked ptr l).

Record system_ok (sys : system) : Prop := mk_system_ok {
  sys_pool : pool_ok (txPool (shared sys));
  sys_threads : threads_ok (txPool (shared sys)) (heartbeats sys);
  sys_leaving : (2 ≤ size ps)%nat → leaving (txPool (shared sys)) (heartbeats sys)
}.

Lemma sighted_full st : sighted st →
  dom (SeenBy st) = others st ↔ Z.of_nat (size (SeenBy st)) = Z.of_nat (size ps) - 1.
Proof.
  intros (Hsrc & Hsub & _). rewrite <- size_dom. unfold others in *.
  assert (size (dom ps ∖ {[ProviderSource st]}) + 1 = size ps)%nat as Ho.
  { rewrite <- (size_dom (D:=gset string) ps), size_difference by set_solver. rewrite size_singleton.
    assert (size (dom ps) ≠ 0)%nat; [|lia]. intros Hz%size_empty_inv. set_solver. }
  split.
  - intros ->. lia.
  - intros Hz. apply leibniz_equiv. apply set_subseteq_size_equiv; [done|lia].
Qed.

(** ** The sections of a heartbeat *)

Lemma u_world_run {A} (f : W → A * W) s a s' : u_world f s = Ret (a, s') →
  txPool s' = txPool s ∧ a = (f (uw s)).1.
Proof. unfold u_world. destruct (f (uw s)) as [b w]. by intros [= <- <-]. Qed.
Lemma u_metric_run m s u s' : u_metric m s = Ret (u, s') → txPool s' = txPool s.
Proof. by intros [= <- <-]. Qed.
Lemma u_tx_run ptr s st s' : u_tx ptr s = Ret (st, s') → s' = s ∧ store (txPool s) !! ptr = Some st.
Proof. unfold u_tx. destruct (store _ !! ptr); [|done]. by intros [= <- <-]. Qed.

Lemma begin_run p s l s' : begin_heartbeat p s = Ret (l, s') → txPool s' = txPool s ∧
  ∀ x, x ∈ l → ∃ st, store (txPool s) !! x = Some st ∧ ProviderSource st ≠ p_name p.
Proof.
  intros E. unfold begin_heartbeat in E. run_step E pool s1 E1. injection E1 as <- <-.
  run_step E u s1 E1. apply u_metric_run in E1. run_step E k s2 E2. apply u_world_run in E2 as [E2 _].
  injection E as <- <-. split; [congruence|]. intros x [Hx _]%list_elem_of_filter.
  destruct (store (txPool s) !! x) as [st|] eqn:Hst; [|done]. exists st. split; [done|]. injection Hx as Hx.
  unfold expects in Hx. apply andb_prop in Hx as [Hx _]. by apply negb_true_iff, String.eqb_neq in Hx.
Qed.

Lemma look_run p b x s seen s' : look p b x s = Ret (seen, s') → txPool s' = txPool s.
Proof.
  intros E. unfold look in E. run_step E st s1 E1. apply u_tx_run in E1 as [-> _].
  destruct b; cbn [negb] in E; [|done]. run_step E err s1 E1. apply u_world_run in E1 as [E1 _].
  destruct err as [[]|]; by injection E as <- <-.
Qed.

(** The store after a transaction was marked as seen. *)
Definition marked_by (name : string) (st st' : TransactionState) : Prop :=
  Hash st' = Hash st ∧ ProviderSource st' = ProviderSource st ∧ SentAt st' = SentAt st ∧
  dom (SeenBy st') = dom (SeenBy st) ∪ {[name]} ∧ (FirstSeen st ≠ 0 → FirstSeen st' = FirstSeen st) ∧ FirstSeen st' ≠ 0.

Context `{!HeartSpec W}.

Lemma mark_run p x s u s' : mark p x s = Ret (u, s') → ∃ st st', store (txPool s) !! x = Some st ∧
  txPool s' = {{ txPool s with store := <[x := st']> (store (txPool s)) }} ∧ marked_by (p_name p) st st'.
Proof.
  intros E. unfold mark in E. run_step E st s1 E1. apply u_tx_run in E1 as [-> Hst].
  run_step E now s1 E1. apply u_world_run in E1 as [E1 _]. cbv zeta in E. run_step E v s2 E2.
  assert (∃ st1, txPool s2 = {{ txPool s with store := <[x := st1]> (store (txPool s)) }} ∧ Hash st1 = Hash st ∧
    ProviderSource st1 = ProviderSource st ∧ SentAt st1 = SentAt st ∧ SeenBy st1 = SeenBy st ∧
    (FirstSeen st ≠ 0 → FirstSeen st1 = FirstSeen st) ∧ FirstSeen st1 ≠ 0) as (st1 & Hp & Hh & Hs & Hat & Hseen & Hf & Hf0).
  { destruct (Z.eqb_spec (FirstSeen st) 0) as [Hz|Hz].
    - run_step E2 t s3 E3. apply u_world_run in E3 as [E3 ->]. run_step E2 v' s4 E4. injection E4 as <- <-.
      apply u_metric_run in E2. exists {{ st with FirstSeen := (heart_Now (uw s1)).1 }}. cbn.
      rewrite E2. cbn. rewrite E3, E1. pose proof (heart_now_pos (uw s1)). split_and!; try done; lia.
    - injection E2 as <- <-. exists st. rewrite E1, (insert_id _ _ _ Hst). split_and!; [by destruct (txPool s)|done..]. }
  clear E2. run_step E st2 s3 E3. apply u_tx_run in E3 as [-> Hst2]. rewrite Hp in Hst2. cbn in Hst2.
  rewrite lookup_insert_eq in Hst2. injection Hst2 as <-. exists st. unfold marked_by.
  destruct (SeenBy st1 !! p_name p) as [t|] eqn:Hp1.
  - injection E as <- <-. exists st1. split_and!; try done. rewrite Hseen in *.
    apply elem_of_dom_2 in Hp1. set_solver.
  - run_step E t s3 E3. apply u_world_run in E3 as [E3 ->]. run_step E v' s4 E4. injection E4 as <- <-.
    apply u_metric_run in E. exists {{ st1 with SeenBy := <[p_name p := (heart_Now (uw s2)).1]> (SeenBy st1) }}.
    split_and!; [done| |done|done|done| |done|done].
    + rewrite E. cbn. rewrite E3, Hp. cbn. by rewrite insert_insert_eq.
    + cbn. rewrite dom_insert_L, Hseen. set_solver.
Qed.

Lemma forget_run x s u s' : forget x s = Ret (u, s') → ∃ st, store (txPool s) !! x = Some st ∧
  txPool s' = if Z.of_nat (size (SeenBy st)) =? Expected (txPool s)
    then {{ txPool s with Transactions := delete (Hash st) (Transactions (txPool s)) }} else txPool s.
Proof.
  intros E. unfold forget in E. run_step E st s1 E1. apply u_tx_run in E1 as [-> Hst].
  injection E as <- <-. by exists st.
Qed.

(** ** Every step keeps the system sound *)

(** A store that grew, or in which a state was marked. *)
Definition evolves (pool pool' : NetworkTransactionPool) : Prop :=
  ∀ x st, store pool !! x = Some st → ∃ st', store pool' !! x = Some st' ∧ ProviderSource st' = ProviderSource st.

Lemma threads_step pool pool' hs name a : threads_ok pool hs → evolves pool pool' → name ∈ dom ps →
  (∀ x, x ∈ pointers a → ∃ st, store pool !! x = Some st ∧ ProviderSource st ≠ name) →
  threads_ok pool' (<[name := a]> hs).
Proof.
  intros Ht He Hname Ha n b Hb. apply lookup_insert_Some in Hb as [[<- <-]|[Hne Hb]].
  - split; [done|]. intros x (st & Hst & Hsrc)%Ha. destruct (He _ _ Hst) as (st' & Hst' & Heq).
    exists st'. by rewrite Heq.
  - destruct (Ht _ _ Hb) as [Hn Hx]. split; [done|]. intros x (st & Hst & Hsrc)%Hx.
    destruct (He _ _ Hst) as (st' & Hst' & Heq). exists st'. by rewrite Heq.
Qed.

Lemma evolves_refl pool : evolves pool pool.
Proof. intros x st Hst. by exists st. Qed.

(** A heartbeat goes on without the pool: nothing it had marked is left behind. *)
Lemma thread_only pool hs name a b : threads_ok pool hs → name ∈ dom ps → hs !! name = Some a →
  (∀ x, x ∈ pointers b → ∃ st, store pool !! x = Some st ∧ ProviderSource st ≠ name) →
  threads_ok pool (<[name := b]> hs).
Proof. intros Ht Hn Ha Hb. by eapply threads_step; [done|apply evolves_refl|..]. Qed.

Lemma leaving_other pool hs name a b : leaving pool hs → hs !! name = Some a → (∀ x l, a ≠ Marked x l) →
  leaving pool (<[name := b]> hs).
Proof.
  intros Hl Ha Hne h ptr st Hh Hst Hfull. destruct (Hl h ptr st Hh Hst Hfull) as (n & l & Hn).
  exists n, l. rewrite lookup_insert_ne; [done|]. intros ->. rewrite Ha in Hn. injection Hn as ->. by eapply Hne.
Qed.

Lemma mark_pool_ok pool x st st' name : pool_ok pool → store pool !! x = Some st → marked_by name st st' →
  name ∈ others st → pool_ok {{ pool with store := <[x := st']> (store pool) }}.
Proof.
  intros [Hs Hf Hp He] Hst (Hh & Hsrc & _ & Hdom & _ & Hf0) Hname. split; cbn.
  - intros ptr st1 [[<- <-]|[_ Hl]]%lookup_insert_Some; [|by eapply Hs].
    destruct (Hs _ _ Hst) as (H1 & H2 & _). unfold sighted, others in *. rewrite Hsrc. split_and!; [done|set_solver|].
    split; [done|]. intros Hempty. rewrite Hempty, dom_empty_L in Hdom. set_solver.
  - intros ptr Hle. rewrite lookup_insert_ne; [by apply Hf|]. intros ->. rewrite (Hf _ Hle) in Hst. done.
  - intros h ptr Hl. destruct (Hp _ _ Hl) as (st1 & Hst1 & Hh1). destruct (decide (x = ptr)) as [->|Hne].
    + exists st'. rewrite lookup_insert_eq. split; [done|]. simplify_eq. congruence.
    + exists st1. by rewrite lookup_insert_ne.
  - done.
Qed.

Lemma mark_evolves pool x st st' name : store pool !! x = Some st → marked_by name st st' →
  evolves pool {{ pool with store := <[x := st']> (store pool) }}.
Proof.
  intros Hst (_ & Hsrc & _) y sty Hy. cbn. destruct (decide (x = y)) as [->|Hne].
  - exists st'. rewrite lookup_insert_eq. simplify_eq. by rewrite Hsrc.
  - exists sty. by rewrite lookup_insert_ne.
Qed.

Lemma mark_leaving pool hs x l st st' name : leaving pool hs → store pool !! x = Some st → hs !! name = Some (Looked x l) →
  marked_by name st st' →
  leaving {{ pool with store := <[x := st']> (store pool) }} (<[name := Marked x l]> hs).
Proof.
  intros Hl Hst Hn Hm h ptr st1 Hh Hst1 Hfull. cbn in *. apply lookup_insert_Some in Hst1 as [[<- <-]|[Hne Hst1]].
  - exists name, l. by rewrite lookup_insert_eq.
  - destruct (Hl h ptr st1 Hh Hst1 Hfull) as (n & k & Hk). exists n, k. rewrite lookup_insert_ne; [done|].
    intros ->. rewrite Hn in Hk. done.
Qed.

Lemma forget_pool_ok pool h : pool_ok pool → pool_ok {{ pool with Transactions := delete h (Transactions pool) }}.
Proof. intros [Hs Hf Hp He]. split; cbn; [done|done| |done]. intros k ptr [_ Hl]%lookup_delete_Some. by apply Hp. Qed.

(** Once the heartbeat has looked whether all have seen the transaction, no other one of
    the pool needs it. *)
Lemma forget_leaving pool hs x l st name : pool_ok pool → leaving pool hs →
  store pool !! x = Some st → hs !! name = Some (Marked x l) →
  leaving (if Z.of_nat (size (SeenBy st)) =? Expected pool
    then {{ pool with Transactions := delete (Hash st) (Transactions pool) }} else pool) (<[name := Checking l]> hs).
Proof.
  intros Hok Hl Hst Hn h ptr st1 Hh Hst1 Hfull.
  assert (Transactions pool !! h = Some ptr ∧ store pool !! ptr = Some st1 ∧ ptr ≠ x) as (Hh' & Hst1' & Hne).
  { destruct (Z.eqb_spec (Z.of_nat (size (SeenBy st))) (Expected pool)) as [Hz|Hz]; cbn in *.
    - apply lookup_delete_Some in Hh as [Hne Hh]. split_and!; [done|done|]. intros ->.
      destruct (ok_pool _ Hok _ _ Hh) as (st2 & Hst2 & Hhash). simplify_eq.
    - split_and!; [done|done|]. intros ->. simplify_eq. apply Hz. rewrite (ok_expected _ Hok).
      by apply sighted_full; [eapply ok_store|]. }
  destruct (Hl h ptr st1 Hh' Hst1' Hfull) as (n & k & Hk). exists n, k. rewrite lookup_insert_ne; [done|].
  intros ->. rewrite Hn in Hk. congruence.
Qed.

Lemma send_pool_ok pool name hash t : pool_ok pool → name ∈ dom ps → pool_ok (add_transaction name hash t pool).
Proof.
  intros [Hs Hf Hp He] Hname. split; cbn.
  - intros ptr st [[<- <-]|[_ Hl]]%lookup_insert_Some; [|by eapply Hs]. unfold sighted, others. cbn. split_and!; [done|set_solver|done].
  - intros ptr Hle. rewrite lookup_insert_ne by lia. apply Hf. lia.
  - intros h ptr [[<- <-]|[_ Hl]]%lookup_insert_Some; [rewrite lookup_insert_eq; eauto|].
    destruct (Hp _ _ Hl) as (st & Hst & Hh). exists st. rewrite lookup_insert_ne; [done|]. intros <-. by rewrite Hf in Hst.
  - done.
Qed.

Lemma send_evolves pool name hash t : pool_ok pool → evolves pool (add_transaction name hash t pool).
Proof. intros Hok x st Hst. exists st. cbn. rewrite lookup_insert_ne; [done|]. intros <-. by rewrite (ok_fresh _ Hok) in Hst. Qed.

Lemma send_leaving pool hs name hash t : (2 ≤ size ps)%nat → name ∈ dom ps → pool_ok pool → leaving pool hs →
  leaving (add_transaction name hash t pool) hs.
Proof.
  intros Hsize Hname Hok Hl h ptr st Hh Hst Hfull. cbn in *. apply lookup_insert_Some in Hst as [[<- <-]|[Hne Hst]].
  - apply (sighted_full (mk_tx hash t name 0 ∅)) in Hfull; [|by split_and!; cbn; [|set_solver|]].
    cbn in Hfull. rewrite map_size_empty in Hfull. lia.
  - apply lookup_insert_Some in Hh as [[_ ?]|[_ Hh]]; [done|]. by apply (Hl h ptr st).
Qed.

Hypothesis names : ∀ name p, ps !! name = Some p → p_name p = name.

Lemma hb_step_ok sys sys' : hb_step sys sys' → system_ok sys → system_ok sys'.
Proof.
  intros Hstep [Hp Ht Hl]. destruct Hstep as
    [name p l s s' hs Hname Hh E|name s hs Hh|name p x l seen s s' hs Hname Hh E|name p x l s s' hs Hname Hh E
    |name x l s s' hs Hh E|name p hash t s hs Hname _|w s hs]; cbn in *.
  - apply begin_run in E as [Hpool Hx]. rewrite (names _ _ Hname) in Hx. split; cbn; rewrite Hpool; [done| |].
    + eapply thread_only; [done|by eapply elem_of_dom_2|done|done].
    + intros Hsize. by eapply leaving_other; [auto|..].
  - destruct (Ht _ _ Hh) as [Hn _]. split; cbn; [done| |].
    + by eapply thread_only; [..|set_solver].
    + intros Hsize. by eapply leaving_other; [auto|..].
  - apply look_run in E. destruct (Ht _ _ Hh) as [Hn Hx]. cbn in Hx. split; cbn; rewrite E; [done| |].
    + eapply thread_only; [done..|]. intros y Hy. apply Hx. destruct seen; cbn in Hy; set_solver.
    + intros Hsize. by eapply leaving_other; [auto|..].
  - apply mark_run in E as (st & st' & Hst & Hpool & Hm). rewrite (names _ _ Hname) in Hm.
    destruct (Ht _ _ Hh) as [Hn Hx]. cbn in Hx.
    assert (ProviderSource st ≠ name) as Hsrc. { destruct (Hx x) as (st1 & ? & ?); [by left|]. by simplify_eq. }
    split; cbn; rewrite Hpool.
    + eapply mark_pool_ok; [done..|]. unfold others. set_solver.
    + eapply threads_step; [done|by eapply mark_evolves|done|done].
    + intros Hsize. by eapply mark_leaving; [auto|..].
  - apply forget_run in E as (st & Hst & Hpool). destruct (Ht _ _ Hh) as [Hn Hx]. cbn in Hx. split; cbn.
    + rewrite Hpool. destruct (_ =? _); [by apply forget_pool_ok|done].
    + rewrite Hpool. eapply threads_step; [done| |done|intros y Hy; apply Hx; by right]. destruct (_ =? _); intros y sty Hy; by exists sty.
    + intros Hsize. rewrite Hpool. by eapply forget_leaving; [done|auto|..].
  - pose proof (elem_of_dom_2 _ _ _ Hname) as Hn. split; cbn.
    + by apply send_pool_ok.
    + intros n a Ha. destruct (Ht _ _ Ha) as [Hdom Hx]. split; [done|]. intros x (st & Hst & Hsrc)%Hx.
      destruct (send_evolves (txPool s) name hash t Hp _ _ Hst) as (st' & Hst' & Heq). exists st'. by rewrite Heq.
    + intros Hsize. by apply send_leaving; auto.
  - by split.
Qed.

(** ** A whole heartbeat is a run of its sections *)

Lemma step_set (hs : gmap string activity) (name : string) (a b : activity) : <[name := b]> (<[name := a]> hs) = <[name := b]> hs.
Proof. apply insert_insert_eq. Qed.

Lemma checking_steps name p l s u s' hs : ps !! name = Some p → hs !! name = Some (Checking l) →
  m_for (λ ptr, seen ← look p true ptr; if (seen : bool) then _ ← mark p ptr; forget ptr else mret tt) l s = Ret (u, s') →
  rtc hb_step (mk_system s hs) (mk_system s' (<[name := Checking []]> hs)).
Proof.
  intros Hname. revert s hs. induction l as [|x l IH]; intros s hs Hh E; cbn in E.
  { injection E as <- <-. by rewrite insert_id. }
  run_step E v s1 E1. run_step E1 seen s2 E2.
  assert (∀ sys, rtc hb_step sys (mk_system s1 (<[name := Checking l]> hs)) →
    rtc hb_step sys (mk_system s' (<[name := Checking []]> hs))) as Hrest.
  { intros sys Hsys. etransitivity; [exact Hsys|].
    rewrite <- (step_set hs name (Checking l) (Checking [])). apply IH; [by rewrite lookup_insert_eq|done]. }
  apply Hrest. eapply rtc_l; [by eapply step_look|]. destruct seen.
  - run_step E1 w s3 E3. destruct w, v.
    eapply rtc_l; [eapply step_mark; [done|by rewrite lookup_insert_eq|done]|]. rewrite step_set.
    eapply rtc_l; [eapply step_forget; [by rewrite lookup_insert_eq|done]|]. by rewrite step_set.
  - by injection E1 as <- <-.
Qed.

Lemma Heartbeat_steps name p s u s' hs : ps !! name = Some p → hs !! name = Some Idle → Heartbeat p s = Ret (u, s') →
  rtc hb_step (mk_system s hs) (mk_system s' hs).
Proof.
  intros Hname Hh E. unfold Heartbeat in E. run_step E l s1 E1.
  eapply rtc_l; [by eapply step_begin|]. set (hs1 := <[name := Checking l]> hs).
  assert (∀ s2, rtc hb_step (mk_system s1 hs1) (mk_system s2 (<[name := Checking []]> hs1)) →
    rtc hb_step (mk_system s1 hs1) (mk_system s2 hs)) as Hend.
  { intros s2 Hs2. eapply rtc_r; [exact Hs2|]. unfold hs1. rewrite step_set.
    rewrite <- (insert_id hs name Idle Hh) at 2. rewrite <- (step_set hs name (Checking []) Idle).
    apply step_end. by rewrite lookup_insert_eq. }
  apply Hend. destruct l as [|x l].
  - injection E as <- <-. unfold hs1. by rewrite step_set.
  - run_step E b s2 E2. unfold u_world in E2. destruct (heart_Dial _ (uw s1)) as [b' w]. injection E2 as <- <-.
    eapply rtc_l; [by apply (step_world w)|]. destruct b'.
    + by eapply checking_steps; [done|unfold hs1; by rewrite lookup_insert_eq|].
    + exfalso. cbn in E. unfold look in E. run_step E v s3 E3. run_step E3 seen s4 E4. run_step E4 st s5 E5. done.
Qed.
End interleaving.

(** ** The pools of a service *)

Context `{!OrderSpec W, !HeartSpec W}.

Lemma networks_of_snoc l name pc : networks_of (l ++ [(name, pc)]) =
  <[Network pc := (default [] (networks_of l !! Network pc) ++ [name])%list]> (networks_of l).
Proof. unfold networks_of. by rewrite foldl_app. Qed.

Lemma networks_of_lookup l nw : default [] (networks_of l !! nw) = (filter (λ x, Network x.2 = nw) l).*1.
Proof.
  induction l as [|[name pc] l IH] using rev_ind; [done|]. rewrite networks_of_snoc, filter_app, fmap_app, filter_cons, filter_nil.
  cbn. destruct (decide (Network pc = nw)) as [<-|Hne].
  - rewrite lookup_insert_eq. cbn. by rewrite IH.
  - rewrite lookup_insert_ne by done. cbn. by rewrite IH, app_nil_r.
Qed.

(** The providers of a network. *)
Definition members_of (nw : string) (providers : gmap string Provider) : gmap string Provider :=
  filter (λ x, Network (p_config x.2) = nw) providers.

Lemma check_all_None {A} (check : string → A → option string) l : check_all check l = None →
  ∀ name a, (name, a) ∈ l → check name a = None.
Proof.
  induction l as [|[n b] l IH]; cbn; [set_solver|]. destruct (check n b) eqn:Hc; [done|].
  intros Hl name a [[= -> ->]|Hin]%elem_of_cons; [done|by apply IH].
Qed.

Lemma Validate_wallets c (w w' : W) c' : Validate c w = Ret (inr c', w') →
  ∀ name pc, Providers c' !! name = Some pc → is_Some (Wallets c' !! p_Wallet pc).
Proof.
  unfold Validate. destruct (first_error _); [done|]. destruct (permute _ w) as [l1 w1]. destruct (check_all _ l1); [done|].
  pose proof (permute_perm (map_to_list (Providers c)) w1) as Hp. destruct (permute (map_to_list (Providers c)) w1) as [l2 w2].
  destruct (check_all (check_provider c) l2) eqn:Hc; [done|]. intros [= <- <-] name pc Hpc.
  assert (Providers c !! name = Some pc ∧ is_Some (Wallets c !! p_Wallet pc)) as [_ Hw]; [|by destruct (String.eqb _ _)].
  assert (Providers c !! name = Some pc) as Hpc' by by destruct (String.eqb _ _). split; [done|].
  assert (check_provider c name pc = None) as Hck.
  { apply (check_all_None _ _ Hc). rewrite Hp. by apply elem_of_map_to_list. }
  apply first_error_None in Hck. rewrite !Forall_cons in Hck. destruct Hck as (_ & _ & _ & _ & _ & _ & _ & _ & _ & Hw & _).
  cbn in Hw. apply bool_decide_eq_false in Hw. by destruct (Wallets c !! p_Wallet pc).
Qed.

Lemma NoDup_fst_filter {A} (P : string * A → Prop) `{∀ x, Decision (P x)} (l : list (string * A)) :
  NoDup l.*1 → NoDup (filter P l).*1.
Proof.
  induction l as [|x l IH]; intros Hd; [done|]. apply NoDup_cons in Hd as [Hx Hd]. rewrite filter_cons.
  destruct (decide (P x)); [|by apply IH]. rewrite fmap_cons. apply NoDup_cons. split; [|by apply IH].
  intros (y & Hy & [_ Hin]%list_elem_of_filter)%list_elem_of_fmap. apply Hx. rewrite Hy. apply list_elem_of_fmap. by exists y.
Qed.

(** The pool of a network expects every provider of the network but the source. *)
Lemma start_service_spec c (w w' : W) pools providers : start_service c w = Ret ((pools, providers), w') →
  (∀ name pc, Providers c !! name = Some pc → is_Some (Wallets c !! p_Wallet pc)) →
  (∀ name p, providers !! name = Some p → p_name p = name) ∧
  ∀ nw pool, pools !! nw = Some pool →
    pool = mk_pool ∅ 0 ∅ (Z.of_nat (size (members_of nw providers)) - 1) 0.
Proof.
  unfold start_service. pose proof (permute_perm (map_to_list (Providers c)) w) as Hp.
  destruct (permute (map_to_list (Providers c)) w) as [l w1]. intros [= <- <- <-] Hw. cbn in Hp.
  set (ps := map_imap _ _). assert (∀ name p, ps !! name = Some p ↔ ∃ pc wallet, Providers c !! name = Some pc ∧
    Wallets c !! p_Wallet pc = Some wallet ∧ p = mk_provider name pc (Signer c) wallet) as Hps.
  { intros name p. unfold ps. rewrite map_lookup_imap. destruct (Providers c !! name) as [pc|] eqn:Hpc; [|naive_solver].
    cbn. destruct (Hw _ _ Hpc) as [wallet Hwl]. rewrite Hwl. naive_solver. }
  split; [intros name p (pc & wallet & _ & _ & ->)%Hps; done|].
  intros nw pool Hpool. rewrite lookup_fmap in Hpool. pose proof (networks_of_lookup l nw) as Hl.
  destruct (networks_of l !! nw) as [names|]; [|done]. injection Hpool as <-. cbn in Hl. unfold network_pool. do 3 f_equal.
  rewrite <- size_dom, Hl. rewrite <- (size_list_to_set (C:=gset string)).
  2:{ apply NoDup_fst_filter. rewrite Hp. apply NoDup_fst_map_to_list. }
  f_equal. apply set_eq. intros name. rewrite elem_of_list_to_set, elem_of_dom, list_elem_of_fmap. unfold members_of. split.
  - intros ([n pc] & -> & [Hnw Hin]%list_elem_of_filter). cbn in *. rewrite Hp in Hin. apply elem_of_map_to_list in Hin.
    destruct (Hw _ _ Hin) as [wallet Hwl]. exists (mk_provider n pc (Signer c) wallet).
    apply map_lookup_filter_Some. split; [apply Hps; eauto|done].
  - intros [p [Hpl Hnw]%map_lookup_filter_Some]. apply Hps in Hpl as (pc & wallet & Hpc & _ & ->). cbn in Hnw.
    exists (name, pc). split; [done|]. apply list_elem_of_filter. split; [done|]. rewrite Hp. by apply elem_of_map_to_list.
Qed.

Lemma start_system_ok ps : (∀ name p, ps !! name = Some p → p_name p = name) → ∀ w : W,
  system_ok ps (mk_system (mk_ufm (mk_pool ∅ 0 ∅ (Z.of_nat (size ps) - 1) 0) [] w) ((λ _, Idle) <$> ps)).
Proof.
  intros Hn w. split; cbn; [split; cbn| |]; try done.
  - intros name a Ha. rewrite lookup_fmap in Ha. destruct (ps !! name) as [p|] eqn:Hp; [|done]. injection Ha as <-.
    split; [by eapply elem_of_dom_2|]. intros x Hx. by apply elem_of_nil in Hx.
Qed.

(** A transaction leaves the pool when one with its hash was seen by all the others. *)
Lemma hb_step_removes ps sys sys' h : hb_step ps sys sys' → system_ok ps sys →
  is_Some (Transactions (txPool (shared sys)) !! h) → Transactions (txPool (shared sys')) !! h = None →
  ∃ ptr st, store (txPool (shared sys)) !! ptr = Some st ∧ Hash st = h ∧ dom (SeenBy st) = others ps st.
Proof.
  intros Hstep [Hp Ht Hl] [ptr Hh] Hgone. destruct Hstep as
    [name p l s s' hs Hname _ E|name s hs _|name p x l seen s s' hs Hname _ E|name p x l s s' hs Hname _ E
    |name x l s s' hs _ E|name p hash t s hs Hname _|w s hs]; cbn in *; try by simplify_eq.
  - apply begin_run in E as [E _]. rewrite E in Hgone. by simplify_eq.
  - apply look_run in E. rewrite E in Hgone. by simplify_eq.
  - apply mark_run in E as (st & st' & _ & E & _). rewrite E in Hgone. cbn in Hgone. by simplify_eq.
  - apply forget_run in E as (st & Hst & Hpool). rewrite Hpool in Hgone.
    destruct (Z.eqb_spec (Z.of_nat (size (SeenBy st))) (Expected (txPool s))) as [Hz|Hz]; cbn in Hgone; [|by simplify_eq].
    exists x, st. apply lookup_delete_None in Hgone as [Hh'|Hnone]; [|by simplify_eq]. split_and!; [done|done|].
    apply sighted_full; [by eapply ok_store|]. by rewrite Hz, (ok_expected _ _ Hp).
  - apply lookup_insert_None in Hgone as [Hn _]. by simplify_eq.
Qed.


(** A transaction its provider does not know is marked as seen. *)
Lemma not_found_is_seen p ptr s st w' : store (txPool s) !! ptr = Some st →
  TransactionByHash (p_URL (p_config p)) (Hash st) (uw s) = (Some NotFound, w') →
  look p true ptr s = Ret (true, mk_ufm (txPool s) (metrics s) w').
Proof. intros Hst Hw. unfold look, u_tx, u_world, mbind, M_bind. rewrite Hst. cbn. by rewrite Hw. Qed.

(** A heartbeat with something to look for panics when it cannot dial. *)
Lemma failed_dial_panics p s ptr l s1 w' : begin_heartbeat p s = Ret (ptr :: l, s1) →
  heart_Dial (p_URL (p_config p)) (uw s1) = (false, w') → panics (Heartbeat p) s.
Proof.
  intros E Hd. eapply panics_run; [exact E|]. eapply panics_run; [unfold u_world; by rewrite Hd|].
  cbn. apply panics_bind. intros u s2 E2. exfalso. run_step E2 seen s3 E3. unfold look in E3. run_step E3 st s4 E4. done.
Qed.
End heartbeat.

(** ** A network of two providers *)

Module ufm_runs.
Definition wallet : WalletConfig := mk_wallet 10 "static" "0xa" "0xb" 1.
Definition provider (nw : string) : ProviderConfig := mk_provider_config nw "http://node" false 1 1 1 1 1 1 1 "w".
Definition config : Config :=
  mk_config "info" (mk_signer "" "" "" "") (mk_metrics false false "" "") (mk_healthz false "" "")
    {[ "w" := wallet ]} {[ "a" := provider "net"; "b" := provider "net"; "c" := provider "other" ]}.
#[local] Instance heart : Heart nat := {|
  heart_Now := λ w, (Z.of_nat w + 1, S w); heart_Dial := λ _ w, (true, w); TransactionByHash := λ _ _ w, (None, w)
|}.
#[local] Instance heart_spec : HeartSpec nat.
Proof. intros w. cbn. lia. Qed.
#[local] Instance as_is : Order nat := λ A l w, (l, w).
#[local] Instance as_is_spec : OrderSpec nat.
Proof. by intros A l w. Qed.

Definition ps : gmap string Provider :=
  {[ "a" := mk_provider "a" (provider "net") (mk_signer "" "" "" "") wallet;
     "b" := mk_provider "b" (provider "net") (mk_signer "" "" "" "") wallet ]}.
Definition pool : NetworkTransactionPool := mk_pool ∅ 0 ∅ 1 0.
Definition sent : ufm nat := mk_ufm (add_transaction "a" "0x1" 7 pool) [] O.

Definition pools : gmap string NetworkTransactionPool := network_pool <$> networks_of (map_to_list (Providers config)).
Definition providers : gmap string Provider := map_imap (λ name pc,
  (λ wallet, mk_provider name pc (Signer config) wallet) <$> Wallets config !! p_Wallet pc) (Providers config).

End ufm_runs.
