(* ===== verification/RoundTrip.v ===== *)
(** op-ufm/pkg/provider/roundtrip.go: a provider sends a transaction, over and over with
    the next nonce while the node refuses it as known, and waits for its receipt.

    The sends are recorded with their time and nonce. The loops have fuel; the theorems
    give the amount that is enough. *)
From stdpp Require Import base numbers list gmap strings.
From Stdlib Require Import Ascii.
From S2P Require Import Prelude.
From S2P Require Import Ufm.

Local Open Scope string_scope.
Local Open Scope Z_scope.
#[local] Arguments String.append : simpl nomatch.

(** types.DynamicFeeTx, without data. *)
Record DynamicFeeTx := mk_dynamic {
  d_ChainID : Z; d_Nonce : Z; d_GasFeeCap : Z; d_GasTipCap : Z; d_To : string; d_Value : Z; d_Gas : Z
}.

(** go-ethereum and the signer client, as a provider uses them. *)
Class Eth (Signed W : Type) := {
  rt_Sleep : Z → W → W;
  PendingNonceAt : string → string → W → (string + Z) * W;
  SuggestGasTipCap : string → W → (string + Z) * W;
  HeadBaseFee : string → W → (string + option Z) * W;
  EstimateGas : string → DynamicFeeTx → W → (string + Z) * W;
  SendTransaction : string → Signed → W → option string * W;
  TransactionReceipt : string → string → W → (lookup_error + Z) * W;
  HexToAddress : string → string;
  HexToECDSA : string → string + string;
  SignTx : DynamicFeeTx → Z → string → string + Signed;
  NewSignerClient : SignerServiceConfig → W → bool * W;
  RemoteSign : SignerServiceConfig → Z → string → DynamicFeeTx → W → (string + Signed) * W;
  signed_Hash : Signed → string;
  ErrAlreadyKnown : string;
  ErrReplaceUnderpriced : string;
  ErrNonceTooLow : string;
  NotFound_Error : string;
}.

(** metrics.go: RecordErrorDetails *)
Definition errClean (err : string) : string := error_label err.

Record sent_tx := mk_sent { sent_at : Z; sent_nonce : Z }.
Record rt (W : Type) := mk_rt { rt_ufm : ufm W; sends : list sent_tx }.
Arguments mk_rt {W} _ _.
Arguments rt_ufm {W} _.
Arguments sends {W} _.

Section roundtrip.
Context {W Signed : Type} `{Heart W, Eth Signed W}.

Notation R := (M (rt W)).

Definition in_ufm {A} (m : M (ufm W) A) : R A := λ s,
  match m (rt_ufm s) with Ret (a, u) => Ret (a, mk_rt u (sends s)) | Panic why => Panic why end.
Definition world {A} (f : W → A * W) : R A := in_ufm (u_world f).
Definition sleep (d : Z) : R unit := world (λ w, (tt, rt_Sleep d w)).
Definition pool_of (s : rt W) : NetworkTransactionPool := txPool (rt_ufm s).

(** The error is dereferenced. *)
Definition nil_error : string := "nil pointer dereference: err.Error()".
Definition RecordErrorDetails (provider label : string) (err : option string) : R unit :=
  match err with
  | None => m_panic nil_error
  | Some e => in_ufm (u_metric (ErrorDetails provider (label ++ "." ++ errClean e) e))
  end.

Definition createTx (p : Provider) (nonce : Z) : R (string + (string * DynamicFeeTx)) :=
  let url := p_URL (p_config p) in
  n ← (if nonce =? 0 then world (PendingNonceAt url (Address (walletConfig p))) else mret (inr nonce));
  match n with
  | inl err => mret (inl err)
  | inr nonce =>
      tip ← world (SuggestGasTipCap url);
      match tip with
      | inl err => mret (inl err)
      | inr gasTipCap =>
          let gasTipCap := gasTipCap * 110 `div` 100 in
          head ← world (HeadBaseFee url);
          match head with
          | inl err => mret (inl err)
          | inr None => m_panic "nil pointer dereference: baseFee"
          | inr (Some baseFee) =>
              let gasFeeCap := gasTipCap + baseFee * 2 in
              let addr := HexToAddress (Address (walletConfig p)) in
              let dynamicTx := mk_dynamic (ChainID (walletConfig p)) nonce gasFeeCap gasTipCap addr (TxValue (walletConfig p)) 0 in
              gas ← world (EstimateGas url dynamicTx);
              match gas with
              | inl err => mret (inl err)
              | inr gas => mret (inr (addr, mk_dynamic (ChainID (walletConfig p)) nonce gasFeeCap gasTipCap addr
                  (TxValue (walletConfig p)) gas))
              end
          end
      end
  end.

Definition sign (p : Provider) (from : string) (tx : DynamicFeeTx) : R (string + Signed) :=
  if String.eqb (SignerMethod (walletConfig p)) "static" then
    match HexToECDSA (PrivateKey (walletConfig p)) with
    | inl err => mret (inl err)
    | inr key => mret (SignTx tx (ChainID (walletConfig p)) key)
    end
  else if String.eqb (SignerMethod (walletConfig p)) "signer" then
    client ← world (NewSignerClient (signerConfig p));
    if negb client then mret (inl "could not initialize signer client")
    else world (RemoteSign (signerConfig p) (ChainID (walletConfig p)) from tx)
  else mret (inl "invalid signer method").

(** Waits until the network is clear to send; false when the fuel is used up. *)
Fixpoint cool_down (fuel : nat) (p : Provider) : R bool :=
  match fuel with
  | O => mret false
  | S fuel =>
      now ← world heart_Now;
      lastSend ← m_gets (λ s, LastSend (pool_of s));
      let coolDown := SendTransactionCoolDown (p_config p) - (now - lastSend) in
      if 0 <? coolDown then _ ← sleep coolDown; cool_down fuel p else mret true
  end.

Definition retryable (err : string) : bool :=
  String.eqb err ErrAlreadyKnown || String.eqb err ErrReplaceUnderpriced || String.eqb err ErrNonceTooLow.

(** How the loop that sends ends: with a transaction, when it was started and its
    nonce, or without one. *)
Inductive send_result := Sent (hash : string) (startedAt nonce : Z) | NotSent | SendOutOfFuel.

Fixpoint send_loop (fuel : nat) (p : Provider) (firstAttemptAt nonce : Z) : R send_result :=
  match fuel with
  | O => mret SendOutOfFuel
  | S fuel =>
      clear ← cool_down 2 p;
      if negb clear then mret SendOutOfFuel else
      created ← createTx p nonce;
      match created with
      | inl _ => mret NotSent
      | inr (from, tx) =>
          let nonce := d_Nonce tx in
          signed ← sign p from tx;
          match signed with
          | inl _ => mret NotSent
          | inr signedTx =>
              roundTripStartedAt ← world heart_Now;
              _ ← m_modify (λ s, mk_rt (rt_ufm s) (sends s ++ [mk_sent roundTripStartedAt nonce])%list);
              err ← world (SendTransaction (p_URL (p_config p)) signedTx);
              match err with
              | None => mret (Sent (signed_Hash signedTx) roundTripStartedAt nonce)
              | Some e =>
                  if retryable e then
                    now ← world heart_Now;
                    if SendTransactionRetryTimeout (p_config p) <=? now - firstAttemptAt then
                      _ ← RecordErrorDetails (p_name p) "send.timeout" (Some e); mret NotSent
                    else
                      _ ← sleep (SendTransactionRetryInterval (p_config p));
                      send_loop fuel p firstAttemptAt (u64 (nonce + 1))
                  else _ ← RecordErrorDetails (p_name p) "ethclient.SendTransaction" (Some e); mret NotSent
              end
          end
      end
  end.

(** The gas used when there is a receipt; [err] is what the last request for it returned. *)
Inductive receipt_result := Receipt (gasUsed : Z) | NoReceipt | ReceiptOutOfFuel.

Fixpoint receipt_loop (fuel : nat) (p : Provider) (txHash : string) (sentAt : Z) (err : option string) : R receipt_result :=
  match fuel with
  | O => mret ReceiptOutOfFuel
  | S fuel =>
      now ← world heart_Now;
      if ReceiptRetrievalTimeout (p_config p) <=? now - sentAt then
        _ ← RecordErrorDetails (p_name p) "receipt.timeout" err; mret NoReceipt
      else
        _ ← sleep (ReceiptRetrievalInterval (p_config p));
        receipt ← world (TransactionReceipt (p_URL (p_config p)) txHash);
        match receipt with
        | inr gasUsed => mret (Receipt gasUsed)
        | inl NotFound => receipt_loop fuel p txHash sentAt (Some NotFound_Error)
        | inl (OtherLookupError _) => mret NoReceipt
        end
  end.

(** The lock for sending is held throughout. False when the fuel is used up. *)
Definition RoundTrip (fuel : nat) (p : Provider) : R bool :=
  dialled ← world (heart_Dial (p_URL (p_config p)));
  if negb dialled then mret true else
  firstAttemptAt ← world heart_Now;
  r ← send_loop fuel p firstAttemptAt 0;
  match r with
  | SendOutOfFuel => mret false
  | NotSent => mret true
  | Sent txHash roundTripStartedAt nonce =>
      sentAt ← world heart_Now;
      _ ← in_ufm (u_pool (add_transaction (p_name p) txHash sentAt));
      r ← receipt_loop fuel p txHash sentAt None;
      match r with
      | ReceiptOutOfFuel => mret false
      | NoReceipt => mret true
      | Receipt gasUsed =>
          now ← world heart_Now;
          _ ← in_ufm (u_metric (RoundTripLatency (p_name p) (now - roundTripStartedAt)));
          _ ← in_ufm (u_metric (GasUsed (p_name p) gasUsed));
          mret true
      end
  end.
End roundtrip.

(** The clock goes forward: a reading lies between the times around it, sleeping takes at
    least its duration, and no call takes time back. *)
Class RoundTripClock (Signed W : Type) `{Heart W, Eth Signed W} (time : W → Z) : Prop := {
  clock_now w : time w ≤ (heart_Now w).1 ≤ time (heart_Now w).2;
  clock_sleep d w : time w ≤ time (rt_Sleep d w) ∧ time w + d ≤ time (rt_Sleep d w);
  clock_dial url w : time w ≤ time (heart_Dial url w).2;
  clock_nonce url a w : time w ≤ time (PendingNonceAt url a w).2;
  clock_tip url w : time w ≤ time (SuggestGasTipCap url w).2;
  clock_head url w : time w ≤ time (HeadBaseFee url w).2;
  clock_gas url tx w : time w ≤ time (EstimateGas url tx w).2;
  clock_send url tx w : time w ≤ time (SendTransaction url tx w).2;
  clock_receipt url h w : time w ≤ time (TransactionReceipt url h w).2;
  clock_client c w : time w ≤ time (NewSignerClient c w).2;
  clock_sign c chain from tx w : time w ≤ time (RemoteSign c chain from tx w).2
}.

Section clocked.
Context {W Signed : Type} `{Heart W, Eth Signed W} {time : W → Z} `{!RoundTripClock Signed W time}.
(** The blocks of the chain have a base fee. *)
Context (london : ∀ url (w : W), (HeadBaseFee url w).1 ≠ inr None).

Notation R := (M (rt W)).
Notation wpn := (wp (λ why, why = nil_error)).
Definition now_of (s : rt W) : Z := time (uw (rt_ufm s)).

(** A step that neither sends nor touches the pool. *)
Definition calm (s s' : rt W) : Prop := pool_of s' = pool_of s ∧ sends s' = sends s ∧ now_of s ≤ now_of s'.

Lemma calm_refl s : calm s s.
Proof. by split_and!. Qed.
Lemma calm_trans s1 s2 s3 : calm s1 s2 → calm s2 s3 → calm s1 s3.
Proof. intros (? & ? & ?) (? & ? & ?). split_and!; [congruence|congruence|lia]. Qed.

Lemma world_wp {A} (f : W → A * W) s Q : (∀ w, time w ≤ time (f w).2) →
  (∀ s', calm s s' → now_of s' = time (f (uw (rt_ufm s))).2 → Q (f (uw (rt_ufm s))).1 s') → wpn (world f) s Q.
Proof.
  intros Hf HQ. unfold wp, world, in_ufm, u_world. specialize (Hf (uw (rt_ufm s))).
  destruct (f (uw (rt_ufm s))) as [a w]. apply HQ; [|done]. by split_and!.
Qed.

Lemma now_wp s (Q : Z → rt W → Prop) :
  (∀ t s', calm s s' → now_of s ≤ t ≤ now_of s' → Q t s') → wpn (world heart_Now) s Q.
Proof.
  intros HQ. apply world_wp; [intros w; pose proof (clock_now (time:=time) w); lia|]. intros s' Hc Hn. apply HQ; [done|].
  pose proof (clock_now (time:=time) (uw (rt_ufm s))). unfold now_of in *. lia.
Qed.

Lemma sleep_wp d s (Q : unit → rt W → Prop) :
  (∀ s', calm s s' → now_of s + d ≤ now_of s' → Q tt s') → wpn (sleep d) s Q.
Proof.
  intros HQ. apply world_wp; [intros w; by apply (clock_sleep (time:=time))|]. intros s' Hc Hn. apply HQ; [done|].
  pose proof (clock_sleep (time:=time) d (uw (rt_ufm s))). unfold now_of in *. cbn in Hn. lia.
Qed.

Lemma error_wp p label e s (Q : unit → rt W → Prop) :
  (∀ s', calm s s' → Q tt s') → wpn (RecordErrorDetails p label (Some e)) s Q.
Proof. intros HQ. apply HQ. by split_and!. Qed.

Lemma createTx_wp p nonce s : wpn (createTx p nonce) s (λ r s', calm s s' ∧
  ∀ from tx, r = inr (from, tx) → nonce ≠ 0 → d_Nonce tx = nonce).
Proof.
  unfold createTx. apply wp_bind.
  assert (wpn (if nonce =? 0 then world (PendingNonceAt (p_URL (p_config p)) (Address (walletConfig p))) else mret (inr nonce)) s
    (λ n s', calm s s' ∧ ∀ m, n = inr m → nonce ≠ 0 → m = nonce)) as Hn.
  { destruct (Z.eqb_spec nonce 0) as [->|Hne].
    - apply world_wp; [intros; apply clock_nonce|]. intros s' Hc _. by split.
    - apply wp_ret. split; [apply calm_refl|]. by intros m [= <-]. }
  eapply wp_mono; [exact Hn|]. clear Hn. intros [err|n] s1 [Hc Hn]; [by apply wp_ret|]. specialize (Hn n eq_refl).
  apply wp_bind, world_wp; [intros; apply clock_tip|]. intros s2 Hc2 _. apply (calm_trans _ _ _ Hc) in Hc2.
  destruct (SuggestGasTipCap _ _).1 as [err|tip]; [by apply wp_ret|]. cbv zeta.
  apply wp_bind, world_wp; [intros; apply clock_head|]. intros s3 Hc3 _. apply (calm_trans _ _ _ Hc2) in Hc3.
  pose proof (london (p_URL (p_config p)) (uw (rt_ufm s2))) as Hl.
  destruct (HeadBaseFee _ _).1 as [err|[fee|]]; [by apply wp_ret| |done].
  apply wp_bind, world_wp; [intros; apply clock_gas|]. intros s4 Hc4 _. apply (calm_trans _ _ _ Hc3) in Hc4.
  destruct (EstimateGas _ _ _).1 as [err|gas]; apply wp_ret; [done|]. split; [done|]. intros from tx [= <- <-]. exact Hn.
Qed.

Lemma sign_wp p from tx s : wpn (sign p from tx) s (λ _ s', calm s s').
Proof.
  unfold sign. destruct (String.eqb _ "static").
  { destruct (HexToECDSA _); apply wp_ret, calm_refl. }
  destruct (String.eqb _ "signer"); [|apply wp_ret, calm_refl].
  apply wp_bind, world_wp; [intros; apply clock_client|]. intros s1 Hc _.
  destruct (NewSignerClient _ _).1; cbn [negb]; [|by apply wp_ret].
  apply world_wp; [intros; apply clock_sign|]. intros s2 Hc2 _. by eapply calm_trans.
Qed.

Lemma cool_down_wp p s : wpn (cool_down 2 p) s (λ clear s', calm s s' ∧ clear = true ∧
  LastSend (pool_of s) + SendTransactionCoolDown (p_config p) ≤ now_of s').
Proof.
  cbn [cool_down]. apply wp_bind, now_wp. intros t s1 Hc Ht. apply wp_bind, wp_gets. rewrite (proj1 Hc). cbv zeta.
  destruct (Z.ltb_spec 0 (SendTransactionCoolDown (p_config p) - (t - LastSend (pool_of s)))) as [Hcd|Hcd].
  - apply wp_bind, sleep_wp. intros s2 Hc2 Hs. apply (calm_trans _ _ _ Hc) in Hc2.
    apply wp_bind, now_wp. intros t' s3 Hc3 Ht'. apply (calm_trans _ _ _ Hc2) in Hc3. apply wp_bind, wp_gets.
    rewrite (proj1 Hc3). destruct (Z.ltb_spec 0 (SendTransactionCoolDown (p_config p) - (t' - LastSend (pool_of s)))); [lia|].
    apply wp_ret. split_and!; [done|done|lia].
  - apply wp_ret. split_and!; [done|done|lia].
Qed.

(** ** The loop that sends *)

(** Each nonce follows the one before; zero stands for a nonce to be asked for. *)
Definition consecutive (l : list sent_tx) : Prop := ∀ i x y, l !! i = Some x → l !! S i = Some y →
  u64 (sent_nonce x + 1) ≠ 0 → sent_nonce y = u64 (sent_nonce x + 1).

Lemma consecutive_cons x l : consecutive l →
  (∀ y, head l = Some y → u64 (sent_nonce x + 1) ≠ 0 → sent_nonce y = u64 (sent_nonce x + 1)) → consecutive (x :: l).
Proof.
  intros Hl Hx [|i] a b; cbn.
  - intros [= <-] Hb. apply Hx. by destruct l.
  - intros Ha Hb. by eapply Hl.
Qed.

Section provider.
Context (p : Provider).
Notation I := (SendTransactionRetryInterval (p_config p)).
Notation T := (SendTransactionRetryTimeout (p_config p)).

(** The sends of a run of the loop from [s] to [s']. *)
Record sent_run (first nonce : Z) (s s' : rt W) (l : list sent_tx) : Prop := mk_sent_run {
  run_sends : sends s' = (sends s ++ l)%list;
  run_pool : pool_of s' = pool_of s;
  run_now : now_of s ≤ now_of s';
  run_paced : Forall (λ x, LastSend (pool_of s) + SendTransactionCoolDown (p_config p) ≤ sent_at x ≤ now_of s') l;
  run_nonces : consecutive l;
  run_first : ∀ x, head l = Some x → nonce ≠ 0 → sent_nonce x = nonce;
  run_length : (length l ≤ 1)%nat ∨ I * (Z.of_nat (length l) - 2) < first + T - now_of s
}.

Lemma sent_run_nil first nonce s s' : calm s s' → sent_run first nonce s s' [].
Proof. intros (Hp & Hs & Hn). split; cbn; try done; [by rewrite app_nil_r|by left; lia]. Qed.

Lemma sent_run_one first nonce s s1 s2 s' x : calm s s1 → sends s2 = (sends s1 ++ [x])%list → pool_of s2 = pool_of s1 →
  now_of s1 ≤ now_of s2 → calm s2 s' → LastSend (pool_of s) + SendTransactionCoolDown (p_config p) ≤ sent_at x ≤ now_of s2 →
  (nonce ≠ 0 → sent_nonce x = nonce) → sent_run first nonce s s' [x].
Proof.
  intros (Hp & Hs & Hn) Hs2 Hp2 Hn2 (Hp3 & Hs3 & Hn3) Hx Hnonce. split.
  - congruence.
  - congruence.
  - lia.
  - constructor; [lia|done].
  - by intros [|i] a b Ha.
  - by intros y [= <-].
  - by left.
Qed.

Lemma sent_run_more first nonce s s1 s2 x l : 0 < I → sent_run first nonce s s1 [x] → now_of s + I ≤ now_of s1 →
  now_of s < first + T → sent_run first (u64 (sent_nonce x + 1)) s1 s2 l → sent_run first nonce s s2 (x :: l).
Proof.
  intros HI [Hs Hp Hn Hpace _ Hfirst _] Hi HT [Hs' Hp' Hn' Hpace' Hnon' Hfirst' Hlen']. split.
  - rewrite Hs', Hs. by rewrite <- app_assoc.
  - congruence.
  - lia.
  - rewrite Forall_singleton in Hpace. constructor; [lia|]. by rewrite Hp in Hpace'.
  - apply consecutive_cons; [done|]. intros y Hy Hne. by apply Hfirst'.
  - intros y [= <-]. by apply Hfirst.
  - right. cbn [length]. destruct Hlen' as [Hl|Hl]; nia.
Qed.

Lemma send_loop_wp fuel first nonce s : 0 < I → wpn (send_loop fuel p first nonce) s (λ r s',
  ∃ l, sent_run first nonce s s' l ∧ (first + T ≤ now_of s + I * (Z.of_nat fuel - 1) → (0 < fuel)%nat → r ≠ SendOutOfFuel)).
Proof.
  intros HI. revert nonce s. induction fuel as [|fuel IH]; intros nonce s.
  { apply wp_ret. exists []. split; [apply sent_run_nil, calm_refl|lia]. }
  cbn [send_loop]. apply wp_bind. eapply wp_mono; [apply cool_down_wp|]. intros b s1 (Hc1 & -> & Hcd). cbn [negb].
  apply wp_bind. eapply wp_mono; [apply createTx_wp|]. intros created s2 [Hc2 Hnonce]. apply (calm_trans _ _ _ Hc1) in Hc2 as Hc.
  destruct created as [err|[from tx]]; [apply wp_ret; exists []; split; [by apply sent_run_nil|done]|].
  specialize (Hnonce from tx eq_refl). cbv zeta.
  apply wp_bind. eapply wp_mono; [apply sign_wp|]. intros signed s3 Hc3. apply (calm_trans _ _ _ Hc) in Hc3 as Hc03.
  destruct signed as [err|signed]; [apply wp_ret; exists []; split; [by apply sent_run_nil|done]|].
  apply wp_bind, now_wp. intros t s4 Hc4 Ht. apply wp_bind, wp_modify. set (s5 := mk_rt _ _).
  assert (∀ s', calm s5 s' → sent_run first nonce s s' [mk_sent t (d_Nonce tx)]) as Hone.
  { intros s' Hc'. destruct Hc1 as (_ & _ & ?), Hc2 as (_ & _ & ?), Hc3 as (_ & _ & ?), Hc03 as (? & ? & ?), Hc4 as (? & ? & ?).
    apply (sent_run_one first nonce s s4 s5 s'); try done; [|change (now_of s5) with (now_of s4); cbn; lia].
    split_and!; [congruence|congruence|lia]. }
  apply wp_bind, world_wp; [intros; apply clock_send|]. intros s6 Hc6 _.
  destruct (SendTransaction _ _ _).1 as [e|]; [|apply wp_ret; exists [mk_sent t (d_Nonce tx)]; split; [by apply Hone|done]].
  destruct (retryable e).
  2:{ apply wp_bind, error_wp. intros s7 Hc7. apply wp_ret. exists [mk_sent t (d_Nonce tx)].
      split; [apply Hone; by eapply calm_trans|done]. }
  apply wp_bind, now_wp. intros t' s7 Hc7 Ht'. apply (calm_trans _ _ _ Hc6) in Hc7 as Hc57.
  destruct (Z.leb_spec T (t' - first)) as [HT|HT].
  { apply wp_bind, error_wp. intros s8 Hc8. apply wp_ret. exists [mk_sent t (d_Nonce tx)].
    split; [apply Hone; by eapply calm_trans|done]. }
  apply wp_bind, sleep_wp. intros s8 Hc8 Hs8. eapply wp_mono; [apply IH|]. intros r s9 (l & Hl & Hr).
  assert (now_of s ≤ now_of s7).
  { destruct (Hone s7 Hc57) as [_ _ Hn _ _ _ _]. done. }
  assert (now_of s ≤ t') by (destruct (Hone s6 Hc6) as [_ _ Hn _ _ _ _]; lia).
  exists (mk_sent t (d_Nonce tx) :: l). split.
  - eapply sent_run_more; [done|apply Hone; by eapply calm_trans|lia|lia|exact Hl].
  - intros Hen _. apply Hr; [nia|]. destruct fuel; [|lia]. lia.
Qed.

Notation J := (ReceiptRetrievalInterval (p_config p)).
Notation U := (ReceiptRetrievalTimeout (p_config p)).

Lemma receipt_loop_wp fuel h sentAt err s : 0 < J → wpn (receipt_loop fuel p h sentAt err) s (λ r s', calm s s' ∧
  (sentAt + U ≤ now_of s + J * (Z.of_nat fuel - 1) → (0 < fuel)%nat → r ≠ ReceiptOutOfFuel)).
Proof.
  intros HJ. revert err s. induction fuel as [|fuel IH]; intros err s.
  { apply wp_ret. split; [apply calm_refl|lia]. }
  cbn [receipt_loop]. apply wp_bind, now_wp. intros t s1 Hc1 Ht.
  destruct (Z.leb_spec U (t - sentAt)) as [HU|HU].
  { destruct err as [e|]; [|done]. apply wp_bind, error_wp. intros s2 Hc2. apply wp_ret. split; [by eapply calm_trans|done]. }
  apply wp_bind, sleep_wp. intros s2 Hc2 Hs2. apply (calm_trans _ _ _ Hc1) in Hc2.
  apply wp_bind, world_wp; [intros; apply clock_receipt|]. intros s3 Hc3 _. apply (calm_trans _ _ _ Hc2) in Hc3 as Hc03.
  destruct (TransactionReceipt _ _ _).1 as [[|m]|gas]; [|by apply wp_ret..].
  eapply wp_mono; [apply IH|]. intros r s4 [Hc4 Hr]. split; [by eapply calm_trans|]. intros Hen _.
  destruct Hc1 as (_ & _ & ?), Hc3 as (_ & _ & ?). apply Hr; [nia|]. destruct fuel; [|lia]. lia.
Qed.

(** What a round trip leaves behind: its sends, and the last of them in the pool if it
    was taken. *)
Definition trip (s s' : rt W) (l : list sent_tx) : Prop :=
  sends s' = (sends s ++ l)%list ∧
  Forall (λ x, LastSend (pool_of s) + SendTransactionCoolDown (p_config p) ≤ sent_at x) l ∧ consecutive l ∧
  ((length l ≤ 1)%nat ∨ I * (Z.of_nat (length l) - 2) < T) ∧
  (pool_of s' = pool_of s ∨
   ∃ hash t, pool_of s' = add_transaction (p_name p) hash t (pool_of s) ∧ Forall (λ x, sent_at x ≤ t) l).

Lemma trip_sent first nonce s s1 s2 s' l : calm s s1 → first ≤ now_of s1 → sent_run first nonce s1 s2 l →
  sends s' = sends s2 → (pool_of s' = pool_of s2 ∨
    ∃ hash t, pool_of s' = add_transaction (p_name p) hash t (pool_of s2) ∧ now_of s2 ≤ t) → trip s s' l.
Proof.
  intros (Hp & Hs & Hn) Hf [Hs2 Hp2 Hn2 Hpace Hnon Hfirst Hlen] Hs' Hpool. rewrite Hp in Hpace. unfold trip. split_and!.
  - congruence.
  - eapply Forall_impl; [exact Hpace|]. cbn. lia.
  - done.
  - destruct Hlen; [by left|right; lia].
  - destruct Hpool as [Hpool|(h & t & Hpool & Ht)]; [left; congruence|right]. exists h, t. split; [congruence|].
    eapply Forall_impl; [exact Hpace|]. cbn. lia.
Qed.

Lemma RoundTrip_wp fuel s : 0 < I → 0 < J → wpn (RoundTrip fuel p) s (λ b s', ∃ l, trip s s' l ∧
  ((0 < fuel)%nat → T ≤ I * (Z.of_nat fuel - 1) → U ≤ J * (Z.of_nat fuel - 1) → b = true)).
Proof.
  intros HI HJ. unfold RoundTrip. apply wp_bind, world_wp; [intros; apply clock_dial|]. intros s1 Hc1 _.
  destruct (heart_Dial _ _).1; cbn [negb].
  2:{ apply wp_ret. exists []. split; [|done]. eapply (trip_sent (now_of s1) 0); [exact Hc1|done|apply sent_run_nil, calm_refl|done|by left]. }
  apply wp_bind, now_wp. intros first s2 Hc2 Hf. apply (calm_trans _ _ _ Hc1) in Hc2.
  apply wp_bind. eapply wp_mono; [by apply send_loop_wp|]. intros r s3 (l & Hl & Hr).
  assert ((0 < fuel)%nat → T ≤ I * (Z.of_nat fuel - 1) → r ≠ SendOutOfFuel) as Hr' by (intros ? ?; apply Hr; lia).
  destruct r as [h started nonce| |].
  2,3: apply wp_ret; exists l; split; [eapply (trip_sent first); [exact Hc2|lia|exact Hl|done|by left]|naive_solver].
  apply wp_bind, now_wp. intros sentAt s4 Hc4 Ht4. apply wp_bind, wp_modify. set (s5 := mk_rt _ _).
  apply wp_bind. eapply wp_mono; [by apply receipt_loop_wp|]. intros r s6 [Hc6 Hr6].
  assert (∀ s', calm s6 s' → trip s s' l) as Htrip.
  { intros s' Hc'. destruct (calm_trans _ _ _ Hc6 Hc') as (Hp' & Hs' & _). destruct Hc4 as (Hp4 & Hs4 & _).
    eapply (trip_sent first); [exact Hc2|lia|exact Hl|by rewrite Hs'|right]. exists h, sentAt. rewrite Hp'. split; [|lia].
    change (pool_of s5) with (add_transaction (p_name p) h sentAt (pool_of s4)). by rewrite Hp4. }
  assert (now_of s5 = now_of s4) as Hn5 by done.
  destruct r as [gas| |].
  - apply wp_bind, now_wp. intros t s7 Hc7 _. apply wp_bind, wp_modify, wp_bind, wp_modify, wp_ret. exists l.
    split; [|done]. apply Htrip. destruct Hc7 as (? & ? & ?). by split_and!.
  - apply wp_ret. exists l. split; [apply Htrip, calm_refl|done].
  - apply wp_ret. exists l. split; [apply Htrip, calm_refl|]. intros Hz _ HU. exfalso. by apply Hr6; [lia|..].
Qed.
End provider.


(** C30: every transaction of a round trip is sent when the cool down after the last
    transaction of the network is over, each with the nonce after the one before it; the pool gets
    at most one transaction, of this provider, which then is the last of the network, sent no earlier
    than any of the attempts. *)
Theorem round_trip_paced p fuel s b s' :
  0 < SendTransactionRetryInterval (p_config p) → 0 < ReceiptRetrievalInterval (p_config p) →
  RoundTrip fuel p s = Ret (b, s') →
  ∃ l, sends s' = (sends s ++ l)%list ∧
    Forall (λ x, LastSend (pool_of s) + SendTransactionCoolDown (p_config p) ≤ sent_at x) l ∧ consecutive l ∧
    (pool_of s' = pool_of s ∨
     ∃ hash t, pool_of s' = add_transaction (p_name p) hash t (pool_of s) ∧ Forall (λ x, sent_at x ≤ t) l).
Proof.
  intros HI HJ E. pose proof (wp_run _ _ _ _ _ _ (RoundTrip_wp p fuel s HI HJ) E) as (l & (Hs & Hp & Hc & _ & Hpool) & _).
  by exists l.
Qed.
End clocked.

(** ** A node that knows the first two transactions *)

Module roundtrip_runs.
(** The world is its clock and the number of transactions the node has refused. *)
#[local] Instance heart : Heart (Z * Z) := {|
  heart_Now := λ w, (w.1, w); heart_Dial := λ _ w, (true, w); TransactionByHash := λ _ _ w, (None, w)
|}.
#[local] Instance eth : Eth DynamicFeeTx (Z * Z) := {|
  rt_Sleep := λ d w, (w.1 + Z.max 0 d, w.2);
  PendingNonceAt := λ _ _ w, (inr 41, w); SuggestGasTipCap := λ _ w, (inr 100, w); HeadBaseFee := λ _ w, (inr (Some 7), w);
  EstimateGas := λ _ _ w, (inr 21000, w);
  SendTransaction := λ _ _ w, (if w.2 <? 2 then Some "already known" else None, (w.1, w.2 + 1));
  TransactionReceipt := λ _ _ w, (inr 21000, w);
  HexToAddress := λ a, a; HexToECDSA := λ k, inr k; SignTx := λ tx _ _, inr tx;
  NewSignerClient := λ _ w, (true, w); RemoteSign := λ _ _ _ tx w, (inr tx, w); signed_Hash := λ _, "0x1";
  ErrAlreadyKnown := "already known"; ErrReplaceUnderpriced := "replacement transaction underpriced";
  ErrNonceTooLow := "nonce too low"; NotFound_Error := "not found"
|}.
#[local] Instance clock : RoundTripClock DynamicFeeTx (Z * Z) fst.
Proof. split; intros; cbn; try (destruct (_ <? _)); cbn; lia. Qed.

Lemma london url (w : Z * Z) : (HeadBaseFee url w).1 ≠ inr None.
Proof. discriminate. Qed.

Definition p : Provider := mk_provider "a" (mk_provider_config "net" "http://node" false 1 1 2 10 5 1 10 "w")
  (mk_signer "" "" "" "") (mk_wallet 10 "static" "0xa" "0xb" 1).
Definition s0 : rt (Z * Z) := mk_rt (mk_ufm (mk_pool ∅ 0 ∅ 1 100) [] (102, 0)) [].

(** The last send was at 100, so the first attempt waits until 105. *)
Lemma round_trip_run : (λ x, (x.1, sends x.2)) <$> returned (RoundTrip 12 p s0) =
  Some (true, [mk_sent 105 41; mk_sent 107 42; mk_sent 109 43]).
Proof. vm_compute. reflexivity. Qed.


Lemma round_trip_paced_witness : ∃ b s', RoundTrip 12 p s0 = Ret (b, s') ∧
  ∃ l, sends s' = (sends s0 ++ l)%list ∧
    Forall (λ x, LastSend (pool_of s0) + SendTransactionCoolDown (p_config p) ≤ sent_at x) l ∧ consecutive l ∧
    (pool_of s' = pool_of s0 ∨
     ∃ hash t, pool_of s' = add_transaction "a" hash t (pool_of s0) ∧ Forall (λ x, sent_at x ≤ t) l).
Proof.
  destruct (returned_fst _ _ _ round_trip_run) as (b & s' & E & _). exists b, s'. split; [exact E|].
  apply (round_trip_paced (time := fst) london p 12 s0 b s'); [vm_compute; reflexivity|vm_compute; reflexivity|exact E].
Defined.
End roundtrip_runs.
