(* ===== verification/Acceptance.v ===== *)
(** op-nat: the acceptance tester runs gates of suites of tests against a network and
    reports one verdict. This file has the engine: the results (validator.go), tests,
    suites and gates (test.go, suite.go, gate.go), the run and its table (nat.go) and what
    is counted (metrics/metrics.go). AcceptanceTests.v has the tests themselves.

    A test function acts on a world it shares with the others. The specification is flat:
    the tests below the validators, in order, and whether all of them pass. *)
From stdpp Require Import base numbers list gmap strings.
From S2P Require Import Prelude.

Local Open Scope string_scope.
Local Open Scope Z_scope.
#[local] Arguments String.append : simpl nomatch.

(** ** validator.go *)

Inductive ResultType := ResultFailed | ResultPassed | ResultSkipped.
#[export] Instance ResultType_eq_dec : EqDecision ResultType.
Proof. solve_decision. Defined.

Definition ResultTypeFromBool (b : bool) : ResultType := if b then ResultPassed else ResultFailed.

Definition ResultType_String (r : ResultType) : string :=
  match r with ResultPassed => "pass" | ResultFailed => "fail" | ResultSkipped => "skip" end.

(** An error is what it says. *)
Notation error := (option string).

Inductive ValidatorResult := mk_result {
  vr_ID : string; vr_Type : string; Result : ResultType; Error : error; RunID : string; SubResults : list ValidatorResult
}.


(** ** metrics.go *)

Inductive nat_metric := Validation (network runID name type result : string) | Acceptance (network runID result : string).
Definition is_validation (m : nat_metric) : Prop := if m is Validation _ _ _ _ _ then True else False.

Definition validResults : list string := ["pass"; "fail"; "skip"].
Definition isValidResult (result : string) : bool := bool_decide (result ∈ validResults).

(** The result of running the validators: what is counted, what [nat] keeps, and the table
    that is printed: its rows, the summary, and whether it is red. *)
Definition table_row : Type := string * string * string * error.
Record acc (W : Type) := mk_acc {
  acc_world : W; recorded : list nat_metric; results : list ValidatorResult; running : bool;
  printed : option (list table_row * string * bool)
}.
Arguments mk_acc {W} _ _ _ _ _.
Arguments acc_world {W} _.
Arguments recorded {W} _.
Arguments results {W} _.
Arguments running {W} _.
Arguments printed {W} _.
#[export] Instance eta_acc {W} : Eta (acc W) := λ r,
  mk_acc (acc_world r) (recorded r) (results r) (running r) (printed r).

(** The tally that suites, gates and the table keep while going through results. *)
Record tally := mk_tally { overallResult : ResultType; hasSkipped : bool; subResults : list ValidatorResult; allErrors : error }.
Definition no_results : tally := mk_tally ResultPassed false [] None.
Definition count (t : tally) (res : ValidatorResult) (err : error) : tally := mk_tally
  (if decide (Result res = ResultFailed) then ResultFailed else overallResult t)
  (if decide (Result res = ResultSkipped) then true else hasSkipped t)
  (subResults t ++ [res])%list (Join (allErrors t) err).
Definition overall (t : tally) : ResultType :=
  if bool_decide (overallResult t = ResultPassed) && hasSkipped t then ResultSkipped else overallResult t.

Section engine.
(** What a test is given, its parameters, and the world it acts on. *)
Context {Cfg P W : Type}.
Notation A := (M (acc W)).

Definition in_world {X} (m : M W X) : A X := λ s,
  match m (acc_world s) with Ret (x, w) => Ret (x, {{ s with (@acc_world W) := w }}) | Panic why => Panic why end.

Definition record (m : nat_metric) : A unit := m_modify (λ s : acc W, {{ s with (@recorded W) := (recorded s ++ [m])%list }}).
Definition RecordValidation (network runID valName valType result : string) : A unit :=
  if isValidResult result then record (Validation network runID valName valType result) else mret tt.
Definition RecordAcceptance (network runID result : string) : A unit :=
  if isValidResult result then record (Acceptance network runID result) else mret tt.

(** ** test.go *)

Record Test := mk_test {
  t_ID : string; DefaultParams : option P; Fn : option (Cfg → option P → M W (bool * error))
}.

Definition test_Run (runID : string) (config : Cfg) (params : option P) (t : Test) : A (ValidatorResult * error) :=
  match Fn t with
  | None => mret (mk_result "" "" ResultFailed None "" [], Some "test function is nil")
  | Some fn =>
      let testParams := match params with Some _ => params | None => DefaultParams t end in
      '(res, err) ← in_world (fn config testParams);
      _ ← RecordValidation "todo" runID (t_ID t) "Test" (ResultType_String (ResultTypeFromBool res));
      mret (mk_result (t_ID t) "Test" (ResultTypeFromBool res) err "" [], err)
  end.

(** ** suite.go *)

Record Suite := mk_suite { s_ID : string; Tests : list Test; TestsParams : gmap string P }.

(** The loop of suites and gates: a validator that is not to be run is passed over. *)
Fixpoint run_each {V} (run : V → option (A (ValidatorResult * error))) (l : list V) (t : tally) : A tally :=
  match l with
  | [] => mret t
  | v :: l =>
      match run v with
      | None => run_each run l t
      | Some m => '(res, err) ← m; run_each run l (count t res err)
      end
  end.

Definition suite_Run (runID : string) (cfg : Cfg) (s : Suite) : A (ValidatorResult * error) :=
  t ← run_each (λ test, Some (test_Run runID cfg (TestsParams s !! t_ID test) test)) (Tests s) no_results;
  _ ← RecordValidation "todo" runID (s_ID s) "Suite" (ResultType_String (overall t));
  mret (mk_result (s_ID s) "Suite" (overall t) (allErrors t) "" (subResults t), None).

(** ** gate.go *)

(** The three kinds of validator; a gate may be given none at a place. *)
Inductive Validator :=
  | TestV (t : Test)
  | SuiteV (s : Suite)
  | GateV (ID : string) (Validators : list (option Validator)) (Params : gmap string P).

Definition v_Name (v : Validator) : string :=
  match v with TestV t => t_ID t | SuiteV s => s_ID s | GateV ID _ _ => ID end.

Definition gate_Run (runID : string) (config : Cfg) (ID : string) (Validators : list (option Validator))
    (Params : gmap string P) : A (ValidatorResult * error) :=
  t ← run_each (λ validator : option Validator,
    match validator with
    | None | Some (GateV _ _ _) => None
    | Some (TestV t) => Some (test_Run runID config (Params !! t_ID t) t)
    | Some (SuiteV s) => Some (suite_Run runID config s)
    end) Validators no_results;
  _ ← RecordValidation "todo" runID ID "Gate" (ResultType_String (overall t));
  mret (mk_result ID "Gate" (overall t) (allErrors t) "" (subResults t), None).

Definition v_Run (runID : string) (config : Cfg) (params : option P) (v : Validator) : A (ValidatorResult * error) :=
  match v with
  | TestV t => test_Run runID config params t
  | SuiteV s => suite_Run runID config s
  | GateV ID vs ps => gate_Run runID config ID vs ps
  end.

(** ** nat.go *)

Fixpoint appendResultRows (result : ValidatorResult) : list table_row :=
  (vr_Type result, vr_ID result, ResultType_String (Result result), Error result) ::
  (fix rows (l : list ValidatorResult) : list table_row :=
     match l with [] => [] | r :: l => appendResultRows r ++ rows l end)%list (SubResults result).

Definition printResultsTable (runID : string) : A unit :=
  rs ← m_gets results;
  let t := foldl (λ t res, count t res None) no_results rs in
  _ ← m_modify (λ s : acc W, {{ s with (@printed W) := Some (mjoin (appendResultRows <$> rs), ResultType_String (overall t),
    bool_decide (overall t = ResultFailed)) }});
  RecordAcceptance "todo" runID (ResultType_String (overall t)).

(** google/uuid. *)
Context (uuid_New : W → string * W).

Definition nil_validator : string := "nil pointer dereference: validator.Name()".

Fixpoint run_validators (runID : string) (config : Cfg) (params : gmap string P) (l : list (option Validator)) : A unit :=
  match l with
  | [] => mret tt
  | None :: _ => m_panic nil_validator
  | Some validator :: l =>
      '(result, err) ← v_Run runID config (params !! v_Name validator) validator;
      _ ← m_modify (λ s : acc W, {{ s with (@results W) := (results s ++ [result])%list }});
      run_validators runID config params l
  end.

Definition Start (config : Cfg) (params : gmap string P) (Validators : list (option Validator)) : A unit :=
  _ ← m_modify (λ s : acc W, {{ s with (@running W) := true }});
  runID ← in_world (λ w, Ret (uuid_New w));
  _ ← m_modify (λ s : acc W, {{ s with (@results W) := ([] : list ValidatorResult) }});
  _ ← run_validators runID config params Validators;
  printResultsTable runID.

Definition Stop : A unit := m_modify (λ s : acc W, {{ s with (@running W) := false }}).
Definition Stopped : A bool := m_gets running.

(** ** The flat specification *)

(** The tests below a validator, with the parameters given to them. *)
Definition suite_tests (s : Suite) : list (Test * option P) :=
  (λ t, (t, TestsParams s !! t_ID t)) <$> Tests s.
Definition tests_of (v : Validator) (params : option P) : list (Test * option P) :=
  match v with
  | TestV t => [(t, params)]
  | SuiteV s => suite_tests s
  | GateV _ vs ps => vs ≫= λ v,
      match v with
      | None | Some (GateV _ _ _) => []
      | Some (TestV t) => [(t, ps !! t_ID t)]
      | Some (SuiteV s) => suite_tests s
      end
  end.

(** A test passes when its function says so; one without a function does not. *)
Definition passes (config : Cfg) (x : Test * option P) : M W bool :=
  match Fn x.1 with
  | None => mret false
  | Some fn => r ← fn config (match x.2 with Some _ => x.2 | None => DefaultParams x.1 end); mret r.1
  end.
Fixpoint all_pass (config : Cfg) (l : list (Test * option P)) : M W bool :=
  match l with
  | [] => mret true
  | x :: l => b ← passes config x; rest ← all_pass config l; mret (b && rest)
  end.

(** ** The engine does what the flat specification says *)

Section realises.
Context (runID : string) (config : Cfg).

(** The state after tests that left [w], with what was counted for them. *)
Definition after (s : acc W) (w : W) (ms : list nat_metric) : acc W :=
  mk_acc w (recorded s ++ ms) (results s) (running s) (printed s).

Lemma after_after s w1 ms1 w2 ms2 : after (after s w1 ms1) w2 ms2 = after s w2 (ms1 ++ ms2).
Proof. unfold after. cbn. by rewrite app_assoc. Qed.
Lemma after_nil s : after s (acc_world s) [] = s.
Proof. destruct s. unfold after. cbn. by rewrite app_nil_r. Qed.

(** [m] acts as the tests [l] one after the other, and [res] of what it returns is their verdict. *)
Definition realises {X} (res : X → ResultType → Prop) (m : A X) (l : list (Test * option P)) : Prop := ∀ s,
  match all_pass config l (acc_world s) with
  | Panic why => m s = Panic why
  | Ret (b, w) => ∃ x ms, m s = Ret (x, after s w ms) ∧ Forall is_validation ms ∧ res x (ResultTypeFromBool b)
  end.
Notation verdict := (λ (x : ValidatorResult * error) r, Result x.1 = r).

Lemma all_pass_app l k w : all_pass config (l ++ k) w =
  (b ← all_pass config l; b' ← all_pass config k; mret (b && b')) w.
Proof.
  revert w. induction l as [|x l IH]; intros w; cbn [all_pass app].
  - rewrite M_bind_eq. cbn. rewrite M_bind_eq. by destruct (all_pass config k w) as [[b w']|].
  - rewrite !M_bind_eq. destruct (passes config x w) as [[b w1]|]; [|done]. rewrite !M_bind_eq, IH, M_bind_eq.
    destruct (all_pass config l w1) as [[b1 w2]|]; [|done]. cbn. rewrite !M_bind_eq.
    destruct (all_pass config k w2) as [[b2 w3]|]; [|done]. cbn. by rewrite andb_assoc.
Qed.

Lemma record_validation name type r s :
  RecordValidation "todo" runID name type (ResultType_String r) s =
  Ret (tt, after s (acc_world s) [Validation "todo" runID name type (ResultType_String r)]).
Proof. by destruct r. Qed.

Lemma test_realises t params : realises verdict (test_Run runID config params t) [(t, params)].
Proof.
  intros s. unfold test_Run, all_pass, passes. cbn [fst snd]. rewrite M_bind_eq. destruct (Fn t) as [fn|]; cbn.
  - rewrite !M_bind_eq. unfold in_world. destruct (fn config _ (acc_world s)) as [[[b err] w]|why]; [|done]. cbn.
    rewrite !M_bind_eq, record_validation. eexists _, _. split; [reflexivity|]. split; [by repeat constructor|by destruct b].
  - eexists _, []. rewrite after_nil. by repeat constructor.
Qed.

(** What a loop over validators leaves in its tally. *)
Definition tallied (b0 : bool) (t : tally) (r : ResultType) : Prop :=
  hasSkipped t = false ∧ overallResult t = if b0 then r else ResultFailed.

Lemma tallied_count b0 t res err b : tallied true t (ResultTypeFromBool b0) → Result res = ResultTypeFromBool b →
  tallied true (count t res err) (ResultTypeFromBool (b0 && b)).
Proof. intros [Hs Ho] Hr. unfold tallied, count. cbn in *. rewrite Hr, Hs, Ho. by destruct b, b0. Qed.

Lemma run_each_realises {V} (run : V → option (A (ValidatorResult * error))) (f : V → list (Test * option P)) l t b0 :
  (∀ v, match run v with None => f v = [] | Some m => realises verdict m (f v) end) →
  tallied true t (ResultTypeFromBool b0) → realises (tallied b0) (run_each run l t) (l ≫= f).
Proof.
  intros Hrun. revert t b0. induction l as [|v l IH]; intros t b0 Ht s; cbn [run_each].
  { exists t, []. rewrite after_nil. split_and!; [done|constructor|]. destruct Ht as [Hs Ho]. split; [done|]. by destruct b0. }
  rewrite bind_cons. specialize (Hrun v). destruct (run v) as [m|]; [|rewrite Hrun; by apply IH].
  rewrite all_pass_app, !M_bind_eq. specialize (Hrun s).
  destruct (all_pass config (f v) (acc_world s)) as [[b w]|why]; [|by rewrite Hrun].
  destruct Hrun as ([res err] & ms & E & Hms & Hv). cbn in Hv. rewrite E, M_bind_eq.
  specialize (IH _ _ (tallied_count _ _ _ err _ Ht Hv) (after s w ms)). cbn [acc_world after] in IH.
  destruct (all_pass config (l ≫= f) w) as [[b' w']|why]; [|done].
  destruct IH as (t' & ms' & E' & Hms' & Hs' & Ho').
  exists t', (ms ++ ms')%list. rewrite <- (after_after _ w). split_and!; [exact E'|by apply Forall_app|].
  split; [done|]. rewrite Ho'. by destruct b, b0, b'.
Qed.

Lemma group_realises {V} (run : V → option (A (ValidatorResult * error))) f l ID type :
  (∀ v, match run v with None => f v = [] | Some m => realises verdict m (f v) end) →
  realises verdict (t ← run_each run l no_results;
    _ ← RecordValidation "todo" runID ID type (ResultType_String (overall t));
    mret (mk_result ID type (overall t) (allErrors t) "" (subResults t), None)) (l ≫= f).
Proof.
  intros Hrun s. pose proof (run_each_realises run f l no_results true Hrun (conj eq_refl eq_refl) s) as Hl.
  rewrite M_bind_eq. destruct (all_pass config (l ≫= f) (acc_world s)) as [[b w]|why]; [|by rewrite Hl].
  destruct Hl as (t & ms & E & Hms & Hs & Ho). rewrite E, M_bind_eq, record_validation.
  eexists _, _. rewrite after_after. split; [reflexivity|]. split; [by apply Forall_app; repeat constructor|].
  cbn. unfold overall. by rewrite Hs, Ho, andb_false_r.
Qed.

Lemma suite_realises s : realises verdict (suite_Run runID config s) (suite_tests s).
Proof.
  unfold suite_tests. replace ((λ t, (t, TestsParams s !! t_ID t)) <$> Tests s) with
    (Tests s ≫= λ t, [(t, TestsParams s !! t_ID t)]) by (induction (Tests s) as [|t l IH]; cbn; [done|by rewrite IH]).
  apply group_realises. intros t. apply test_realises.
Qed.

Lemma v_realises params v : realises verdict (v_Run runID config params v) (tests_of v params).
Proof.
  destruct v as [t|s|ID vs ps]; cbn [v_Run tests_of]; [apply test_realises|apply suite_realises|].
  apply group_realises. intros [[t|s|? ? ?]|]; [apply test_realises|apply suite_realises|done..].
Qed.

(** All the tests of a run. *)
Definition run_tests (params : gmap string P) (l : list (option Validator)) : list (Test * option P) :=
  l ≫= λ v, match v with None => [] | Some v => tests_of v (params !! v_Name v) end.

Lemma tallied_results rs : Forall (λ r, Result r ≠ ResultSkipped) rs → ∀ t b0, tallied true t (ResultTypeFromBool b0) →
  tallied true (foldl (λ t res, count t res None) t rs)
    (ResultTypeFromBool (b0 && forallb (λ r, bool_decide (Result r = ResultPassed)) rs)).
Proof.
  induction 1 as [|r rs Hr Hrs IH]; intros t b0 Ht; cbn [foldl forallb]; [by rewrite andb_true_r|].
  rewrite andb_assoc. apply IH, tallied_count; [done|]. by destruct (Result r).
Qed.

(** The results that running validators adds: none is a skip, and all pass when all their tests do. *)
Definition added (b : bool) (rs : list ValidatorResult) : Prop :=
  Forall (λ r, Result r ≠ ResultSkipped) rs ∧ forallb (λ r, bool_decide (Result r = ResultPassed)) rs = b.

Lemma run_validators_realises params l s : Forall is_Some l →
  match all_pass config (run_tests params l) (acc_world s) with
  | Panic why => run_validators runID config params l s = Panic why
  | Ret (b, w) => ∃ rs ms, run_validators runID config params l s =
      Ret (tt, mk_acc w (recorded s ++ ms) (results s ++ rs) (running s) (printed s)) ∧
      Forall is_validation ms ∧ added b rs ∧ length rs = length l
  end.
Proof.
  intros Hl. revert s. induction Hl as [|v l [v' ->] Hl IH]; intros s; cbn [run_validators].
  { exists [], []. rewrite !app_nil_r. split; [by destruct s|]. by repeat constructor. }
  unfold run_tests. rewrite bind_cons, all_pass_app, !M_bind_eq. pose proof (v_realises (params !! v_Name v') v' s) as Hv.
  destruct (all_pass config (tests_of v' _) (acc_world s)) as [[b w]|why]; [|by rewrite Hv].
  destruct Hv as ([res err] & ms & E & Hms & Hr). cbn in Hr. rewrite E, !M_bind_eq. cbn.
  set (s1 := mk_acc _ _ _ _ _). specialize (IH s1). cbn [acc_world s1] in IH. fold (run_tests params l).
  destruct (all_pass config (run_tests params l) w) as [[b' w']|why]; [|done].
  destruct IH as (rs & ms' & E' & Hms' & [Hns Hall] & Hlen). exists (res :: rs), (ms ++ ms')%list. cbn in *.
  rewrite E'. rewrite <- !app_assoc. split_and!; [done|by apply Forall_app| |lia].
  split; [constructor; [rewrite Hr; by destruct b|done]|]. cbn. rewrite Hr, Hall. by destruct b.
Qed.
End realises.

(** C29: a run of the acceptance tester runs the tests below its validators one after the
    other, those of nested gates left out, and reports a single verdict: it passes when every test
    function said so and fails otherwise, and it is never a skip; everything else it counts is about single
    validators. When a test panics, the run panics with it. *)
Theorem acceptance_verdict config params l s : Forall is_Some l →
  let '(runID, w0) := uuid_New (acc_world s) in
  match all_pass config (run_tests params l) w0 with
  | Panic why => Start config params l s = Panic why
  | Ret (b, w) => ∃ s' ms, Start config params l s = Ret (tt, s') ∧ acc_world s' = w ∧
      recorded s' = (recorded s ++ ms ++ [Acceptance "todo" runID (if b then "pass" else "fail")])%list ∧
      Forall is_validation ms ∧ length (results s') = length l
  end.
Proof.
  intros Hl. destruct (uuid_New (acc_world s)) as [runID w0] eqn:Eu. unfold Start. rewrite M_bind_eq. cbn.
  rewrite M_bind_eq. unfold in_world. cbn. rewrite Eu. cbn. rewrite M_bind_eq. cbn. rewrite M_bind_eq.
  set (s1 := mk_acc _ _ _ _ _).
  pose proof (run_validators_realises runID config params l s1 Hl) as Hr. cbn [acc_world s1] in Hr.
  destruct (all_pass config (run_tests params l) w0) as [[b w]|why]; [|by rewrite Hr].
  destruct Hr as (rs & ms & E & Hms & [Hns Hall] & Hlen). rewrite E. unfold printResultsTable. rewrite M_bind_eq. cbn.
  rewrite M_bind_eq. cbn. pose proof (tallied_results rs Hns no_results true (conj eq_refl eq_refl)) as [Hs Ho].
  rewrite Hall in Ho. unfold overall. rewrite Hs, Ho, andb_false_r.
  destruct b; eexists _, ms; (split_and!; [reflexivity|done|cbn; by rewrite app_assoc|done|done]).
Qed.
End engine.

(** A suite tells its gate of no error, so a gate of suites has none to report. *)
Lemma gate_without_errors {Cfg P W} runID (cfg : Cfg) ID (l : list (option (@Validator Cfg P W))) ps s r err s' :
  Forall (λ v, ∃ x, v = Some (SuiteV x)) l → gate_Run runID cfg ID l ps s = Ret ((r, err), s') → Error r = None.
Proof.
  intros Hl. unfold gate_Run. intros E. run_step E t s1 E1. run_step E u s2 E2. injection E as <- _ _. cbn.
  change None with (allErrors no_results). clear E2. revert E1. generalize no_results as t0. revert s.
  induction Hl as [|v l [x ->] Hl IH]; intros s t0; cbn [run_each]; [by intros [= <- <-]|].
  intros E. run_step E y s3 E1. destruct y as [res e].
  assert (e = None) as -> by (unfold suite_Run in E1; run_step E1 t1 s4 E3; run_step E1 v s5 E4; by injection E1).
  apply IH in E. rewrite E. cbn. by destruct (allErrors t0).
Qed.

(** [Stopped] tells whether the tester is running. *)
Lemma stopped_while_running {W} (s : acc W) : (_ ← Stop; Stopped) s = Ret (false, {{ s with (@running W) := false }}).
Proof. done. Qed.

(** ** A gate with a suite of two tests and a nested gate *)

Module acceptance_runs.
(** The world counts the tests that were run. *)
Definition ok : @Test unit unit Z := mk_test "ok" None (Some (λ _ _ w, Ret ((true, None), w + 1))).
Definition bad : @Test unit unit Z := mk_test "bad" None (Some (λ _ _ w, Ret ((false, Some "broken"), w + 1))).
Definition nested := Some (GateV "inner" [Some (TestV bad)] ∅).
Definition gate (l : list (@Test unit unit Z)) := [Some (GateV "outer" [nested; None; Some (SuiteV (mk_suite "s" l ∅)); Some (TestV ok)] ∅)].
Definition s0 : acc Z := mk_acc 0 [] [] false None.
Definition uuid (w : Z) : string * Z := ("id", w).

Lemma gate_fails : (λ x, (acc_world x.2, last (recorded x.2), printed x.2)) <$> returned (Start uuid tt ∅ (gate [ok; bad]) s0) =
  Some (3, Some (Acceptance "todo" "id" "fail"),
    Some ([("Gate", "outer", "fail", None); ("Suite", "s", "fail", Some "broken"); ("Test", "ok", "pass", None);
      ("Test", "bad", "fail", Some "broken"); ("Test", "ok", "pass", None)], "fail", true)).
Proof. vm_compute. reflexivity. Qed.

Lemma acceptance_verdict_witness : Forall is_Some (gate [ok]) ∧
  ∃ s' ms, Start uuid tt ∅ (gate [ok]) s0 = Ret (tt, s') ∧ acc_world s' = 2 ∧
    recorded s' = ([] ++ ms ++ [Acceptance "todo" "id" "pass"])%list ∧ Forall is_validation ms ∧ length (results s') = 1%nat.
Proof.
  assert (Forall is_Some (gate [ok])) as Hl by (constructor; [by eexists|constructor]). split; [exact Hl|].
  exact (acceptance_verdict uuid tt ∅ (gate [ok]) s0 Hl).
Defined.
End acceptance_runs.
