(* ===== verification/AcceptanceTests.v ===== *)
(** op-nat's tests: the manifest and the configuration (manifest.go, config.go), networks
    and wallets (network/network.go, wallet/wallet.go), the tests, suites and the gate that
    is run (validators/).

    go-ethereum and the spammer of tx-fuzz are operations on a world; a pointer that may be
    nil is an option, and going through a nil one panics. *)
From stdpp Require Import base numbers list gmap strings pretty.
From Stdlib Require Import Ascii.
From S2P Require Import Prelude.
From S2P Require Import Acceptance.

Local Open Scope string_scope.
Local Open Scope Z_scope.
#[local] Arguments String.append : simpl nomatch.

(** ** manifest.go *)

Record Endpoint := mk_endpoint { Host : string; Port : Z; Secure : bool }.
Record Service := mk_service { svc_Name : string; svc_Endpoints : gmap string Endpoint }.
Record NodeServices := mk_node_services { CL : option Service; EL : option Service }.
Record Node := mk_node { node_Services : NodeServices }.
Record BatcherService := mk_batcher { bs_Name : string; bs_Endpoints : gmap string Endpoint }.
Record ProposerService := mk_proposer { ps_Name : string; ps_Endpoints : gmap string Endpoint }.
Record L2Services := mk_l2_services { Batcher : BatcherService; Proposer : ProposerService }.
Record manifest_Wallet := mk_manifest_wallet { mw_Address : string; mw_PrivateKey : string }.
Record L1Addresses := mk_l1_addresses {
  DelayedWETHImpl : string; DisputeGameFactoryImpl : string; L1CrossDomainMessengerImpl : string;
  L1ERC721BridgeImpl : string; L1StandardBridgeImpl : string; MipsSingleton : string; OPCM : string;
  OptimismMintableERC20FactoryImpl : string; OptimismPortalImpl : string; PreimageOracleSingleton : string;
  ProtocolVersionsImpl : string; ProtocolVersionsProxy : string; l1_ProxyAdmin : string;
  SuperchainConfigImpl : string; SuperchainConfigProxy : string; SystemConfigImpl : string
}.
Record L2Addresses := mk_l2_addresses {
  AddressManager : string; AnchorStateRegistryImpl : string; AnchorStateRegistryProxy : string;
  DataAvailabilityChallengeImpl : string; DataAvailabilityChallengeProxy : string;
  DelayedWETHPermissionedGameProxy : string; DelayedWETHPermissionlessGameProxy : string;
  DisputeGameFactoryProxy : string; FaultDisputeGame : string; L1CrossDomainMessengerProxy : string;
  L1ERC721BridgeProxy : string; L1StandardBridgeProxy : string; OptimismMintableERC20FactoryProxy : string;
  OptimismPortalProxy : string; PermissionedDisputeGame : string; l2_ProxyAdmin : string; SystemConfigProxy : string
}.
Record L1Config := mk_l1 {
  l1_Name : string; l1_ID : string; l1_Nodes : list Node; l1_Addresses : L1Addresses; l1_Wallets : gmap string manifest_Wallet
}.
Record L2Config := mk_l2 {
  l2_Name : string; l2_ID : string; l2_Services : L2Services; l2_Nodes : list Node; l2_Addresses : L2Addresses;
  l2_Wallets : gmap string manifest_Wallet
}.
Record SuperchainManifest := mk_manifest { man_L1 : L1Config; man_L2 : list L2Config }.

(** ** What the tests use *)

Record Receipt := mk_receipt { r_BlockNumber : option Z }.
(** types.NewTransaction, without data. *)
Record Transaction := mk_tx { tx_Nonce : Z; tx_To : string; tx_Value : Z; tx_GasLimit : Z; tx_GasPrice : Z }.

Class NatEth (Key Signed Spam W : Type) := {
  nat_Sleep : Z → W → W;
  Intn : Z → W → Z * W;
  nat_Dial : string → W → error * W;
  BlockNumber : string → W → (Z * error) * W;
  nat_ChainID : string → W → (string + option Z) * W;
  nat_Receipt : string → string → W → (option Receipt * error) * W;
  BalanceAt : string → string → W → (string + Z) * W;
  nat_PendingNonceAt : string → string → W → (string + Z) * W;
  SuggestGasPrice : string → W → (string + Z) * W;
  NetworkID : string → W → (string + Z) * W;
  nat_SendTransaction : string → Signed → W → error * W;
  nat_SignTx : Transaction → Z → Key → string + Signed;
  nat_Hash : Signed → string;
  nat_HexToECDSA : string → string + Key;
  key_Address : Key → string;
  nat_HexToAddress : string → string;
  NewDefaultConfig : string → Z → bool → W → (string + Spam) * W;
  WithFaucet : Key → Spam → Spam;
  WithKeys : list Key → Spam → Spam;
  SlotTime : Spam → Z;
  Unstuck : Spam → W → error * W;
  Airdrop : Spam → Z → W → error * W;
  SpamTransactions : Spam → W → error * W;
}.

(** pkg/errors. *)
Definition Wrap (err msg : string) : string := msg ++ ": " ++ err.

(** fmt.Sprintf with strings for its arguments; the only verb is %s, and one without an argument says so. *)
Fixpoint Sprintf (f : string) (args : list string) : string :=
  match f with
  | String "%"%char (String "s"%char f) =>
      match args with
      | [] => "%!s(MISSING)" ++ Sprintf f []
      | a :: args => a ++ Sprintf f args
      end
  | String c f => String c (Sprintf f args)
  | "" => ""
  end.

(** strconv.Atoi *)
Fixpoint digits_value (acc : Z) (s : string) : option Z :=
  match s with
  | "" => Some acc
  | String c s =>
      let n := Z.of_nat (Ascii.nat_of_ascii c) in
      if (48 <=? n) && (n <=? 57) then digits_value (10 * acc + (n - 48)) s else None
  end.
Definition Atoi (s : string) : option Z :=
  let unsigned s := match s with "" => None | _ => digits_value 0 s end in
  v ← match s with
      | String "-"%char s => Z.opp <$> unsigned s
      | String "+"%char s => unsigned s
      | _ => unsigned s
      end;
  if (- two63 <=? v) && (v <? two63) then Some v else None.

(** strings.TrimPrefix of "0x". *)
Definition trim_0x (s : string) : string :=
  match s with String "0"%char (String "x"%char s) => s | _ => s end.

(** ** network.go *)

Record Network := mk_network { ChainID : Z; net_Name : string; Addr : string }.

(** ** wallet.go *)

Record Wallet (Key : Type) := mk_wallet {
  PrivateKeyESCDA : Key; PrivateKey : string; publicKey : string; address : string; w_name : string
}.
Arguments mk_wallet {Key} _ _ _ _ _.
Arguments PrivateKeyESCDA {Key} _.
Arguments PrivateKey {Key} _.
Arguments publicKey {Key} _.
Arguments address {Key} _.
Arguments w_name {Key} _.

(** ** config.go *)

Record Config (Key : Type) := mk_config {
  SC : SuperchainManifest; Wallets : list (option (Wallet Key)); L1 : option Network; L2A : option Network
}.
Arguments mk_config {Key} _ _ _ _.
Arguments SC {Key} _.
Arguments Wallets {Key} _.
Arguments L1 {Key} _.
Arguments L2A {Key} _.

(** The parameters of the tests. *)
Inductive test_params :=
  | SimpleDepositParams (MaxBalanceChecks DepositAmount MinL1Balance : Z)
  | SimpleTranferParams (TransferAmount MinBalance : Z)
  | TxFuzzParams (NSlotsToRunFor TxPerAccount : Z) (GenerateAccessList : bool) (MinBalance : option Z).

Definition nil_pointer : string := "invalid memory address or nil pointer dereference".
Definition Wei : Z := 1.
Definition GWei : Z := 1000000000.

Section tests.
Context {Key Signed Spam W : Type} `{NatEth Key Signed Spam W}.
Notation T := (M W).

Definition op {X} (f : W → X * W) : T X := λ w, Ret (f w).
Definition wait (d : Z) : T unit := op (λ w, (tt, nat_Sleep d w)).
Definition deref {X} (p : option X) : T X := match p with Some x => mret x | None => m_panic nil_pointer end.
Definition index {X} (l : list X) (i : nat) : T X :=
  match l !! i with Some x => mret x | None => m_panic "index out of range" end.

Definition NewNetwork (name addr : string) (secure : bool) (chainId : Z) : T (string + Network) :=
  let rpcEndpoint := (if secure then "https://" else "http://") ++ addr in
  err ← op (nat_Dial rpcEndpoint);
  mret (match err with Some err => inl err | None => inr (mk_network chainId name rpcEndpoint) end).

(** One look at the chain: whether the transaction is confirmed. *)
Definition poll_once (n : Network) (confs : Z) (txhash : string) : T bool :=
  '(receipt, _) ← op (nat_Receipt (Addr n) txhash);
  match receipt with
  | None => mret false
  | Some receipt =>
      '(blockNumber, _) ← op (BlockNumber (Addr n));
      number ← deref (r_BlockNumber receipt);
      let confirmations := u64 (blockNumber - u64 number) in
      mret (u64 confs <=? confirmations)
  end.
Fixpoint poll_loop (i : nat) (n : Network) (confs : Z) (txhash : string) : T error :=
  match i with
  | O => mret (Some "tx was not confirmed")
  | S i =>
      confirmed ← poll_once n confs txhash;
      if confirmed : bool then mret None
      else _ ← wait (10 * Second); poll_loop i n confs txhash
  end.
Definition PollForConfirmations (n : Network) (confs : Z) (txhash : string) : T error := poll_loop 10 n confs txhash.

Definition NewWallet (privateKeyHex name : string) : string + Wallet Key :=
  match nat_HexToECDSA (trim_0x privateKeyHex) with
  | inl err => inl ("invalid private key: " ++ err)
  | inr privateKey =>
      let address := key_Address privateKey in
      inr (mk_wallet privateKey privateKeyHex address address name)
  end.

(** A nil wallet, or a nil network, panics. *)
Definition GetBalance (w : option (Wallet Key)) (network : option Network) : T (string + Z) :=
  network ← deref network; w ← deref w; op (BalanceAt (Addr network) (address w)).

Definition Send (w : Wallet Key) (network : Network) (amount : Z) (to : string) : T (string + Signed) :=
  nonce ← op (nat_PendingNonceAt (Addr network) (address w));
  match nonce with
  | inl err => mret (inl ("failed to get nonce: " ++ err))
  | inr nonce =>
      gasPrice ← op (SuggestGasPrice (Addr network));
      match gasPrice with
      | inl err => mret (inl ("failed to suggest gas price: " ++ err))
      | inr gasPrice =>
          let gasTip := gasPrice `div` 10 in
          let tx := mk_tx nonce to amount 2100000 (gasPrice + gasTip) in
          chainID ← op (NetworkID (Addr network));
          match chainID with
          | inl err => mret (inl ("failed to get network ID: " ++ err))
          | inr chainID =>
              match nat_SignTx tx chainID (PrivateKeyESCDA w) with
              | inl err => mret (inl ("failed to sign transaction: " ++ err))
              | inr signedTx =>
                  err ← op (nat_SendTransaction (Addr network) signedTx);
                  mret (match err with Some err => inl ("failed to send transaction: " ++ err) | None => inr signedTx end)
              end
          end
      end
  end.

(** The execution node of the first node of a chain; a missing endpoint is the zero one. *)
Definition rpc_endpoint (nodes : list Node) : T Endpoint :=
  node ← index nodes 0; el ← deref (EL (node_Services node));
  mret (default (mk_endpoint "" 0 false) (svc_Endpoints el !! "rpc")).

(** The wallets of the manifest in the order of an iteration; one that cannot be made is nil. *)
Definition make_wallets (l : list (string * manifest_Wallet)) : list (option (Wallet Key)) :=
  (λ x, match NewWallet (mw_PrivateKey x.2) ("user-key-" ++ x.1) with inl _ => None | inr w => Some w end) <$> l.

Definition NewConfig `{Order W} (manifest : SuperchainManifest) : T (string + Config Key) :=
  order ← op (permute (map_to_list (l1_Wallets (man_L1 manifest))));
  let wallets := make_wallets order in
  let l1ID := default (-1) (Atoi (l1_ID (man_L1 manifest))) in
  e1 ← rpc_endpoint (l1_Nodes (man_L1 manifest));
  l1 ← NewNetwork (l1_Name (man_L1 manifest)) (Host e1) (Secure e1) l1ID;
  match l1 with
  | inl err => mret (inl ("failed to setup l1 network: " ++ err))
  | inr l1 =>
      m2 ← index (man_L2 manifest) 0;
      let l2AID := default (-1) (Atoi (l2_ID m2)) in
      e2 ← rpc_endpoint (l2_Nodes m2);
      l2A ← NewNetwork (l2_Name m2) (Host e2) (Secure e2) l2AID;
      mret (match l2A with
        | inl err => inl ("failed to setup l2A network: " ++ err)
        | inr l2A => inr (mk_config manifest wallets (Some l1) (Some l2A))
        end)
  end.

Definition GetNetworks (c : Config Key) : list (option Network) := [L1 c; L2A c].

Definition GetRandomWallet (c : Config Key) : T (option (Wallet Key)) :=
  let n := length (Wallets c) in
  if (n =? 0)%nat then m_panic "invalid argument to Intn" else
  randomIndex ← op (Intn (Z.of_nat n));
  index (Wallets c) (Z.to_nat randomIndex).

Fixpoint wallet_with_balance (l : list (option (Wallet Key))) (network : option Network) (amount : option Z) :
    T (string + Wallet Key) :=
  match l with
  | [] =>
      network ← deref network;
      mret (inl ("no wallet found with balance " ++ match amount with Some z => pretty z | None => "<nil>" end ++
        " on network " ++ net_Name network))
  | w :: l =>
      balance ← GetBalance w network;
      match balance with
      | inl err => mret (inl err)
      | inr balance =>
          amount' ← deref amount;
          w' ← deref w;
          if amount' <=? balance then mret (inr w') else wallet_with_balance l network amount
      end
  end.
Definition GetWalletWithBalance (c : Config Key) (network : option Network) (amount : option Z) : T (string + Wallet Key) :=
  wallet_with_balance (Wallets c) network amount.

(** ** network-get-blocknumber.go *)

Notation Fn := (Config Key → option test_params → T (bool * error)).

Fixpoint get_block_numbers (l : list (option Network)) : T (bool * error) :=
  match l with
  | [] => mret (true, None)
  | network :: l =>
      network ← deref network;
      '(_, err) ← op (BlockNumber (Addr network));
      match err with
      | Some _ => mret (false, Some "failed to get block number")
      | None => get_block_numbers l
      end
  end.
Definition NetworkGetBlockNumber_Fn : Fn := λ config _, get_block_numbers (GetNetworks config).
Definition NetworkGetBlockNumber : @Test (Config Key) test_params W :=
  mk_test "network-get-block-number" None (Some NetworkGetBlockNumber_Fn).

(** ** network-get-chainid.go *)

Definition ValidateChainID (network : Network) : T (bool * error) :=
  chainID ← op (nat_ChainID (Addr network));
  mret (match chainID with
    | inl err => (false, Some ("error requesting chain id from network " ++ net_Name network ++ ". Error: " ++ err))
    | inr chainID =>
        let got := match chainID with Some z => pretty z | None => "<nil>" end in
        if bool_decide (chainID = Some (ChainID network)) then (true, None)
        else (false, Some ("failed to get expected chain id for network " ++ net_Name network ++ ". Expected: " ++
          pretty (ChainID network) ++ ". Got: " ++ got))
    end).

Fixpoint get_chain_ids (l : list (option Network)) : T (bool * error) :=
  match l with
  | [] => mret (true, None)
  | network :: l =>
      network ← deref network;
      if ChainID network <? 0 then mret (false, None) else
      '(ok, err) ← ValidateChainID network;
      match ok, err with
      | true, None => get_chain_ids l
      | _, _ => mret (false, err)
      end
  end.
Definition NetworkGetChainID_Fn : Fn := λ config _, get_chain_ids (GetNetworks config).
Definition NetworkGetChainID : @Test (Config Key) test_params W :=
  mk_test "network-get-chainid" None (Some NetworkGetChainID_Fn).

(** ** simple-transfer.go *)

(** Five draws for a receiver other than the sender. *)
Fixpoint draw_receiver (i : nat) (cfg : Config Key) (sender : Wallet Key) : T (string + Wallet Key) :=
  match i with
  | O => mret (inl "unable to find valid receiver wallet that did not match sender wallet")
  | S i =>
      receiver ← GetRandomWallet cfg;
      receiver ← deref receiver;
      if String.eqb (address receiver) (address sender) then draw_receiver i cfg sender else mret (inr receiver)
  end.
Definition SetupSimpleTransferTest (network : option Network) (cfg : Config Key) (MinBalance : Z) :
    T (string + Wallet Key * Wallet Key) :=
  sender ← GetWalletWithBalance cfg network (Some MinBalance);
  match sender with
  | inl err => mret (inl err)
  | inr sender =>
      receiver ← draw_receiver 5 cfg sender;
      mret (match receiver with inl err => inl err | inr receiver => inr (sender, receiver) end)
  end.

(** A read of a balance, after which the rest runs unless it failed. *)
Definition with_balance (w : Wallet Key) (network : Network) (what : string) (k : Z → T (bool * error)) : T (bool * error) :=
  b ← GetBalance (Some w) (Some network);
  match b with inl err => mret (false, Some (Wrap err what)) | inr b => k b end.

Definition SimpleTransferTest (network : option Network) (sender receiver : option (Wallet Key)) (TransferAmount : Z) :
    T (bool * error) :=
  match network, sender, receiver with
  | Some network, Some sender, Some receiver =>
      with_balance sender network "error getting sender balance" (λ senderBalancePre,
      with_balance receiver network "error getting receiver balance" (λ receiverBalancePre,
      tx ← Send sender network TransferAmount (address receiver);
      match tx with
      | inl err => mret (false, Some (Wrap err (Sprintf "error sending simple transfernetwork: %ssender: %sreceiver: %s"
          [net_Name network; address sender; address receiver])))
      | inr tx =>
          err ← PollForConfirmations network 2 (nat_Hash tx);
          match err with
          | Some err => mret (false, Some (Wrap err "error polling for tx confirmation"))
          | None =>
              with_balance sender network "error getting sender balance" (λ senderBalancePost,
              with_balance receiver network "error getting receiver balance" (λ receiverBalancePost,
              let receiverDiff := receiverBalancePost - receiverBalancePre in
              let senderPostExpected := senderBalancePre - TransferAmount in
              if negb (TransferAmount =? receiverDiff) then
                mret (false, Some "error receiver balance post transfer was incorrect")
              else if senderPostExpected <=? senderBalancePost then
                mret (false, Some "error sender balance post transfer was greater than expected")
              else mret (true, None)))
          end
      end))
  | _, _, _ => mret (false, Some "error empty arguments provided for SimpleTransferTest")
  end.

Fixpoint transfer_on (l : list (option Network)) (cfg : Config Key) (TransferAmount MinBalance : Z) : T (bool * error) :=
  match l with
  | [] => mret (true, None)
  | network :: l =>
      setup ← SetupSimpleTransferTest network cfg MinBalance;
      match setup with
      | inl err => mret (false, Some err)
      | inr (sender, receiver) =>
          '(pass, err) ← SimpleTransferTest network (Some sender) (Some receiver) TransferAmount;
          match err with
          | Some err =>
              network ← deref network;
              mret (false, Some (Wrap err ("error executing simple transfer for network: " ++ net_Name network)))
          | None => if pass : bool then transfer_on l cfg TransferAmount MinBalance else mret (false, None)
          end
      end
  end.
Definition SimpleTransfer_Fn : Fn := λ cfg params,
  match params with
  | Some (SimpleTranferParams TransferAmount MinBalance) => transfer_on (GetNetworks cfg) cfg TransferAmount MinBalance
  | _ => m_panic "interface conversion: params is not SimpleTranferParams"
  end.
Definition SimpleTransfer : @Test (Config Key) test_params W :=
  mk_test "simple-transfer" (Some (SimpleTranferParams (1 * GWei) (10 * GWei))) (Some SimpleTransfer_Fn).

(** ** simple-deposit.go *)

Definition SetupSimpleDepositTest (config : Config Key) (MinL1Balance : Z) : T (string + Wallet Key) :=
  wallet ← GetWalletWithBalance config (L1 config) (Some MinL1Balance);
  mret (match wallet with inl err => inl (Wrap err "SetupSimpleDepositTest failed") | inr wallet => inr wallet end).

(** The loop that waits for the deposit to arrive: whether each balance was seen to change. *)
Fixpoint await_deposit (i : nat) (wallet : Wallet Key) (l1 l2 : Network) (l1PostExpected l2PostExpected : Z)
    (l1Diff l2Diff : bool) : T (string + bool * bool) :=
  match i with
  | O => mret (inr (l1Diff, l2Diff))
  | S i =>
      l1Post ← GetBalance (Some wallet) (Some l1);
      match l1Post with
      | inl err => mret (inl (Wrap err "error getting l1 balance"))
      | inr l1Post =>
          l2Post ← GetBalance (Some wallet) (Some l2);
          match l2Post with
          | inl err => mret (inl (Wrap err "error getting l2 balance"))
          | inr l2Post =>
              let l1Diff := l1Diff || (l1Post <? l1PostExpected) in
              let l2Diff := l2Diff || (l2PostExpected =? l2Post) in
              if l2Diff && l1Diff then mret (inr (l1Diff, l2Diff))
              else _ ← wait (5 * Second); await_deposit i wallet l1 l2 l1PostExpected l2PostExpected l1Diff l2Diff
          end
      end
  end.

(** The portal is an array of twenty bytes, so never of length zero. *)
Definition SimpleDepositTest (config : Config Key) (wallet : option (Wallet Key)) (portal : string)
    (MaxBalanceChecks DepositAmount : Z) : T (bool * error) :=
  match L1 config, wallet, L2A config with
  | Some l1, Some wallet, Some l2 =>
      with_balance wallet l1 "error getting l1 balance" (λ l1Pre,
      with_balance wallet l2 "error getting l2 balance" (λ l2Pre,
      tx ← Send wallet l1 DepositAmount portal;
      match tx with
      | inl err => mret (false, Some (Wrap err (Sprintf
          ("error sending simple depositl1_network: %sl2_network: %swalletA: %s" ++ net_Name l1) [net_Name l2; address wallet])))
      | inr tx =>
          err ← PollForConfirmations l1 3 (nat_Hash tx);
          match err with
          | Some _ => mret (false, Some "polling for deposit transaction confirmation timed out")
          | None =>
              r ← await_deposit (Z.to_nat MaxBalanceChecks) wallet l1 l2 (l1Pre - DepositAmount) (DepositAmount + l2Pre)
                false false;
              mret (match r with
                | inl err => (false, Some err)
                | inr (l1Diff, l2Diff) =>
                    if negb l1Diff then (false, Some "error l1 balance was not subtracted during deposit")
                    else if negb l2Diff then (false, Some "error l2 balance was not added to during deposit")
                    else (true, None)
                end)
          end
      end))
  | _, _, _ => mret (false, Some "error empty arguments provided for SimpleDepositTest")
  end.

Definition SimpleDeposit_Fn : Fn := λ cfg params,
  match params with
  | Some (SimpleDepositParams MaxBalanceChecks DepositAmount MinL1Balance) =>
      wallet ← SetupSimpleDepositTest cfg MinL1Balance;
      l2 ← index (man_L2 (SC cfg)) 0;
      let l2ProxyPortal := nat_HexToAddress (OptimismPortalProxy (l2_Addresses l2)) in
      match wallet with
      | inl err => mret (false, Some err)
      | inr wallet => SimpleDepositTest cfg (Some wallet) l2ProxyPortal MaxBalanceChecks DepositAmount
      end
  | _ => m_panic "interface conversion: params is not SimpleDepositParams"
  end.
Definition SimpleDeposit : @Test (Config Key) test_params W :=
  mk_test "simple-deposit" (Some (SimpleDepositParams 12 (10 * Wei) (1 * GWei))) (Some SimpleDeposit_Fn).

(** ** tx-fuzz.go *)

Fixpoint wallet_keys (l : list (option (Wallet Key))) : T (list Key) :=
  match l with
  | [] => mret []
  | w :: l => w ← deref w; ks ← wallet_keys l; mret (PrivateKeyESCDA w :: ks)
  end.
Definition newConfig (config : Config Key) (TxPerAccount : Z) (GenerateAccessList : bool) (MinBalance : option Z) : T (string + Spam) :=
  network ← deref (L2A config);
  sender ← GetWalletWithBalance config (Some network) MinBalance;
  match sender with
  | inl err => mret (inl (Wrap err "failed to find sender with min balance"))
  | inr sender =>
      cfg ← op (NewDefaultConfig (Addr network) TxPerAccount GenerateAccessList);
      match cfg with
      | inl err => mret (inl err)
      | inr cfg =>
          privKeys ← wallet_keys (Wallets config);
          mret (inr (WithKeys privKeys (WithFaucet (PrivateKeyESCDA sender) cfg)))
      end
  end.

Fixpoint spam_slots (n : nat) (config : Spam) (airdropValue : Z) : T error :=
  match n with
  | O => mret None
  | S n =>
      err ← op (Airdrop config airdropValue);
      match err with
      | Some err => mret (Some err)
      | None =>
          err ← op (SpamTransactions config);
          match err with
          | Some err => mret (Some err)
          | None => _ ← wait (SlotTime config * Second); spam_slots n config airdropValue
          end
      end
  end.
Definition spam (config : Spam) (airdropValue NSlotsToRunFor : Z) : T error :=
  err ← op (Unstuck config);
  match err with
  | Some err => mret (Some err)
  | None => spam_slots (Z.to_nat NSlotsToRunFor) config airdropValue
  end.
Definition TxFuzz_Fn : Fn := λ cfg params,
  match params with
  | Some (TxFuzzParams NSlotsToRunFor TxPerAccount GenerateAccessList MinBalance) =>
      fuzzCfg ← newConfig cfg TxPerAccount GenerateAccessList MinBalance;
      match fuzzCfg with
      | inl err => mret (false, Some err)
      | inr fuzzCfg =>
          err ← spam fuzzCfg (1 * Wei) NSlotsToRunFor;
          mret (match err with Some err => (false, Some err) | None => (true, None) end)
      end
  | _ => m_panic "interface conversion: params is not TxFuzzParams"
  end.
Definition TxFuzz : @Test (Config Key) test_params W :=
  mk_test "tx-fuzz" (Some (TxFuzzParams 120 3 false (Some (10 * GWei)))) (Some TxFuzz_Fn).

(** ** The suites and the gate *)

Definition suite_Network : Suite := mk_suite "network" [NetworkGetBlockNumber; NetworkGetChainID] ∅.
Definition DepositSuite : Suite := mk_suite "simple-deposit" [SimpleDeposit] {["simple-deposit" := SimpleDepositParams 24 0 0]}.
Definition suite_SimpleTransfer : Suite := mk_suite "simple-transfer" [SimpleTransfer] ∅.
Definition LoadTest : Suite := mk_suite "load-test" [TxFuzz] {["tx-fuzz" := TxFuzzParams 3 2 false (Some (10 * GWei))]}.
Definition Alphanet : Validator :=
  GateV "alphanet" (Some ∘ SuiteV <$> [suite_Network; DepositSuite; suite_SimpleTransfer; LoadTest]) ∅.
End tests.

(** ** Waiting for confirmations *)

Section poll.
Context {Key Signed Spam W : Type} `{NatEth Key Signed Spam W}.
Context (n : Network) (confs : Z) (txhash : string).

(** The node answers: it knows its head, which is no lower than the block of a receipt it
    has just given, and its receipts have a block. *)
Record node_answers : Prop := mk_answers {
  head_known w : ∃ h, (BlockNumber (Addr n) w).1 = (h, None) ∧ is_u64 h;
  receipt_block w r e w' : nat_Receipt (Addr n) txhash w = ((Some r, e), w') →
    ∃ b, r_BlockNumber r = Some b ∧ 0 ≤ b ≤ (BlockNumber (Addr n) w').1.1
}.

(** The transaction has a receipt and is deep enough below the head. *)
Definition confirmed (w : W) : bool :=
  let '((receipt, _), w') := nat_Receipt (Addr n) txhash w in
  match receipt ≫= r_BlockNumber with
  | Some b => confs <=? (BlockNumber (Addr n) w').1.1 - b
  | None => false
  end.

(** What the world is at the next poll. *)
Definition next_poll (w : W) : W :=
  let '((receipt, _), w') := nat_Receipt (Addr n) txhash w in
  nat_Sleep (10 * Second) (match receipt with None => w' | Some _ => (BlockNumber (Addr n) w').2 end).

Lemma poll_once_run w : node_answers → 0 ≤ confs < two64 →
  ∃ w', poll_once n confs txhash w = Ret (confirmed w, w') ∧ nat_Sleep (10 * Second) w' = next_poll w.
Proof.
  intros [Hh Hr] Hc. unfold poll_once, confirmed, next_poll. rewrite M_bind_eq. unfold op at 1.
  destruct (nat_Receipt (Addr n) txhash w) as [[[r|] e] w1] eqn:E; [|by eexists].
  destruct (Hr w r e w1 E) as (b & Hb & Hle), (Hh w1) as (h & Eh & Hu). rewrite M_bind_eq. unfold op. cbn. rewrite Hb.
  destruct (BlockNumber (Addr n) w1) as [p w2]. cbn in *. subst p. cbn in *. eexists. split; [|reflexivity].
  unfold is_u64 in Hu. rewrite M_bind_eq. cbn. rewrite (u64_small b), (u64_small confs), u64_sub by (unfold is_u64; lia).
  destruct (Z.leb_spec b h); [done|lia].
Qed.

Lemma poll_loop_run i w : node_answers → 0 ≤ confs < two64 →
  ∃ err w', poll_loop i n confs txhash w = Ret (err, w') ∧
    (err = None ↔ ∃ j, (j < i)%nat ∧ confirmed (Nat.iter j next_poll w) = true).
Proof.
  intros Hn Hc. revert w. induction i as [|i IH]; intros w; cbn [poll_loop].
  { eexists _, _. split; [reflexivity|]. split; [done|]. intros (j & ? & _). lia. }
  destruct (poll_once_run w Hn Hc) as (w1 & E & Ew). rewrite (M_bind_run _ _ _ _ _ E).
  destruct (confirmed w) eqn:Ec.
  { eexists _, _. split; [reflexivity|]. split; [|done]. intros _. exists O. split; [lia|done]. }
  rewrite M_bind_eq. unfold wait, op. cbn. rewrite Ew. destruct (IH (next_poll w)) as (err & w' & E' & Hi).
  exists err, w'. split; [exact E'|]. rewrite Hi. split; intros (j & Hj & Hcj).
  - exists (S j). split; [lia|]. by rewrite Nat.iter_succ_r.
  - destruct j as [|j]; [cbn in Hcj; congruence|]. exists j. split; [lia|]. by rewrite Nat.iter_succ_r in Hcj.
Qed.
End poll.

(** Polling for a transaction always returns when the node answers, and reports it
    confirmed exactly when at one of ten polls it was as deep below the head as asked for. *)
Theorem poll_confirms `{NatEth Key Signed Spam W} n confs txhash (w : W) :
  node_answers n txhash → 0 ≤ confs < two64 →
  ∃ err w', PollForConfirmations n confs txhash w = Ret (err, w') ∧
    (err = None ↔ ∃ j, (j < 10)%nat ∧ confirmed n confs txhash (Nat.iter j (next_poll n txhash) w) = true).
Proof. intros Hn Hc. by apply poll_loop_run. Qed.

(** When the node gives a receipt but fails to tell its head, the head counts as zero
    and the difference wraps around: the transaction is reported as confirmed at once, however many
    confirmations were asked for. *)
Theorem poll_without_head `{NatEth Key Signed Spam W} n confs txhash (w : W) b e e' w1 w2 :
  nat_Receipt (Addr n) txhash w = ((Some (mk_receipt (Some b)), e), w1) →
  BlockNumber (Addr n) w1 = ((0, Some e'), w2) → 0 < b < two63 → 0 ≤ confs < two63 →
  PollForConfirmations n confs txhash w = Ret (None, w2).
Proof.
  intros Er Eb Hb Hc. unfold PollForConfirmations. cbn [poll_loop]. rewrite M_bind_eq. unfold poll_once.
  rewrite M_bind_eq. unfold op at 1. rewrite Er, M_bind_eq. unfold op. rewrite Eb, M_bind_eq. cbn.
  pose proof (eq_refl : two64 = 2 * two63).
  rewrite (u64_small b), (u64_small confs), (u64_sub 0 b) by (unfold is_u64; lia).
  destruct (Z.leb_spec b 0); [lia|]. by rewrite (proj2 (Z.leb_le confs _)) by lia.
Qed.

(** ** What a passing gate has seen *)

(** [R] relates a world to the later ones: every operation goes forward. *)
Definition forward {W X} (R : W → W → Prop) (f : W → X * W) : Prop := ∀ w, R w (f w).2.
Class Evolves (Key Signed Spam W : Type) `{NatEth Key Signed Spam W} (R : W → W → Prop) : Prop := {
  evolves_preorder :: PreOrder R;
  forward_sleep d : forward R (λ w, (tt, nat_Sleep d w));
  forward_intn n : forward R (Intn n);
  forward_block a : forward R (BlockNumber a);
  forward_chain a : forward R (nat_ChainID a);
  forward_receipt a h : forward R (nat_Receipt a h);
  forward_balance a x : forward R (BalanceAt a x);
  forward_nonce a x : forward R (nat_PendingNonceAt a x);
  forward_price a : forward R (SuggestGasPrice a);
  forward_network a : forward R (NetworkID a);
  forward_send a tx : forward R (nat_SendTransaction a tx);
  forward_default a k b : forward R (NewDefaultConfig a k b);
  forward_unstuck c : forward R (Unstuck c);
  forward_airdrop c v : forward R (Airdrop c v);
  forward_spam c : forward R (SpamTransactions c)
}.

Section sound.
Context {Key Signed Spam W : Type} `{NatEth Key Signed Spam W} {R : W → W → Prop} `{!Evolves Key Signed Spam W R}.
Notation T := (M W).

(** The balance that is read at [w]. *)
Definition reads (net : Network) (a : string) (v : Z) (w : W) : Prop := (BalanceAt (Addr net) a w).1 = inr v.

(** A test that passes leaves a world with [G]. *)
Definition sound (m : T (bool * error)) (w : W) (G : W → Prop) : Prop :=
  wp (λ _, True) m w (λ r w', R w w' ∧ (r.1 = true → G w')).

Lemma sound_false err w G : sound (mret (false, err)) w G.
Proof. apply wp_ret. by split. Qed.
Lemma sound_true err w (G : W → Prop) : G w → sound (mret (true, err)) w G.
Proof. intros. apply wp_ret. by split. Qed.
Lemma sound_panic why w G : sound (m_panic why) w G.
Proof. done. Qed.
Lemma sound_mono m w (G G' : W → Prop) : sound m w G → (∀ w', R w w' → G w' → G' w') → sound m w G'.
Proof. intros Hm HG. eapply wp_mono; [exact Hm|]. intros r w' [HR Hr]. split; [done|]. intros Ht. by apply HG, Hr. Qed.

Lemma sound_bind {X} (m : T X) (f : X → T (bool * error)) w G : respects R m →
  (∀ x w1, R w w1 → m w = Ret (x, w1) → sound (f x) w1 G) → sound (m ≫= f) w G.
Proof.
  intros Hm Hf. apply wp_bind. unfold wp. destruct (m w) as [[x w1]|why] eqn:E; [|done].
  pose proof (Hm w x w1 E) as HR. specialize (Hf x w1 HR eq_refl). eapply wp_mono; [exact Hf|].
  intros r w' [HR' Hr]. split; [by etransitivity|done].
Qed.

Lemma respects_op {X} (f : W → X * W) : forward R f → respects R (op f).
Proof. intros Hf w x w' E. injection E as E. specialize (Hf w). by rewrite E in Hf. Qed.
Lemma respects_wait d : respects R (wait d).
Proof. apply respects_op, forward_sleep. Qed.
Lemma respects_deref {X} (p : option X) : respects R (deref p).
Proof. destruct p; [by apply respects_ret; apply _|apply respects_panic]. Qed.
Lemma respects_index {X} (l : list X) i : respects R (index l i).
Proof. unfold index. destruct (l !! i); [by apply respects_ret; apply _|apply respects_panic]. Qed.

#[local] Hint Resolve respects_op respects_wait respects_deref respects_index : respects.
#[local] Hint Resolve forward_sleep forward_intn forward_block forward_chain forward_receipt forward_balance forward_nonce
  forward_price forward_network forward_send forward_default forward_unstuck forward_airdrop forward_spam : respects.

Lemma respects_GetBalance w n : respects R (GetBalance w n).
Proof. unfold GetBalance. respects_tac; eauto with respects. Qed.
#[local] Hint Resolve respects_GetBalance : respects.
Lemma respects_Send w n a to : respects R (Send w n a to).
Proof. unfold Send. respects_tac; eauto with respects. Qed.
Lemma respects_Poll n c h : respects R (PollForConfirmations n c h).
Proof.
  unfold PollForConfirmations. generalize 10%nat as i. induction i as [|i IH]; cbn [poll_loop]; [respects_tac|].
  unfold poll_once. respects_tac; eauto with respects.
Qed.
Lemma respects_GetWallet c n a : respects R (GetWalletWithBalance c n a).
Proof.
  unfold GetWalletWithBalance. induction (Wallets c) as [|w l IH]; cbn [wallet_with_balance]; respects_tac; eauto with respects.
Qed.
Lemma respects_draw i c s : respects R (draw_receiver i c s).
Proof. induction i as [|i IH]; cbn [draw_receiver]; unfold GetRandomWallet; respects_tac; eauto with respects. Qed.
#[local] Hint Resolve respects_Send respects_Poll respects_GetWallet respects_draw : respects.
Lemma respects_setup n c m : respects R (SetupSimpleTransferTest n c m).
Proof. unfold SetupSimpleTransferTest. respects_tac; eauto with respects. Qed.
#[local] Hint Resolve respects_setup : respects.

Lemma sound_balance x n what k w G : (∀ v w1, R w w1 → reads n (address x) v w → sound (k v) w1 G) →
  sound (with_balance x n what k) w G.
Proof.
  intros Hk. apply sound_bind; [auto with respects|]. intros [err|v] w1 HR E; [apply sound_false|].
  apply Hk; [done|]. unfold reads. unfold GetBalance in E. rewrite !M_bind_eq in E. cbn in E. rewrite M_bind_eq in E.
  injection E as E. by rewrite E.
Qed.

Lemma balance_wp x n w (Q : string + Z → W → Prop) :
  (∀ r w1, R w w1 → (BalanceAt (Addr n) (address x) w).1 = r → Q r w1) → wp (λ _, True) (GetBalance (Some x) (Some n)) w Q.
Proof.
  intros HQ. unfold wp, GetBalance. rewrite M_bind_eq. cbn. rewrite M_bind_eq. cbn. unfold op.
  pose proof (forward_balance (R := R) (Addr n) (address x) w). destruct (BalanceAt _ _ w) as [r w1]. by apply HQ.
Qed.

(** The balances before and after show that [amount] has gone from one wallet to another,
    and that the sender has paid for gas. *)
Definition transferred (n : Network) (amount : Z) (w w' : W) : Prop :=
  ∃ (s r : Wallet Key) w1 w2 w3 w4 s_pre r_pre s_post r_post, address s ≠ address r ∧
    R w w1 ∧ R w1 w2 ∧ R w2 w3 ∧ R w3 w4 ∧ R w4 w' ∧
    reads n (address s) s_pre w1 ∧ reads n (address r) r_pre w2 ∧ reads n (address s) s_post w3 ∧ reads n (address r) r_post w4 ∧
    r_post = r_pre + amount ∧ s_post < s_pre - amount.

Lemma transferred_later n amount w0 w w' w2 : R w0 w → transferred n amount w w' → R w' w2 → transferred n amount w0 w2.
Proof.
  intros HR (s & r & w3 & w4 & w5 & w6 & a & b & c & d & Hne & H1 & H2 & H3 & H4 & H5 & Hrest) HR'.
  exists s, r, w3, w4, w5, w6, a, b, c, d. split_and!; first [tauto|by transitivity w|by transitivity w'].
Qed.

Lemma transfer_sound n s r amount w : address s ≠ address r →
  sound (SimpleTransferTest (Some n) (Some s) (Some r) amount) w (λ w', transferred n amount w w').
Proof.
  intros Hne. unfold SimpleTransferTest. apply sound_balance. intros s_pre w1 H1 Hs. apply sound_balance. intros r_pre w2 H2 Hr.
  apply sound_bind; [auto with respects|]. intros [err|tx] w3 H3 _; [apply sound_false|].
  apply sound_bind; [auto with respects|]. intros [err|] w4 H4 _; [apply sound_false|].
  apply sound_balance. intros s_post w5 H5 Hs'. apply sound_balance. intros r_post w6 H6 Hr'. cbv zeta.
  destruct (Z.eqb_spec amount (r_post - r_pre)) as [Hd|]; cbn [negb]; [|apply sound_false].
  destruct (Z.leb_spec (s_pre - amount) s_post); [apply sound_false|]. apply sound_true.
  exists s, r, w, w1, w4, w5, s_pre, r_pre, s_post, r_post. split_and!; try done; [|lia].
  by transitivity w2; [|transitivity w3].
Qed.

Lemma draw_other i c s w r w' : draw_receiver i c s w = Ret (inr r, w') → address s ≠ address r.
Proof.
  revert w. induction i as [|i IH]; intros w E; cbn [draw_receiver] in E; [discriminate|].
  run_step E x w1 E1. run_step E y w2 E2. destruct (String.eqb_spec (address y) (address s)); [by eapply IH|].
  injection E as <- _. congruence.
Qed.

Lemma transfer_on_sound l cfg amount m w : sound (transfer_on (Some <$> l) cfg amount m) w (λ w',
  Forall (λ n, transferred n amount w w') l).
Proof.
  revert w. induction l as [|n l IH]; intros w; cbn [transfer_on fmap list_fmap]; [by apply sound_true|].
  apply sound_bind; [auto with respects|]. intros [err|[s r]] w1 H1 E; [apply sound_false|].
  assert (address s ≠ address r) as Hne.
  { unfold SetupSimpleTransferTest in E. run_step E x w2 E1. destruct x as [|s']; [discriminate|]. run_step E y w3 E2.
    destruct y as [|r']; [discriminate|]. injection E as <- <- _. by eapply draw_other. }
  pose proof (transfer_sound n s r amount w1 Hne) as Ht. apply wp_bind. eapply wp_mono; [exact Ht|].
  intros [pass [err|]] w2 [H2 Hp]; cbn in Hp; [by apply wp_ret|].
  destruct pass; [|by apply wp_ret]. eapply wp_mono; [apply IH|].
  intros res w3 [H3 Hres]. split; [by transitivity w2|]. intros Hok. constructor.
  - by eapply transferred_later; [|by apply Hp|].
  - eapply Forall_impl; [by apply Hres|]. intros n' Hn'. eapply transferred_later; [|exact Hn'|done]. by transitivity w1.
Qed.

(** The wallet has less on [l1] than before minus [amount]; on [l2] it was seen with [amount] more. *)
Definition deposited (l1 l2 : Network) (amount : Z) (w w' : W) : Prop :=
  ∃ (x : Wallet Key) w1 w2 w3 w4 a b a' b', R w w1 ∧ R w1 w2 ∧ R w2 w3 ∧ R w3 w' ∧ R w2 w4 ∧ R w4 w' ∧
    reads l1 (address x) a w1 ∧ reads l2 (address x) b w2 ∧ reads l1 (address x) a' w3 ∧ reads l2 (address x) b' w4 ∧
    a' < a - amount ∧ b' = b + amount.

Definition seen (P : W → Prop) (d : bool) (w w' : W) : Prop := d = true → ∃ v, R w v ∧ R v w' ∧ P v.
Lemma seen_later P d w w1 w2 : seen P d w w1 → R w1 w2 → seen P d w w2.
Proof. intros Hs HR Hd. destruct (Hs Hd) as (v & ? & ? & ?). exists v. split_and!; [done|by etransitivity|done]. Qed.

Lemma await_sound i x l1 l2 e1 e2 d1 d2 w0 w : R w0 w →
  let P1 v := ∃ a, reads l1 (address x) a v ∧ a < e1 in let P2 v := ∃ b, reads l2 (address x) b v ∧ b = e2 in
  seen P1 d1 w0 w → seen P2 d2 w0 w →
  wp (λ _, True) (await_deposit i x l1 l2 e1 e2 d1 d2) w (λ r w', R w w' ∧
    ∀ d1' d2', r = inr (d1', d2') → seen P1 d1' w0 w' ∧ seen P2 d2' w0 w').
Proof.
  intros H0 P1 P2. revert d1 d2 w H0. induction i as [|i IH]; intros d1 d2 w H0 Hd1 Hd2; cbn [await_deposit].
  { apply wp_ret. split; [done|]. by intros ? ? [= <- <-]. }
  apply wp_bind, balance_wp. intros a w1 H1 Ha. destruct a as [err|a]; [by apply wp_ret|].
  apply wp_bind, balance_wp. intros b w2 H2 Hb. assert (R w w2) as H02 by (by transitivity w1).
  destruct b as [err|b]; [by apply wp_ret|]. cbv zeta.
  assert (seen P1 (d1 || (a <? e1)) w0 w2) as Hs1.
  { intros [Hd|Hd%Z.ltb_lt]%orb_true_iff; [by apply (seen_later _ _ _ _ _ Hd1)|]. exists w. split_and!; [done..|]. by exists a. }
  assert (seen P2 (d2 || (e2 =? b)) w0 w2) as Hs2.
  { intros [Hd|Hd%Z.eqb_eq]%orb_true_iff; [by apply (seen_later _ _ _ _ _ Hd2)|]. exists w1.
    split_and!; [by transitivity w|done|]. by exists b. }
  destruct (_ && _). { apply wp_ret. split; [done|]. by intros ? ? [= <- <-]. }
  apply wp_bind. unfold wp, wait, op. cbn. set (w3 := nat_Sleep _ _).
  assert (R w2 w3) as H3 by apply (forward_sleep (R := R) (5 * Second) w2).
  eapply wp_mono; [apply IH; [by transitivity w; [|transitivity w2]|by eapply seen_later..]|].
  intros r w4 [H4 Hr]. split; [by transitivity w2; [|transitivity w3]|done].
Qed.

Lemma deposit_sound cfg x l1 l2 portal checks amount w : L1 cfg = Some l1 → L2A cfg = Some l2 →
  sound (SimpleDepositTest cfg (Some x) portal checks amount) w (λ w', deposited l1 l2 amount w w').
Proof.
  intros E1 E2. unfold SimpleDepositTest. rewrite E1, E2.
  apply sound_balance. intros a w1 H1 Ha. apply sound_balance. intros b w2 H2 Hb.
  apply sound_bind; [auto with respects|]. intros [err|tx] w3 H3 _; [apply sound_false|].
  apply sound_bind; [auto with respects|]. intros [err|] w4 H4 _; [apply sound_false|].
  assert (R w1 w4) as H14 by (by transitivity w2; [|transitivity w3]).
  apply wp_bind. eapply wp_mono; [by apply (await_sound _ x l1 l2 (a - amount) (amount + b) false false w1)|].
  intros r w5 [H5 Hr]. apply wp_ret. split; [done|]. destruct r as [err|[[] []]]; cbn; try done. intros _.
  destruct (Hr true true eq_refl) as [S1 S2]. destruct (S1 eq_refl) as (v1 & Hv1 & Hv1' & a' & Ha' & Hlt).
  destruct (S2 eq_refl) as (v2 & Hv2 & Hv2' & b' & Hb' & Heq).
  exists x, w, w1, v1, v2, a, b, a', b'. split_and!; try done; lia.
Qed.

Lemma deposit_fn_sound cfg l1 l2 checks amount m w : L1 cfg = Some l1 → L2A cfg = Some l2 →
  sound (SimpleDeposit_Fn cfg (Some (SimpleDepositParams checks amount m))) w (λ w', deposited l1 l2 amount w w').
Proof.
  intros E1 E2. cbn. apply sound_bind.
  { unfold SetupSimpleDepositTest. respects_tac; eauto with respects. }
  intros x w1 H1 _. apply sound_bind; [auto with respects|]. intros m2 w2 H2 _.
  destruct x as [err|x]; [apply sound_false|]. eapply sound_mono; [by apply deposit_sound|].
  intros w' H' (y & v1 & v2 & v3 & v4 & a & b & a' & b' & Hv & Hrest). exists y, v1, v2, v3, v4, a, b, a', b'.
  split; [|exact Hrest]. by transitivity w1; [|transitivity w2].
Qed.

(** The chain id, asked for in between, is the configured one. *)
Definition chain_id_checked (w w' : W) (n : Network) : Prop :=
  0 ≤ ChainID n ∧ ∃ v, R w v ∧ R v w' ∧ (nat_ChainID (Addr n) v).1 = inr (Some (ChainID n)).

Lemma chain_ids_sound l w : sound (get_chain_ids (Some <$> l)) w (λ w', Forall (chain_id_checked w w') l).
Proof.
  revert w. induction l as [|n l IH]; intros w; cbn [get_chain_ids fmap list_fmap]; [by apply sound_true|].
  apply sound_bind; [auto with respects|]. intros n' w1 H1 [= <- <-].
  destruct (Z.ltb_spec (ChainID n) 0) as [|Hpos]; [apply sound_false|].
  apply sound_bind; [unfold ValidateChainID; respects_tac; eauto with respects|]. intros [ok err] w2 H2 E.
  unfold ValidateChainID in E. rewrite M_bind_eq in E. unfold op in E.
  destruct (nat_ChainID (Addr n) w) as [id w3] eqn:Eid. cbn in E. injection E as Eok ->.
  destruct id as [e|id]; [injection Eok as <- <-; apply sound_false|].
  case_bool_decide as Hid; injection Eok as <- <-; [|apply sound_false].
  eapply sound_mono; [apply IH|]. intros w' Hw' Hl. constructor.
  - split; [done|]. exists w. split_and!; [done|by transitivity w2|]. by rewrite Eid, Hid.
  - eapply Forall_impl; [exact Hl|]. intros m (Hm & v & Hv & Hv' & Em). split; [done|]. exists v. split_and!; [by transitivity w2|done..].
Qed.

(** The head was told. *)
Definition head_told (w w' : W) (n : Network) : Prop := ∃ v h, R w v ∧ R v w' ∧ (BlockNumber (Addr n) v).1 = (h, None).

Lemma heads_sound l w : sound (get_block_numbers (Some <$> l)) w (λ w', Forall (head_told w w') l).
Proof.
  revert w. induction l as [|n l IH]; intros w; cbn [get_block_numbers fmap list_fmap]; [by apply sound_true|].
  apply sound_bind; [auto with respects|]. intros n' w1 H1 [= <- <-].
  apply sound_bind; [auto with respects|]. intros [h [e|]] w2 H2 E; [apply sound_false|]. injection E as E.
  eapply sound_mono; [apply IH|]. intros w' Hw' Hl. constructor.
  - exists w, h. split_and!; [done|by transitivity w2|by rewrite E].
  - eapply Forall_impl; [exact Hl|]. intros m (v & k & Hv & Hv' & Em). exists v, k. split_and!; [by transitivity w2|done..].
Qed.

(** The load test says nothing of the network but that spamming it gave no error. *)
Lemma load_sound cfg params w : sound (TxFuzz_Fn cfg params) w (λ _, True).
Proof.
  assert (∀ n c v, respects R (spam_slots n c v)) as Hs.
  { intros n c v. induction n as [|n IH]; cbn [spam_slots]; respects_tac; eauto with respects. }
  assert (∀ l : list (option (Wallet Key)), respects R (wallet_keys l)) as Hk.
  { induction l as [|x l IH]; cbn [wallet_keys]; respects_tac; eauto with respects. }
  destruct params as [[| |slots per acl m]|]; [apply sound_panic..| |apply sound_panic]. cbn. apply sound_bind.
  { unfold newConfig. respects_tac; eauto with respects. }
  intros [err|c] w1 H1 _; [apply sound_false|]. apply sound_bind; [unfold spam; respects_tac; eauto with respects|].
  intros [err|] w2 H2 _; [apply sound_false|by apply sound_true].
Qed.

Lemma all_pass_cons config (x : @Test (Config Key) test_params W * option test_params) l f w w' G :
  Acceptance.Fn x.1 = Some f →
  sound (f config (match x.2 with Some _ => x.2 | None => DefaultParams x.1 end)) w G →
  all_pass config (x :: l) w = Ret (true, w') → ∃ w1, R w w1 ∧ G w1 ∧ all_pass config l w1 = Ret (true, w').
Proof.
  intros Ef Hs E. cbn [all_pass] in E. run_step E b w1 E1. run_step E b' w2 E2. injection E as Eb <-.
  apply andb_true_iff in Eb as [-> ->]. exists w1. unfold passes in E1. rewrite Ef in E1. run_step E1 r w3 E3.
  injection E1 as Er <-. apply (wp_run _ _ _ _ _ _ Hs) in E3 as [HR HG]. auto.
Qed.
End sound.

(** C25: when the gate for alphanet passes, the two networks have told their heads and their
    configured chain ids, and on each a gigawei has gone from a wallet to another one, whose balances were
    read before and after. Of the deposit it has seen that the sender paid on L1, and on L2 a balance equal to
    the one before: the suite deposits nothing, so this says nothing about the bridge. *)
Theorem alphanet_sound {Key Signed Spam W} `{NatEth Key Signed Spam W} {R : W → W → Prop} `{!Evolves Key Signed Spam W R}
    (config : Config Key) (l1 l2 : Network) (w w' : W) : L1 config = Some l1 → L2A config = Some l2 →
  all_pass config (tests_of Alphanet None) w = Ret (true, w') →
  Forall (head_told (R := R) w w') [l1; l2] ∧ Forall (chain_id_checked (R := R) w w') [l1; l2] ∧
  Forall (λ n, transferred (R := R) n GWei w w') [l1; l2] ∧ deposited (R := R) l1 l2 0 w w'.
Proof.
  intros E1 E2 E. assert (GetNetworks config = Some <$> [l1; l2]) as Hnet by (unfold GetNetworks; by rewrite E1, E2).
  eapply all_pass_cons in E as (w1 & H1 & G1 & E); [|reflexivity|unfold NetworkGetBlockNumber_Fn; rewrite Hnet; apply heads_sound].
  eapply all_pass_cons in E as (w2 & H2 & G2 & E); [|reflexivity|unfold NetworkGetChainID_Fn; rewrite Hnet; apply chain_ids_sound].
  eapply all_pass_cons in E as (w3 & H3 & G3 & E); [|reflexivity|by apply (deposit_fn_sound config l1 l2)].
  eapply all_pass_cons in E as (w4 & H4 & G4 & E); [|reflexivity|exact (eq_rect_r (λ l, sound (transfer_on l config (1 * GWei) (10 * GWei)) w3 _) (transfer_on_sound [l1; l2] config _ _ w3) Hnet)].
  eapply all_pass_cons in E as (w5 & H5 & G5 & E); [|reflexivity|apply load_sound].
  injection E as <-.
  assert (R w2 w5) as H25 by (by transitivity w3; [|transitivity w4]). assert (R w w2) as H02 by (by transitivity w1).
  split_and!.
  - eapply Forall_impl; [exact G1|]. intros n (v & h & ? & ? & ?). exists v, h. split_and!; [done|by transitivity w1; [|transitivity w2]|done].
  - eapply Forall_impl; [exact G2|]. intros n (? & v & ? & ? & ?). split; [done|]. exists v. split_and!; [by transitivity w1|by transitivity w2|done].
  - eapply Forall_impl; [exact G4|]. intros n Hn. apply (transferred_later n GWei w w3 w4 w5); [by transitivity w2|exact Hn|done].
  - destruct G3 as (x & v1 & v2 & v3 & v4 & a & b & a' & b' & ? & ? & ? & ? & ? & ? & ?). exists x, v1, v2, v3, v4, a, b, a', b'.
    assert (R w3 w5) by (by transitivity w4). split_and!; first [tauto|by transitivity w2|by transitivity w3].
Qed.

(** ** Two chains, and a bridge that loses deposits *)

Module nat_runs.
(** The balances of the two chains, in gigawei and below. A transfer takes its value, and one more for gas,
    from the sender, and gives it to the receiver on the same chain: nothing is ever credited on the other. *)
Record chains := mk_chains { balances : gmap (string * string) Z; drawn : Z }.
Definition balance (w : chains) (net a : string) : Z := default 0 (balances w !! (net, a)).
#[local] Instance chain : NatEth string (string * Transaction) unit chains := {|
  nat_Sleep := λ _ w, w; Intn := λ n w, (drawn w `mod` n, mk_chains (balances w) (drawn w + 1)); nat_Dial := λ _ w, (None, w);
  BlockNumber := λ _ w, ((100, None), w); nat_ChainID := λ a w, (inr (Some (if String.eqb a "http://l1" then 1 else 10)), w);
  nat_Receipt := λ _ _ w, ((Some (mk_receipt (Some 90)), None), w); BalanceAt := λ n a w, (inr (balance w n a), w);
  nat_PendingNonceAt := λ _ _ w, (inr 0, w); SuggestGasPrice := λ _ w, (inr 100, w); NetworkID := λ _ w, (inr 1, w);
  nat_SendTransaction := λ n x w, (None, let '(from, tx) := x in
    let b1 := <[(n, from) := balance w n from - tx_Value tx - 1]> (balances w) in
    let w1 := mk_chains b1 (drawn w) in
    mk_chains (<[(n, tx_To tx) := balance w1 n (tx_To tx) + tx_Value tx]> b1) (drawn w));
  nat_SignTx := λ tx _ key, inr (key, tx); nat_Hash := λ _, "0x1"; nat_HexToECDSA := λ k, inr k; key_Address := λ k, k;
  nat_HexToAddress := λ a, a; NewDefaultConfig := λ _ _ _ w, (inr tt, w); WithFaucet := λ _ c, c; WithKeys := λ _ c, c;
  SlotTime := λ _, 1; Unstuck := λ _ w, (None, w); Airdrop := λ _ _ w, (None, w); SpamTransactions := λ _ w, (None, w)
|}.
#[local] Instance order : Order chains := λ _ l w, (l, w).

(** Later worlds have drawn more. *)
Definition later (w w' : chains) : Prop := drawn w ≤ drawn w'.
#[local] Instance evolves : Evolves string (string * Transaction) unit chains later.
Proof.
  split; [split; [intros w; unfold later; lia|intros a b c; unfold later; lia]|..]; intros; intros w; unfold later; cbn; try lia.
  by destruct tx.
Qed.

Definition no_l1_addresses : L1Addresses := mk_l1_addresses "" "" "" "" "" "" "" "" "" "" "" "" "" "" "" "".
Definition portal : L2Addresses := mk_l2_addresses "" "" "" "" "" "" "" "" "" "" "" "" "" "portal" "" "" "".
Definition nodes (host : string) : list Node := [mk_node (mk_node_services None (Some (mk_service "el" {["rpc" := mk_endpoint host 8545 false]})))].
Definition man : SuperchainManifest := mk_manifest
  (mk_l1 "l1" "1" (nodes "l1") no_l1_addresses {["a" := mk_manifest_wallet "a" "0xa"; "b" := mk_manifest_wallet "b" "0xb"]})
  [mk_l2 "l2" "10" (mk_l2_services (mk_batcher "" ∅) (mk_proposer "" ∅)) (nodes "l2") portal ∅].
Definition w0 : chains := mk_chains {[("http://l1", "a") := 100 * GWei; ("http://l2", "a") := 100 * GWei]} 0.
Definition net (name : string) (id : Z) : Network := mk_network id name ("http://" ++ name).
Definition cfg : Config string := mk_config man
  [Some (mk_wallet "a" "0xa" "a" "a" "user-key-a"); Some (mk_wallet "b" "0xb" "b" "b" "user-key-b")]
  (Some (net "l1" 1)) (Some (net "l2" 10)).

Lemma config_run : returned (NewConfig man w0) = Some (inr cfg, w0).
Proof. vm_compute. reflexivity. Qed.

(** The gate passes although the bridge has lost every deposit. *)
Lemma alphanet_passes : (fst <$> returned (all_pass cfg (tests_of Alphanet None) w0)) = Some true.
Proof. vm_compute. reflexivity. Qed.

Lemma alphanet_sound_witness : ∃ w', all_pass cfg (tests_of Alphanet None) w0 = Ret (true, w') ∧
  Forall (head_told (R := later) w0 w') [net "l1" 1; net "l2" 10] ∧
  Forall (chain_id_checked (R := later) w0 w') [net "l1" 1; net "l2" 10] ∧
  Forall (λ n, transferred (R := later) n GWei w0 w') [net "l1" 1; net "l2" 10] ∧
  deposited (R := later) (net "l1" 1) (net "l2" 10) 0 w0 w'.
Proof.
  destruct (returned_fst _ _ _ alphanet_passes) as (b & w' & E & Eb). cbn in Eb. subst b. exists w'. split; [exact E|].
  apply (alphanet_sound (R := later) cfg (net "l1" 1) (net "l2" 10) w0 w' eq_refl eq_refl E).
Defined.

Lemma poll_confirms_witness : node_answers (net "l1" 1) "0x1" ∧
  ∃ err w', PollForConfirmations (net "l1" 1) 2 "0x1" w0 = Ret (err, w') ∧
    (err = None ↔ ∃ j, (j < 10)%nat ∧ confirmed (net "l1" 1) 2 "0x1" (Nat.iter j (next_poll (net "l1" 1) "0x1") w0) = true).
Proof.
  assert (node_answers (net "l1" 1) "0x1") as Hn.
  { split; [intros w; exists 100; split; [done|split; vm_compute; done]|]. intros w r e w' [= <- _ _]. exists 90. split; [done|cbn; lia]. }
  split; [exact Hn|]. apply poll_confirms; [exact Hn|split; vm_compute; congruence].
Defined.
End nat_runs.

Module headless_runs.
(** A node that has receipts but cannot tell its head. *)
#[local] Instance chain : NatEth unit unit unit unit := {|
  nat_Sleep := λ _ w, w; Intn := λ _ w, (0, w); nat_Dial := λ _ w, (None, w);
  BlockNumber := λ _ w, ((0, Some "timeout"), w); nat_ChainID := λ _ w, (inr None, w);
  nat_Receipt := λ _ _ w, ((Some (mk_receipt (Some 90)), None), w); BalanceAt := λ _ _ w, (inr 0, w);
  nat_PendingNonceAt := λ _ _ w, (inr 0, w); SuggestGasPrice := λ _ w, (inr 0, w); NetworkID := λ _ w, (inr 1, w);
  nat_SendTransaction := λ _ _ w, (None, w); nat_SignTx := λ _ _ _, inr tt; nat_Hash := λ _, "0x1";
  nat_HexToECDSA := λ _, inr tt; key_Address := λ _, "a"; nat_HexToAddress := λ a, a;
  NewDefaultConfig := λ _ _ _ w, (inr tt, w); WithFaucet := λ _ c, c; WithKeys := λ _ c, c;
  SlotTime := λ _, 1; Unstuck := λ _ w, (None, w); Airdrop := λ _ _ w, (None, w); SpamTransactions := λ _ w, (None, w)
|}.

Lemma poll_without_head_witness : PollForConfirmations (mk_network 1 "n" "a") 1000000 "0x1" tt = Ret (None, tt).
Proof.
  apply (poll_without_head (mk_network 1 "n" "a") 1000000 "0x1" tt 90 None "timeout" tt tt);
    [reflexivity|reflexivity|split; vm_compute; congruence|split; vm_compute; congruence].
Defined.
End headless_runs.
