(* ===== verification/Mon.v ===== *)
(** op-conductor-mon: a monitor polls the conductors of a cluster, forgets those it has
    not heard of for long, and reports the rest as gauges. This file has the configuration
    (config/config.go), the instrumented client (metrics/opconductor_client/conductor.go),
    the poller (monitor/poller.go, monitor/poll.go) and the gauges (metrics/metrics.go).

    A gauge keeps its value until it is set again, so the gauges are part of the state.
    Ranging over a map is in an order the world picks. *)
From stdpp Require Import base numbers list gmap sets strings.
From S2P Require Import Prelude.

Local Open Scope string_scope.
Local Open Scope Z_scope.
#[local] Arguments String.append : simpl nomatch.

(** ** config.go *)

Record MetricsConfig := mk_metrics { m_Enabled : bool; m_Debug : bool; m_Host : string; m_Port : string }.
Record HealthzConfig := mk_healthz { h_Enabled : bool; h_Host : string; h_Port : string }.
Record NodeConfig := mk_node { RPCAddress : string }.
Record Config := mk_config {
  LogLevel : string; DryRun : bool; Metrics : MetricsConfig; Healthz : HealthzConfig; PollInterval : Z;
  NodeStateExpiration : Z; RPCTimeout : Z; Nodes : gmap string (option NodeConfig)
}.
#[export] Instance eta_Config : Eta Config := λ r, mk_config (LogLevel r) (DryRun r) (Metrics r) (Healthz r)
  (PollInterval r) (NodeStateExpiration r) (RPCTimeout r) (Nodes r).

Notation missing x := (String.eqb x "").

(** The nodes in the order of an iteration; a nil node panics. *)
Fixpoint check_nodes (l : list (string * option NodeConfig)) : go (option string) :=
  match l with
  | [] => Ret None
  | (_, None) :: _ => Panic "nil pointer dereference: nodes.RPCAddress"
  | (name, Some node) :: l =>
      if missing (RPCAddress node) then Ret (Some ("node [" ++ name ++ "] rpc address is missing")) else check_nodes l
  end.
Definition Validate (c : Config) (order : list (string * option NodeConfig)) : go (string + Config) :=
  if m_Enabled (Metrics c) && (missing (m_Host (Metrics c)) || missing (m_Port (Metrics c))) then
    Ret (inl "metrics is enabled but host or port are missing")
  else if h_Enabled (Healthz c) && (missing (h_Host (Healthz c)) || missing (h_Port (Healthz c))) then
    Ret (inl "healthz is enabled but host or port are missing")
  else if decide (size (Nodes c) = 0%nat) then Ret (inl "no nodes configured")
  else
    err ← check_nodes order;
    match err with
    | Some err => Ret (inl err)
    | None => Ret (inr (if missing (LogLevel c) then {{ c with LogLevel := "debug" }} else c))
    end.

(** ** op-conductor's consensus package and API client *)

Inductive ServerSuffrage := Voter | Nonvoter.
#[export] Instance ServerSuffrage_eq_dec : EqDecision ServerSuffrage.
Proof. solve_decision. Defined.
Record ServerInfo := mk_server { srv_ID : string; srv_Addr : string; Suffrage : ServerSuffrage }.
Record ClusterMembership := mk_membership { Servers : list ServerInfo }.

Class Conductor (W : Type) := {
  mon_Now : W → Z * W;
  DialOptions : string → Z → W → option string * W;
  api_Paused : string → W → (string + bool) * W;
  api_Stopped : string → W → (string + bool) * W;
  api_Active : string → W → (string + bool) * W;
  api_SequencerHealthy : string → W → (string + bool) * W;
  api_Leader : string → W → (string + bool) * W;
  api_LeaderWithID : string → W → (string + option ServerInfo) * W;
  api_ClusterMembership : string → W → (string + option ClusterMembership) * W
}.

(** ** poller.go *)

Record NodeState := mk_node_state {
  paused : bool; stopped : bool; active : bool; healthy : bool; leader : bool;
  leaderWithID : option ServerInfo; clusterMembership : option ClusterMembership; updatedAt : Z
}.

(** ** metrics.go *)

Record gauges := mk_gauges {
  errorsTotal : gmap (string * string * string) Z; rpcLatency : gmap (string * string) Z;
  nodeState : gmap (string * string) Z; nodeLeader : gmap (string * string) Z;
  clusterMembershipCount : gmap string Z; clusterVotersCount : gmap string Z; leaderCount : option Z
}.
#[export] Instance eta_gauges : Eta gauges := λ r, mk_gauges (errorsTotal r) (rpcLatency r) (nodeState r) (nodeLeader r)
  (clusterMembershipCount r) (clusterVotersCount r) (leaderCount r).

Definition errLabel (err : string) : string := error_label err.
Definition boolToFloat64 (b : bool) : Z := if b then 1 else 0.
Definition RecordNetworkErrorDetails (node method err : string) (g : gauges) : gauges :=
  let key := (errLabel err, method, node) in
  {{ g with errorsTotal := <[key := default 0 (errorsTotal g !! key) + 1]> (errorsTotal g) }}.
Definition RecordRPCLatency (node method : string) (latency : Z) (g : gauges) : gauges :=
  {{ g with rpcLatency := <[(node, method) := latency `quot` Millisecond]> (rpcLatency g) }}.
Definition RecordNodeState (node state : string) (val : bool) (g : gauges) : gauges :=
  {{ g with nodeState := <[(node, state) := boolToFloat64 val]> (nodeState g) }}.
Definition ReportNodeLeader (node leader : string) (val : bool) (g : gauges) : gauges :=
  {{ g with nodeLeader := <[(node, leader) := boolToFloat64 val]> (nodeLeader g) }}.
Definition ReportClusterMembershipCount (node : string) (count : Z) (g : gauges) : gauges :=
  {{ g with clusterMembershipCount := <[node := count]> (clusterMembershipCount g) }}.
Definition ReportClusterVotersCount (node : string) (count : Z) (g : gauges) : gauges :=
  {{ g with clusterVotersCount := <[node := count]> (clusterVotersCount g) }}.
Definition ReportLeaderCount (count : Z) (g : gauges) : gauges := {{ g with leaderCount := Some count }}.

Record mon (W : Type) := mk_mon { state : gmap string NodeState; gs : gauges; mw : W }.
Arguments mk_mon {W} _ _ _.
Arguments state {W} _.
Arguments gs {W} _.
Arguments mw {W} _.

Section monitor.
Context {W : Type} `{Order W, Conductor W}.
Notation P := (M (mon W)).

Definition in_mw {A} (f : W → A * W) : P A := λ s, let '(a, w) := f (mw s) in Ret (a, mk_mon (state s) (gs s) w).
Definition metric (f : gauges → gauges) : P unit := m_modify (λ s, mk_mon (state s) (f (gs s)) (mw s)).
Definition set_state (f : gmap string NodeState → gmap string NodeState) : P unit :=
  m_modify (λ s, mk_mon (f (state s)) (gs s) (mw s)).
Definition range {A} (m : gmap string A) : P (list (string * A)) := in_mw (permute (map_to_list m)).

(** ** conductor.go *)

(** A call of the API that records its latency or its error. *)
Definition instrumented {A} (node m : string) (call : W → (string + A) * W) : P (string + A) :=
  start ← in_mw mon_Now;
  val ← in_mw call;
  match val with
  | inl err => _ ← metric (RecordNetworkErrorDetails node m err); mret (inl err)
  | inr v => now ← in_mw mon_Now; _ ← metric (RecordRPCLatency node m (now - start)); mret (inr v)
  end.

Definition client_New (c : Config) (nodeName rpcUrl : string) : P (option string) :=
  err ← in_mw (DialOptions rpcUrl (RPCTimeout c));
  match err with
  | Some err =>
      _ ← metric (RecordNetworkErrorDetails nodeName "conductor.New" err);
      mret (Some ("failed to create op-conductor rpc client with nodeName [" ++ nodeName ++ "], rpcUrl [" ++ rpcUrl ++ "]: " ++ err))
  | None => mret None
  end.
Definition client_Paused (node url : string) : P (string + bool) := instrumented node "conductor.Paused" (api_Paused url).
Definition client_Stopped (node url : string) : P (string + bool) := instrumented node "conductor.Stopped" (api_Stopped url).
Definition client_Active (node url : string) : P (string + bool) := instrumented node "conductor.Active" (api_Active url).
Definition client_SequencerHealthy (node url : string) : P (string + bool) :=
  instrumented node "conductor.SequencerHealthy" (api_SequencerHealthy url).
Definition client_Leader (node url : string) : P (string + bool) := instrumented node "conductor.Leader" (api_Leader url).
Definition client_LeaderWithID (node url : string) : P (string + option ServerInfo) :=
  instrumented node "conductor.LeaderWithID" (api_LeaderWithID url).
Definition client_ClusterMembership (node url : string) : P (string + option ClusterMembership) :=
  instrumented node "conductor.ClusterMembership" (api_ClusterMembership url).

(** ** poll.go *)

Definition cleanup (c : Config) : P unit :=
  st ← m_gets state;
  l ← range st;
  m_for (λ '(nodeName, ns),
    now ← in_mw mon_Now;
    if NodeStateExpiration c <? now - updatedAt ns then set_state (delete nodeName) else mret tt) l.

(** The rest runs on a value, and nothing more does after an error. *)
Definition ok_or_return {A} (m : P (string + A)) (k : A → P unit) : P unit :=
  r ← m; match r with inl _ => mret tt | inr a => k a end.

Definition pollNode (c : Config) (nodeName : string) (nodeConfig : option NodeConfig) : P unit :=
  match nodeConfig with
  | None => m_panic "nil pointer dereference: nodeConfig.RPCAddress"
  | Some nodeConfig =>
      let url := RPCAddress nodeConfig in
      err ← client_New c nodeName url;
      match err with
      | Some _ => mret tt
      | None =>
          ok_or_return (client_Paused nodeName url) (λ paused,
          ok_or_return (client_Stopped nodeName url) (λ stopped,
          ok_or_return (client_Active nodeName url) (λ active,
          ok_or_return (client_SequencerHealthy nodeName url) (λ healthy,
          ok_or_return (client_Leader nodeName url) (λ leader,
          ok_or_return (client_LeaderWithID nodeName url) (λ leaderWithID,
          ok_or_return (client_ClusterMembership nodeName url) (λ clusterMembership,
          now ← in_mw mon_Now;
          set_state <[nodeName := mk_node_state paused stopped active healthy leader leaderWithID clusterMembership now]>)))))))
      end
  end.

Definition poll (c : Config) : P unit :=
  l ← range (Nodes c); m_for (λ '(nodeName, nodeConfig), pollNode c nodeName nodeConfig) l.

Definition voters (l : list ServerInfo) : Z :=
  Z.of_nat (length (filter (λ m, Suffrage m = Voter) l)).

Definition servers (st : NodeState) : P (list ServerInfo) :=
  match clusterMembership st with
  | Some m => mret (Servers m)
  | None => m_panic "nil pointer dereference: clusterMembership"
  end.

Definition reportNodeMetrics (name : string) (st : NodeState) : P unit :=
  _ ← metric (RecordNodeState name "paused" (paused st));
  _ ← metric (RecordNodeState name "stopped" (stopped st));
  _ ← metric (RecordNodeState name "active" (active st));
  _ ← metric (RecordNodeState name "healthy" (healthy st));
  _ ← metric (RecordNodeState name "leader" (leader st));
  match leaderWithID st with
  | None => m_panic "nil pointer dereference: leaderWithID"
  | Some l =>
      _ ← metric (ReportNodeLeader name (srv_ID l) true);
      members ← servers st;
      _ ← metric (ReportClusterMembershipCount name (Z.of_nat (length members)));
      metric (ReportClusterVotersCount name (voters members))
  end.

Definition report_node (c : Config) (nodeName : string) (st : NodeState) : P unit :=
  others ← range (Nodes c);
  _ ← m_for (λ other, metric (ReportNodeLeader nodeName other.1 false)) others;
  members ← servers st;
  _ ← m_for (λ other, metric (ReportNodeLeader nodeName (srv_ID other) false)) members;
  reportNodeMetrics nodeName st.

Fixpoint report_nodes (c : Config) (l : list (string * NodeState)) (leaders : Z) : P Z :=
  match l with
  | [] => mret leaders
  | (nodeName, st) :: l =>
      _ ← report_node c nodeName st;
      report_nodes c l (if leader st then leaders + 1 else leaders)
  end.

Definition reportMetrics (c : Config) : P unit :=
  st ← m_gets state;
  l ← range st;
  leaders ← report_nodes c l 0;
  metric (ReportLeaderCount leaders).

Definition Tick (c : Config) : P unit :=
  _ ← cleanup c; _ ← poll c; reportMetrics c.
End monitor.

(** Time goes forward, and a conductor that answers without an error answers with a value. *)
Class ConductorSpec (W : Type) `{OrderSpec W, Conductor W} (time : W → Z) : Prop := {
  mon_clock w : time w ≤ (mon_Now w).1 ≤ time (mon_Now w).2;
  mon_permute {A} (l : list A) w : time w ≤ time (permute l w).2;
  mon_dial url d w : time w ≤ time (DialOptions url d w).2;
  mon_paused url w : time w ≤ time (api_Paused url w).2;
  mon_stopped url w : time w ≤ time (api_Stopped url w).2;
  mon_active url w : time w ≤ time (api_Active url w).2;
  mon_healthy url w : time w ≤ time (api_SequencerHealthy url w).2;
  mon_leader url w : time w ≤ time (api_Leader url w).2;
  mon_leader_id url w : time w ≤ time (api_LeaderWithID url w).2;
  mon_membership url w : time w ≤ time (api_ClusterMembership url w).2;
  leader_id_given url w : (api_LeaderWithID url w).1 ≠ inr None;
  membership_given url w : (api_ClusterMembership url w).1 ≠ inr None
}.

Section ticks.
Context {W : Type} `{OrderSpec W, Conductor W} {time : W → Z} `{!ConductorSpec W time}.
Notation P := (M (mon W)).
Notation wpr := (wp (λ _, False)).
Definition now_of (s : mon W) : Z := time (mw s).

(** What the gauges show of the nodes. *)
Definition shown (g : gauges) := (nodeState g, nodeLeader g, clusterMembershipCount g, clusterVotersCount g, leaderCount g).

(** A step that leaves the nodes and what is shown of them. *)
Definition quiet (s s' : mon W) : Prop := state s' = state s ∧ shown (gs s') = shown (gs s) ∧ now_of s ≤ now_of s'.
Lemma quiet_refl s : quiet s s.
Proof. by split_and!. Qed.
Lemma quiet_trans s1 s2 s3 : quiet s1 s2 → quiet s2 s3 → quiet s1 s3.
Proof. intros (? & ? & ?) (? & ? & ?). split_and!; [congruence|congruence|lia]. Qed.

Lemma in_mw_wp {A} (f : W → A * W) s Q : (∀ w, time w ≤ time (f w).2) →
  (∀ s', quiet s s' → gs s' = gs s → now_of s' = time (f (mw s)).2 → Q (f (mw s)).1 s') → wpr (in_mw f) s Q.
Proof.
  intros Hf HQ. unfold wp, in_mw. specialize (Hf (mw s)). destruct (f (mw s)) as [a w]. apply HQ; [|done..]. by split_and!.
Qed.
Lemma clock_wp s (Q : Z → mon W → Prop) :
  (∀ t s', quiet s s' → gs s' = gs s → now_of s ≤ t ≤ now_of s' → Q t s') → wpr (in_mw mon_Now) s Q.
Proof.
  intros HQ. apply in_mw_wp; [intros w; pose proof (mon_clock (time:=time) w); lia|]. intros s' Hq Hg Hn. apply HQ; [done..|].
  pose proof (mon_clock (time:=time) (mw s)). unfold now_of in *. lia.
Qed.
Lemma range_wp {A} (m : gmap string A) s Q :
  (∀ l s', quiet s s' → gs s' = gs s → l ≡ₚ map_to_list m → Q l s') → wpr (range m) s Q.
Proof. intros HQ. apply in_mw_wp; [intros; apply mon_permute|]. intros s' Hq Hg _. apply HQ; [done..|apply permute_perm]. Qed.

(** ** Forgetting nodes *)

Definition fresh (t : Z) (c : Config) (st : NodeState) : Prop := t - NodeStateExpiration c ≤ updatedAt st.

Lemma cleanup_wp c s : wpr (cleanup c) s (λ _ s', now_of s ≤ now_of s' ∧ gs s' = gs s ∧
  ∀ n st, state s' !! n = Some st → state s !! n = Some st ∧ fresh (now_of s) c st).
Proof.
  unfold cleanup. apply wp_bind, wp_gets, wp_bind, range_wp. intros l s1 (Hs1 & _ & Hn1) Hg1 Hl.
  set (I := λ (pre : list (string * NodeState)) s', now_of s ≤ now_of s' ∧ gs s' = gs s ∧
    ∀ n st, state s' !! n = Some st → state s !! n = Some st ∧ (n ∈ pre.*1 → fresh (now_of s) c st)).
  assert (∀ n st, (n, st) ∈ l → state s !! n = Some st) as Hin by (intros n st; rewrite Hl; apply elem_of_map_to_list).
  eapply wp_mono; [apply (wp_for _ I)|].
  - intros pre [n ns] post s2 -> (Hn2 & Hg2 & Hst). assert (state s !! n = Some ns) as Hns by (apply Hin; set_solver).
    apply wp_bind, clock_wp. intros t s3 (Hs3 & _ & Hn3) Hg3 Ht. destruct (Z.ltb_spec (NodeStateExpiration c) (t - updatedAt ns)).
    + apply wp_modify. split_and!; [change (now_of s ≤ now_of s3); lia|cbn; congruence|]. cbn. intros n' st' Hl'.
      apply lookup_delete_Some in Hl' as [Hne Hl']. rewrite Hs3 in Hl'. apply Hst in Hl' as [Hl' Hf].
      split; [done|]. rewrite fmap_app. set_solver.
    + apply wp_ret. split_and!; [lia|congruence|]. intros n' st' Hl'. rewrite Hs3 in Hl'. apply Hst in Hl' as [Hl' Hf].
      split; [done|]. rewrite fmap_app, elem_of_app. cbn. rewrite list_elem_of_singleton. intros [?| ->]; [auto|].
      assert (st' = ns) as -> by congruence. unfold fresh. lia.
  - split_and!; [lia|done|]. intros n st Hst. rewrite Hs1 in Hst. split; [done|]. by intros ?%elem_of_nil.
  - intros _ s2 (Hn2 & Hg2 & Hst). split_and!; [done..|]. intros n st Hl2. apply Hst in Hl2 as [Hl2 Hf]. split; [done|].
    apply Hf, list_elem_of_fmap. exists (n, st). split; [done|]. by rewrite Hl, elem_of_map_to_list.
Qed.

(** ** Polling *)

Definition complete (st : NodeState) : Prop := is_Some (leaderWithID st) ∧ is_Some (clusterMembership st).

Lemma call_wp {A} node m (call : W → (string + A) * W) (k : A → P unit) s Q : (∀ w, time w ≤ time (call w).2) →
  (∀ s', quiet s s' → Q tt s') → (∀ a w s', quiet s s' → (call w).1 = inr a → wpr (k a) s' Q) →
  wpr (ok_or_return (instrumented node m call) k) s Q.
Proof.
  intros Hc Hq Hk. apply wp_bind. unfold instrumented. apply wp_bind, clock_wp. intros t s1 Hq1 _ _.
  apply wp_bind, in_mw_wp; [done|]. intros s2 Hq2 _ _. apply (quiet_trans _ _ _ Hq1) in Hq2.
  destruct (call (mw s1)).1 as [err|a] eqn:E.
  - apply wp_bind, wp_modify, wp_ret, Hq. destruct Hq2 as (? & ? & ?). by split_and!.
  - apply wp_bind, clock_wp. intros t' s3 Hq3 _ _. apply (quiet_trans _ _ _ Hq2) in Hq3.
    apply wp_bind, wp_modify, wp_ret. apply (Hk a (mw s1)); [|done]. destruct Hq3 as (? & ? & ?). by split_and!.
Qed.

(** At most [node] has a new state, with all its answers, from now. *)
Definition polled (node : string) (s s' : mon W) : Prop :=
  now_of s ≤ now_of s' ∧ shown (gs s') = shown (gs s) ∧
  (state s' = state s ∨ ∃ st, state s' = <[node := st]> (state s) ∧ complete st ∧ now_of s ≤ updatedAt st).

Lemma quiet_polled node s s' : quiet s s' → polled node s s'.
Proof. intros (? & ? & ?). split_and!; [done..|by left]. Qed.

Lemma pollNode_wp c node url s : wpr (pollNode c node (Some (mk_node url))) s (λ _ s', polled node s s').
Proof.
  unfold pollNode. cbn [RPCAddress]. apply wp_bind. unfold client_New.
  apply wp_bind, in_mw_wp; [intros; apply mon_dial|]. intros s0 Hq0 _ _. destruct (DialOptions _ _ _).1.
  { apply wp_bind, wp_modify, wp_ret, wp_ret. apply quiet_polled. by destruct Hq0 as (? & ? & ?). }
  apply wp_ret. revert Hq0.
  generalize s0. clear s0. intros s0 Hq0. apply call_wp; [intros; apply mon_paused|intros ? ?; apply quiet_polled; by eapply quiet_trans|].
  intros p _ s1 Hq1 _. apply (quiet_trans _ _ _ Hq0) in Hq1. clear s0 Hq0.
  apply call_wp; [intros; apply mon_stopped|intros ? ?; apply quiet_polled; by eapply quiet_trans|].
  intros st _ s2 Hq2 _. apply (quiet_trans _ _ _ Hq1) in Hq2. clear s1 Hq1.
  apply call_wp; [intros; apply mon_active|intros ? ?; apply quiet_polled; by eapply quiet_trans|].
  intros a _ s3 Hq3 _. apply (quiet_trans _ _ _ Hq2) in Hq3. clear s2 Hq2.
  apply call_wp; [intros; apply mon_healthy|intros ? ?; apply quiet_polled; by eapply quiet_trans|].
  intros h _ s4 Hq4 _. apply (quiet_trans _ _ _ Hq3) in Hq4. clear s3 Hq3.
  apply call_wp; [intros; apply mon_leader|intros ? ?; apply quiet_polled; by eapply quiet_trans|].
  intros l _ s5 Hq5 _. apply (quiet_trans _ _ _ Hq4) in Hq5. clear s4 Hq4.
  apply call_wp; [intros; apply mon_leader_id|intros ? ?; apply quiet_polled; by eapply quiet_trans|].
  intros i w s6 Hq6 Hi. apply (quiet_trans _ _ _ Hq5) in Hq6. clear s5 Hq5.
  apply call_wp; [intros; apply mon_membership|intros ? ?; apply quiet_polled; by eapply quiet_trans|].
  intros m w' s7 Hq7 Hm. apply (quiet_trans _ _ _ Hq6) in Hq7. clear s6 Hq6.
  apply wp_bind, clock_wp. intros t s8 Hq8 _ Ht. apply (quiet_trans _ _ _ Hq7) in Hq8 as (? & ? & ?). apply wp_modify.
  destruct Hq7 as (_ & _ & Hn7). split_and!; [done|done|right]. eexists. split; [cbn; by f_equal|]. split; [|cbn; lia].
  pose proof (leader_id_given (time:=time) url w). pose proof (membership_given (time:=time) url w').
  split; cbn; [destruct i|destruct m]; naive_solver.
Qed.

(** Each node is as it was, or has been polled since [t]. *)
Definition refreshed (t : Z) (c : Config) (old new : gmap string NodeState) : Prop :=
  ∀ n st, new !! n = Some st → old !! n = Some st ∨ (n ∈ dom (Nodes c) ∧ complete st ∧ t ≤ updatedAt st).

Lemma poll_wp c s : map_Forall (λ _ x, is_Some x) (Nodes c) →
  wpr (poll c) s (λ _ s', now_of s ≤ now_of s' ∧ shown (gs s') = shown (gs s) ∧ refreshed (now_of s) c (state s) (state s')).
Proof.
  intros Hc. unfold poll. apply wp_bind, range_wp. intros l s1 (Hs1 & Hg1 & Hn1) _ Hl.
  assert (∀ n x, (n, x) ∈ l → Nodes c !! n = Some x) as Hin by (intros n x; rewrite Hl; apply elem_of_map_to_list).
  set (I := λ (_ : list (string * option NodeConfig)) s', now_of s ≤ now_of s' ∧ shown (gs s') = shown (gs s) ∧
    refreshed (now_of s) c (state s) (state s')).
  eapply wp_mono; [apply (wp_for _ I)|done].
  - intros pre [n x] post s2 -> (Hn2 & Hg2 & Hr). assert (Nodes c !! n = Some x) as Hx by (apply Hin; set_solver).
    destruct (Hc n x Hx) as [[url] ->]. eapply wp_mono; [apply pollNode_wp|]. intros _ s3 (Hn3 & Hg3 & Hs3).
    split_and!; [lia|congruence|]. destruct Hs3 as [->|(st & -> & Hcst & Hst)]; [done|].
    intros n' st' [[<- <-]|[_ Hl']]%lookup_insert_Some; [|by apply Hr]. right. split_and!; [by eapply elem_of_dom_2|done|lia].
  - split_and!; [done..|]. intros n st Hst. left. congruence.
Qed.

(** ** Reporting *)

(** What the gauges say of a node: its state, its leader and no other among the nodes
    and servers known, and the sizes of its cluster. *)
Record shows (c : Config) (name : string) (st : NodeState) (g : gauges) : Prop := mk_shows {
  show_paused : nodeState g !! (name, "paused") = Some (boolToFloat64 (paused st));
  show_stopped : nodeState g !! (name, "stopped") = Some (boolToFloat64 (stopped st));
  show_active : nodeState g !! (name, "active") = Some (boolToFloat64 (active st));
  show_healthy : nodeState g !! (name, "healthy") = Some (boolToFloat64 (healthy st));
  show_leading : nodeState g !! (name, "leader") = Some (boolToFloat64 (leader st));
  show_leader l m x : leaderWithID st = Some l → clusterMembership st = Some m →
    x ∈ srv_ID l :: elements (dom (Nodes c)) ++ (srv_ID <$> Servers m) →
    nodeLeader g !! (name, x) = Some (boolToFloat64 (bool_decide (x = srv_ID l)));
  show_members m : clusterMembership st = Some m → clusterMembershipCount g !! name = Some (Z.of_nat (length (Servers m)));
  show_voters m : clusterMembership st = Some m → clusterVotersCount g !! name = Some (voters (Servers m))
}.

(** The gauges of a node are the same. *)
Record agree (n : string) (g g' : gauges) : Prop := mk_agree {
  agree_state k : nodeState g' !! (n, k) = nodeState g !! (n, k);
  agree_leader k : nodeLeader g' !! (n, k) = nodeLeader g !! (n, k);
  agree_members : clusterMembershipCount g' !! n = clusterMembershipCount g !! n;
  agree_voters : clusterVotersCount g' !! n = clusterVotersCount g !! n
}.
Lemma agree_refl n g : agree n g g.
Proof. by split. Qed.
Lemma agree_trans n g1 g2 g3 : agree n g1 g2 → agree n g2 g3 → agree n g1 g3.
Proof. intros [? ? ? ?] [? ? ? ?]. split; intros; congruence. Qed.
Lemma agree_shown n g g' : shown g' = shown g → agree n g g'.
Proof. unfold shown. intros [= E1 E2 E3 E4 E5]. split; intros; congruence. Qed.
Lemma shows_agree c n st g g' : agree n g g' → shows c n st g → shows c n st g'.
Proof.
  intros [A1 A2 A3 A4] [? ? ? ? ? Hl Hm Hv].
  split; rewrite ?A1, ?A3, ?A4; try done; intros l m x; rewrite A2; by apply Hl.
Qed.

(** Resetting leaders of [name]: only these gauges change, to zero. *)
Definition reset (name : string) (l : list string) (s s' : mon W) : Prop :=
  state s' = state s ∧ now_of s ≤ now_of s' ∧ (∀ n, n ≠ name → agree n (gs s) (gs s')) ∧
  ∀ x, nodeLeader (gs s') !! (name, x) = if decide (x ∈ l) then Some 0 else nodeLeader (gs s) !! (name, x).

Lemma reset_wp {A} (f : A → string) name l s :
  wpr (m_for (λ x, metric (ReportNodeLeader name (f x) false)) l) s (λ _ s', reset name (f <$> l) s s').
Proof.
  apply (wp_for _ (λ pre s', reset name (f <$> pre) s s')).
  - intros pre x post s1 _ (Hs & Hn & Ha & Hl). apply wp_modify. split_and!; [done|done| |].
    + intros n Hne. eapply agree_trans; [by apply Ha|]. split; try done. intros k. cbn. by rewrite lookup_insert_ne by congruence.
    + intros y. cbn. rewrite fmap_app. cbn. destruct (decide (y = f x)) as [->|Hy].
      * rewrite lookup_insert_eq, decide_True by set_solver. done.
      * rewrite lookup_insert_ne by congruence. rewrite Hl. by repeat case_decide; set_solver.
  - split_and!; [done|lia|intros; apply agree_refl|]. intros x. by rewrite decide_False by set_solver.
Qed.

Lemma report_node_wp c name st s : complete st → wpr (report_node c name st) s (λ _ s',
  state s' = state s ∧ now_of s ≤ now_of s' ∧ shows c name st (gs s') ∧ ∀ n, n ≠ name → agree n (gs s) (gs s')).
Proof.
  intros [[l Hl] [m Hm]]. unfold report_node. apply wp_bind, range_wp. intros others s1 (Hs1 & _ & Hn1) Hg1 Ho.
  apply wp_bind. eapply wp_mono; [apply reset_wp|]. intros _ s2 (Hs2 & Hn2 & Ha2 & Hl2).
  unfold servers. rewrite Hm. apply wp_bind, wp_ret, wp_bind. eapply wp_mono; [apply reset_wp|].
  intros _ s3 (Hs3 & Hn3 & Ha3 & Hl3). unfold reportNodeMetrics, servers. rewrite Hl, Hm.
  do 6 (apply wp_bind, wp_modify). apply wp_bind, wp_ret, wp_bind, wp_modify, wp_modify.
  split_and!; [cbn; congruence|unfold now_of in *; cbn in *; lia| |].
  - split; cbn; intros; simplify_eq; rewrite ?lookup_insert_eq; try done; repeat (rewrite lookup_insert_ne by congruence);
      rewrite ?lookup_insert_eq; try done.
    case_bool_decide as Hx; [subst; by rewrite lookup_insert_eq|]. rewrite lookup_insert_ne by congruence.
    rewrite Hl3. case_decide as Hin; [done|]. rewrite Hl2, decide_True; [done|]. rewrite Ho. 
    apply list_elem_of_fmap. assert (x ∈ dom (Nodes c)) as [v Hv]%elem_of_dom by set_solver.
    exists (x, v). by rewrite elem_of_map_to_list.
  - intros n Hne. rewrite <- Hg1. eapply agree_trans; [by apply Ha2|]. eapply agree_trans; [by apply Ha3|].
    split; cbn; intros; by rewrite !lookup_insert_ne by congruence.
Qed.

Definition leaders (l : list (string * NodeState)) : Z := Z.of_nat (length (filter (λ x, leader x.2 = true) l)).

Lemma report_nodes_wp c l k s : NoDup l.*1 → Forall (λ x, complete x.2) l → wpr (report_nodes c l k) s (λ r s',
  r = k + leaders l ∧ state s' = state s ∧ now_of s ≤ now_of s' ∧ Forall (λ x, shows c x.1 x.2 (gs s')) l ∧
  ∀ n, n ∉ l.*1 → agree n (gs s) (gs s')).
Proof.
  intros Hnd Hl. revert k s Hnd. induction Hl as [|[n st] l Hst Hl IH]; intros k s Hnd; cbn [report_nodes].
  { apply wp_ret. split_and!; [unfold leaders; cbn; lia|done|lia|done|intros; apply agree_refl]. }
  cbn in Hnd. apply NoDup_cons in Hnd as [Hn Hnd]. apply wp_bind. eapply wp_mono; [by apply report_node_wp|].
  intros _ s1 (Hs1 & Hn1 & Hsh & Ha1). eapply wp_mono; [by apply IH|]. intros r s2 (-> & Hs2 & Hn2 & Hsh2 & Ha2).
  split_and!; [|congruence|lia| |].
  - unfold leaders. rewrite filter_cons. cbn. destruct (leader st); [rewrite decide_True by done|rewrite decide_False by done]; cbn; lia.
  - constructor; [|done]. cbn. eapply shows_agree; [by apply Ha2|done].
  - intros n' Hn'. eapply agree_trans; [apply Ha1|apply Ha2]; set_solver.
Qed.
(** What a tick leaves behind. *)
Record ticked (c : Config) (s s' : mon W) : Prop := mk_ticked {
  ticked_complete : map_Forall (λ _ st, complete st) (state s');
  ticked_nodes n st : state s' !! n = Some st → shows c n st (gs s') ∧
    (state s !! n = Some st ∧ fresh (now_of s) c st ∨ n ∈ dom (Nodes c) ∧ now_of s ≤ updatedAt st);
  ticked_leaders : leaderCount (gs s') = Some (leaders (map_to_list (state s')));
  ticked_forgotten n : state s' !! n = None → agree n (gs s) (gs s')
}.
End ticks.

(** C28: with conductors that answer with a value when they answer, a tick of the monitor
    returns, and afterwards every node it knows was polled in this tick or is a known one no older at its
    start than the expiration; the gauges of each show its state, the one server it takes for the leader among all nodes
    and members, and the sizes of its cluster; the leader count is the number of nodes that lead. The gauges of
    a node that is no longer known stay as they were. *)
Theorem tick_reports {W} `{OrderSpec W, Conductor W} {time : W → Z} `{!ConductorSpec W time} c (s : mon W) :
  map_Forall (λ _ x, is_Some x) (Nodes c) → map_Forall (λ _ st, complete st) (state s) →
  ∃ s', Tick c s = Ret (tt, s') ∧ ticked (time := time) c s s'.
Proof.
  intros Hc Hs. assert (wp (λ _, False) (Tick c) s (λ _ s', ticked (time := time) c s s')) as Hw.
  2:{ unfold wp in Hw. destruct (Tick c s) as [[[] s']|]; [|done]. by exists s'. }
  unfold Tick. apply wp_bind. eapply wp_mono; [apply (cleanup_wp (time:=time))|]. intros _ s1 (Hn1 & Hg1 & Hs1).
  apply wp_bind. eapply wp_mono; [by apply (poll_wp (time:=time))|]. intros _ s2 (Hn2 & Hg2 & Hs2).
  assert (∀ n st, state s2 !! n = Some st → complete st ∧
    (state s !! n = Some st ∧ fresh (now_of (time := time) s) c st ∨ n ∈ dom (Nodes c) ∧ now_of (time := time) s ≤ updatedAt st)) as Hst.
  { intros n st [Hl|(Hd & Hcst & Ht)]%Hs2.
    - apply Hs1 in Hl as [Hl Hf]. split; [by apply (Hs n)|by left].
    - split; [done|right]. split; [done|]. unfold now_of in *. lia. }
  unfold reportMetrics. apply wp_bind, wp_gets, wp_bind, (range_wp (time:=time)). intros l s3 (Hs3 & _ & _) Hg3 Hl.
  apply wp_bind. eapply wp_mono.
  { apply (report_nodes_wp (time:=time)); [rewrite Hl; apply NoDup_fst_map_to_list|].
    apply Forall_forall. intros [n st]. rewrite Hl, elem_of_map_to_list. intros Hx. by apply (Hst n). }
  intros k s4 (-> & Hs4 & _ & Hsh & Ha). apply wp_modify. split; cbn; rewrite Hs4, Hs3.
  - intros n st Hx. by apply (Hst n).
  - intros n st Hx. split; [|by apply Hst]. eapply (shows_agree c n st (gs s4)); [by split|].
    rewrite Forall_forall in Hsh. apply (Hsh (n, st)). by rewrite Hl, elem_of_map_to_list.
  - f_equal. unfold leaders. by rewrite Hl.
  - intros n Hx. rewrite <- Hg1. eapply agree_trans; [by apply agree_shown|]. rewrite <- Hg3.
    eapply agree_trans; [apply Ha|by split]. rewrite Hl. intros ([? st] & -> & Hi)%list_elem_of_fmap.
    apply elem_of_map_to_list in Hi. cbn in Hx. congruence.
Qed.

(** A configuration that is valid has its nodes. *)
Lemma validated_nodes c order c' : order ≡ₚ map_to_list (Nodes c) → Validate c order = Ret (inr c') →
  map_Forall (λ _ x, is_Some x) (Nodes c') ∧ Nodes c' = Nodes c.
Proof.
  intros Ho E. unfold Validate in E. destruct (_ && _); [done|]. destruct (_ && _); [done|]. case_decide; [done|].
  destruct (check_nodes order) as [[err|]|why] eqn:Ec; [done| |done]. cbn in E.
  assert (∀ l, check_nodes l = Ret None → Forall (λ x, is_Some x.2) l) as Hc.
  { induction l as [|[n [x|]] l IH]; cbn [check_nodes]; [by constructor| |done]. intros Hl. destruct (missing (RPCAddress x)); [discriminate|]. constructor; [by eexists|auto]. }
  apply Hc in Ec. assert (Nodes c' = Nodes c) as -> by (injection E as <-; by destruct (missing _)). split; [|done].
  intros n x Hx. rewrite Forall_forall in Ec. apply (Ec (n, x)). by rewrite Ho, elem_of_map_to_list.
Qed.

(** ** Two conductors, one of which stops answering *)

Module mon_runs.
#[local] Instance order : Order Z := λ _ l w, (l, w).
#[local] Instance order_spec : OrderSpec Z.
Proof. by intros A l w. Qed.
(** The world is the time; the second conductor does not answer after ten seconds. *)
#[local] Instance conductor : Conductor Z := {|
  mon_Now := λ w, (w, w);
  DialOptions := λ url _ w, (None, w);
  api_Paused := λ url w, (if String.eqb url "http://b" && (10 * Second <=? w) then inl "dial error 7" else inr false, w + Second);
  api_Stopped := λ _ w, (inr false, w); api_Active := λ _ w, (inr true, w); api_SequencerHealthy := λ _ w, (inr true, w);
  api_Leader := λ url w, (inr (String.eqb url "http://b"), w);
  api_LeaderWithID := λ _ w, (inr (Some (mk_server "b" "" Voter)), w);
  api_ClusterMembership := λ _ w, (inr (Some (mk_membership [mk_server "a" "" Voter; mk_server "b" "" Voter; mk_server "c" "" Nonvoter])), w)
|}.
#[local] Instance conductor_spec : ConductorSpec Z (λ w, w).
Proof. split; intros; cbn; unfold Second; try lia; discriminate. Qed.

Definition cfg : Config := mk_config "" false (mk_metrics false false "" "") (mk_healthz false "" "") (5 * Second) (6 * Second) Second
  {["a" := Some (mk_node "http://a"); "b" := Some (mk_node "http://b")]}.
Definition s0 : mon Z := mk_mon ∅ (mk_gauges ∅ ∅ ∅ ∅ ∅ ∅ None) 0.
Definition wait (d : Z) : M (mon Z) unit := m_modify (λ s, mk_mon (state s) (gs s) (mw s + d)).

(** Conductor b is forgotten after ticks at 0, 12 and 23 seconds, and the count of leaders is zero; but
    its own gauge still says that it leads. *)
Lemma forgotten_leader_run :
  (λ x, (dom (state x.2), leaderCount (gs x.2), nodeState (gs x.2) !! ("b", "leader"),
         errorsTotal (gs x.2) !! ("dial_error_", "conductor.Paused", "b"))) <$>
    returned ((_ ← Tick cfg; _ ← wait (10 * Second); _ ← Tick cfg; _ ← wait (10 * Second); Tick cfg) s0) =
  Some ({["a"]}, Some 0, Some 1, Some 2).
Proof. vm_compute. reflexivity. Qed.

Lemma tick_reports_witness : map_Forall (λ _ x, is_Some x) (Nodes cfg) ∧ map_Forall (λ _ st, complete st) (state s0) ∧
  ∃ s', Tick cfg s0 = Ret (tt, s') ∧ ticked (time := λ w, w) cfg s0 s'.
Proof.
  assert (map_Forall (λ _ x, is_Some x) (Nodes cfg)) as Hn by (apply map_Forall_to_list; vm_compute; repeat constructor; by eexists).
  assert (map_Forall (λ _ st, complete st) (state s0)) as Hs by apply map_Forall_empty.
  split; [exact Hn|]. split; [exact Hs|]. exact (tick_reports cfg s0 Hn Hs).
Defined.
End mon_runs.
