(* ===== verification/CciStats.v ===== *)
(** cci-stats: reads the pipelines of a CircleCI project and writes their jobs and slow or
    failing tests to Postgres. This file has the report (service/service.go), the
    transactions (db/db.go) and the configuration (config/config.go).

    CircleCI and the database driver are operations on a world. The statements of db.go are
    data; what they do to the tables, and when that becomes visible, is the contract with
    the database. *)
From stdpp Require Import base numbers list gmap strings sorting pretty.
From S2P Require Import Prelude.
From S2P Require Import GoFloat.

Local Open Scope string_scope.
Local Open Scope Z_scope.
#[local] Arguments String.append : simpl nomatch.

Notation error := (option string).

(** ** config.go *)

(** A compiled pattern is what it matches. *)
Record Config := mk_config {
  ProjectSlug : string; BranchPatternRegex : string → bool; WorkflowPatternRegex : string → bool; FetchLimitDays : Z;
  MaxConcurrentFetchJobs : Z; SlowTestThresholdSeconds : float64
}.

(** ** What CircleCI tells *)

Record cci_Pipeline := mk_cci_pipeline { pl_ID : string; pl_Number : Z; pl_Revision : string; pl_Branch : string; pl_CreatedAt : Z }.
Record Workflow := mk_workflow { wf_ID : string; wf_Name : string; wf_Status : string }.
Record WorkflowJob := mk_job {
  wj_ID : string; wj_ProjectSlug : string; wj_JobNumber : Z; wj_Name : string; wj_Status : string; wj_StartedAt : Z; wj_StoppedAt : Z
}.
Record TestMetadata := mk_test { tm_Name : string; tm_RunTime : float64; tm_Result : string; tm_Message : string }.

Class CircleCI (W : Type) := {
  cci_Now : W → Z * W;
  ListPipelines : string → option string → W → (string + list cci_Pipeline * string) * W;
  ListWorkflows : string → W → (string + list Workflow) * W;
  ListWorkflowJobs : string → W → (string + list WorkflowJob) * W;
  ListTestMetadata : string → string → W → (string + list TestMetadata) * W
}.

(** ** db.go *)

Record Pipeline := mk_pipeline { p_ID : string; p_Number : Z; p_Commit : string; p_Branch : string; p_CreatedAt : Z }.
Record Job := mk_db_job {
  j_ID : string; j_PipelineID : string; j_WorkflowID : string; j_WorkflowName : string; j_Number : Z; j_Name : string;
  j_Status : string; j_StartedAt : Z; j_StoppedAt : Z
}.
Record TestResult := mk_result { tr_JobID : string; tr_Name : string; tr_Runtime : float64; tr_Status : string; tr_Message : string }.

(** The statements. *)
Inductive statement :=
  | insert_into_pipelines (p : Pipeline)
  | delete_from_test_results (job_id : string)
  | insert_into_jobs (j : Job)
  | insert_into_test_results (tr : TestResult).

(** The driver: a transaction on a connection of the pool. *)
Class Pgx (Tx W : Type) := {
  select_last : W → (string + option Pipeline) * W;
  conn_Begin : W → (string + Tx) * W;
  Exec : Tx → statement → W → error * W;
  tx_Commit : Tx → W → error * W;
  tx_Rollback : Tx → W → error * W
}.

Section service.
Context {W Tx : Type} `{Order W, CircleCI W, Pgx Tx W}.
Notation C := (M W).

Definition op {X} (f : W → X * W) : C X := λ w, Ret (f w).

Definition LastPipeline : C (string + option Pipeline) :=
  r ← op select_last;
  mret (match r with inl err => inl ("failed to get last pipeline: " ++ err) | inr p => inr p end).

Definition db_Begin : C (string + Tx) :=
  r ← op conn_Begin;
  mret (match r with inl err => inl ("failed to begin transaction: " ++ err) | inr tx => inr tx end).

Definition InsertPipeline (tx : Tx) (pl : Pipeline) : C error :=
  err ← op (Exec tx (insert_into_pipelines pl)); mret (wrap "failed to insert pipeline: " err).

Definition InsertJob (tx : Tx) (j : Job) : C error :=
  err ← op (Exec tx (delete_from_test_results (j_ID j)));
  match err with
  | Some e => mret (Some ("failed to insert job: query 0: " ++ e))
  | None => err ← op (Exec tx (insert_into_jobs j)); mret (wrap "failed to insert job: query 1: " err)
  end.

Definition InsertTestResult (tx : Tx) (tr : TestResult) : C error :=
  err ← op (Exec tx (insert_into_test_results tr)); mret (wrap "failed to insert test result: " err).

(** ** service.go *)

(** The pipelines of a page up to the first that is too old, and whether there was one. *)
Fixpoint take_page (config : Config) (cutoff : Z) (items : list cci_Pipeline) : list cci_Pipeline * bool :=
  match items with
  | [] => ([], false)
  | p :: items =>
      if negb (BranchPatternRegex config (pl_Branch p)) then take_page config cutoff items
      else if pl_CreatedAt p <? cutoff then ([], true)
      else let '(res, done) := take_page config cutoff items in (p :: res, done)
  end.

(** [None] when there are more pages than the fuel. *)
Fixpoint fetch_pages (fuel : nat) (config : Config) (cutoff : Z) (pageToken : string) (res : list cci_Pipeline) :
    C (option (string + list cci_Pipeline)) :=
  match fuel with
  | O => mret None
  | S fuel =>
      let opts := if String.eqb pageToken "" then None else Some pageToken in
      r ← op (ListPipelines (ProjectSlug config) opts);
      match r with
      | inl err => mret (Some (inl ("failed to list pipelines: " ++ err)))
      | inr (items, next) =>
          let '(new, done) := take_page config cutoff items in
          if done || String.eqb next "" then mret (Some (inr (res ++ new)%list))
          else fetch_pages fuel config cutoff next (res ++ new)%list
      end
  end.
Definition fetchPipelines (fuel : nat) (config : Config) (cutoff : Z) : C (option (string + list cci_Pipeline)) :=
  fetch_pages fuel config cutoff "" [].

Definition fetchWorkflows (config : Config) (pipelineID : string) : C (string + list Workflow) :=
  r ← op (ListWorkflows pipelineID);
  mret (match r with
    | inl err => inl ("failed to list workflows: " ++ err)
    | inr items => inr (filter (λ wf, WorkflowPatternRegex config (wf_Name wf) = true) items)
    end).

Definition fetchJobs (workflowID : string) : C (string + list WorkflowJob) :=
  r ← op (ListWorkflowJobs workflowID);
  mret (match r with inl err => inl ("failed to list jobs: " ++ err) | inr items => inr items end).

(** Failed tests, and those that passed but were slow. *)
Definition kept (config : Config) (m : TestMetadata) : bool :=
  if String.eqb (tm_Result m) "skipped" then false
  else if String.eqb (tm_Result m) "success" && fltb (tm_RunTime m) (SlowTestThresholdSeconds config) then false
  else true.
Definition fetchTestMetadata (config : Config) (job : WorkflowJob) : C (string + list TestMetadata) :=
  r ← op (ListTestMetadata (wj_ProjectSlug job) (pretty (wj_JobNumber job)));
  mret (match r with
    | inl err => inl ("failed to list test metadata: " ++ err)
    | inr items => inr (filter (λ m, kept config m = true) items)
    end).

(** A workflow that has not come to an end that counts. *)
Definition unfinished (wf : Workflow) : bool :=
  bool_decide (wf_Status wf ∈ ["running"; "not_run"; "failing"; "on_hold"; "canceled"; "unauthorized"]).

(** The workflows by id, with their jobs; [None] when one is unfinished. *)
Fixpoint fetch_all_jobs (wfs : list Workflow) (acc : gmap string (Workflow * list WorkflowJob)) :
    C (string + option (gmap string (Workflow * list WorkflowJob))) :=
  match wfs with
  | [] => mret (inr (Some acc))
  | wf :: wfs =>
      if unfinished wf then mret (inr None) else
      r ← fetchJobs (wf_ID wf);
      match r with
      | inl err => mret (inl ("failed to fetch jobs: " ++ err))
      | inr jobs => fetch_all_jobs wfs (<[wf_ID wf := (wf, jobs)]> acc)
      end
  end.

(** The jobs of the workflows, in the order of an iteration, with the id of their workflow. *)
Definition jobs_of (l : list (string * (Workflow * list WorkflowJob))) : list (Workflow * WorkflowJob) :=
  l ≫= λ x, (λ job, (x.2.1, job)) <$> x.2.2.

(** The tasks of the pool run in the order of the world; the first error ends it. *)
Fixpoint fetch_metadata (config : Config) (l : list (Workflow * WorkflowJob)) :
    C (string + list (string * string * list TestMetadata)) :=
  match l with
  | [] => mret (inr [])
  | (wf, job) :: l =>
      r ← fetchTestMetadata config job;
      match r with
      | inl err => mret (inl ("failed to fetch test metadata: " ++ err))
      | inr tm =>
          rest ← fetch_metadata config l;
          mret (match rest with inl err => inl err | inr rest => inr ((wj_ID job, wf_ID wf, tm) :: rest) end)
      end
  end.

(** Actions one after the other up to the first error. *)
Fixpoint until_error (l : list (C error)) : C error :=
  match l with
  | [] => mret None
  | m :: l => err ← m; match err with Some e => mret (Some e) | None => until_error l end
  end.

Definition row_id (wf job : string) : string := wf ++ "/" ++ job.
Definition pipeline_row (pline : cci_Pipeline) : Pipeline :=
  mk_pipeline (pl_ID pline) (pl_Number pline) (pl_Revision pline) (pl_Branch pline) (pl_CreatedAt pline).
Definition job_row (pline : cci_Pipeline) (x : Workflow * WorkflowJob) : Job :=
  let '(wf, job) := x in
  mk_db_job (row_id (wf_ID wf) (wj_ID job)) (pl_ID pline) (wf_ID wf) (wf_Name wf) (wj_JobNumber job) (wj_Name job) (wj_Status job)
    (wj_StartedAt job) (wj_StoppedAt job).
Definition test_rows (x : string * string * list TestMetadata) : list TestResult :=
  let '(job, wf, tms) := x in
  (λ m, mk_result (row_id wf job) (tm_Name m) (tm_RunTime m) (tm_Result m) (tm_Message m)) <$> tms.

Definition inserts (tx : Tx) (pline : cci_Pipeline) (jobs : list (Workflow * WorkflowJob))
    (metadata : list (string * string * list TestMetadata)) : C error :=
  until_error (
    [err ← InsertPipeline tx (pipeline_row pline); mret (wrap "failed to insert pipeline: " err)] ++
    ((λ x, err ← InsertJob tx (job_row pline x); mret (wrap "failed to insert workflow: " err)) <$> jobs) ++
    ((λ tr, err ← InsertTestResult tx tr; mret (wrap "failed to insert test result: " err)) <$> (metadata ≫= test_rows)) ++
    [err ← op (tx_Commit tx); mret (wrap "failed to commit transaction: " err)])%list.

(** The deferred rollback looks at the error of the function, which is the one of Begin: every
    later error has a variable of its own. *)
Definition in_transaction (k : Tx → C error) : C error :=
  r ← db_Begin;
  match r with
  | inl err => mret (Some ("failed to start transaction: " ++ err))
  | inr tx =>
      let err : error := None in
      result ← k tx;
      _ ← (match err with Some _ => _ ← op (tx_Rollback tx); mret tt | None => mret tt end);
      mret result
  end.

Definition processPipeline (config : Config) (pline : cci_Pipeline) : C error :=
  r ← fetchWorkflows config (pl_ID pline);
  match r with
  | inl err => mret (Some ("failed to fetch workflows: " ++ err))
  | inr [] => mret None
  | inr workflows =>
      r ← fetch_all_jobs workflows ∅;
      match r with
      | inl err => mret (Some err)
      | inr None => mret None
      | inr (Some workflowsJobs) =>
          order1 ← op (permute (map_to_list workflowsJobs));
          tasks ← op (permute (jobs_of order1));
          r ← fetch_metadata config tasks;
          match r with
          | inl err => mret (Some ("failed to fetch test metadata: " ++ err))
          | inr results =>
              metadata ← op (permute results);
              in_transaction (λ tx,
                order2 ← op (permute (map_to_list workflowsJobs));
                inserts tx pline (jobs_of order2) metadata)
          end
      end
  end.

(** The pipelines are processed by a pool; here one after the other, in the order of the
    world, up to the first error, which cancels the rest. *)
Definition GenerateReport (fuel : nat) (config : Config) : C (option error) :=
  lastPipeline ← LastPipeline;
  match lastPipeline with
  | inl err => mret (Some (Some ("failed to fetch last pipeline: " ++ err)))
  | inr last =>
      now ← op cci_Now;
      let cutoff := match last with Some p => p_CreatedAt p | None => now + i64 (- FetchLimitDays config * 24 * (60 * Minute)) end in
      r ← fetchPipelines fuel config cutoff;
      match r with
      | None => mret None
      | Some (inl err) => mret (Some (Some ("failed to fetch pipelines: " ++ err)))
      | Some (inr pipelines) =>
          order ← op (permute pipelines);
          err ← until_error ((λ p, err ← processPipeline config p; mret (wrap "failed to process pipeline: " err)) <$> order);
          mret (Some (wrap "failed to ingest pipelines: " err))
      end
  end.
End service.

(** ** Fetching the pipelines *)

(** The pages from a token on: what they list, and how many there are. *)
Inductive pages {W} `{CircleCI W} (slug : string) : nat → option string → W → list cci_Pipeline → W → Prop :=
  | last_page token w items w' : ListPipelines slug token w = (inr (items, ""), w') → pages slug 1 token w items w'
  | more_pages n token w items next w' rest w'' : ListPipelines slug token w = (inr (items, next), w') → next ≠ "" →
      pages slug n (Some next) w' rest w'' → pages slug (S n) token w (items ++ rest)%list w''.

Definition newest_first (l : list cci_Pipeline) : Prop := StronglySorted (λ a b, pl_CreatedAt b ≤ pl_CreatedAt a) l.
Definition wanted (config : Config) (cutoff : Z) (p : cci_Pipeline) : Prop :=
  BranchPatternRegex config (pl_Branch p) = true ∧ cutoff ≤ pl_CreatedAt p.
#[export] Instance wanted_dec config cutoff p : Decision (wanted config cutoff p).
Proof. unfold wanted. apply _. Defined.

Lemma take_page_done config cutoff l rest : newest_first (l ++ rest)%list → (take_page config cutoff l).2 = true →
  filter (wanted config cutoff) (l ++ rest)%list = (take_page config cutoff l).1.
Proof.
  induction l as [|p l IH]; intros Hs; cbn [take_page app]; [done|]. apply StronglySorted_inv in Hs as [Hs Hp].
  rewrite filter_cons. destruct (BranchPatternRegex config (pl_Branch p)) eqn:Eb; cbn.
  - destruct (Z.ltb_spec (pl_CreatedAt p) cutoff) as [Hlt|Hge]; cbn.
    + intros _. rewrite decide_False by (unfold wanted; lia). apply filter_none.
      rewrite Forall_forall in Hp. intros q Hq%Hp [_ ?]. lia.
    + rewrite decide_True by done. specialize (IH Hs). destruct (take_page config cutoff l) as [res done]. cbn in *.
      intros Hd. by rewrite IH.
  - rewrite decide_False by (unfold wanted; intros [? ?]; congruence). by apply IH.
Qed.

Lemma take_page_more config cutoff l : (take_page config cutoff l).2 = false →
  filter (wanted config cutoff) l = (take_page config cutoff l).1.
Proof.
  induction l as [|p l IH]; cbn [take_page]; [done|]. rewrite filter_cons. destruct (BranchPatternRegex config (pl_Branch p)) eqn:Eb; cbn.
  - destruct (Z.ltb_spec (pl_CreatedAt p) cutoff); cbn; [done|]. rewrite decide_True by done.
    destruct (take_page config cutoff l) as [res done]. cbn in *. intros Hd. by rewrite IH.
  - rewrite decide_False by (unfold wanted; intros [? ?]; congruence). apply IH.
Qed.

Lemma fetch_pages_run {W} `{CircleCI W} config cutoff n token w l w' fuel res :
  pages (ProjectSlug config) n (if String.eqb token "" then None else Some token) w l w' → newest_first l → (n ≤ fuel)%nat →
  ∃ w1, fetch_pages fuel config cutoff token res w = Ret (Some (inr (res ++ filter (wanted config cutoff) l)%list), w1).
Proof.
  intros Hp. remember (if String.eqb token "" then None else Some token) as t eqn:Et. revert token Et fuel res.
  induction Hp as [t w items w1 E|n t w items next w1 rest w2 E Hne Hp IH]; intros token -> fuel res Hs Hf;
    (destruct fuel as [|fuel]; [lia|]); cbn [fetch_pages]; rewrite M_bind_eq; unfold op; rewrite E.
  - destruct (take_page config cutoff items) as [new done] eqn:Ep. rewrite orb_true_r. eexists. do 4 f_equal.
    destruct done; [rewrite <- (app_nil_r items) in Hs; rewrite <- (app_nil_r items) at 1; rewrite take_page_done|rewrite take_page_more];
      by rewrite ?Ep, ?app_nil_r in *.
  - destruct (take_page config cutoff items) as [new done] eqn:Ep. destruct done; cbn.
    + eexists. do 4 f_equal. rewrite take_page_done; by rewrite ?Ep.
    + destruct (String.eqb_spec next ""); [done|]. destruct (IH next) with (fuel := fuel) (res := (res ++ new)%list) as [w3 E3].
      * by rewrite (proj2 (String.eqb_neq next "")).
      * clear -Hs. induction items as [|x items IH]; [done|]. apply StronglySorted_inv in Hs as [Hs _]. auto.
      * lia.
      * exists w3. rewrite E3. rewrite filter_app, (take_page_more config cutoff items), Ep by (by rewrite Ep). cbn. by rewrite app_assoc.
Qed.

(** Given pages of pipelines from the newest to the oldest, fetching them ends and yields
    exactly those of the wanted branches from the cutoff on, in that order: looking no further at
    the first one that is too old loses none. *)
Theorem pipelines_fetched {W} `{CircleCI W} config cutoff n (w w' : W) l fuel :
  pages (ProjectSlug config) n None w l w' → newest_first l → (n ≤ fuel)%nat →
  ∃ w1, fetchPipelines fuel config cutoff w = Ret (Some (inr (filter (wanted config cutoff) l)), w1).
Proof. intros Hp Hs Hf. by apply (fetch_pages_run config cutoff n "" w l w'). Qed.

(** ** What is written *)

(** The tables of db.sql. *)
Record tables := mk_tables { pipelines : gmap string Pipeline; jobs : gmap string Job; tests : list TestResult }.

(** A row whose key is there already is left as it is. *)
Definition apply_statement (t : tables) (st : statement) : tables :=
  match st with
  | insert_into_pipelines p => mk_tables (pipelines t ∪ {[p_ID p := p]}) (jobs t) (tests t)
  | delete_from_test_results id => mk_tables (pipelines t) (jobs t) (filter (λ tr, tr_JobID tr ≠ id) (tests t))
  | insert_into_jobs j => mk_tables (pipelines t) (jobs t ∪ {[j_ID j := j]}) (tests t)
  | insert_into_test_results tr => mk_tables (pipelines t) (jobs t) (tests t ++ [tr])%list
  end.

(** The database: the statements of a transaction are visible all at once when it is
    committed, and a connection is in use from its begin to its end. When a commit reports an error it
    may have taken place. *)
Class PgxSpec (Tx W : Type) `{Pgx Tx W} (visible : W → tables) (log : Tx → W → list statement) (open : W → Z) : Prop := {
  select_spec w r w' : select_last w = (r, w') → visible w' = visible w ∧ open w' = open w;
  begin_spec w r w' : conn_Begin w = (r, w') → visible w' = visible w ∧
    match r with inl _ => open w' = open w | inr tx => log tx w' = [] ∧ open w' = open w + 1 end;
  exec_spec tx st w err w' : Exec tx st w = (err, w') → visible w' = visible w ∧ open w' = open w ∧
    (err = None → log tx w' = (log tx w ++ [st])%list);
  commit_spec tx w err w' : tx_Commit tx w = (err, w') → open w' = open w - 1 ∧
    (visible w' = foldl apply_statement (visible w) (log tx w) ∨ err ≠ None ∧ visible w' = visible w)
}.

(** CircleCI and the order of iterations are apart from the database. *)
Definition apart {W Tx X} (visible : W → tables) (log : Tx → W → list statement) (open : W → Z) (f : W → X * W) : Prop :=
  ∀ w, visible (f w).2 = visible w ∧ (∀ tx, log tx (f w).2 = log tx w) ∧ open (f w).2 = open w.
Class Apart (W Tx : Type) `{Order W, CircleCI W} (visible : W → tables) (log : Tx → W → list statement) (open : W → Z) : Prop := {
  apart_permute {A} (l : list A) : apart visible log open (permute l);
  apart_workflows id : apart visible log open (ListWorkflows id);
  apart_jobs id : apart visible log open (ListWorkflowJobs id);
  apart_metadata slug n : apart visible log open (ListTestMetadata slug n);
  apart_pipelines slug token : apart visible log open (ListPipelines slug token);
  apart_now : apart visible log open cci_Now
}.

(** What CircleCI has: an answer that is not an error tells it, whenever it is asked for. The workflows of a pipeline
    have different ids. *)
Class Archive (W : Type) `{CircleCI W} (workflows : string → list Workflow) (jobs_at : string → list WorkflowJob)
    (tests_at : string → string → list TestMetadata) : Prop := {
  archive_workflows id w l w' : ListWorkflows id w = (inr l, w') → l = workflows id;
  archive_jobs id w l w' : ListWorkflowJobs id w = (inr l, w') → l = jobs_at id;
  archive_tests slug n w l w' : ListTestMetadata slug n w = (inr l, w') → l = tests_at slug n;
  archive_ids id : NoDup (wf_ID <$> workflows id)
}.

(** Taking in a pipeline: its row and its jobs unless they are there, and the test results of
    the jobs in place of older ones. *)
Definition ingest (pline : cci_Pipeline) (js : list (Workflow * WorkflowJob)) (metadata : list (string * string * list TestMetadata))
    (t : tables) : tables :=
  let rows := job_row pline <$> js in
  mk_tables (pipelines t ∪ {[pl_ID pline := pipeline_row pline]}) (jobs t ∪ list_to_map ((λ r, (j_ID r, r)) <$> rows))
    (filter (λ tr, tr_JobID tr ∉ j_ID <$> rows) (tests t) ++ (metadata ≫= test_rows))%list.

(** The statements that do it. *)
Definition job_statements (j : Job) : list statement := [delete_from_test_results (j_ID j); insert_into_jobs j].
Definition statements (pline : cci_Pipeline) (js : list (Workflow * WorkflowJob))
    (metadata : list (string * string * list TestMetadata)) : list statement :=
  (insert_into_pipelines (pipeline_row pline) :: ((job_row pline <$> js) ≫= job_statements) ++
   (insert_into_test_results <$> (metadata ≫= test_rows)))%list.

Lemma apply_jobs rows t : foldl apply_statement t (rows ≫= job_statements) =
  mk_tables (pipelines t) (jobs t ∪ list_to_map ((λ r, (j_ID r, r)) <$> rows))
    (filter (λ tr, tr_JobID tr ∉ j_ID <$> rows) (tests t)).
Proof.
  revert t. induction rows as [|r rows IH]; intros t; cbn.
  - destruct t as [p j l]. cbn. rewrite (right_id ∅ (∪)). f_equal. symmetry. apply filter_all. set_solver.
  - rewrite IH. cbn. f_equal.
    + rewrite <- (assoc_L (∪)). f_equal. symmetry. apply insert_union_singleton_l.
    + rewrite list_filter_filter. apply list_filter_iff. set_solver.
Qed.
Lemma apply_tests l t : foldl apply_statement t (insert_into_test_results <$> l) = mk_tables (pipelines t) (jobs t) (tests t ++ l)%list.
Proof.
  revert t. induction l as [|tr l IH]; intros t; cbn; [destruct t; cbn; by rewrite app_nil_r|].
  rewrite IH. cbn. by rewrite <- app_assoc.
Qed.
Lemma apply_statements pline js metadata t : foldl apply_statement t (statements pline js metadata) = ingest pline js metadata t.
Proof. unfold statements. cbn [foldl]. rewrite foldl_app, apply_jobs, apply_tests. done. Qed.

Lemma ingest_again pline js metadata t :
  Forall (λ x, row_id x.1.2 x.1.1 ∈ (λ y, j_ID (job_row pline y)) <$> js) metadata →
  ingest pline js metadata (ingest pline js metadata t) = ingest pline js metadata t.
Proof.
  intros Hm. unfold ingest. cbn. f_equal; [rewrite <- (assoc_L (∪)); f_equal; apply (idemp_L (∪))..|].
  rewrite filter_app, list_filter_filter. rewrite (filter_none _ (metadata ≫= test_rows)).
  - rewrite app_nil_r. f_equal. apply list_filter_iff. intros tr. by split; [intros [? _]|].
  - intros tr ([[job wf] tms] & Htr & Hx)%list_elem_of_bind. rewrite Forall_forall in Hm. specialize (Hm _ Hx). cbn in *.
    apply list_elem_of_fmap in Htr as (m & -> & _). cbn. rewrite <- list_fmap_compose. auto.
Qed.

Section processing.
Context {W Tx : Type} `{OrderSpec W, CircleCI W, Pgx Tx W} {visible : W → tables} {log : Tx → W → list statement} {open : W → Z}.
Context `{!PgxSpec Tx W visible log open, !Apart W Tx visible log open}.
Context {workflows : string → list Workflow} {jobs_at : string → list WorkflowJob} {tests_at : string → string → list TestMetadata}.
Context `{!Archive W workflows jobs_at tests_at}.
Notation C := (M W).
Notation wpr := (wp (λ _, False)).

Definition untouched (w w' : W) : Prop := visible w' = visible w ∧ (∀ tx, log tx w' = log tx w) ∧ open w' = open w.
Lemma untouched_refl w : untouched w w.
Proof. by split_and!. Qed.
Lemma untouched_trans w1 w2 w3 : untouched w1 w2 → untouched w2 w3 → untouched w1 w3.
Proof. intros (? & E & ?) (? & E' & ?). split_and!; [congruence|intros tx; by rewrite E', E|congruence]. Qed.

Lemma apart_wp {X} (f : W → X * W) w Q : apart visible log open f → (∀ x w', f w = (x, w') → untouched w w' → Q x w') → wpr (op f) w Q.
Proof. intros Hf HQ. specialize (Hf w). unfold wp, op. destruct (f w) as [x w']. by apply HQ. Qed.
Lemma permute_wp {X} (l : list X) w Q : (∀ k w', k ≡ₚ l → untouched w w' → Q k w') → wpr (op (permute l)) w Q.
Proof.
  intros HQ. apply apart_wp; [apply apart_permute|]. intros k w' E Hu. apply HQ; [|done].
  pose proof (permute_perm l w) as Hp. by rewrite E in Hp.
Qed.

(** ** Reading from CircleCI *)

(** The workflows of a pipeline that count, whether all of them are over, and their jobs. *)
Definition workflows_of (config : Config) (pline : cci_Pipeline) : list Workflow :=
  filter (λ wf, WorkflowPatternRegex config (wf_Name wf) = true) (workflows (pl_ID pline)).
Definition due (config : Config) (pline : cci_Pipeline) : bool :=
  negb (bool_decide (workflows_of config pline = [])) && forallb (λ wf, negb (unfinished wf)) (workflows_of config pline).
Definition entries (wfs : list Workflow) : list (string * (Workflow * list WorkflowJob)) :=
  (λ wf, (wf_ID wf, (wf, jobs_at (wf_ID wf)))) <$> wfs.
Definition all_jobs (config : Config) (pline : cci_Pipeline) : list (Workflow * WorkflowJob) := jobs_of (entries (workflows_of config pline)).
(** The test results of a job, of which only those that count. *)
Definition results_of (config : Config) (x : Workflow * WorkflowJob) : string * string * list TestMetadata :=
  (wj_ID x.2, wf_ID x.1, filter (λ m, kept config m = true) (tests_at (wj_ProjectSlug x.2) (pretty (wj_JobNumber x.2)))).

Lemma fetchWorkflows_wp config pline w : wpr (fetchWorkflows config (pl_ID pline)) w (λ r w', untouched w w' ∧
  match r with inl _ => True | inr l => l = workflows_of config pline end).
Proof.
  apply wp_bind, apart_wp; [apply apart_workflows|]. intros r w' E Hu. apply wp_ret. split; [done|].
  destruct r as [err|l]; [done|]. by rewrite (archive_workflows _ _ _ _ E).
Qed.

Lemma fetch_all_jobs_wp wfs acc w : wpr (fetch_all_jobs wfs acc) w (λ r w', untouched w w' ∧
  match r with
  | inl _ => True
  | inr None => forallb (λ wf, negb (unfinished wf)) wfs = false
  | inr (Some m) => forallb (λ wf, negb (unfinished wf)) wfs = true ∧ m = foldl (λ m x, <[x.1 := x.2]> m) acc (entries wfs)
  end).
Proof.
  revert acc w. induction wfs as [|wf wfs IH]; intros acc w; cbn [fetch_all_jobs forallb]; [by apply wp_ret; split; [apply untouched_refl|]|].
  destruct (unfinished wf); [by apply wp_ret; split; [apply untouched_refl|]|]. apply wp_bind. unfold fetchJobs.
  apply wp_bind, apart_wp; [apply apart_jobs|]. intros r w1 E Hu. apply wp_ret.
  destruct r as [err|js]; [by apply wp_ret|]. rewrite (archive_jobs _ _ _ _ E). eapply wp_mono; [apply IH|].
  intros r w2 [Hu2 Hr]. split; [by eapply untouched_trans|]. exact Hr.
Qed.

Lemma entries_perm {X} (l : list (string * X)) (acc : gmap string X) : NoDup l.*1 → (∀ k, k ∈ l.*1 → acc !! k = None) →
  map_to_list (foldl (λ m x, <[x.1 := x.2]> m) acc l) ≡ₚ (l ++ map_to_list acc)%list.
Proof.
  revert acc. induction l as [|[k x] l IH]; intros acc Hn Hf; cbn; [done|]. apply NoDup_cons in Hn as [Hk Hn].
  rewrite IH; [|done|].
  - rewrite map_to_list_insert by (apply Hf; left). by rewrite Permutation_middle.
  - intros j Hj. rewrite lookup_insert_ne by (intros ->; done). apply Hf. by right.
Qed.

Lemma all_jobs_perm config pline :
  map_to_list (foldl (λ m x, <[x.1 := x.2]> m) ∅ (entries (workflows_of config pline))) ≡ₚ entries (workflows_of config pline).
Proof.
  rewrite entries_perm; [by rewrite map_to_list_empty, app_nil_r| |done]. unfold entries. rewrite <- list_fmap_compose. cbn.
  eapply sublist_NoDup; [apply (archive_ids (pl_ID pline))|]. apply (fmap_sublist wf_ID), sublist_filter.
Qed.

Lemma fetch_metadata_wp config tasks w : wpr (fetch_metadata config tasks) w (λ r w', untouched w w' ∧
  match r with inl _ => True | inr md => md = results_of config <$> tasks end).
Proof.
  revert w. induction tasks as [|[wf job] tasks IH]; intros w; cbn [fetch_metadata].
  { apply wp_ret. split; [apply untouched_refl|done]. }
  apply wp_bind. unfold fetchTestMetadata. apply wp_bind, apart_wp; [apply apart_metadata|]. intros r w1 E Hu. apply wp_ret.
  destruct r as [err|tms]; [by apply wp_ret|]. apply wp_bind. eapply wp_mono; [apply IH|]. intros rest w2 [Hu2 Hr].
  apply wp_ret. split; [by eapply untouched_trans|]. destruct rest as [err|md]; [done|]. by rewrite Hr, (archive_tests _ _ _ _ _ E).
Qed.

(** ** Writing *)

(** [m] issues [sts] in the transaction, unless it reports an error. *)
Definition issues (tx : Tx) (sts : list statement) (m : C error) : Prop := ∀ w, wpr m w (λ err w',
  visible w' = visible w ∧ open w' = open w ∧ (err = None → log tx w' = (log tx w ++ sts)%list)).

Lemma issues_wrap tx sts m prefix : issues tx sts m → issues tx sts (err ← m; mret (wrap prefix err)).
Proof.
  intros Hm w. apply wp_bind. eapply wp_mono; [apply Hm|]. intros err w' (Hv & Ho & Hl). apply wp_ret. split_and!; [done..|].
  by destruct err.
Qed.
Lemma issues_exec tx st : issues tx [st] (op (Exec tx st)).
Proof. intros w. unfold wp, op. destruct (Exec tx st w) as [err w'] eqn:E. exact (exec_spec _ _ _ _ _ E). Qed.
Lemma issues_job tx j : issues tx (job_statements j) (InsertJob tx j).
Proof.
  intros w. apply wp_bind. eapply wp_mono; [apply issues_exec|]. intros err w1 (Hv & Ho & Hl).
  destruct err as [e|]; [by apply wp_ret|]. eapply wp_mono; [apply issues_wrap, issues_exec|]. intros err w2 (Hv2 & Ho2 & Hl2).
  split_and!; [congruence..|]. intros E. rewrite Hl2, Hl by done. by rewrite <- app_assoc.
Qed.
Lemma issues_all tx sts ms : Forall2 (issues tx) sts ms → issues tx (mjoin sts) (until_error ms).
Proof.
  induction 1 as [|st m sts ms Hm Hms IH]; intros w; cbn [until_error].
  { apply wp_ret. split_and!; [done..|]. by rewrite app_nil_r. }
  apply wp_bind. eapply wp_mono; [apply Hm|]. intros err w1 (Hv & Ho & Hl). destruct err as [e|]; [by apply wp_ret|].
  eapply wp_mono; [apply IH|]. intros err w2 (Hv2 & Ho2 & Hl2). split_and!; [congruence..|]. intros E. rewrite Hl2, Hl by done.
  cbn. by rewrite app_assoc.
Qed.

Lemma until_error_app (l k : list (C error)) w Q : wpr (until_error l) w (λ err w',
  match err with Some e => Q (Some e) w' | None => wpr (until_error k) w' Q end) → wpr (until_error (l ++ k)) w Q.
Proof.
  revert w. induction l as [|m l IH]; intros w Hw; cbn [until_error app] in *; [done|].
  unfold wp in *. rewrite M_bind_eq in *. destruct (m w) as [[[e|] w1]|why]; [done| |done]. by apply IH.
Qed.

(** How writing a pipeline ends: with everything, with nothing and the transaction still
    open, or with an error of the commit. *)
Definition written (full : tables → tables) (w : W) (err : error) (w' : W) : Prop :=
  match err with
  | None => open w' = open w - 1 ∧ visible w' = full (visible w)
  | Some _ => open w' = open w ∧ visible w' = visible w ∨
      open w' = open w - 1 ∧ (visible w' = visible w ∨ visible w' = full (visible w))
  end.

Lemma join_fmap {A B} (f : A → list B) l : mjoin (f <$> l) = l ≫= f.
Proof. induction l as [|x l IH]; [done|]. rewrite fmap_cons, bind_cons. cbn. by rewrite <- IH. Qed.
Lemma join_singletons {A B} (f : A → B) l : mjoin ((λ x, [f x]) <$> l) = f <$> l.
Proof. induction l as [|x l IH]; [done|]. rewrite !fmap_cons. cbn. by rewrite <- IH. Qed.

Lemma inserts_wp tx pline js md w : log tx w = [] →
  wpr (inserts tx pline js md) w (λ err w', written (ingest pline js md) w err w').
Proof.
  intros Hlog. unfold inserts. rewrite !app_assoc. apply until_error_app. rewrite <- app_assoc.
  assert (issues tx (statements pline js md) (until_error (
    [err ← InsertPipeline tx (pipeline_row pline); mret (wrap "failed to insert pipeline: " err)] ++
    ((λ x, err ← InsertJob tx (job_row pline x); mret (wrap "failed to insert workflow: " err)) <$> js) ++
    ((λ tr, err ← InsertTestResult tx tr; mret (wrap "failed to insert test result: " err)) <$> (md ≫= test_rows)))%list)) as Hi.
  { replace (statements pline js md) with (mjoin ([[insert_into_pipelines (pipeline_row pline)]] ++
      (job_statements <$> (job_row pline <$> js)) ++ ((λ tr, [insert_into_test_results tr]) <$> (md ≫= test_rows)))%list).
    2:{ unfold statements. by rewrite !join_app, join_fmap, join_singletons. }
    apply issues_all. apply Forall2_app; [|apply Forall2_app].
    - constructor; [|constructor]. apply issues_wrap, issues_wrap, issues_exec.
    - rewrite <- list_fmap_compose. apply Forall2_fmap_2, Forall_Forall2_diag, Forall_forall. intros x _. apply issues_wrap, issues_job.
    - apply Forall2_fmap_2, Forall_Forall2_diag, Forall_forall. intros x _. apply issues_wrap, issues_wrap, issues_exec. }
  eapply wp_mono; [apply Hi|]. intros err w1 (Hv & Ho & Hl). destruct err as [e|]; [by left|].
  specialize (Hl eq_refl). rewrite Hlog, app_nil_l in Hl. cbn [until_error]. apply wp_bind, wp_bind. unfold wp, op.
  destruct (tx_Commit tx w1) as [err w2] eqn:E. destruct (commit_spec _ _ _ _ E) as [Ho2 Hv2]. cbn.
  rewrite Hl, apply_statements, Hv in Hv2. destruct err as [e|]; cbn; [right|]; (split; [lia|]); [|naive_solver].
  destruct Hv2 as [?|[_ ?]]; auto.
Qed.

Lemma jobs_of_perm l k : l ≡ₚ k → jobs_of l ≡ₚ jobs_of k.
Proof. intros Hp. unfold jobs_of. by rewrite Hp. Qed.

(** The tables with the jobs of a pipeline and their results, in some order. *)
Definition ingested (config : Config) (pline : cci_Pipeline) (t t' : tables) : Prop :=
  ∃ js md, js ≡ₚ all_jobs config pline ∧ md ≡ₚ results_of config <$> all_jobs config pline ∧ t' = ingest pline js md t.
(** A pipeline that is due is taken in unless there was an error, and one that is not leaves the tables as they are. *)
Definition taken_in (config : Config) (pline : cci_Pipeline) (t : tables) (err : error) (t' : tables) : Prop :=
  if due config pline then ingested config pline t t' ∨ err ≠ None ∧ t' = t else t' = t.
(** Connections are given back, but for a transaction that failed. *)
Definition given_back (w : W) (err : error) (w' : W) : Prop :=
  open w' = open w ∨ open w' = open w + 1 ∧ err ≠ None ∧ visible w' = visible w.

Lemma in_transaction_wp config pline (order : list (string * (Workflow * list WorkflowJob))) md w :
  jobs_of order ≡ₚ all_jobs config pline → md ≡ₚ results_of config <$> all_jobs config pline →
  wpr (in_transaction (λ tx, order2 ← op (permute order); inserts tx pline (jobs_of order2) md)) w (λ err w',
    (ingested config pline (visible w) (visible w') ∨ err ≠ None ∧ visible w' = visible w) ∧ given_back w err w').
Proof.
  intros Hj Hm. unfold in_transaction, db_Begin, given_back. apply wp_bind, wp_bind. unfold wp at 1, op.
  destruct (conn_Begin w) as [r w1] eqn:E. destruct (begin_spec _ _ _ E) as [Hv Hr]. cbn.
  destruct r as [err|tx]; [by split; [right|left]|]. destruct Hr as [Hl Ho]. cbv zeta.
  apply wp_bind, wp_bind, permute_wp. intros order2 w2 Hp (Hv2 & Hl2 & Ho2).
  eapply wp_mono; [apply inserts_wp; congruence|]. intros err w3 Hw. apply wp_bind, wp_ret, wp_ret. unfold written in Hw.
  assert (jobs_of order2 ≡ₚ all_jobs config pline) as Hj2 by by rewrite (jobs_of_perm _ _ Hp).
  rewrite Hv2, Hv, Ho2, Ho in Hw. destruct err as [e|].
  - destruct Hw as [[Ho3 Hv3]|[Ho3 Hv3]].
    + split; [by right|]. right. split_and!; [lia|done|done].
    + split; [|left; lia]. destruct Hv3 as [?|?]; [by right|]. left. by exists (jobs_of order2), md.
  - destruct Hw as [Ho3 Hv3]. split; [|left; lia]. left. by exists (jobs_of order2), md.
Qed.

Lemma processPipeline_wp config pline w : wpr (processPipeline config pline) w (λ err w',
  taken_in config pline (visible w) err (visible w') ∧ given_back w err w').
Proof.
  unfold processPipeline, taken_in. apply wp_bind. eapply wp_mono; [apply fetchWorkflows_wp|]. intros r w1 [Hu1 Hr].
  assert (∀ e w', untouched w w' → (if due config pline then ingested config pline (visible w) (visible w') ∨ Some e ≠ None ∧ visible w' = visible w
    else visible w' = visible w) ∧ given_back w (Some e) w') as Herr.
  { intros e w' (Hv & _ & Ho). split; [|by left]. destruct (due config pline); [by right|done]. }
  assert (∀ w', untouched w w' → due config pline = false → (if due config pline then ingested config pline (visible w) (visible w') ∨ @None string ≠ None ∧ visible w' = visible w
    else visible w' = visible w) ∧ given_back w None w') as Hnot.
  { intros w' (Hv & _ & Ho) ->. split; [done|by left]. }
  destruct r as [err|l]; [by apply wp_ret, Herr|]. destruct l as [|wf wfs].
  { apply wp_ret, Hnot; [done|]. unfold due. by rewrite <- Hr. }
  assert (due config pline = forallb (λ wf, negb (unfinished wf)) (workflows_of config pline)) as Hdue.
  { unfold due. by rewrite bool_decide_eq_false_2 by (by rewrite <- Hr). }
  rewrite Hr. apply wp_bind. eapply wp_mono; [apply fetch_all_jobs_wp|]. intros r w2 [Hu2 Hr2]. apply (untouched_trans _ _ _ Hu1) in Hu2.
  destruct r as [err|[m|]]; [by apply wp_ret, Herr| |by apply wp_ret, Hnot; [|congruence]]. destruct Hr2 as [Hfin ->].
  apply wp_bind, permute_wp. intros order1 w3 Hp1 Hu3. apply (untouched_trans _ _ _ Hu2) in Hu3. rewrite all_jobs_perm in Hp1.
  apply wp_bind, permute_wp. intros tasks w4 Hp2 Hu4. apply (untouched_trans _ _ _ Hu3) in Hu4. rewrite (jobs_of_perm _ _ Hp1) in Hp2.
  apply wp_bind. eapply wp_mono; [apply fetch_metadata_wp|]. intros r w5 [Hu5 Hr5]. apply (untouched_trans _ _ _ Hu4) in Hu5.
  destruct r as [err|md]; [by apply wp_ret, Herr|].
  apply wp_bind, permute_wp. intros md' w6 Hp3 Hu6. apply (untouched_trans _ _ _ Hu5) in Hu6 as (Hv & _ & Ho).
  rewrite Hdue, Hfin. unfold given_back. rewrite <- Hv, <- Ho. apply in_transaction_wp.
  - apply jobs_of_perm, all_jobs_perm.
  - by rewrite Hp3, Hr5, Hp2.
Qed.
End processing.

(** C27: processing a pipeline returns. One that has workflows, all of which are over, is taken in as a whole, or, if there is an
    error, perhaps not at all: its row and its jobs are there and the test results of these jobs, and of no others, are
    replaced by the ones that count; any other pipeline leaves the tables as they are. Every connection is given back, except when a
    statement fails: then nothing is written, but the transaction is left open. *)
Theorem pipeline_taken_in {W Tx} `{OrderSpec W, CircleCI W, Pgx Tx W} {visible : W → tables} {log : Tx → W → list statement}
    {open : W → Z} `{!PgxSpec Tx W visible log open, !Apart W Tx visible log open} {workflows jobs_at tests_at}
    `{!Archive W workflows jobs_at tests_at} config pline (w : W) :
  ∃ err w', processPipeline config pline w = Ret (err, w') ∧
    taken_in (workflows := workflows) (jobs_at := jobs_at) (tests_at := tests_at) config pline (visible w) err (visible w') ∧
    given_back (visible := visible) (open := open) w err w'.
Proof.
  pose proof (processPipeline_wp (log := log) (workflows := workflows) (jobs_at := jobs_at) (tests_at := tests_at) config pline w) as Hw.
  unfold wp in Hw. destruct (processPipeline config pline w) as [[err w']|]; [|done]. by exists err, w'.
Qed.

(** ** A report *)

Section report.
Context {W Tx : Type} `{OrderSpec W, CircleCI W, Pgx Tx W} {visible : W → tables} {log : Tx → W → list statement} {open : W → Z}.
Context `{!PgxSpec Tx W visible log open, !Apart W Tx visible log open} {workflows jobs_at tests_at} `{!Archive W workflows jobs_at tests_at}.

(** Pipelines that are in the tables stay there. *)
Definition keeps (w w' : W) : Prop := ∀ id, is_Some (pipelines (visible w) !! id) → is_Some (pipelines (visible w') !! id).
Definition stored (config : Config) (l : list cci_Pipeline) (w : W) : Prop :=
  ∀ p, p ∈ l → due (workflows := workflows) config p = true → is_Some (pipelines (visible w) !! pl_ID p).

Lemma taken_in_keeps config pline w err w' :
  taken_in (workflows := workflows) (jobs_at := jobs_at) (tests_at := tests_at) config pline (visible w) err (visible w') →
  keeps w w' ∧ (err = None → due (workflows := workflows) config pline = true → is_Some (pipelines (visible w') !! pl_ID pline)).
Proof.
  unfold taken_in, keeps. destruct (due config pline); [intros [(js & md & _ & _ & ->)|[He ->]]|intros ->]; [|done..].
  cbn. split; [|intros _ _; apply lookup_union_is_Some; right; rewrite lookup_singleton_eq; by eexists].
  intros id Hid. apply lookup_union_is_Some. by left.
Qed.

Lemma process_all_wp config l w :
  wp (λ _, False) (until_error ((λ p, err ← processPipeline config p; mret (wrap "failed to process pipeline: " err)) <$> l)) w
    (λ err w', keeps w w' ∧ (err = None → stored config l w')).
Proof.
  revert w. induction l as [|p l IH]; intros w; cbn [fmap list_fmap until_error]; [apply wp_ret; by split; [intros id|intros _ p ?%elem_of_nil]|].
  apply wp_bind, wp_bind. eapply wp_mono;
    [apply (processPipeline_wp (log := log) (open := open) (workflows := workflows) (jobs_at := jobs_at) (tests_at := tests_at))|].
  intros err w1 [Ht _]. apply taken_in_keeps in Ht as [Hk Hs]. apply wp_ret. destruct err as [e|]; cbn [wrap fmap option_fmap option_map]; [by apply wp_ret|].
  eapply wp_mono; [apply IH|]. intros err w2 [Hk2 Hs2]. split; [intros id Hid; by apply Hk2, Hk|].
  intros He q [->|Hq]%elem_of_cons Hd; [by apply Hk2, Hs|by apply Hs2].
Qed.

Lemma fetch_pages_visible fuel config cutoff token res w :
  wp (λ _, False) (fetch_pages fuel config cutoff token res) w (λ _ w', visible w' = visible w).
Proof.
  revert token res w. induction fuel as [|fuel IH]; intros token res w; cbn [fetch_pages]; [by apply wp_ret|].
  apply wp_bind, (apart_wp (visible := visible) (log := log) (open := open)); [apply apart_pipelines|]. intros r w1 _ (Hv & _).
  destruct r as [err|[items next]]; [by apply wp_ret|]. destruct (take_page config cutoff items) as [new done].
  destruct (done || _); [by apply wp_ret|]. eapply wp_mono; [apply IH|]. intros r w2 ->. done.
Qed.
End report.


(** ** A project with two pages of pipelines *)

Module cci_runs.
(** The database, one transaction of it, and a job whose statements fail. *)
Record world := mk_world { vis : tables; lg : list statement; opn : Z; broken : string }.

Definition pl (id branch : string) (t : Z) : cci_Pipeline := mk_cci_pipeline id 1 "c0ffee" branch t.
#[local] Instance cci : CircleCI world := {|
  cci_Now := λ w, (50, w);
  ListPipelines := λ _ token w, (inr (match token with
    | None => ([pl "p5" "main" 40; pl "p4" "topic" 30], "next") | Some _ => ([pl "p3" "main" 20; pl "p2" "main" 10; pl "p1" "main" 5], "") end), w);
  ListWorkflows := λ id w, (inr [mk_workflow (id ++ "-w") "ci" (if String.eqb id "p5" then "running" else "failed")], w);
  ListWorkflowJobs := λ id w, (inr [mk_job "j1" "slug" 1 "build" "success" 0 1; mk_job "j2" "slug" 2 "test" "failed" 1 2], w);
  ListTestMetadata := λ _ n w, (inr (if String.eqb n "2" then
    [mk_test "slow" (f_of_Z 9) "success" ""; mk_test "fast" (f_of_Z 1) "success" ""; mk_test "bad" (f_of_Z 1) "failure" "boom"; mk_test "off" (f_of_Z 99) "skipped" ""]
    else []), w)
|}.
#[local] Instance order : Order world := λ _ l w, (l, w).
#[local] Instance order_spec : OrderSpec world.
Proof. by intros A l w. Qed.
#[local] Instance pgx : Pgx unit world := {|
  select_last := λ w, (inr None, w);
  conn_Begin := λ w, (inr tt, mk_world (vis w) [] (opn w + 1) (broken w));
  Exec := λ _ st w, if (match st with insert_into_jobs j => String.eqb (j_Name j) (broken w) | _ => false end)
    then (Some "broken", w) else (None, mk_world (vis w) (lg w ++ [st])%list (opn w) (broken w));
  tx_Commit := λ _ w, (None, mk_world (foldl apply_statement (vis w) (lg w)) (lg w) (opn w - 1) (broken w));
  tx_Rollback := λ _ w, (None, mk_world (vis w) [] (opn w - 1) (broken w))
|}.
#[local] Instance pgx_spec : PgxSpec unit world vis (λ _, lg) opn.
Proof.
  split.
  - by intros w r w' [= <- <-].
  - intros w r w' [= <- <-]. by split_and!.
  - intros tx st w err w'. cbn. destruct (match st with insert_into_jobs j => _ | _ => _ end); intros [= <- <-]; by split_and!.
  - intros tx w err w' [= <- <-]. split; [done|by left].
Qed.
#[local] Instance apart_spec : Apart world unit vis (λ _, lg) opn.
Proof. split; intros; intros w; by split_and!. Qed.
Definition workflows_at (id : string) : list Workflow := [mk_workflow (id ++ "-w") "ci" (if String.eqb id "p5" then "running" else "failed")].
Definition two_jobs : list WorkflowJob := [mk_job "j1" "slug" 1 "build" "success" 0 1; mk_job "j2" "slug" 2 "test" "failed" 1 2].
Definition results (n : string) : list TestMetadata := if String.eqb n "2" then
    [mk_test "slow" (f_of_Z 9) "success" ""; mk_test "fast" (f_of_Z 1) "success" ""; mk_test "bad" (f_of_Z 1) "failure" "boom"; mk_test "off" (f_of_Z 99) "skipped" ""]
    else [].
#[local] Instance archive : Archive world workflows_at (λ _, two_jobs) (λ _, results).
Proof. split; [by intros id w l w' [= <- <-]|by intros id w l w' [= <- <-]|by intros slug n w l w' [= <- <-]|intros id; apply NoDup_singleton]. Qed.

Definition cfg : Config := mk_config "slug" (λ b, String.eqb b "main") (λ _, true) 90 4 (f_of_Z 5).
Definition w0 (broken : string) : world := mk_world (mk_tables ∅ ∅ []) [] 0 broken.

(** The running pipeline p5 is passed over without an error; p3 and p2 are taken in, with the slow test and the one that failed. *)
Lemma report_run : (λ x, (x.1, dom (pipelines (vis x.2)), dom (jobs (vis x.2)), (λ tr, (tr_JobID tr, tr_Name tr)) <$> tests (vis x.2), opn x.2)) <$>
    returned ((until_error (processPipeline cfg <$> [pl "p5" "main" 40; pl "p3" "main" 20])) (w0 "")) =
  Some (None, {["p3"]}, {["p3-w/j1"; "p3-w/j2"]}, [("p3-w/j2", "slow"); ("p3-w/j2", "bad")], 0).
Proof. vm_compute. reflexivity. Qed.

(** After a statement has failed the transaction is neither committed nor rolled back. *)
Lemma failed_insert_stays_open : (λ x, (x.1, pipelines (vis x.2), opn x.2)) <$> returned (processPipeline cfg (pl "p3" "main" 20) (w0 "test")) =
  Some (Some "failed to insert workflow: failed to insert job: query 1: broken", ∅, 1).
Proof. vm_compute. reflexivity. Qed.

Lemma pipelines_fetched_witness : ∃ w1, fetchPipelines 2 cfg 10 (w0 "") = Ret (Some (inr [pl "p5" "main" 40; pl "p3" "main" 20; pl "p2" "main" 10]), w1).
Proof.
  apply (pipelines_fetched cfg 10 2 (w0 "") (w0 "")
    ([pl "p5" "main" 40; pl "p4" "topic" 30] ++ [pl "p3" "main" 20; pl "p2" "main" 10; pl "p1" "main" 5])%list 2).
  - eapply more_pages; [reflexivity|discriminate|apply last_page; reflexivity].
  - repeat (constructor; [|repeat (constructor; [cbn; lia|]); constructor]). constructor.
  - lia.
Defined.

Lemma pipeline_taken_in_witness : ∃ err w', processPipeline cfg (pl "p3" "main" 20) (w0 "") = Ret (err, w') ∧
  taken_in (workflows := workflows_at) (jobs_at := λ _, two_jobs) (tests_at := λ _, results) cfg (pl "p3" "main" 20) (mk_tables ∅ ∅ []) err (vis w') ∧
  given_back (visible := vis) (open := opn) (w0 "") err w'.
Proof.
  exact (pipeline_taken_in (Tx := unit) (visible := vis) (log := λ _, lg) (open := opn) (workflows := workflows_at) (jobs_at := λ _, two_jobs)
    (tests_at := λ _, results) cfg (pl "p3" "main" 20) (w0 "")).
Defined.

End cci_runs.
