(* ===== verification/ConductorOps.v ===== *)
(** op-conductor-ops: the command line tool that operates a cluster of sequencers. This file
    has the configuration (config.py), the objects (network.py, sequencer.py), the requests
    (utils.py) and the commands (op-conductor-ops.py).

    Sequencers are objects that networks share, so they live in a store; an update of a
    network writes to them from threads, in an order the world picks. The requests are
    recorded as they are sent. A command ends with a value or an exception, and the
    requests sent before it stay sent. *)
From stdpp Require Import base numbers list gmap strings.
From Stdlib Require Import Ascii.
From S2P Require Import Prelude.

Local Open Scope string_scope.
Local Open Scope Z_scope.
#[local] Arguments String.append : simpl nomatch.

(** ** Python values, as JSON and TOML have them *)

Inductive value :=
  | PyNone
  | PyBool (b : bool)
  | PyInt (z : Z)
  | PyStr (s : string)
  | PyList (l : list value)
  | PyDict (d : list (string * value)).

Definition truthy (v : value) : bool :=
  match v with
  | PyNone => false
  | PyBool b => b
  | PyInt z => negb (z =? 0)
  | PyStr s => negb (String.eqb s "")
  | PyList l => match l with [] => false | _ => true end
  | PyDict d => match d with [] => false | _ => true end
  end.

Fixpoint dict_get (d : list (string * value)) (k : string) : option value :=
  match d with [] => None | (k', v) :: d => if String.eqb k' k then Some v else dict_get d k end.

(** [n == v] for an integer [n]. *)
Definition int_eq (n : Z) (v : value) : bool :=
  match v with PyInt z => n =? z | PyBool b => n =? (if b then 1 else 0) | _ => false end.

(** ** Exceptions and the state of the tool *)

Inductive exn := Exit (code : Z) | Raised (what : string).

Record Sequencer := mk_sequencer {
  sequencer_id : string; raft_addr : string; conductor_rpc_url : string; node_rpc_url : string; voting : value;
  conductor_active : value; conductor_leader : value; sequencer_healthy : value; sequencer_active : value;
  unsafe_l2_hash : value; unsafe_l2_number : value
}.
#[export] Instance eta_Sequencer : Eta Sequencer := λ r, mk_sequencer (sequencer_id r) (raft_addr r) (conductor_rpc_url r)
  (node_rpc_url r) (voting r) (conductor_active r) (conductor_leader r) (sequencer_healthy r) (sequencer_active r)
  (unsafe_l2_hash r) (unsafe_l2_number r).

(** [Sequencer.__init__] *)
Definition new_Sequencer (sequencer_id raft_addr conductor_rpc_url node_rpc_url : string) (voting : value) : Sequencer :=
  mk_sequencer sequencer_id raft_addr conductor_rpc_url node_rpc_url voting PyNone PyNone PyNone PyNone PyNone PyNone.

Record request := mk_request { req_url : string; req_method : string; req_params : list value }.
(** The payload carries the method and the parameters; its id and version are fixed. *)
Definition make_rpc_payload (method : string) (params : option (list value)) : string * list value :=
  (method, default [] params).

Record response := mk_response { status_ok : bool; content : option value }.

(** The requests package, and the prompt. *)
Class Http (W : Type) := {
  http_post : string → string * list value → W → (string + response) * W;
  py_sleep : Z → W → W;
  py_input : W → string * W
}.

Inductive line := Echo (msg : string) | Warn (msg : string) | Error (msg : string).

Record tool (W : Type) := mk_tool {
  store : gmap string Sequencer; sent : list request; output : list line; environ : gmap string string; tw : W
}.
Arguments mk_tool {W} _ _ _ _ _.
Arguments store {W} _.
Arguments sent {W} _.
Arguments output {W} _.
Arguments environ {W} _.
Arguments tw {W} _.

Definition Py (W A : Type) : Type := tool W → (exn + A) * tool W.
#[export] Instance Py_ret {W} : MRet (Py W) := λ A a s, (inr a, s).
#[export] Instance Py_bind {W} : MBind (Py W) := λ A B f m s,
  match m s with (inl e, s') => (inl e, s') | (inr a, s') => f a s' end.

Section tool.
Context {W : Type} `{Order W, Http W}.
Notation P := (Py W).

Definition raise {A} (e : exn) : P A := λ s, (inl e, s).
Definition exit1 {A} : P A := raise (Exit 1).
Definition py_get {A} (f : tool W → A) : P A := λ s, (inr (f s), s).
Definition print (l : line) : P unit := λ s, (inr tt, mk_tool (store s) (sent s) (output s ++ [l])%list (environ s) (tw s)).
Definition py_world {A} (f : W → A * W) : P A := λ s,
  let '(a, w) := f (tw s) in (inr a, mk_tool (store s) (sent s) (output s) (environ s) w).
Definition set_obj (id : string) (f : Sequencer → Sequencer) : P unit := λ s,
  (inr tt, mk_tool (alter f id (store s)) (sent s) (output s) (environ s) (tw s)).
Definition set_env (k v : string) : P unit := λ s,
  (inr tt, mk_tool (store s) (sent s) (output s) (<[k := v]> (environ s)) (tw s)).
(** [try: m except Exception: h]; the exceptions of typer are exceptions too. *)
Definition py_try {A} (m : P A) (h : P A) : P A := λ s, match m s with (inl _, s') => h s' | r => r end.
Fixpoint py_for {A} (f : A → P unit) (l : list A) : P unit :=
  match l with [] => mret tt | x :: l => _ ← f x; py_for f l end.

(** A request that fails to be made raises. *)
Definition post (url : string) (payload : string * list value) : P response := λ s,
  let s1 := mk_tool (store s) (sent s ++ [mk_request url payload.1 payload.2])%list (output s) (environ s) (tw s) in
  match http_post url payload (tw s1) with
  | (inl err, w) => (inl (Raised err), mk_tool (store s1) (sent s1) (output s1) (environ s1) w)
  | (inr r, w) => (inr r, mk_tool (store s1) (sent s1) (output s1) (environ s1) w)
  end.
Definition raise_for_status (r : response) : P unit := if status_ok r then mret tt else raise (Raised "HTTPError").
Definition json (r : response) : P value :=
  match content r with Some v => mret v | None => raise (Raised "JSONDecodeError") end.
(** [v[k]] *)
Definition subscript (v : value) (k : string) : P value :=
  match v with
  | PyDict d => match dict_get d k with Some v => mret v | None => raise (Raised "KeyError") end
  | _ => raise (Raised "TypeError")
  end.
(** ["error" in resp.json()] *)
Definition has_error (r : response) : P bool :=
  v ← json r;
  match v with
  | PyDict d => mret (match dict_get d "error" with Some _ => true | None => false end)
  | PyList l => mret (existsb (λ x, match x with PyStr s => String.eqb s "error" | _ => false end) l)
  | PyStr s => mret (match String.index 0 "error" s with Some _ => true | None => false end)
  | _ => raise (Raised "TypeError")
  end.

(** ** sequencer.py *)

(** The calls [_get_...] that read an attribute from a node: a bad status leaves it as it is. *)
Definition get_attribute (url method : string) (set : value → P unit) : P unit :=
  resp ← post url (make_rpc_payload method None);
  if negb (status_ok resp) then mret tt
  else v ← json resp; v ← subscript v "result"; set v.

Inductive getter := get_conductor_active | get_conductor_leader | get_sequencer_healthy | get_sequencer_active | get_unsafe_l2.
Definition getters : list getter :=
  [get_conductor_active; get_conductor_leader; get_sequencer_healthy; get_sequencer_active; get_unsafe_l2].

Definition run_getter (id : string) (g : getter) : P unit :=
  o ← py_get (λ s, store s !! id);
  match o with
  | None => mret tt
  | Some self =>
      match g with
      | get_conductor_active => get_attribute (conductor_rpc_url self) "conductor_active"
          (λ v, set_obj id (λ o, {{ o with conductor_active := v }}))
      | get_conductor_leader => get_attribute (conductor_rpc_url self) "conductor_leader"
          (λ v, set_obj id (λ o, {{ o with conductor_leader := v }}))
      | get_sequencer_healthy => get_attribute (conductor_rpc_url self) "conductor_sequencerHealthy"
          (λ v, set_obj id (λ o, {{ o with sequencer_healthy := v }}))
      | get_sequencer_active => get_attribute (node_rpc_url self) "admin_sequencerActive"
          (λ v, set_obj id (λ o, {{ o with sequencer_active := v }}))
      | get_unsafe_l2 => get_attribute (node_rpc_url self) "optimism_syncStatus" (λ result,
          u ← subscript result "unsafe_l2";
          n ← subscript u "number";
          _ ← set_obj id (λ o, {{ o with unsafe_l2_number := n }});
          u ← subscript result "unsafe_l2";
          h ← subscript u "hash";
          set_obj id (λ o, {{ o with unsafe_l2_hash := h }}))
      end
  end.

Definition cluster_membership (leader : Sequencer) : P value :=
  resp ← post (conductor_rpc_url leader) (make_rpc_payload "conductor_clusterMembership" None);
  _ ← raise_for_status resp;
  v ← json resp; v ← subscript v "result"; subscript v "servers".

(** ** network.py *)

(** The threads of all sequencers run in the order of the world; what a getter raises is printed. *)
Definition network_update (names : list string) : P unit :=
  tasks ← py_world (permute (names ≫= λ id, (λ g, (id, g)) <$> getters));
  py_for (λ '(id, g), py_try (run_getter id g) (print (Echo "raised an exception"))) tasks.

(** The objects of a network. *)
Definition objects (names : list string) : P (list Sequencer) := py_get (λ s, omap (λ id, store s !! id) names).
Definition get_sequencer_by_id (l : list Sequencer) (id : string) : option Sequencer :=
  List.find (λ q, String.eqb (sequencer_id q) id) l.
Definition find_conductor_leader (l : list Sequencer) : option Sequencer := List.find (λ q, truthy (conductor_leader q)) l.
Definition find_active_sequencer (l : list Sequencer) : option Sequencer := List.find (λ q, truthy (sequencer_active q)) l.

(** ** config.py, after the file was parsed *)

Record seq_config := mk_seq_config { sc_raft_addr : string; sc_conductor_rpc_url : string; sc_node_rpc_url : string; sc_voting : value }.
Record toml_config := mk_toml {
  toml_cert_path : option string; toml_sequencers : list (string * seq_config); toml_networks : list (string * list string)
}.

(** What is before the last slash, or all of it. *)
Fixpoint before_last_slash (s : string) : option string :=
  match s with
  | "" => None
  | String c s' =>
      match before_last_slash s' with
      | Some p => Some (String c p)
      | None => if Ascii.eqb c "/"%char then Some "" else None
      end
  end.
Definition starts_with_slash (s : string) : bool := match s with String "/"%char _ => true | _ => false end.

Definition cert_path_of (config_path : string) (config : toml_config) : string :=
  let cert_path := default "" (toml_cert_path config) in
  if negb (starts_with_slash cert_path) then default config_path (before_last_slash config_path) ++ "/" ++ cert_path
  else cert_path.

(** The sequencers of a network must be known ones. *)
Definition read_config (config_path : string) (config : toml_config) :
    exn + (gmap string Sequencer * list (string * list string) * string) :=
  let sequencers : gmap string Sequencer := foldl (λ m x, <[x.1 := new_Sequencer x.1 (sc_raft_addr x.2) (sc_conductor_rpc_url x.2)
    (sc_node_rpc_url x.2) (sc_voting x.2)]> m) ∅ (toml_sequencers config) in
  if forallb (λ n : string * list string, forallb (λ id, bool_decide (is_Some (sequencers !! id))) n.2) (toml_networks config)
  then inr (sequencers, toml_networks config, cert_path_of config_path config)
  else inl (Raised "KeyError").

(** ** op-conductor-ops.py *)

Definition load_config (cert config_path : string) (config : toml_config) : P (list (string * list string)) :=
  match read_config config_path config with
  | inl e => raise e
  | inr (sequencers, networks, config_cert_path) =>
      _ ← (λ s, (inr tt, mk_tool sequencers (sent s) (output s) (environ s) (tw s)));
      let cert_path := if String.eqb cert "" then config_cert_path else cert in
      _ ← (if String.eqb cert_path "" then mret tt
           else _ ← set_env "REQUESTS_CA_BUNDLE" cert_path; set_env "SSL_CERT_FILE" cert_path);
      mret networks
  end.

Context (NETWORKS : list (string * list string)).

Fixpoint network_get (l : list (string * list string)) (network : string) : option (list string) :=
  match l with [] => None | (n, ids) :: l => if String.eqb n network then Some ids else network_get l network end.

Definition get_network (network : string) : P (list string) :=
  match network_get NETWORKS network with
  | None => _ ← print (Echo "Network must be one of the configured ones"); exit1
  | Some names => _ ← network_update names; mret names
  end.

(** [{x["id"]: x for x in servers}]; an id that is not a string is no sequencer's. *)
Fixpoint membership_of (l : list value) (m : gmap string value) : P (gmap string value) :=
  match l with
  | [] => mret m
  | x :: l =>
      id ← subscript x "id";
      match id with
      | PyStr id => membership_of l (<[id := x]> m)
      | PyList _ | PyDict _ => raise (Raised "TypeError")
      | _ => membership_of l m
      end
  end.
Definition servers_list (v : value) : P (list value) :=
  match v with PyList l => mret l | _ => raise (Raised "TypeError") end.

(** Whether the cluster has the sequencer with another suffrage than its configuration. *)
Definition wrong_suffrage (q : Sequencer) (x : value) : P bool :=
  suffrage ← subscript x "suffrage";
  mret (negb (int_eq (if truthy (voting q) then 0 else 1) suffrage)).

(** Says what is wrong with the membership, and whether something is. *)
Fixpoint check_members (membership : gmap string value) (l : list Sequencer) (display_correction : bool) : P bool :=
  match l with
  | [] => mret display_correction
  | q :: l =>
      match membership !! sequencer_id q with
      | Some x =>
          wrong ← wrong_suffrage q x;
          if wrong : bool then
            _ ← print (Error (": " ++ sequencer_id q ++ " does not have the correct voting status."));
            check_members membership l true
          else check_members membership l display_correction
      | None =>
          _ ← print (Warn (": " ++ sequencer_id q ++ " is not in the cluster"));
          check_members membership l true
      end
  end.

(** The table is left out. *)
Definition status (network : string) : P unit :=
  names ← get_network network;
  sequencers ← objects names;
  match find_conductor_leader sequencers with
  | None => print (Warn ("Could not find current leader in network " ++ network))
  | Some leader =>
      servers ← cluster_membership leader;
      l ← servers_list servers;
      membership ← membership_of l ∅;
      display_correction ← check_members membership sequencers false;
      if display_correction : bool then print (Warn "Run 'update-cluster-membership' to correct membership issues") else mret tt
  end.

(** A request after which an error in the reply, or a bad status, ends the command. *)
Definition post_or_exit (url : string) (payload : string * list value) (failed : line) : P response :=
  resp ← post url payload;
  _ ← raise_for_status resp;
  err ← has_error resp;
  if err : bool then v ← json resp; _ ← subscript v "error"; _ ← print failed; exit1 else mret resp.

(** The checks on the target; that the leader is paused is only said. *)
Definition check_target (leader sequencer : Sequencer) (id : string) (force : bool) : P unit :=
  match voting sequencer with
  | PyBool false => _ ← print (Error ("Sequencer " ++ id ++ " is not a voter")); exit1
  | _ =>
      if force then mret tt
      else if negb (truthy (sequencer_healthy sequencer)) then
        _ ← print (Error ("Target sequencer " ++ id ++ " is not healthy.")); exit1
      else if negb (truthy (conductor_active sequencer)) then
        _ ← print (Error ("Target sequencer " ++ id ++ " conductor is paused.")); exit1
      else if negb (truthy (conductor_active leader)) then
        print (Error ("Current leader " ++ sequencer_id leader ++ " conductor is paused."))
      else mret tt
  end.
Definition transfer_leader (network id : string) (force : bool) : P unit :=
  names ← get_network network;
  sequencers ← objects names;
  match find_conductor_leader sequencers with
  | None => _ ← print (Error ("Could not find current leader in network " ++ network)); exit1
  | Some leader =>
      match get_sequencer_by_id sequencers id with
      | None => _ ← print (Error ("Sequencer ID " ++ id ++ " not found in network " ++ network)); exit1
      | Some sequencer =>
          _ ← check_target leader sequencer id force;
          _ ← post_or_exit (conductor_rpc_url leader)
            (make_rpc_payload "conductor_transferLeaderToServer" (Some [PyStr (sequencer_id sequencer); PyStr (raft_addr sequencer)]))
            (Error ("Failed to transfer leader to " ++ id));
          print (Echo ("Successfully transferred leader to " ++ id))
      end
  end.

(** The sequencers that [pause] and [resume] are about. *)
Definition chosen (network : string) (id : option string) (names : list string) : P (list Sequencer) :=
  sequencers ← objects names;
  match id with
  | None => mret sequencers
  | Some id =>
      match get_sequencer_by_id sequencers id with
      | None => _ ← print (Error ("Sequencer ID " ++ id ++ " not found in network " ++ network)); exit1
      | Some q => mret [q]
      end
  end.

(** The request to each in turn; an error in a reply is printed, and is no error of the command. *)
Definition post_each (url : Sequencer → string) (payload : Sequencer → string * list value) (ok failed : Sequencer → line)
    (l : list Sequencer) : P unit :=
  py_for (λ q,
    resp ← post (url q) (payload q);
    py_try
      (_ ← raise_for_status resp; err ← has_error resp;
       if err : bool then raise (Raised "error in the reply") else print (ok q))
      (print (failed q))) l.

Definition pause (network : string) (id : option string) : P unit :=
  names ← get_network network;
  sequencers ← chosen network id names;
  post_each conductor_rpc_url (λ _, make_rpc_payload "conductor_pause" None)
    (λ q, Echo ("Successfully paused " ++ sequencer_id q)) (λ q, Echo ("Failed to pause " ++ sequencer_id q)) sequencers.

Definition resume (network : string) (id : option string) : P unit :=
  names ← get_network network;
  sequencers ← chosen network id names;
  post_each conductor_rpc_url (λ _, make_rpc_payload "conductor_resume" None)
    (λ q, Echo ("Successfully resumed " ++ sequencer_id q)) (λ q, Error ("Failed to resume " ++ sequencer_id q)) sequencers.

Definition override_leader (network id : string) (remove y : bool) : P unit :=
  names ← get_network network;
  sequencers ← objects names;
  match get_sequencer_by_id sequencers id with
  | None => _ ← print (Error ("sequencer ID " ++ id ++ " not found in network " ++ network)); exit1
  | Some sequencer =>
      _ ← (if remove then
             if y then print (Warn "You are trying to remove the override.")
             else
               _ ← print (Echo "Note: you are trying to remove the override.");
               user_input ← py_world py_input;
               let user_input := to_lower user_input in
               if negb (String.eqb user_input "y" || String.eqb user_input "n") then _ ← print (Error "Wrong input provided"); exit1
               else if String.eqb user_input "n" then raise (Exit 0) else mret tt
           else mret tt);
      _ ← post_or_exit (conductor_rpc_url sequencer) (make_rpc_payload "conductor_overrideLeader" (Some [PyBool (negb remove)]))
        (Error ("Failed to override conductor leader status for " ++ id));
      _ ← (if negb remove then
             _ ← post_or_exit (node_rpc_url sequencer) (make_rpc_payload "admin_overrideLeader" None)
               (Error ("Failed to override sequencer leader status for " ++ id)); mret tt
           else mret tt);
      print (Echo ("Successfully overrode leader for " ++ id))
  end.

Definition remove_server (network id : string) : P unit :=
  names ← get_network network;
  sequencers ← objects names;
  match get_sequencer_by_id sequencers id with
  | None => _ ← print (Error ("sequencer ID " ++ id ++ " not found in network " ++ network)); exit1
  | Some _ =>
      match find_conductor_leader sequencers with
      | None => raise (Raised "AttributeError")
      | Some leader =>
          _ ← post_or_exit (conductor_rpc_url leader) (make_rpc_payload "conductor_removeServer" (Some [PyStr id; PyInt 0]))
            (Error ("Failed to remove " ++ id));
          print (Echo ("Successfully removed " ++ id))
      end
  end.

Definition update_cluster_membership (network : string) : P unit :=
  names ← get_network network;
  sequencers ← objects names;
  match find_conductor_leader sequencers with
  | None => _ ← print (Error ("Could not find current leader in network " ++ network)); exit1
  | Some leader =>
      servers ← cluster_membership leader;
      l ← servers_list servers;
      membership ← membership_of l ∅;
      py_for (λ q,
        _ ← (match membership !! sequencer_id q with
             | Some x =>
                 wrong ← wrong_suffrage q x;
                 if wrong : bool then
                   _ ← print (Echo ("Removing " ++ sequencer_id q ++ " from cluster to update voting status"));
                   remove_server network (sequencer_id q)
                 else mret tt
             | None => mret tt
             end);
        let method := if truthy (voting q) then "conductor_addServerAsVoter" else "conductor_addServerAsNonvoter" in
        post_each (λ _, conductor_rpc_url leader)
          (λ q, make_rpc_payload method (Some [PyStr (sequencer_id q); PyStr (raft_addr q); PyInt 0]))
          (λ q, Echo ("Successfully added " ++ sequencer_id q)) (λ q, Warn ("Failed to add " ++ sequencer_id q ++ " as voter")) [q])
        sequencers
  end.

Definition not_all_paused (l : list Sequencer) : bool := negb (forallb (λ q, negb (truthy (conductor_active q))) l).

Definition halt_sequencer (network : string) (force : bool) : P unit :=
  names ← get_network network;
  sequencers ← objects names;
  if not_all_paused sequencers && negb force then
    _ ← print (Error "Not all conductors were found to be paused."); exit1
  else
    match find_active_sequencer sequencers with
    | None => _ ← print (Error ("Could not find an active sequencer in the network: " ++ network)); exit1
    | Some active_sequencer =>
        py_try
          (resp ← post (node_rpc_url active_sequencer) (make_rpc_payload "admin_stopSequencer" (Some []));
           _ ← raise_for_status resp;
           err ← has_error resp;
           if err : bool then raise (Raised "error in the reply")
           else print (Echo ("Successfully halted the active sequencer: " ++ sequencer_id active_sequencer)))
          (print (Warn ("Failed to halt the active sequencer: " ++ sequencer_id active_sequencer)))
    end.

Definition force_active_sequencer (network id : string) (force : bool) : P unit :=
  names ← get_network network;
  sequencers ← objects names;
  match get_sequencer_by_id sequencers id with
  | None => _ ← print (Echo ("sequencer ID " ++ id ++ " not found in network " ++ network)); exit1
  | Some sequencer =>
      if not_all_paused sequencers && negb force then
        _ ← print (Error "Not all conductors are paused. Run 'pause' command first."); exit1
      else
        hash ← (match find_active_sequencer sequencers with
                | None => mret (unsafe_l2_hash sequencer)
                | Some active =>
                    _ ← print (Echo ("Stopping " ++ sequencer_id active));
                    resp ← post_or_exit (node_rpc_url active) (make_rpc_payload "admin_stopSequencer" (Some []))
                      (Echo ("Failed to stop " ++ sequencer_id active));
                    v ← json resp; subscript v "result"
                end);
        if negb (truthy hash) then _ ← print (Echo "Failed to get a hash to start sequencer"); exit1 else
        _ ← py_world (λ w, (tt, py_sleep Second w));
        _ ← print (Echo ("Starting " ++ id));
        _ ← post_or_exit (node_rpc_url sequencer) (make_rpc_payload "admin_startSequencer" (Some [hash]))
          (Echo ("Failed to start " ++ id));
        print (Echo ("Successfully forced " ++ id ++ " to become active"))
  end.
End tool.

(** ** Reasoning about commands *)

(** What holds of the outcome of a command and the state after it. *)
Definition pwp {W A} (m : Py W A) (s : tool W) (Q : exn + A → tool W → Prop) : Prop := Q (m s).1 (m s).2.

Lemma pwp_bind {W A B} (m : Py W A) (f : A → Py W B) s (Q : exn + B → tool W → Prop) :
  pwp m s (λ r s', match r with inl e => Q (inl e) s' | inr a => pwp (f a) s' Q end) → pwp (m ≫= f) s Q.
Proof. unfold pwp, mbind, Py_bind. by destruct (m s) as [[e|a] s']. Qed.
Lemma pwp_mono {W A} (m : Py W A) s (Q R : exn + A → tool W → Prop) : pwp m s Q → (∀ r s', Q r s' → R r s') → pwp m s R.
Proof. unfold pwp. auto. Qed.

(** The requests that only read. *)
Definition reads : list string :=
  ["conductor_active"; "conductor_leader"; "conductor_sequencerHealthy"; "admin_sequencerActive"; "optimism_syncStatus";
   "conductor_clusterMembership"].
Definition acts (l : list request) : list request := filter (λ r, req_method r ∉ reads) l.

Section commands.
Context {W : Type} `{Order W, Http W}.
Notation P := (Py W).

(** The sent requests grow by [new], of which [acts] only read or are the given ones; the objects stay. *)
Definition asked (s s' : tool W) (l : list request) : Prop :=
  ∃ new, sent s' = (sent s ++ new)%list ∧ acts new = l.
Lemma asked_refl s s' : sent s' = sent s → asked s s' [].
Proof. intros E. exists []. by rewrite E, app_nil_r. Qed.
Lemma asked_trans s1 s2 s3 l k : asked s1 s2 l → asked s2 s3 k → asked s1 s3 (l ++ k).
Proof.
  intros (a & E & <-) (b & E' & <-). exists (a ++ b)%list. rewrite E', E, <- app_assoc. split; [done|]. apply filter_app.
Qed.

(** Steps that send nothing but reads. *)
Definition reading {A} (m : P A) : Prop := ∀ s, pwp m s (λ _ s', asked s s' []).
Lemma reading_bind {A B} (m : P A) (f : A → P B) : reading m → (∀ a, reading (f a)) → reading (m ≫= f).
Proof.
  intros Hm Hf s. apply pwp_bind. eapply pwp_mono; [apply Hm|]. intros [e|a] s1 H1; [done|].
  eapply pwp_mono; [apply Hf|]. intros r s2 H2. by apply (asked_trans _ _ _ [] [] H1).
Qed.
Lemma reading_ret {A} (a : A) : reading (mret a).
Proof. intros s. by apply asked_refl. Qed.
Lemma reading_raise {A} e : reading (raise e : P A).
Proof. intros s. by apply asked_refl. Qed.
Lemma reading_get {A} (f : tool W → A) : reading (py_get f).
Proof. intros s. by apply asked_refl. Qed.
Lemma reading_print l : reading (print l : P unit).
Proof. intros s. by apply asked_refl. Qed.
Lemma reading_world {A} (f : W → A * W) : reading (py_world f).
Proof. intros s. unfold pwp, py_world. destruct (f (tw s)). by apply asked_refl. Qed.
Lemma reading_set id f : reading (set_obj id f : P unit).
Proof. intros s. by apply asked_refl. Qed.
Lemma reading_subscript v k : reading (subscript v k : P value).
Proof. unfold subscript. destruct v; try apply reading_raise. destruct (dict_get _ _); [apply reading_ret|apply reading_raise]. Qed.
Lemma reading_json r : reading (json r : P value).
Proof. unfold json. destruct (content r); [apply reading_ret|apply reading_raise]. Qed.
Lemma reading_try {A} (m h : P A) : reading m → reading h → reading (py_try m h).
Proof.
  intros Hm Hh s. specialize (Hm s). unfold pwp, py_try in *. destruct (m s) as [[e|a] s1]; cbn in *; [|done].
  specialize (Hh s1). unfold pwp in Hh. by apply (asked_trans _ _ _ [] [] Hm).
Qed.
Lemma reading_for {A} (f : A → P unit) l : (∀ x, reading (f x)) → reading (py_for f l).
Proof. intros Hf. induction l as [|x l IH]; cbn; [apply reading_ret|]. by apply reading_bind. Qed.

(** A request is recorded, whatever becomes of it. *)
Lemma post_wp url payload s : pwp (post url payload) s (λ r s', store s' = store s ∧
  sent s' = (sent s ++ [mk_request url payload.1 payload.2])%list ∧
  match r with inl _ => True | inr resp => (http_post url payload (tw s)).1 = inr resp end).
Proof. unfold pwp, post. cbn. by destruct (http_post _ _ _) as [[err|resp] w]. Qed.
Lemma reading_post url method params : method ∈ reads → reading (post url (make_rpc_payload method params)).
Proof.
  intros Hm s. eapply pwp_mono; [apply post_wp|]. intros r s' (_ & E & _). exists [mk_request url method (default [] params)].
  split; [done|]. unfold acts. rewrite filter_cons, decide_False; [done|]. cbn. tauto.
Qed.

Lemma reading_attribute url method set : method ∈ reads → (∀ v, reading (set v)) → reading (get_attribute url method set).
Proof.
  intros Hm Hs. apply reading_bind; [by apply reading_post|]. intros resp. destruct (status_ok resp); cbn; [|apply reading_ret].
  apply reading_bind; [apply reading_json|]. intros v. by apply reading_bind; [apply reading_subscript|].
Qed.
Lemma reading_getter id g : reading (run_getter id g).
Proof.
  apply reading_bind; [apply reading_get|]. intros [o|]; [|apply reading_ret].
  destruct g; (apply reading_attribute; [set_solver|]); intros v; try apply reading_set.
  do 2 (apply reading_bind; [apply reading_subscript|]; intros ?). apply reading_bind; [apply reading_set|]. intros _.
  do 2 (apply reading_bind; [apply reading_subscript|]; intros ?). apply reading_set.
Qed.
Lemma reading_network nets network : reading (get_network nets network).
Proof.
  unfold get_network. destruct (network_get nets network); [|apply reading_bind; [apply reading_print|intros; apply reading_raise]].
  apply reading_bind; [|intros; apply reading_ret]. apply reading_bind; [apply reading_world|]. intros tasks.
  apply reading_for. intros [id g]. apply reading_try; [apply reading_getter|apply reading_print].
Qed.

(** The objects of a network after they were updated. *)
Definition at_hand (s : tool W) (names : list string) : list Sequencer := omap (λ id, store s !! id) names.

(** What a getter raises is caught, so the update of a network always ends. *)
Lemma network_update_returns names s : ∃ s', network_update names s = (inr tt, s').
Proof.
  assert (∀ tasks s1, ∃ s', py_for (λ '(id, g), py_try (run_getter id g) (print (Echo "raised an exception"))) tasks s1 = (inr tt, s')) as Hl.
  { induction tasks as [|[id g] tasks IH]; intros s1; [by eexists|]. cbn [py_for]. unfold mbind, Py_bind, py_try.
    destruct (run_getter id g s1) as [[e|[]] s2]; apply IH. }
  unfold network_update, mbind, Py_bind, py_world. destruct (permute _ _). apply Hl.
Qed.

Lemma get_network_wp {A} nets network (k : list Sequencer → P A) s Q :
  (∀ e s', network_get nets network = None → asked s s' [] → Q (inl e) s') →
  (∀ names s', asked s s' [] → network_get nets network = Some names → pwp (k (at_hand s' names)) s' Q) →
  pwp (names ← get_network nets network; qs ← objects names; k qs) s Q.
Proof.
  intros He Hk. apply pwp_bind. pose proof (reading_network nets network s) as Hr. unfold get_network in *.
  destruct (network_get nets network) as [names|] eqn:En; [|by apply He].
  destruct (network_update_returns names s) as [s' E]. unfold pwp, mbind, Py_bind in Hr |- *. rewrite E in *. by apply (Hk names s').
Qed.

(** A reply without an error. *)
Definition good_reply (resp : response) : bool := status_ok resp &&
  match content resp with
  | Some (PyDict d) => match dict_get d "error" with Some _ => false | None => true end
  | Some (PyList l) => negb (existsb (λ x, match x with PyStr s => String.eqb s "error" | _ => false end) l)
  | Some (PyStr s) => match String.index 0 "error" s with Some _ => false | None => true end
  | _ => false
  end.
(** The reply to a request that was sent, if there was a good one. *)
Definition answer (url : string) (payload : string * list value) (w : W) : option response :=
  match (http_post url payload w).1 with inr resp => if good_reply resp then Some resp else None | inl _ => None end.

Lemma post_or_exit_wp url payload failed s : pwp (post_or_exit url payload failed) s (λ r s', store s' = store s ∧
  sent s' = (sent s ++ [mk_request url payload.1 payload.2])%list ∧
  match r with inl _ => answer url payload (tw s) = None | inr resp => answer url payload (tw s) = Some resp end).
Proof.
  unfold answer, pwp, post_or_exit, post, mbind, Py_bind. cbn. destruct (http_post url payload (tw s)) as [[err|resp] w]; cbn; [done|].
  unfold good_reply, raise_for_status, has_error, json, subscript, print, exit1, raise, mbind, Py_bind.
  destruct (status_ok resp); cbn; [|done]. destruct (content resp) as [v|] eqn:Ec; cbn; [|done].
  destruct v as [| | |str|l|d]; cbn; try done.
  - by destruct (String.index 0 "error" str); cbn.
  - by destruct (existsb _ l); cbn.
  - by destruct (dict_get d "error") eqn:Ed; cbn.
Qed.
End commands.

Definition stop (q : Sequencer) : request := mk_request (node_rpc_url q) "admin_stopSequencer" [].
Definition start (q : Sequencer) (hash : value) : request := mk_request (node_rpc_url q) "admin_startSequencer" [hash].

Definition succeeded {A} (r : exn + A) : bool := match r with inr _ => true | inl _ => false end.

Lemma asked_act {W} (s s' : tool W) url method params : sent s' = (sent s ++ [mk_request url method params])%list → method ∉ reads →
  asked s s' [mk_request url method params].
Proof. intros E Hm. exists [mk_request url method params]. split; [done|]. unfold acts. by rewrite filter_cons, decide_True. Qed.

(** Nothing was asked for after [pre], and the command fails. *)
Definition given_up {W} (pre : list request) (s : tool W) (r : exn + unit) (s' : tool W) : Prop := asked s s' pre ∧ succeeded r = false.
(** The request was made last, and the command succeeds just when it was answered well. *)
Definition settled {W} `{Http W} (pre : list request) (q : request) (s : tool W) (r : exn + unit) (s' : tool W) : Prop :=
  asked s s' (pre ++ [q]) ∧ ∃ w, succeeded r = bool_decide (is_Some (answer (W := W) (req_url q) (req_method q, req_params q) w)).

Lemma given_up_after {W} (s s1 s2 : tool W) l r : asked s s1 l → given_up [] s1 r s2 → given_up l s r s2.
Proof. intros Ha [Hb Hr]. split; [|done]. rewrite <- (app_nil_r l). by apply (asked_trans _ s1). Qed.
Lemma settled_after {W} `{Http W} (s s1 s2 : tool W) l q r : asked s s1 l → settled [] q s1 r s2 → settled l q s r s2.
Proof. intros Ha [Hb Hr]. split; [|done]. by apply (asked_trans _ s1). Qed.

Lemma give_up_wp {W} l (s : tool W) : pwp (_ ← print l; exit1) s (λ r s', store s' = store s ∧ given_up [] s r s').
Proof. unfold pwp. cbn. by split; [|split; [apply asked_refl|]]. Qed.

(** A request that ends a command. *)
Lemma settle_wp {W} `{Http W} url method params failed said (s : tool W) : method ∉ reads → pwp
  (_ ← post_or_exit url (make_rpc_payload method (Some params)) failed; print said) s
  (λ r s', store s' = store s ∧ settled [] (mk_request url method params) s r s').
Proof.
  intros Hm. apply pwp_bind. eapply pwp_mono; [apply post_or_exit_wp|]. intros r s1 (Hs & Hl & Hr). cbn in Hs, Hl.
  assert (∀ s2, sent s2 = sent s1 → asked s s2 [mk_request url method params]) as Ha.
  { intros s2 E. apply asked_act; [by rewrite E|done]. }
  destruct r as [e|resp]; (split; [done|]); (split; [by apply Ha|]); exists (tw s); cbn; unfold make_rpc_payload in Hr; cbn in Hr; by rewrite Hr.
Qed.

(** The hash that a sequencer says it stopped at. *)
Definition stopped_at {W} `{Http W} (q : Sequencer) (w : W) : option value :=
  answer (node_rpc_url q) ("admin_stopSequencer", []) w ≫= λ resp,
    match content resp with Some (PyDict d) => dict_get d "result" | _ => None end.

(** The target is started with a hash, if there is one. *)
Definition started {W} `{Http W} (pre : list request) (target : Sequencer) (hash : value) (s : tool W) (r : exn + unit) (s' : tool W) : Prop :=
  if truthy hash then settled pre (start target hash) s r s' else given_up pre s r s'.

Lemma start_wp {W} `{Http W} id (target : Sequencer) hash (s : tool W) : pwp
  (if negb (truthy hash) then _ ← print (Echo "Failed to get a hash to start sequencer"); exit1 else
   _ ← py_world (λ w, (tt, py_sleep Second w));
   _ ← print (Echo ("Starting " ++ id));
   _ ← post_or_exit (node_rpc_url target) (make_rpc_payload "admin_startSequencer" (Some [hash])) (Echo ("Failed to start " ++ id));
   print (Echo ("Successfully forced " ++ id ++ " to become active"))) s
  (λ r s', store s' = store s ∧ started [] target hash s r s').
Proof.
  unfold started. destruct (truthy hash); cbn [negb].
  - apply pwp_bind. unfold pwp at 1, py_world. cbn. apply pwp_bind. unfold pwp at 1. cbn.
    eapply pwp_mono; [apply settle_wp; set_solver|]. intros r s1 [Hs Hq]. split; [done|].
    eapply (settled_after s _ s1 []), Hq. by apply asked_refl.
  - apply pwp_bind. unfold pwp. cbn. split; [done|]. split; [by apply asked_refl|done].
Qed.

Lemma started_after {W} `{Http W} (s s1 s2 : tool W) l target hash r :
  asked s s1 l → started [] target hash s1 r s2 → started l target hash s r s2.
Proof. unfold started. destruct (truthy hash); [apply settled_after|apply given_up_after]. Qed.

(** What is asked for when a target may be forced to be active, with the objects at hand. *)
Definition forced {W} `{Http W} (qs : list Sequencer) (target : Sequencer) (s : tool W) (r : exn + unit) (s' : tool W) : Prop :=
  match find_active_sequencer qs with
  | None => started [] target (unsafe_l2_hash target) s r s'
  | Some a => ∃ w, match stopped_at a w with
      | None => given_up [stop a] s r s'
      | Some hash => started [stop a] target hash s r s'
      end
  end.
Definition force_outcome {W} `{Http W} (nets : list (string * list string)) (network id : string) (force : bool) (s : tool W)
    (r : exn + unit) (s' : tool W) : Prop :=
  match network_get nets network with
  | None => given_up [] s r s'
  | Some names =>
      match get_sequencer_by_id (at_hand s' names) id with
      | None => given_up [] s r s'
      | Some target =>
          if decide (force = true ∨ Forall (λ q, truthy (conductor_active q) = false) (at_hand s' names))
          then forced (at_hand s' names) target s r s' else given_up [] s r s'
      end
  end.

Lemma all_paused_spec force qs :
  not_all_paused qs && negb force = false ↔ force = true ∨ Forall (λ q, truthy (conductor_active q) = false) qs.
Proof.
  unfold not_all_paused. rewrite andb_false_iff, !negb_false_iff, forallb_forall, Forall_forall.
  setoid_rewrite list_elem_of_In. setoid_rewrite negb_true_iff. tauto.
Qed.

(** The stop of the active sequencer, and the start of the target after it. *)
Lemma stop_start_wp {W} `{Http W} id (a target : Sequencer) (s : tool W) {k : value → Py W unit} :
  (∀ hash s1, pwp (k hash) s1 (λ r s', store s' = store s1 ∧ started [] target hash s1 r s')) →
  pwp (hash ← (_ ← print (Echo ("Stopping " ++ sequencer_id a));
    resp ← post_or_exit (node_rpc_url a) (make_rpc_payload "admin_stopSequencer" (Some [])) (Echo ("Failed to stop " ++ id));
    v ← json resp; subscript v "result"); k hash) s
  (λ r s', store s' = store s ∧ ∃ w, match stopped_at a w with
    | None => given_up [stop a] s r s' | Some hash => started [stop a] target hash s r s' end).
Proof.
  intros Hk. apply pwp_bind, pwp_bind. unfold pwp at 1. cbn. apply pwp_bind. eapply pwp_mono; [apply post_or_exit_wp|].
  intros r s1 (Hs & Hl & Hr). cbn in Hs, Hl. assert (asked s s1 [stop a]) as Ha by (apply asked_act; [done|set_solver]).
  unfold make_rpc_payload in Hr. cbn in Hr.
  destruct r as [e|resp]; [split; [done|]; exists (tw s); unfold stopped_at; by rewrite Hr|].
  assert (stopped_at a (tw s) = match content resp with Some (PyDict d) => dict_get d "result" | _ => None end) as Hst.
  { unfold stopped_at. by rewrite Hr. }
  assert (∀ e : exn, stopped_at a (tw s) = None → store s1 = store s ∧ ∃ w, match stopped_at a w with
    | None => given_up [stop a] s (inl e) s1 | Some hash => started [stop a] target hash s (inl e) s1 end) as Hn.
  { intros e E. split; [done|]. exists (tw s). by rewrite E. }
  apply pwp_bind. unfold json. destruct (content resp) as [v|]; [|by apply Hn]. unfold pwp at 1. cbn. unfold subscript.
  destruct v as [| | | | |d]; try by apply Hn. destruct (dict_get d "result") as [hash|] eqn:Eh; [|by apply Hn].
  unfold pwp at 1. cbn. eapply pwp_mono; [apply Hk|]. intros r s2 [Hs2 Hq]. split; [congruence|]. exists (tw s). rewrite Hst.
  by apply (started_after _ s1).
Qed.


(** Whether the target may become the leader. *)
Definition eligible (target : Sequencer) (force : bool) : Prop := voting target ≠ PyBool false ∧
  (force = true ∨ truthy (sequencer_healthy target) = true ∧ truthy (conductor_active target) = true).
Definition transfer (leader target : Sequencer) : request := mk_request (conductor_rpc_url leader)
  "conductor_transferLeaderToServer" [PyStr (sequencer_id target); PyStr (raft_addr target)].

Lemma check_target_wp {W} (leader target : Sequencer) id force (s : tool W) : pwp (check_target leader target id force) s (λ r s',
  store s' = store s ∧ asked s s' [] ∧ (succeeded r = true ↔ eligible target force)).
Proof.
  unfold check_target, eligible, pwp. destruct (voting target) as [|[]| | | |];
    repeat match goal with |- context [if ?b then _ else _] => destruct b eqn:? end; cbn;
    (split_and!; [done|by apply asked_refl|]); rewrite ?negb_true_iff, ?negb_false_iff in *; naive_solver congruence.
Qed.

Definition transfer_outcome {W} `{Http W} (nets : list (string * list string)) (network id : string) (force : bool) (s : tool W)
    (r : exn + unit) (s' : tool W) : Prop :=
  match network_get nets network with
  | None => given_up [] s r s'
  | Some names =>
      match find_conductor_leader (at_hand s' names), get_sequencer_by_id (at_hand s' names) id with
      | Some leader, Some target =>
          eligible target force ∧ settled [] (transfer leader target) s r s' ∨ ¬ eligible target force ∧ given_up [] s r s'
      | _, _ => given_up [] s r s'
      end
  end.


(** The configuration always has a path for the certificate. *)
Lemma cert_path_given config_path config : cert_path_of config_path config ≠ "".
Proof.
  unfold cert_path_of. destruct (starts_with_slash (default "" (toml_cert_path config))) eqn:E; cbn.
  - intros Hn. by rewrite Hn in E.
  - by destruct (default config_path (before_last_slash config_path)).
Qed.

(** ** A cluster of two *)

Module ops_runs.
(** Sequencer a leads and sequences; the world says which conductor cannot be reached, which one is
    active, and whether conductors refuse to pause. *)
Record cluster := mk_cluster { unreachable : string; running : bool; refusing : bool }.
Definition ok (v : value) : string + response := inr (mk_response true (Some (PyDict [("result", v)]))).
Definition reply (url method : string) (w : cluster) : string + response :=
  if String.eqb url (unreachable w) then inl "ConnectionError"
  else if String.eqb method "conductor_active" then ok (PyBool (running w))
  else if String.eqb method "conductor_leader" then ok (PyBool (String.eqb url "c-a"))
  else if String.eqb method "admin_sequencerActive" then ok (PyBool (String.eqb url "n-a"))
  else if String.eqb method "admin_stopSequencer" then ok (PyStr "0xabc")
  else if refusing w && String.eqb method "conductor_pause" then inr (mk_response true (Some (PyDict [("error", PyStr "refused")])))
  else ok (PyBool true).
#[local] Instance http : Http cluster := {|
  http_post := λ url payload w, (reply url payload.1 w, w); py_sleep := λ _ w, w; py_input := λ w, ("y", w)
|}.
#[local] Instance order : Order cluster := λ _ l w, (l, w).

Definition toml : toml_config := mk_toml None
  [("a", mk_seq_config "r-a" "c-a" "n-a" (PyBool true)); ("b", mk_seq_config "r-b" "c-b" "n-b" (PyBool true))] [("net", ["a"; "b"])].
Definition s0 (w : cluster) : tool cluster := mk_tool ∅ [] [] ∅ w.
Definition run {A} (w : cluster) (cmd : list (string * list string) → Py cluster A) : (exn + A) * tool cluster :=
  (nets ← load_config "" "./config.toml" toml; cmd nets) (s0 w).

(** Without a certificate the directory of the configuration is exported as one. *)
Lemma cert_run : environ (run (mk_cluster "" true false) (λ _, mret tt)).2 !! "REQUESTS_CA_BUNDLE" = Some "./".
Proof. vm_compute. reflexivity. Qed.

(** The running conductor of b cannot be reached, and counts as paused. *)
Lemma unknown_conductor_run : (λ x, (succeeded x.1, acts (sent x.2)))
    (run (mk_cluster "c-b" false false) (λ nets, force_active_sequencer nets "net" "b" false)) =
  (true, [mk_request "n-a" "admin_stopSequencer" []; mk_request "n-b" "admin_startSequencer" [PyStr "0xabc"]]).
Proof. vm_compute. reflexivity. Qed.

Lemma active_conductor_run : (λ x, (x.1, acts (sent x.2)))
    (run (mk_cluster "" true false) (λ nets, force_active_sequencer nets "net" "b" false)) = (inl (Exit 1), []).
Proof. vm_compute. reflexivity. Qed.

(** The leader is paused, which is an error that does not end the transfer: here its target is b, which is active
    because its own conductor is asked separately. *)
Definition a_paused : Sequencer := new_Sequencer "a" "r-a" "c-a" "n-a" (PyBool true).
Definition b_ready : Sequencer := mk_sequencer "b" "r-b" "c-b" "n-b" (PyBool true) (PyBool true) (PyBool false) (PyBool true) (PyBool false) PyNone PyNone.
Lemma paused_leader_run : (λ x, (x.1, output x.2)) (check_target a_paused b_ready "b" false (s0 (mk_cluster "" true false))) =
  (inr tt, [Error "Current leader a conductor is paused."]).
Proof. vm_compute. reflexivity. Qed.

(** No conductor could be paused, and the command succeeds. *)
Lemma refused_pause_run : (λ x, (x.1, last (output x.2)))
    (run (mk_cluster "" true true) (λ nets, pause nets "net" None)) = (inr tt, Some (Echo "Failed to pause b")).
Proof. vm_compute. reflexivity. Qed.

(** The first conductor cannot be reached, and the second is not asked to pause. *)
Lemma unreachable_pause_run : (λ x, (x.1, acts (sent x.2)))
    (run (mk_cluster "c-a" true false) (λ nets, pause nets "net" None)) =
  (inl (Raised "ConnectionError"), [mk_request "c-a" "conductor_pause" []]).
Proof. vm_compute. reflexivity. Qed.

(** Without a leader, removing a server fails on the missing object. *)
Lemma leaderless_remove_run : (run (mk_cluster "c-a" true false) (λ nets, remove_server nets "net" "b")).1 = inl (Raised "AttributeError").
Proof. vm_compute. reflexivity. Qed.
End ops_runs.
