(* ===== verification/Tags.v ===== *)
(** ops/tag-service: the scripts that tag a release, tag-service.py in CI and tag-tool.py by
    hand. Git and the semver package are operations; the order of versions is the one of
    the semver standard. *)
From stdpp Require Import base numbers list gmap strings pretty.
From Stdlib Require Import Ascii.
From S2P Require Import Prelude.

Local Open Scope string_scope.
Local Open Scope Z_scope.
#[local] Arguments String.append : simpl nomatch.

(** ** Versions *)

(** A version with, for a release candidate, its number. *)
Record version := mk_version { major : Z; minor : Z; patch : Z; rc : option Z }.

(** Precedence: a candidate comes before its release. *)
Definition key (v : version) : list Z :=
  [major v; minor v; patch v; match rc v with None => 1 | Some _ => 0 end; default 0 (rc v)].
Fixpoint lex (a b : list Z) : comparison :=
  match a, b with
  | [], [] => Eq
  | [], _ => Lt
  | _, [] => Gt
  | x :: a, y :: b => match x ?= y with Eq => lex a b | c => c end
  end.
Definition before (a b : version) : Prop := lex (key a) (key b) = Lt.

(** The semver package; [semver_compare] is what sorts the versions. *)
Class Semver := {
  semver_parse : string → option version;
  semver_str : version → string;
  semver_compare : version → version → comparison;
  bump_major : version → version;
  bump_minor : version → version;
  bump_patch : version → version;
  bump_prerelease : version → version;
  finalize_version : version → version
}.
Class SemverSpec `{Semver} : Prop := {
  compare_spec a b : semver_compare a b = lex (key a) (key b);
  bump_major_spec v : bump_major v = mk_version (major v + 1) 0 0 None;
  bump_minor_spec v : bump_minor v = mk_version (major v) (minor v + 1) 0 None;
  bump_patch_spec v : bump_patch v = mk_version (major v) (minor v) (patch v + 1) None;
  bump_prerelease_spec v : bump_prerelease v = mk_version (major v) (minor v) (patch v)
    (Some (match rc v with None => 1 | Some n => n + 1 end));
  finalize_spec v : finalize_version v = mk_version (major v) (minor v) (patch v) None
}.

(** ** The pattern of a tag: ^service/v\d+\.\d+\.\d+(-rc\.\d+)?$ *)

Definition is_digit (c : ascii) : bool := let n := nat_of_ascii c in (48 <=? n)%nat && (n <=? 57)%nat.
(** One or more digits, and what follows. *)
Fixpoint skip_digits (s : string) : string :=
  match s with String c s' => if is_digit c then skip_digits s' else s | "" => "" end.
Definition digits (s : string) : option string :=
  match s with String c s' => if is_digit c then Some (skip_digits s') else None | "" => None end.
Fixpoint strip (p s : string) : option string :=
  match p, s with
  | "", _ => Some s
  | String c p, String d s => if Ascii.eqb c d then strip p s else None
  | _, _ => None
  end.
Definition matches_version (s : string) : bool :=
  match (s ← digits s; s ← strip "." s; s ← digits s; s ← strip "." s; digits s) with
  | None => false
  | Some "" => true
  | Some s => match (s ← strip "-rc." s; digits s) with Some "" => true | _ => false end
  end.

(** The versions among the tags of a service. *)
Definition svc_versions (service : string) (tags : list string) : list string :=
  omap (λ t, v ← strip (service ++ "/v") t; if matches_version v then Some v else None) tags.

(** sorted with a key and reverse: insertion of each before the smaller ones; equal ones keep their order. *)
Fixpoint insert_desc {A} (cmp : A → A → comparison) (x : A) (l : list A) : list A :=
  match l with
  | [] => [x]
  | y :: l => match cmp x y with Gt | Eq => x :: y :: l | Lt => y :: insert_desc cmp x l end
  end.
Definition sorted_desc {A} (cmp : A → A → comparison) (l : list A) : list A := foldr (insert_desc cmp) [] l.

(** ** tag-service.py *)

Definition MIN_VERSIONS : gmap string string :=
  {["proxyd" := "4.6.1"; "op-signer" := "0.0.1"; "op-txproxy" := "0.0.0"; "peer-mgmt-service" := "0.0.0"]}.

Section tags.
Context `{Semver}.

Definition apply_bump (bump : string) (v : version) : option version :=
  if String.eqb bump "major" then Some (bump_major v)
  else if String.eqb bump "minor" then Some (bump_minor v)
  else if String.eqb bump "patch" then Some (bump_patch v)
  else if String.eqb bump "prerelease" then Some (bump_prerelease v)
  else if String.eqb bump "finalize-prerelease" then Some (finalize_version v)
  else None.

(** The version of the new tag, or what is raised. *)
Definition new_version (tags : list string) (bump service : string) (pre_release : bool) : string + version :=
  match mapM semver_parse (svc_versions service tags) with
  | None => inl "ValueError"
  | Some parsed =>
      let sorted := sorted_desc semver_compare parsed in
      if pre_release && String.eqb bump "prerelease" then inl "Cannot use --bump=prerelease with --pre-release"
      else if pre_release && String.eqb bump "finalize-prerelease" then inl "Cannot use --bump=finalize-prerelease with --pre-release"
      else
        match (match sorted with [] => MIN_VERSIONS !! service ≫= semver_parse | latest :: _ => Some latest end) with
        | None => inl "KeyError or ValueError"
        | Some latest =>
            match apply_bump bump latest with
            | None => inl "Invalid bump type"
            | Some bumped => inr (if pre_release then bump_prerelease bumped else bumped)
            end
        end
  end.

(** Git and the environment. A command that fails raises. *)
Context {W : Type} (git : list string → W → (string + string) * W) (environ : string → option string).
Context (splitlines : string → list string).
Notation T := (M W).

Definition run_git (args : list string) : T string := λ w,
  match git args w with (inr out, w) => Ret (out, w) | (inl err, _) => Panic err end.
Definition env (k : string) : T string := match environ k with Some v => mret v | None => m_panic "KeyError" end.

Definition tag_version (bump service : string) (pre_release : bool) : T unit :=
  out ← run_git ["tag"; "--list"];
  match new_version (splitlines out) bump service pre_release with
  | inl err => m_panic err
  | inr bumped =>
      let version := "v" ++ semver_str bumped in
      let new_tag := service ++ "/" ++ version in
      gh_actor ← env "GITHUB_ACTOR";
      gh_token ← env "INPUT_GITHUB_TOKEN";
      gh_repo ← env "GITHUB_REPOSITORY";
      let origin_url := "https://" ++ gh_actor ++ ":$" ++ gh_token ++ "@github.com/" ++ gh_repo ++ ".git" in
      _ ← run_git ["config"; "user.name"; gh_actor];
      _ ← run_git ["config"; "user.email"; gh_actor ++ "@users.noreply.github.com"];
      _ ← run_git ["remote"; "set-url"; "origin"; origin_url];
      _ ← run_git ["tag"; "-a"; new_tag; "-m"; "[tag-service-release] Tag " ++ service ++ " at " ++ version];
      _ ← run_git ["push"; "origin"; new_tag];
      mret tt
  end.

(** ** tag-tool.py *)

(** Strings are ordered by their characters. *)
Fixpoint str_compare (a b : string) : comparison :=
  match a, b with
  | "", "" => Eq
  | "", _ => Lt
  | _, "" => Gt
  | String c a, String d b =>
      match Nat.compare (nat_of_ascii c) (nat_of_ascii d) with Eq => str_compare a b | r => r end
  end.

(** The last of the sorted tags, without their prefix; tags that git lists for service/v* have it. *)
Definition latest_version (service : string) (tags : list string) : option string :=
  head (sorted_desc str_compare (omap (strip (service ++ "/v")) tags)).

Fixpoint latest_among (services : list string) (tags : string → list string) (latest : string) : string + string :=
  match services with
  | [] => inr latest
  | service :: services =>
      match latest_version service (tags service) with
      | None => inl ("No tags found for service: " ++ service)
      | Some candidate =>
          match semver_parse candidate, semver_parse latest with
          | Some c, Some l => latest_among services tags (match semver_compare c l with Gt => candidate | _ => latest end)
          | _, _ => inl "ValueError"
          end
      end
  end.
Definition latest_among_services (services : list string) (tags : string → list string) : string + string :=
  latest_among services tags "0.0.0".

Definition new_tag (service : string) (v : version) (bump : string) : string + string :=
  match apply_bump bump v with
  | None => inl ("Invalid bump type: " ++ bump)
  | Some bumped => inr (service ++ "/v" ++ semver_str bumped)
  end.

(** The tag the tool proposes. *)
Definition proposed_tag (service bump : string) (tags : string → list string) : string + string :=
  let latest :=
    if String.eqb service "op-stack" then latest_among_services ["op-node"; "op-batcher"; "op-proposer"] tags
    else match latest_version service (tags service) with None => inl ("No tags found for service: " ++ service) | Some v => inr v end in
  match latest with
  | inl err => inl err
  | inr latest =>
      match semver_parse latest with
      | None => inl "ValueError"
      | Some v => new_tag service v bump
      end
  end.

(** [tag.replace(old, new)] where [old] is in front of a tag of the service [old]; its version has no letters but those of rc. *)
Definition renamed (old new tag : string) : string := match strip old tag with Some rest => new ++ rest | None => tag end.
Definition quote : string := String (ascii_of_nat 34) "".
Definition GIT_TAG_COMMAND (tag message : string) : string := "git tag -a " ++ tag ++ " -m " ++ quote ++ message ++ quote.
Definition GIT_PUSH_COMMAND (tag : string) : string := "git push origin " ++ tag.

(** What the tool prints for the user to run; the services of the op-stack get the same version. *)
Definition tool_main (service bump message : string) (tags : string → list string) : string + list string :=
  match proposed_tag service bump tags with
  | inl err => inl err
  | inr bumped => inr (
      if String.eqb service "op-stack" then
        ["op-node"; "op-batcher"; "op-proposer"] ≫= λ s,
          [GIT_TAG_COMMAND (renamed "op-stack" s bumped) message; GIT_PUSH_COMMAND (renamed "op-stack" s bumped)]
      else [GIT_TAG_COMMAND bumped message; GIT_PUSH_COMMAND bumped])
  end.
End tags.

(** ** ci-docker-tag-op-stack-release.sh *)

(** What the two calls of grep find in the tag, and whether it has rc in it. *)
Class TagText := { grep_image_name : string → string; grep_image_tag : string → string }.
Fixpoint has_rc (s : string) : bool :=
  match s with
  | String c (String d _ as t) => (Ascii.eqb c "r" && Ascii.eqb d "c")%char || has_rc t
  | _ => false
  end.

Section release.
Context `{TagText} {W : Type} (gcloud : list string → W → (string + string) * W).

(** The exit status of the script, which ends with the first command that fails. *)
Definition run_gcloud (args : list string) (k : string → W → Z * W) (w : W) : Z * W :=
  match gcloud args w with (inl _, w) => (1, w) | (inr out, w) => k out w end.
Definition docker_release (DOCKER_REPO GIT_TAG GIT_SHA : string) (w : W) : Z * W :=
  let IMAGE_NAME := grep_image_name GIT_TAG in
  if String.eqb IMAGE_NAME "" then (1, w) else
  let IMAGE_TAG := grep_image_tag GIT_TAG in
  if String.eqb IMAGE_TAG "" then (1, w) else
  let image := DOCKER_REPO ++ "/" ++ IMAGE_NAME in
  run_gcloud ["container"; "images"; "list-tags"; image; "--limit"; "1"; "--format"; "json"] (λ tags w,
    if String.eqb tags "[]" then (0, w) else
    run_gcloud ["container"; "images"; "add-tag"; "-q"; image ++ ":" ++ GIT_SHA; image ++ ":" ++ IMAGE_TAG] (λ _ w,
      if has_rc IMAGE_TAG then (0, w) else
      run_gcloud ["container"; "images"; "add-tag"; "-q"; image ++ ":" ++ GIT_SHA; image ++ ":latest"] (λ _ w, (0, w)) w) w) w.

(** The tags that images were given, by a gcloud that keeps them. *)
Definition given (added : W → list (string * string)) : Prop := ∀ args w,
  added (gcloud args w).2 = (added w ++
    match args, (gcloud args w).1 with ["container"; "images"; "add-tag"; "-q"; src; tag], inr _ => [(src, tag)] | _, _ => [] end)%list.

(** A release gives its image the version, and then the tag latest unless it is a candidate; one that
    fails or finds no images gives it nothing, or the version alone. *)
Lemma release_tags added repo tag sha w : given added →
  let image := repo ++ "/" ++ grep_image_name tag in
  let version := (image ++ ":" ++ sha, image ++ ":" ++ grep_image_tag tag) in
  let latest := (image ++ ":" ++ sha, image ++ ":latest") in
  ∃ new, added (docker_release repo tag sha w).2 = (added w ++ new)%list ∧
    (new = [] ∨ new = [version] ∧ ((docker_release repo tag sha w).1 = 0 → has_rc (grep_image_tag tag) = true) ∨
     new = [version; latest] ∧ has_rc (grep_image_tag tag) = false ∧ (docker_release repo tag sha w).1 = 0).
Proof.
  intros Hg image version latest. unfold docker_release. fold image.
  destruct (String.eqb (grep_image_name tag) ""); [exists []; by rewrite app_nil_r; auto|].
  destruct (String.eqb (grep_image_tag tag) ""); [exists []; by rewrite app_nil_r; auto|]. unfold run_gcloud.
  pose proof (Hg ["container"; "images"; "list-tags"; image; "--limit"; "1"; "--format"; "json"] w) as H1. cbn in H1. rewrite app_nil_r in H1.
  destruct (gcloud _ w) as [[err|out] w1]; [exists []; rewrite app_nil_r; auto|]. cbn in H1.
  destruct (String.eqb out "[]"); [exists []; rewrite app_nil_r; auto|].
  pose proof (Hg ["container"; "images"; "add-tag"; "-q"; image ++ ":" ++ sha; image ++ ":" ++ grep_image_tag tag] w1) as H2. cbn in H2.
  destruct (gcloud _ w1) as [[err|o] w2]; cbn in H2; rewrite H1 in H2; [exists []; auto|].
  destruct (has_rc (grep_image_tag tag)) eqn:Erc; [exists [version]; auto|].
  pose proof (Hg ["container"; "images"; "add-tag"; "-q"; image ++ ":" ++ sha; image ++ ":latest"] w2) as H3. cbn in H3.
  destruct (gcloud _ w2) as [[err|o'] w3]; cbn in H3; rewrite H2 in H3.
  - exists [version]. split; [cbn; by rewrite H3, app_nil_r|]. right. left. by split.
  - exists [version; latest]. split; [cbn; by rewrite H3, <- app_assoc|]. auto.
Qed.
End release.

(** ** The order *)

Lemma lex_opp a b : lex b a = CompOpp (lex a b).
Proof.
  revert b. induction a as [|x a IH]; intros [|y b]; cbn; try done. rewrite (Z.compare_antisym x y).
  destruct (x ?= y); cbn; auto.
Qed.
Lemma lex_refl a : lex a a = Eq.
Proof. induction a as [|x a IH]; cbn; [done|]. by rewrite Z.compare_refl. Qed.
Lemma lex_trans a b c : lex a b ≠ Gt → lex b c ≠ Gt → lex a c ≠ Gt ∧ (lex a b = Lt ∨ lex b c = Lt → lex a c = Lt).
Proof.
  revert b c. induction a as [|x a IH]; intros [|y b] [|z c]; cbn; try (intros; by split; [|intros []]).
  destruct (Z.compare_spec x y), (Z.compare_spec y z), (Z.compare_spec x z); subst; try lia; intros; try done; try (by split).
  by apply (IH b c).
Qed.

(** The first of the sorted list is no smaller than any. *)
Lemma sorted_desc_max {A} (cmp : A → A → comparison) (k : A → list Z) (l : list A) y sorted :
  (∀ a b, cmp a b = lex (k a) (k b)) → sorted_desc cmp l = y :: sorted → ∀ x, x ∈ l → lex (k x) (k y) ≠ Gt.
Proof.
  intros Hc. revert y sorted. induction l as [|a l IH]; intros y sorted E x Hx; [by apply elem_of_nil in Hx|]. cbn in E.
  destruct (foldr (insert_desc cmp) [] l) as [|z rest] eqn:Er; cbn in E.
  - injection E as <- _. destruct l as [|b l].
    + apply list_elem_of_singleton in Hx as ->. by rewrite lex_refl.
    + exfalso. cbn in Er. destruct (foldr (insert_desc cmp) [] l) as [|? ?]; cbn in Er; [done|]. by destruct (cmp b _).
  - specialize (IH z rest Er). rewrite Hc in E. rewrite elem_of_cons in Hx.
    pose proof (lex_opp (k a) (k z)) as Ho. destruct (lex (k a) (k z)) eqn:Ea; injection E as <- _.
    + destruct Hx as [->|Hx]; [by rewrite lex_refl|]. apply (lex_trans _ (k z)); [by apply IH|by rewrite Ho].
    + destruct Hx as [->|Hx]; [by rewrite Ea|by apply IH].
    + destruct Hx as [->|Hx]; [by rewrite lex_refl|]. apply (lex_trans _ (k z)); [by apply IH|by rewrite Ho].
Qed.

Lemma bump_after `{SemverSpec} bump v w (pre : bool) : bump ∈ ["major"; "minor"; "patch"] → apply_bump bump v = Some w →
  before v (if pre then bump_prerelease w else w).
Proof.
  intros Hb E. assert (w = bump_major v ∨ w = bump_minor v ∨ w = bump_patch v) as Hw.
  { repeat (apply elem_of_cons in Hb as [->|Hb]; [injection E; auto|]). by apply elem_of_nil in Hb. }
  unfold before. destruct Hw as [->|[->| ->]], pre; rewrite ?bump_prerelease_spec, ?bump_major_spec, ?bump_minor_spec, ?bump_patch_spec;
    cbn; rewrite ?Z.compare_refl; by rewrite (proj2 (Z.compare_lt_iff _ _)) by lia.
Qed.


(** ** Runs with a semver for versions and candidates *)

Module tag_runs.
Fixpoint number (acc : Z) (s : string) : Z * string :=
  match s with
  | String c s' => if is_digit c then number (10 * acc + (Z.of_nat (nat_of_ascii c) - 48)) s' else (acc, s)
  | "" => (acc, "")
  end.
Definition parse (s : string) : option version :=
  if negb (matches_version s) then None else
  let '(a, s) := number 0 s in s ← strip "." s;
  let '(b, s) := number 0 s in s ← strip "." s;
  let '(c, s) := number 0 s in
  match strip "-rc." s with
  | Some s => Some (mk_version a b c (Some (number 0 s).1))
  | None => Some (mk_version a b c None)
  end.
Definition str (v : version) : string :=
  pretty (major v) ++ "." ++ pretty (minor v) ++ "." ++ pretty (patch v) ++ match rc v with Some n => "-rc." ++ pretty n | None => "" end.
#[local] Instance semver : Semver := {|
  semver_parse := parse; semver_str := str; semver_compare := λ a b, lex (key a) (key b);
  bump_major := λ v, mk_version (major v + 1) 0 0 None;
  bump_minor := λ v, mk_version (major v) (minor v + 1) 0 None;
  bump_patch := λ v, mk_version (major v) (minor v) (patch v + 1) None;
  bump_prerelease := λ v, mk_version (major v) (minor v) (patch v) (Some (match rc v with None => 1 | Some n => n + 1 end));
  finalize_version := λ v, mk_version (major v) (minor v) (patch v) None
|}.
#[local] Instance semver_spec : SemverSpec.
Proof. by split. Qed.

Definition tags : list string := ["proxyd/v4.9.0"; "op-signer/v1.0.0"; "proxyd/v4.10.0-rc.2"; "proxyd/v4.10.0"; "proxyd/nightly"].

Lemma minor_run : semver_str <$> (match new_version tags "minor" "proxyd" false with inr v => Some v | inl _ => None end) = Some "4.11.0".
Proof. vm_compute. reflexivity. Qed.

(** A candidate of the latest release comes before it. *)
Lemma prerelease_of_release : new_version tags "prerelease" "proxyd" false = inr (mk_version 4 10 0 (Some 1)) ∧
  before (mk_version 4 10 0 (Some 1)) (mk_version 4 10 0 None).
Proof. split; vm_compute; reflexivity. Qed.

(** Sorted as strings, 4.9.0 comes last, and the tag that is proposed exists already. *)
Lemma tool_proposes_old_tag : proposed_tag "proxyd" "minor" (λ _, ["proxyd/v4.10.0"; "proxyd/v4.9.0"]) = inr "proxyd/v4.10.0".
Proof. vm_compute. reflexivity. Qed.

(** The services of the op-stack are tagged together, after the latest of them. *)
Lemma op_stack_run : tool_main "op-stack" "minor" "m" (λ s, [s ++ (if String.eqb s "op-batcher" then "/v1.3.0" else "/v1.2.0")]) =
  inr (["op-node"; "op-batcher"; "op-proposer"] ≫= λ s, ["git tag -a " ++ s ++ "/v1.4.0 -m " ++ quote ++ "m" ++ quote; "git push origin " ++ s ++ "/v1.4.0"]).
Proof. vm_compute. reflexivity. Qed.

End tag_runs.
