(* ===== verification/Apps.v ===== *)
(** The applications around the services: op-signer/app.go with its servers and its signing
    command, op-signer/client/client.go, and op-txproxy/txproxy.go.

    What is running on the host is a set of servers. The servers, TLS and RPC of op-service
    and go-ethereum are operations on the host. *)
From stdpp Require Import base numbers list sets strings.
From S2P Require Import Prelude.

Local Open Scope string_scope.
Local Open Scope Z_scope.
#[local] Arguments String.append : simpl nomatch.

Notation error := (option string).


Inductive server := PprofServer | MetricsServer | RPCServer | CertWatcher.
#[export] Instance server_eq_dec : EqDecision server.
Proof. solve_decision. Defined.

Class Host (W : Type) := {
  start_server : server → W → error * W;
  stop_server : server → W → error * W;
  ReadFile : string → W → (string * error) * W;
  certman_New : string → string → W → error * W;
  read_service_config : string → W → error * W;
  new_conditional_service : W → error * W;
  LoadX509KeyPair : string → string → W → error * W;
  DialOptions : string → W → error * W;
  rpc_Call : string → list string → W → (string + string) * W;
  hexutil_Decode : string → option string;
  tx_UnmarshalBinary : string → string + string;
  tx_args : string → list string;
  tx_MarshalJSON : string → string;
  hash_UnmarshalText : string → string + string
}.

(** ** op-signer: config.go and app.go *)

(** The parts of the configuration carry what their own checks say. *)
Record Config := mk_config {
  ClientEndpoint : string; ServiceConfigPath : string; TLSCaCert : string; TLSCert : string; TLSKey : string;
  PprofEnabled : bool; MetricsEnabled : bool;
  rpc_check : error; metrics_check : error; pprof_check : error; tls_check : error
}.
Fixpoint first_of (l : list error) : error :=
  match l with [] => None | Some e :: _ => Some e | None :: l => first_of l end.
Definition Config_Check (c : Config) : error := first_of [rpc_check c; metrics_check c; pprof_check c; tls_check c].

(** Which of its servers the application has. *)
Record SignerApp := mk_app { pprofServer : bool; metricsServer : bool; rpc : bool; stopped : bool }.
#[export] Instance eta_SignerApp : Eta SignerApp := λ r, mk_app (pprofServer r) (metricsServer r) (rpc r) (stopped r).

Section apps.
Context {W : Type} `{Host W}.
Notation A := (M W).

Definition op {X} (f : W → X * W) : A X := λ w, Ret (f w).

Definition initPprof (cfg : Config) (s : SignerApp) : A (error * SignerApp) :=
  if negb (PprofEnabled cfg) then mret (None, s) else
  let s := {{ s with pprofServer := true }} in
  err ← op (start_server PprofServer); mret (wrap "failed to start pprof server: " err, s).

Definition initMetrics (cfg : Config) (s : SignerApp) : A (error * SignerApp) :=
  if negb (MetricsEnabled cfg) then mret (None, s) else
  err ← op (start_server MetricsServer);
  match err with
  | Some e => mret (Some ("failed to start metrics server: " ++ e), s)
  | None => mret (None, {{ s with metricsServer := true }})
  end.

(** The watcher of the certificates is not kept. *)
Definition initRPC (cfg : Config) (s : SignerApp) : A (error * SignerApp) :=
  '(caCert, err) ← op (ReadFile (TLSCaCert cfg));
  match err with
  | Some _ => mret (Some ("failed to read tls ca cert: " ++ caCert), s)
  | None =>
      err ← op (certman_New (TLSCert cfg) (TLSKey cfg));
      match err with
      | Some e => mret (Some ("failed to read tls cert or key: " ++ e), s)
      | None =>
          err ← op (start_server CertWatcher);
          match err with
          | Some e => mret (Some ("failed to start certman watcher: " ++ e), s)
          | None =>
              let s := {{ s with rpc := true }} in
              err ← op (read_service_config (ServiceConfigPath cfg));
              match err with
              | Some e => mret (Some ("failed to read service config: " ++ e), s)
              | None => err ← op (start_server RPCServer); mret (wrap "error starting RPC server: " err, s)
              end
          end
      end
  end.

Definition init (cfg : Config) (s : SignerApp) : A (error * SignerApp) :=
  '(err, s) ← initPprof cfg s;
  match err with
  | Some e => mret (Some ("pprof error: " ++ e), s)
  | None =>
      '(err, s) ← initMetrics cfg s;
      match err with
      | Some e => mret (Some ("metrics error: " ++ e), s)
      | None => '(err, s) ← initRPC cfg s; mret (wrap "metrics error: " err, s)
      end
  end.

(** A server that is there is stopped. *)
Definition stop_if (have : bool) (k : server) (message : string) (result : error) : A error :=
  if have then err ← op (stop_server k); mret (Join result (wrap message err)) else mret result.
Definition Stop (s : SignerApp) : A error :=
  result ← stop_if (rpc s) RPCServer "failed to stop RPC server: " None;
  result ← stop_if (pprofServer s) PprofServer "failed to stop pprof server: " result;
  stop_if (metricsServer s) MetricsServer "failed to stop metrics server: " result.
Definition Stopped (s : SignerApp) : bool := stopped s.

Definition InitFromConfig (cfg : Config) : A (string + SignerApp) :=
  match Config_Check cfg with
  | Some e => mret (inl ("invalid config: " ++ e))
  | None =>
      '(err, s) ← init cfg (mk_app false false false false);
      match err with
      | Some e => stop ← Stop s; mret (inl (default "" (Join (Some e) stop)))
      | None => mret (inr s)
      end
  end.

(** ** op-signer: client.go and the signing command *)

Definition pingVersion : A (string + string) := op (rpc_Call "health_status" []).
(** The client, with its status. *)
Definition NewSignerClient (endpoint : string) (cfg : Config) : A (string + string) :=
  '(_, err) ← op (ReadFile (TLSCaCert cfg));
  match err with
  | Some e => mret (inl ("failed to read tls.ca: " ++ e))
  | None =>
      err ← op (LoadX509KeyPair (TLSCert cfg) (TLSKey cfg));
      match err with
      | Some e => mret (inl ("failed to read tls.cert or tls.key: " ++ e))
      | None =>
          err ← op (DialOptions endpoint);
          match err with
          | Some e => mret (inl e)
          | None =>
              version ← pingVersion;
              mret (match version with inl e => inl e | inr v => inr ("ok [version=" ++ v ++ "]") end)
          end
      end
  end.
Definition client_SignTransaction (tx : string) : A (string + string) :=
  result ← op (rpc_Call "eth_signTransaction" (tx_args tx));
  mret (match result with
    | inl e => inl ("eth_signTransaction failed: " ++ e)
    | inr result => tx_UnmarshalBinary result
    end).
Definition client_SignBlockPayload (signingHash : string) : A (string + string) :=
  result ← op (rpc_Call "eth_signBlockPayload" [signingHash]);
  mret (match result with inl e => inl ("eth_signBlockPayload failed: " ++ e) | inr result => inr result end).

Inductive SignActionType := SignTransaction | SignBlockPayload | NoAction.

(** What is printed, or an error. *)
Definition ClientSign (cfg : Config) (action : SignActionType) (arg : string) : A (string + string) :=
  match Config_Check cfg with
  | Some e => mret (inl ("invalid CLI flags: " ++ e))
  | None =>
      match action with
      | SignTransaction =>
          if String.eqb arg "" then mret (inl "no transaction argument was provided") else
          match hexutil_Decode arg with
          | None => mret (inl "failed to decode transaction argument")
          | Some txraw =>
              client ← NewSignerClient (ClientEndpoint cfg) cfg;
              match client with
              | inl e => mret (inl e)
              | inr _ =>
                  match tx_UnmarshalBinary txraw with
                  | inl e => mret (inl ("failed to unmarshal transaction argument: " ++ e))
                  | inr tx =>
                      tx ← client_SignTransaction tx;
                      mret (match tx with inl e => inl e | inr tx => inr (tx_MarshalJSON tx) end)
                  end
              end
          end
      | SignBlockPayload =>
          if String.eqb arg "" then mret (inl "no block payload argument was provided") else
          client ← NewSignerClient (ClientEndpoint cfg) cfg;
          match client with
          | inl e => mret (inl e)
          | inr _ =>
              match hash_UnmarshalText arg with
              | inl e => mret (inl ("failed to unmarshal block payload argument: " ++ e))
              | inr signingHash => client_SignBlockPayload signingHash
              end
          end
      | NoAction => mret (inl "no action was provided")
      end
  end.

(** ** op-signer: service.go, RegisterAPIs *)

(** The methods of the two services, under their namespaces; the server names a method after both. *)
Definition RegisterAPIs : list (string * list string) := [("eth", ["signTransaction"]); ("opsigner", ["signBlockPayload"])].
Definition registered : list string := RegisterAPIs ≫= λ x, (λ m, x.1 ++ "_" ++ m) <$> x.2.

(** ** op-txproxy: txproxy.go *)

Record TxProxy := mk_txproxy { rpcSrv : bool; metricsSrv : bool }.

Definition txproxy_initRPC (txp : TxProxy) : A (error * TxProxy) :=
  let txp := mk_txproxy true (metricsSrv txp) in
  err ← op (start_server RPCServer); mret (wrap "failed to start rpc server: " err, txp).
Definition txproxy_initMetrics (txp : TxProxy) : A (error * TxProxy) :=
  err ← op (start_server MetricsServer);
  match err with
  | Some e => mret (Some ("failed to start metrics server: " ++ e), txp)
  | None => mret (None, mk_txproxy (rpcSrv txp) true)
  end.
Definition txproxy_init (txp : TxProxy) : A (error * TxProxy) :=
  '(err, txp) ← txproxy_initRPC txp;
  match err with Some e => mret (Some e, txp) | None => txproxy_initMetrics txp end.
Definition NewTxProxy : A (string + TxProxy) :=
  err ← op new_conditional_service;
  match err with
  | Some e => mret (inl ("failed to create conditional tx service: " ++ e))
  | None =>
      '(err, txp) ← txproxy_init (mk_txproxy false false);
      mret (match err with Some e => inl ("failed initialization: " ++ e) | None => inr txp end)
  end.
Definition txproxy_Stop (txp : TxProxy) : A error :=
  result ← stop_if (rpcSrv txp) RPCServer "failed to stop metrics server: " None;
  stop_if (metricsSrv txp) MetricsServer "failed to stop metrics server: " result.
End apps.

(** ** What is running *)

(** Starting a server that reports no error has it running, and stopping it ends it. Nothing
    else starts or ends one. *)
Class HostSpec (W : Type) `{Host W} (up : W → server → bool) : Prop := {
  start_spec k w err w' x : start_server k w = (err, w') →
    up w' x = match err with None => bool_decide (x = k) || up w x | Some _ => up w x end;
  stop_spec k w w' x : stop_server k w = (None, w') → up w' x = up w x && negb (bool_decide (x = k));
  read_file_up p w x : up (ReadFile p w).2 x = up w x;
  certman_up c k w x : up (certman_New c k w).2 x = up w x;
  service_config_up p w x : up (read_service_config p w).2 x = up w x;
  conditional_up w x : up (new_conditional_service w).2 x = up w x
}.

Section running.
Context {W : Type} `{Host W} {up : W → server → bool} `{!HostSpec W up}.
Notation A := (M W).
Notation wpr := (wp (λ _, False)).

(** The servers an application has. *)
Definition owned (s : SignerApp) (k : server) : bool :=
  match k with RPCServer => rpc s | PprofServer => pprofServer s | MetricsServer => metricsServer s | CertWatcher => false end.

Lemma op_wp {X} (f : W → X * W) w Q : (∀ x w', f w = (x, w') → Q x w') → wpr (op f) w Q.
Proof. intros HQ. unfold wp, op. destruct (f w) as [x w']. by apply HQ. Qed.

(** How a step of the initialisation ends: with an error, and no servers but those the application has by
    now, and perhaps the watcher; or with the servers [new] and the application [s']. *)
Definition initialised (w : W) (s s' : SignerApp) (new : server → bool) (r : error * SignerApp) (w' : W) : Prop :=
  match r.1 with
  | Some _ => ∀ k, (up w' k = true → up w k = true ∨ owned r.2 k = true ∨ k = CertWatcher) ∧ (owned s k = true → owned r.2 k = true)
  | None => r.2 = s' ∧ ∀ k, up w' k = up w k || new k
  end.

Lemma initPprof_wp cfg s w : wpr (initPprof cfg s) w (initialised w s (mk_app (pprofServer s || PprofEnabled cfg) (metricsServer s) (rpc s) (stopped s))
  (λ k, PprofEnabled cfg && bool_decide (k = PprofServer))).
Proof.
  unfold initPprof, initialised. destruct (PprofEnabled cfg); cbn [negb].
  - apply wp_bind, op_wp. intros err w' E. apply wp_ret. rewrite orb_true_r. pose proof (λ x, start_spec _ _ _ _ x E) as U.
    destruct err; cbn in *; [intros k; rewrite U; split; [auto|by destruct k]|split; [done|]]. intros k. by rewrite U, orb_comm.
  - apply wp_ret. cbn. rewrite orb_false_r. split; [by destruct s|]. intros k. by rewrite orb_false_r.
Qed.
Lemma initMetrics_wp cfg s w : wpr (initMetrics cfg s) w (initialised w s (mk_app (pprofServer s) (metricsServer s || MetricsEnabled cfg) (rpc s) (stopped s))
  (λ k, MetricsEnabled cfg && bool_decide (k = MetricsServer))).
Proof.
  unfold initMetrics, initialised. destruct (MetricsEnabled cfg); cbn [negb].
  - apply wp_bind, op_wp. intros err w' E. rewrite orb_true_r. pose proof (λ x, start_spec _ _ _ _ x E) as U.
    destruct err; apply wp_ret; cbn in *; [intros k; rewrite U; auto|split; [done|]]. intros k. by rewrite U, orb_comm.
  - apply wp_ret. cbn. rewrite orb_false_r. split; [by destruct s|]. intros k. by rewrite orb_false_r.
Qed.
Lemma initRPC_wp cfg s w : wpr (initRPC cfg s) w (initialised w s (mk_app (pprofServer s) (metricsServer s) true (stopped s))
  (λ k, bool_decide (k = RPCServer) || bool_decide (k = CertWatcher))).
Proof.
  unfold initRPC, initialised. apply wp_bind, op_wp. intros [ca err] w1 E1.
  pose proof (λ x, read_file_up (up:=up) (TLSCaCert cfg) w x) as U1. rewrite E1 in U1. cbn in U1.
  destruct err; [apply wp_ret; cbn; intros k; rewrite U1; auto|].
  apply wp_bind, op_wp. intros err w2 E2. pose proof (λ x, certman_up (up:=up) (TLSCert cfg) (TLSKey cfg) w1 x) as U2. rewrite E2 in U2. cbn in U2.
  destruct err; [apply wp_ret; cbn; intros k; rewrite U2, U1; auto|].
  apply wp_bind, op_wp. intros err w3 E3. pose proof (λ x, start_spec _ _ _ _ x E3) as U3.
  destruct err; [apply wp_ret; cbn; intros k; rewrite U3, U2, U1; auto|]. cbv zeta.
  apply wp_bind, op_wp. intros err w4 E4. pose proof (λ x, service_config_up (up:=up) (ServiceConfigPath cfg) w3 x) as U4. rewrite E4 in U4. cbn in U4.
  destruct err; [apply wp_ret; cbn; intros k; rewrite U4, U3, U2, U1; destruct k; cbn; auto|].
  apply wp_bind, op_wp. intros err w5 E5. pose proof (λ x, start_spec _ _ _ _ x E5) as U5. apply wp_ret.
  destruct err; cbn; [|split; [done|]]; intros k; rewrite U5, U4, U3, U2, U1; destruct k; cbn; rewrite ?orb_true_r, ?orb_false_r; auto.
Qed.

(** The servers of the configuration. *)
Definition servers_of (cfg : Config) (k : server) : bool :=
  match k with RPCServer | CertWatcher => true | PprofServer => PprofEnabled cfg | MetricsServer => MetricsEnabled cfg end.

Lemma init_wp cfg w : (∀ k, up w k = false) → wpr (init cfg (mk_app false false false false)) w
  (initialised w (mk_app false false false false) (mk_app (PprofEnabled cfg) (MetricsEnabled cfg) true false) (servers_of cfg)).
Proof.
  intros Hw. unfold init. apply wp_bind. eapply wp_mono; [apply initPprof_wp|]. intros [[e|] s1] w1; unfold initialised at 1; cbn [fst snd].
  { intros H1. apply wp_ret. exact H1. }
  intros [-> U1]. cbn [pprofServer metricsServer rpc stopped orb] in *.
  apply wp_bind. eapply wp_mono; [apply initMetrics_wp|]. intros [[e|] s2] w2; unfold initialised at 1; cbn [fst snd].
  { intros H1. apply wp_ret. intros k. destruct (H1 k) as [Hu Ho]. rewrite U1, Hw in Hu. destruct k; cbn in *; rewrite ?andb_false_r, ?andb_true_r in *; naive_solver. }
  intros [-> U2]. cbn [pprofServer metricsServer rpc stopped orb] in *.
  apply wp_bind. eapply wp_mono; [apply initRPC_wp|]. intros [[e|] s3] w3; unfold initialised at 1; cbn [fst snd]; intros H1; apply wp_ret.
  - intros k. destruct (H1 k) as [Hu Ho]. rewrite U2, U1, Hw in Hu. destruct k; cbn in *; rewrite ?andb_false_r, ?andb_true_r, ?orb_false_r in *; naive_solver.
  - destruct H1 as [-> U3]. split; [done|]. intros k. cbn. rewrite U3, U2, U1, Hw. destruct k; cbn; by rewrite ?andb_false_r, ?andb_true_r, ?orb_false_r, ?orb_true_r.
Qed.

(** Stopping a server works. *)
Context (stops : ∀ k (w : W), (stop_server k w).1 = None).

Lemma stop_if_wp have k message w : wpr (stop_if have k message None) w (λ r w', r = None ∧ ∀ x, up w' x = up w x && negb (have && bool_decide (x = k))).
Proof.
  unfold stop_if. destruct have; [|apply wp_ret; split; [done|]; intros x; by rewrite andb_true_r].
  apply wp_bind, op_wp. intros err w' E. pose proof (stops k w) as Hs. rewrite E in Hs. cbn in Hs. subst err. apply wp_ret.
  split; [done|]. intros x. by apply stop_spec.
Qed.
Lemma Stop_wp s w : wpr (Stop s) w (λ r w', r = None ∧ ∀ x, up w' x = up w x && negb (owned s x)).
Proof.
  unfold Stop. apply wp_bind. eapply wp_mono; [apply stop_if_wp|]. intros r w1 [-> U1].
  apply wp_bind. eapply wp_mono; [apply stop_if_wp|]. intros r w2 [-> U2].
  eapply wp_mono; [apply stop_if_wp|]. intros r w3 [-> U3]. split; [done|]. intros x. rewrite U3, U2, U1.
  destruct x; cbn; by rewrite ?andb_false_r, ?andb_true_r.
Qed.
End running.

(** Starting the signer on a host where nothing runs, with servers that can be stopped, either has exactly the servers of the
    configuration running, all of which but the watcher of the certificates end when it is stopped, or fails, and then no server
    it started is left, again but for the watcher. *)
Theorem signer_app_lifecycle {W} `{Host W} {up : W → server → bool} `{!HostSpec W up} cfg (w : W) :
  (∀ k (w : W), (stop_server k w).1 = None) → (∀ k, up w k = false) →
  ∃ r w', InitFromConfig cfg w = Ret (r, w') ∧
    match r with
    | inl _ => ∀ k, up w' k = true → k = CertWatcher
    | inr s => (∀ k, up w' k = servers_of cfg k) ∧ ∃ w'', Stop s w' = Ret (None, w'') ∧ ∀ k, up w'' k = bool_decide (k = CertWatcher)
    end.
Proof.
  intros Hstop Hw. unfold InitFromConfig.
  destruct (Config_Check cfg); [eexists _, _; split; [reflexivity|]; cbn; intros k; by rewrite Hw|].
  pose proof (init_wp (up := up) cfg w Hw) as Hi. unfold wp, initialised in Hi. rewrite M_bind_eq.
  destruct (init cfg _ w) as [[[[e|] s] w1]|]; cbn in Hi; [| |done].
  - pose proof (Stop_wp (up := up) Hstop s w1) as Hs. unfold wp in Hs. rewrite M_bind_eq.
    destruct (Stop s w1) as [[r w2]|]; [|done]. destruct Hs as [-> U]. eexists _, _. split; [reflexivity|]. cbn.
    intros k. rewrite U. destruct (Hi k) as [Hu _]. rewrite Hw in Hu. intros [Hk Ho]%andb_true_iff.
    destruct (Hu Hk) as [?|[Ho'|?]]; [done|by rewrite Ho' in Ho|done].
  - destruct Hi as [-> U]. eexists _, w1. split; [reflexivity|]. cbv iota. split; [intros k; by rewrite U, Hw|].
    pose proof (Stop_wp (up := up) Hstop (mk_app (PprofEnabled cfg) (MetricsEnabled cfg) true false) w1) as Hs. unfold wp in Hs.
    destruct (Stop _ w1) as [[r w2]|]; [|done]. destruct Hs as [-> U2]. exists w2. split; [done|]. intros k. rewrite U2, U, Hw.
    destruct k; cbn; try done; [by destruct (PprofEnabled cfg)|by destruct (MetricsEnabled cfg)].
Qed.

(** When the metrics server of op-txproxy does not start, its RPC server is left running. *)
Lemma txproxy_leaves_rpc {W} `{Host W} {up : W → server → bool} `{!HostSpec W up} (w w1 w2 w3 : W) e :
  new_conditional_service w = (None, w1) → start_server RPCServer w1 = (None, w2) → start_server MetricsServer w2 = (Some e, w3) →
  NewTxProxy w = Ret (inl ("failed initialization: failed to start metrics server: " ++ e), w3) ∧ up w3 RPCServer = true.
Proof.
  intros E1 E2 E3. split.
  - unfold NewTxProxy, txproxy_init, txproxy_initRPC, txproxy_initMetrics, op. unfold mbind, M_bind. rewrite E1, E2. cbn. by rewrite E3.
  - rewrite (start_spec _ _ _ _ RPCServer E3), (start_spec _ _ _ _ RPCServer E2). done.
Qed.

(** The signing command for block payloads never succeeds against the signer: it calls a method under the namespace eth,
    and the signer registers its method under opsigner. *)
Theorem block_payload_never_signed {W} `{Host W} (own : string → bool) cfg arg (w : W) :
  (∀ m args w, m ∉ registered → own m = false → ∃ e, (rpc_Call m args w).1 = inl e) → own "eth_signBlockPayload" = false →
  ∃ e w', ClientSign cfg SignBlockPayload arg w = Ret (inl e, w').
Proof.
  intros Hcall Hown. assert (wp (λ _, False) (ClientSign cfg SignBlockPayload arg) w (λ r _, ∃ e, r = inl e)) as Hw.
  2:{ unfold wp in Hw. destruct (ClientSign cfg SignBlockPayload arg w) as [[r w']|]; [|done]. destruct Hw as [e ->]. by eexists _, _. }
  unfold ClientSign. destruct (Config_Check cfg); [by apply wp_ret; eexists|]. destruct (String.eqb arg ""); [by apply wp_ret; eexists|].
  apply wp_bind. eapply (wp_mono _ _ _ (λ _ _, True)).
  { unfold NewSignerClient. apply wp_bind, op_wp. intros [? []] w1 _; [done|]. apply wp_bind, op_wp. intros [] w2 _; [done|].
    apply wp_bind, op_wp. intros [] w3 _; [done|]. apply wp_bind, op_wp. by intros. }
  intros [e|client] w1 _; [by apply wp_ret; eexists|]. destruct (hash_UnmarshalText arg); [by apply wp_ret; eexists|].
  apply wp_bind, op_wp. intros r w2 E. destruct (Hcall "eth_signBlockPayload" [s] w1) as [e He]; [|done|].
  - cbn. set_solver.
  - rewrite E in He. cbn in He. subst r. apply wp_ret. by eexists.
Qed.

(** ** A host where the metrics port is taken *)

Module app_runs.
(** The servers that run, and whether the port of the metrics server is taken. *)
Record host := mk_host { runs : server → bool; taken : bool }.
#[local] Instance host_ops : Host host := {|
  start_server := λ k w, if taken w && bool_decide (k = MetricsServer) then (Some "address in use", w)
    else (None, mk_host (λ x, bool_decide (x = k) || runs w x) (taken w));
  stop_server := λ k w, (None, mk_host (λ x, runs w x && negb (bool_decide (x = k))) (taken w));
  ReadFile := λ _ w, (("ca", None), w); certman_New := λ _ _ w, (None, w); read_service_config := λ _ w, (None, w);
  new_conditional_service := λ w, (None, w); LoadX509KeyPair := λ _ _ w, (None, w); DialOptions := λ _ w, (None, w);
  rpc_Call := λ m _ w, (if bool_decide (m ∈ "health_status" :: registered) then inr "1" else inl "the method does not exist", w);
  hexutil_Decode := λ s, Some s; tx_UnmarshalBinary := λ s, inr s; tx_args := λ s, [s]; tx_MarshalJSON := λ s, s;
  hash_UnmarshalText := λ s, inr s
|}.
#[local] Instance host_spec : HostSpec host runs.
Proof.
  split; try done.
  - intros k w err w' x. cbn. destruct (taken w && bool_decide (k = MetricsServer)); by intros [= <- <-].
  - intros k w w' x [= <-]. done.
Qed.

Definition cfg : Config := mk_config "https://signer" "config.yaml" "ca" "cert" "key" true true None None None None.
Definition w0 (taken : bool) : host := mk_host (λ _, false) taken.

Lemma signer_app_lifecycle_witness : ∃ r w', InitFromConfig cfg (w0 true) = Ret (r, w') ∧
  match r with
  | inl _ => ∀ k, runs w' k = true → k = CertWatcher
  | inr s => (∀ k, runs w' k = servers_of cfg k) ∧ ∃ w'', Stop s w' = Ret (None, w'') ∧ ∀ k, runs w'' k = bool_decide (k = CertWatcher)
  end.
Proof. exact (signer_app_lifecycle (up := runs) cfg (w0 true) (λ _ _, eq_refl) (λ _, eq_refl)). Defined.

(** The command for transactions reaches the signer. *)
Lemma transaction_run : fst <$> returned (ClientSign cfg SignTransaction "0x02" (w0 false)) = Some (inr "1").
Proof. vm_compute. reflexivity. Qed.

Lemma block_payload_never_signed_witness : ∃ e w', ClientSign cfg SignBlockPayload "0xabcd" (w0 false) = Ret (inl e, w').
Proof.
  apply (block_payload_never_signed (λ m, String.eqb m "health_status") cfg "0xabcd" (w0 false)); [|reflexivity].
  intros m args w Hm Ho. exists "the method does not exist". cbn. rewrite bool_decide_false; [reflexivity|].
  apply String.eqb_neq in Ho. intros [He|Hr]%elem_of_cons; [exact (Ho He)|exact (Hm Hr)].
Defined.
End app_runs.
