(* ===== verification/Metrics.v ===== *)
(** The metrics of proxyd (metrics.go), peer-mgmt-service, op-ufm and op-nat (pkg/metrics/metrics.go
    and metrics/metrics.go): the vectors that are registered, and the samples each function records.
    (Those of op-conductor-mon are in Mon.v.)

    Prometheus is an interface: it refuses a metric that is not well formed or registered already,
    and a series with another number of labels than its vector has; both are panics. *)
From stdpp Require Import base numbers list strings pretty.
From S2P Require Import Prelude.
From S2P Require Import GoFloat.
From S2P Require Import Rpc.
From Stdlib Require Import Ascii.

Local Open Scope string_scope.
Local Open Scope Z_scope.
#[local] Arguments String.append : simpl nomatch.

(** ** Vectors *)

Inductive kind := Counter | Gauge | Summary | Histogram.
Record desc := mk_desc { d_kind : kind; d_namespace : string; d_name : string; d_labels : list string }.
Definition fqName (d : desc) : string := d_namespace d ++ "_" ++ d_name d.

(** Metric and label names: letters, digits and underscores, no digit in front. *)
Definition name_char (first : bool) (c : ascii) : bool :=
  let n := nat_of_ascii c in
  ((65 <=? n)%nat && (n <=? 90)%nat) || ((97 <=? n)%nat && (n <=? 122)%nat) || (n =? 95)%nat ||
  (negb first && (48 <=? n)%nat && (n <=? 57)%nat).
Fixpoint name_chars (first : bool) (s : string) : bool :=
  match s with "" => negb first | String c s => name_char first c && name_chars false s end.
Definition reserved (k : kind) : list string := match k with Summary => ["quantile"] | Histogram => ["le"] | _ => [] end.
Definition well_formed (d : desc) : bool :=
  name_chars true (fqName d) && forallb (name_chars true) (d_labels d) &&
  forallb (λ l, negb (String.prefix "__" l) && bool_decide (l ∉ reserved (d_kind d))) (d_labels d) && bool_decide (NoDup (d_labels d)).

Inductive sample := Inc | SetTo (v : float64) | Observe (v : float64).
Definition op : Type := desc * list string * sample.

Class Prometheus (P : Type) := {
  MustRegister : desc → M P unit;
  WithLabelValues : desc → list string → sample → M P unit;
}.

Class PrometheusSpec (P : Type) `{Prometheus P} (registered : P → string → bool)
    (history : P → string → list string → list sample) (utf8 : string → Prop) : Prop := {
  register_new d p : well_formed d = true → registered p (fqName d) = false →
    ∃ p', MustRegister d p = Ret (tt, p') ∧ history p' = history p ∧
      ∀ n, registered p' n = String.eqb n (fqName d) || registered p n;
  sample_added d vs x p : registered p (fqName d) = true → length vs = length (d_labels d) → Forall utf8 vs →
    ∃ p', WithLabelValues d vs x p = Ret (tt, p') ∧ registered p' = registered p ∧
      ∀ n ws, history p' n ws = (history p n ws ++ if bool_decide (n = fqName d ∧ ws = vs) then [x] else [])%list;
  other_cardinality d vs x p : length vs ≠ length (d_labels d) → panics (WithLabelValues d vs x) p;
}.

(** The package variables are registered in the order they are written. *)
Definition register {P} `{Prometheus P} (ds : list desc) : M P unit := m_for MustRegister ds.
Definition record {P} `{Prometheus P} (ops : list op) : M P unit := m_for (λ '(d, vs, x), WithLabelValues d vs x) ops.

Definition milliseconds (d : Z) : float64 := f_of_Z (Z.quot d Millisecond).
Definition bool_float (b : bool) : float64 := if b then f_of_Z 1 else f_of_Z 0.
Definition FormatBool (b : bool) : string := if b then "true" else "false".

(** ** proxyd *)

Definition proxyd_vec (k : kind) (name : string) (labels : list string) : desc := mk_desc k "proxyd" name labels.

Inductive request_metric :=
| rpcRequestsTotal | rpcForwardsTotal | rpcBackendHTTPResponseCodesTotal | rpcErrorsTotal | rpcSpecialErrorsTotal
| rpcBackendRequestDurationSumm | activeClientWsConnsGauge | activeBackendWsConnsGauge | unserviceableRequestsTotal
| httpResponseCodesTotal | httpRequestDurationSumm | wsMessagesTotal | redisErrorsTotal | requestPayloadSizesGauge
| responsePayloadSizesGauge.
Definition request_desc (m : request_metric) : desc :=
  match m with
  | rpcRequestsTotal => proxyd_vec Counter "rpc_requests_total" []
  | rpcForwardsTotal => proxyd_vec Counter "rpc_forwards_total" ["auth"; "backend_name"; "method_name"; "source"]
  | rpcBackendHTTPResponseCodesTotal => proxyd_vec Counter "rpc_backend_http_response_codes_total"
      ["auth"; "backend_name"; "method_name"; "status_code"; "batched"]
  | rpcErrorsTotal => proxyd_vec Counter "rpc_errors_total" ["auth"; "backend_name"; "method_name"; "error_code"]
  | rpcSpecialErrorsTotal => proxyd_vec Counter "rpc_special_errors_total" ["auth"; "backend_name"; "method_name"; "error_type"]
  | rpcBackendRequestDurationSumm => proxyd_vec Summary "rpc_backend_request_duration_seconds" ["backend_name"; "method_name"; "batched"]
  | activeClientWsConnsGauge => proxyd_vec Gauge "active_client_ws_conns" ["auth"]
  | activeBackendWsConnsGauge => proxyd_vec Gauge "active_backend_ws_conns" ["backend_name"]
  | unserviceableRequestsTotal => proxyd_vec Counter "unserviceable_requests_total" ["auth"; "request_source"]
  | httpResponseCodesTotal => proxyd_vec Counter "http_response_codes_total" ["status_code"]
  | httpRequestDurationSumm => proxyd_vec Summary "http_request_duration_seconds" []
  | wsMessagesTotal => proxyd_vec Counter "ws_messages_total" ["auth"; "backend_name"; "source"]
  | redisErrorsTotal => proxyd_vec Counter "redis_errors_total" ["source"]
  | requestPayloadSizesGauge => proxyd_vec Histogram "request_payload_sizes" ["auth"]
  | responsePayloadSizesGauge => proxyd_vec Histogram "response_payload_sizes" ["auth"]
  end.

Inductive service_metric :=
| cacheHitsTotal | cacheMissesTotal | cacheErrorsTotal | batchRPCShortCircuitsTotal | redisCacheDurationSumm
| tooManyRequestErrorsTotal | batchSizeHistogram | frontendRateLimitTakeErrors | consensusLatestBlock | consensusSafeBlock
| consensusFinalizedBlock | consensusHAError | consensusHALatestBlock | consensusHASafeBlock | consensusHAFinalizedBlock.
Definition service_desc (m : service_metric) : desc :=
  match m with
  | cacheHitsTotal => proxyd_vec Counter "cache_hits_total" ["method"]
  | cacheMissesTotal => proxyd_vec Counter "cache_misses_total" ["method"]
  | cacheErrorsTotal => proxyd_vec Counter "cache_errors_total" ["method"]
  | batchRPCShortCircuitsTotal => proxyd_vec Counter "batch_rpc_short_circuits_total" []
  | redisCacheDurationSumm => proxyd_vec Histogram "redis_cache_duration_milliseconds" ["command"]
  | tooManyRequestErrorsTotal => proxyd_vec Counter "too_many_request_errors_total" ["backend_name"]
  | batchSizeHistogram => proxyd_vec Histogram "batch_size_summary" []
  | frontendRateLimitTakeErrors => proxyd_vec Counter "rate_limit_take_errors" []
  | consensusLatestBlock => proxyd_vec Gauge "group_consensus_latest_block" ["backend_group_name"]
  | consensusSafeBlock => proxyd_vec Gauge "group_consensus_safe_block" ["backend_group_name"]
  | consensusFinalizedBlock => proxyd_vec Gauge "group_consensus_finalized_block" ["backend_group_name"]
  | consensusHAError => proxyd_vec Counter "group_consensus_ha_error" ["error"]
  | consensusHALatestBlock => proxyd_vec Gauge "group_consensus_ha_latest_block" ["backend_group_name"; "leader"]
  | consensusHASafeBlock => proxyd_vec Gauge "group_consensus_ha_safe_block" ["backend_group_name"; "leader"]
  | consensusHAFinalizedBlock => proxyd_vec Gauge "group_consensus_ha_finalized_block" ["backend_group_name"; "leader"]
  end.

Inductive backend_metric :=
| backendLatestBlockBackend | backendSafeBlockBackend | backendFinalizedBlockBackend | backendUnexpectedBlockTagsBackend
| consensusGroupCount | consensusGroupFilteredCount | consensusGroupTotalCount | consensusBannedBackends
| consensusPeerCountBackend | consensusInSyncBackend | consensusUpdateDelayBackend | avgLatencyBackend | degradedBackends
| networkErrorRateBackend | healthyPrimaryCandidates | backendGroupFallbackBackend | backendGroupMulticallCounter
| backendGroupMulticallCompletionCounter.
Definition backend_desc (m : backend_metric) : desc :=
  match m with
  | backendLatestBlockBackend => proxyd_vec Gauge "backend_latest_block" ["backend_name"]
  | backendSafeBlockBackend => proxyd_vec Gauge "backend_safe_block" ["backend_name"]
  | backendFinalizedBlockBackend => proxyd_vec Gauge "backend_finalized_block" ["backend_name"]
  | backendUnexpectedBlockTagsBackend => proxyd_vec Gauge "backend_unexpected_block_tags" ["backend_name"]
  | consensusGroupCount => proxyd_vec Gauge "group_consensus_count" ["backend_group_name"]
  | consensusGroupFilteredCount => proxyd_vec Gauge "group_consensus_filtered_count" ["backend_group_name"]
  | consensusGroupTotalCount => proxyd_vec Gauge "group_consensus_total_count" ["backend_group_name"]
  | consensusBannedBackends => proxyd_vec Gauge "consensus_backend_banned" ["backend_name"]
  | consensusPeerCountBackend => proxyd_vec Gauge "consensus_backend_peer_count" ["backend_name"]
  | consensusInSyncBackend => proxyd_vec Gauge "consensus_backend_in_sync" ["backend_name"]
  | consensusUpdateDelayBackend => proxyd_vec Gauge "consensus_backend_update_delay" ["backend_name"]
  | avgLatencyBackend => proxyd_vec Gauge "backend_avg_latency" ["backend_name"]
  | degradedBackends => proxyd_vec Gauge "backend_degraded" ["backend_name"]
  | networkErrorRateBackend => proxyd_vec Gauge "backend_error_rate" ["backend_name"]
  | healthyPrimaryCandidates => proxyd_vec Gauge "healthy_candidates" ["backend_group_name"]
  | backendGroupFallbackBackend => proxyd_vec Gauge "backend_group_fallback_backenend" ["backend_group"; "backend_name"; "fallback"]
  | backendGroupMulticallCounter => proxyd_vec Counter "backend_group_multicall_request_counter" ["backend_group"; "backend_name"]
  | backendGroupMulticallCompletionCounter => proxyd_vec Counter "backend_group_multicall_completion_counter"
      ["backend_group"; "backend_name"; "error"]
  end.

Definition proxyd_metrics : list desc :=
  ((request_desc <$> [rpcRequestsTotal; rpcForwardsTotal; rpcBackendHTTPResponseCodesTotal; rpcErrorsTotal; rpcSpecialErrorsTotal;
     rpcBackendRequestDurationSumm; activeClientWsConnsGauge; activeBackendWsConnsGauge; unserviceableRequestsTotal;
     httpResponseCodesTotal; httpRequestDurationSumm; wsMessagesTotal; redisErrorsTotal; requestPayloadSizesGauge; responsePayloadSizesGauge]) ++
   (service_desc <$> [cacheHitsTotal; cacheMissesTotal; cacheErrorsTotal; batchRPCShortCircuitsTotal; redisCacheDurationSumm;
     tooManyRequestErrorsTotal; batchSizeHistogram; frontendRateLimitTakeErrors; consensusLatestBlock; consensusSafeBlock;
     consensusFinalizedBlock; consensusHAError; consensusHALatestBlock; consensusHASafeBlock; consensusHAFinalizedBlock]) ++
   (backend_desc <$> [backendLatestBlockBackend; backendSafeBlockBackend; backendFinalizedBlockBackend; backendUnexpectedBlockTagsBackend;
     consensusGroupCount; consensusGroupFilteredCount; consensusGroupTotalCount; consensusBannedBackends; consensusPeerCountBackend;
     consensusInSyncBackend; consensusUpdateDelayBackend; avgLatencyBackend; degradedBackends; networkErrorRateBackend;
     healthyPrimaryCandidates; backendGroupFallbackBackend; backendGroupMulticallCounter; backendGroupMulticallCompletionCounter]))%list.

(** server.go: the user of a context. *)
Definition GetAuthCtx (user : option string) : string := default "none" user.

Definition rpcSpecialErrors : list string :=
  ["nonce too low"; "gas price too high"; "gas price too low"; "invalid parameters"; "txpool is full"; "pool is full"; "pool overflow";
   "transaction pool is full"; "insufficient funds"; "replacement underpriced"; "replacement transaction underpriced"; "already known";
   "max initcode size exceeded"; "insufficient balance"; "gas limit exceeded"; "intrinsic gas too low"].

(** strings.Contains *)
Fixpoint contains (sub s : string) : bool :=
  String.prefix sub s || match s with "" => false | String _ s => contains sub s end.
Definition special_error (message : string) : option string := List.find (λ e, contains e (to_lower message)) rpcSpecialErrors.

Definition MaybeRecordSpecialRPCError (user : option string) (backendName method : string) (rpcErr : RPCErr) : list op :=
  match special_error (Message rpcErr) with
  | Some errStr => [(request_desc rpcSpecialErrorsTotal, [GetAuthCtx user; backendName; method; errStr], Inc)]
  | None => []
  end.

Definition RecordRPCError (user : option string) (backendName method : string) (err : error) : list op :=
  let '(special, code) := match as_RPCErr err with
    | Some rpcErr => (MaybeRecordSpecialRPCError user backendName method rpcErr, Code rpcErr)
    | None => ([], -1)
    end in
  (special ++ [(request_desc rpcErrorsTotal, [GetAuthCtx user; backendName; method; pretty code], Inc)])%list.

(** The functions that record requests, and what each of them records. *)
Inductive request_call :=
| RedisError (source : string)
| RPCError (user : option string) (backendName method : string) (err : error)
| WSMessage (user : option string) (backendName source : string)
| UnserviceableRequest (user : option string) (source : string)
| RPCForward (user : option string) (backendName method source : string)
| RequestPayloadSize (user : option string) (payloadSize : Z)
| ResponsePayloadSize (user : option string) (payloadSize : Z)
| CacheHit (method : string) | CacheMiss (method : string) | CacheError (method : string)
| BatchSize (size : Z)
| GroupConsensusError (label err : string).
Definition record_request (c : request_call) : list op :=
  match c with
  | RedisError source => [(request_desc redisErrorsTotal, [source], Inc)]
  | RPCError user backendName method err => RecordRPCError user backendName method err
  | WSMessage user backendName source => [(request_desc wsMessagesTotal, [GetAuthCtx user; backendName; source], Inc)]
  | UnserviceableRequest user source => [(request_desc unserviceableRequestsTotal, [GetAuthCtx user; source], Inc)]
  | RPCForward user backendName method source =>
      [(request_desc rpcForwardsTotal, [GetAuthCtx user; backendName; method; source], Inc)]
  | RequestPayloadSize user n => [(request_desc requestPayloadSizesGauge, [GetAuthCtx user], Observe (f_of_Z n))]
  | ResponsePayloadSize user n => [(request_desc responsePayloadSizesGauge, [GetAuthCtx user], Observe (f_of_Z n))]
  | CacheHit method => [(service_desc cacheHitsTotal, [method], Inc)]
  | CacheMiss method => [(service_desc cacheMissesTotal, [method], Inc)]
  | CacheError method => [(service_desc cacheErrorsTotal, [method], Inc)]
  | BatchSize size => [(service_desc batchSizeHistogram, [], Observe (f_of_Z size))]
  | GroupConsensusError label err => [(service_desc consensusHAError, [label ++ "." ++ error_label err], Inc)]
  end.

(** The functions that record the state of groups and backends. A time is nanoseconds since the
    zero time, whose delay is not recorded. *)
Inductive state_call :=
| GroupConsensusHALatestBlock (group leader : string) (n : Z) | GroupConsensusHASafeBlock (group leader : string) (n : Z)
| GroupConsensusHAFinalizedBlock (group leader : string) (n : Z)
| GroupConsensusLatestBlock (group : string) (n : Z) | GroupConsensusSafeBlock (group : string) (n : Z)
| GroupConsensusFinalizedBlock (group : string) (n : Z)
| GroupConsensusCount (group : string) (n : Z) | GroupConsensusFilteredCount (group : string) (n : Z)
| GroupTotalCount (group : string) (n : Z)
| BackendLatestBlock (b : string) (n : Z) | BackendSafeBlock (b : string) (n : Z) | BackendFinalizedBlock (b : string) (n : Z)
| BackendUnexpectedBlockTags (b : string) (unexpected : bool) | ConsensusBackendBanned (b : string) (banned : bool)
| HealthyCandidates (group : string) (n : Z)
| ConsensusBackendPeerCount (b : string) (n : Z) | ConsensusBackendInSync (b : string) (inSync : bool)
| ConsensusBackendUpdateDelay (b : string) (lastUpdate now : Z)
| BackendNetworkLatencyAverageSlidingWindow (b : string) (avgLatency : Z) (degraded : bool)
| BackendNetworkErrorRateSlidingWindow (b : string) (rate : float64)
| BackendGroupFallbacks (group name : string) (fallback : bool)
| BackendGroupMulticallRequest (group backendName : string) | BackendGroupMulticallCompletion (group backendName err : string).
Definition record_state (c : state_call) : list op :=
  let set d vs n : list op := [(d, vs, SetTo (f_of_Z n))] in
  let set_bool d vs b : list op := [(d, vs, SetTo (bool_float b))] in
  match c with
  | GroupConsensusHALatestBlock group leader n => set (service_desc consensusHALatestBlock) [group; leader] n
  | GroupConsensusHASafeBlock group leader n => set (service_desc consensusHASafeBlock) [group; leader] n
  | GroupConsensusHAFinalizedBlock group leader n => set (service_desc consensusHAFinalizedBlock) [group; leader] n
  | GroupConsensusLatestBlock group n => set (service_desc consensusLatestBlock) [group] n
  | GroupConsensusSafeBlock group n => set (service_desc consensusSafeBlock) [group] n
  | GroupConsensusFinalizedBlock group n => set (service_desc consensusFinalizedBlock) [group] n
  | GroupConsensusCount group n => set (backend_desc consensusGroupCount) [group] n
  | GroupConsensusFilteredCount group n => set (backend_desc consensusGroupFilteredCount) [group] n
  | GroupTotalCount group n => set (backend_desc consensusGroupTotalCount) [group] n
  | BackendLatestBlock b n => set (backend_desc backendLatestBlockBackend) [b] n
  | BackendSafeBlock b n => set (backend_desc backendSafeBlockBackend) [b] n
  | BackendFinalizedBlock b n => set (backend_desc backendFinalizedBlockBackend) [b] n
  | BackendUnexpectedBlockTags b unexpected => set_bool (backend_desc backendUnexpectedBlockTagsBackend) [b] unexpected
  | ConsensusBackendBanned b banned => set_bool (backend_desc consensusBannedBackends) [b] banned
  | HealthyCandidates group n => set (backend_desc healthyPrimaryCandidates) [group] n
  | ConsensusBackendPeerCount b n => set (backend_desc consensusPeerCountBackend) [b] n
  | ConsensusBackendInSync b inSync => set_bool (backend_desc consensusInSyncBackend) [b] inSync
  | ConsensusBackendUpdateDelay b lastUpdate now =>
      if lastUpdate =? 0 then [] else [(backend_desc consensusUpdateDelayBackend, [b], SetTo (milliseconds (now - lastUpdate)))]
  | BackendNetworkLatencyAverageSlidingWindow b avgLatency degraded =>
      (backend_desc avgLatencyBackend, [b], SetTo (milliseconds avgLatency)) :: set_bool (backend_desc degradedBackends) [b] degraded
  | BackendNetworkErrorRateSlidingWindow b rate => [(backend_desc networkErrorRateBackend, [b], SetTo rate)]
  | BackendGroupFallbacks group name fallback =>
      set_bool (backend_desc backendGroupFallbackBackend) [group; name; FormatBool fallback] fallback
  | BackendGroupMulticallRequest group backendName => [(backend_desc backendGroupMulticallCounter, [group; backendName], Inc)]
  | BackendGroupMulticallCompletion group backendName err =>
      [(backend_desc backendGroupMulticallCompletionCounter, [group; backendName; err], Inc)]
  end.

(** backend.go: the batches of requests and responses. *)
Definition RecordBatchRPCError (user : option string) (backendName : string) (reqs : list RPCReq) (err : error) : list op :=
  reqs ≫= λ req, RecordRPCError user backendName (rq_Method req) err.
Definition RecordBatchRPCForward (user : option string) (backendName : string) (reqs : list RPCReq) (source : string) : list op :=
  reqs ≫= λ req, record_request (RPCForward user backendName (rq_Method req) source).
Fixpoint MaybeRecordErrorsInRPCRes (user : option string) (backendName : string) (reqs : list RPCReq) (resBatch : list RPCRes) : go (list op) :=
  match resBatch with
  | [] => Ret []
  | res :: resBatch =>
      now_ops ← match rs_Error res with
        | None => Ret []
        | Some e => match reqs with
            | req :: _ => Ret (RecordRPCError user backendName (rq_Method req) (ERPC e))
            | [] => Panic "index out of range"
            end
        end;
      ops ← MaybeRecordErrorsInRPCRes user backendName (tail reqs) resBatch;
      Ret (now_ops ++ ops)%list
  end.

(** ** peer-mgmt-service *)

Definition pms_vec (k : kind) (name : string) (labels : list string) : desc := mk_desc k "pms" name labels.
Inductive pms_metric :=
| pms_errorsTotal | pms_rpcLatency | networkMemberCount | network_known_peer_count | networkPeerHealthness | knownPeerStateLatency
| peerStateConnectedness | resolvedState.
Definition pms_desc (m : pms_metric) : desc :=
  match m with
  | pms_errorsTotal => pms_vec Counter "errors_total" ["error"; "method"; "network"; "node"]
  | pms_rpcLatency => pms_vec Gauge "rpc_latency" ["network"; "node"; "method"]
  | networkMemberCount => pms_vec Gauge "network_member_count" ["network"]
  | network_known_peer_count => pms_vec Gauge "network_known_peer_count" ["network"]
  | networkPeerHealthness => pms_vec Gauge "network_peer_healthness" ["network"]
  | knownPeerStateLatency => pms_vec Gauge "known_peer_state_latency" ["network"; "node"; "node_peer_id"; "peer"; "peer_id"]
  | peerStateConnectedness => pms_vec Gauge "peer_state_connectedness" ["network"; "node"; "node_peer_id"; "knowness"; "connectedness"]
  | resolvedState => pms_vec Counter "resolved_state" ["network"; "node"; "node_peer_id"; "peer"; "peer_peer_id"]
  end.
Definition pms_metrics : list desc :=
  pms_desc <$> [pms_errorsTotal; pms_rpcLatency; networkMemberCount; network_known_peer_count; networkPeerHealthness; knownPeerStateLatency;
    peerStateConnectedness; resolvedState].

Inductive pms_call :=
| PmsError (error : string) | PmsErrorDetails (label err : string)
| NetworkErrorDetails (network node method err : string)
| PmsRPCLatency (network node method : string) (latency : Z)
| NetworkMemberCount (network : string) (count : Z)
| NetworkPeerHealthness (network : string) (percentage : float64)
| KnownPeerStateLatency (network node nodePeerID peer peerPeerID : string) (latency : Z)
| PeerStateConnectedness (network node nodePeerID knowness connectedness : string) (count : Z)
| ResolvedState (network nodeName peerName peerID peerAddr : string).
Definition record_pms (c : pms_call) : list op :=
  match c with
  | PmsError error => [(pms_desc pms_errorsTotal, [error], Inc)]
  | PmsErrorDetails label err => [(pms_desc pms_errorsTotal, [label ++ "." ++ error_label err], Inc)]
  | NetworkErrorDetails network node method err => [(pms_desc pms_errorsTotal, [error_label err; method; network; node], Inc)]
  | PmsRPCLatency network node method latency => [(pms_desc pms_rpcLatency, [network; node; method], SetTo (milliseconds latency))]
  | NetworkMemberCount network count => [(pms_desc networkMemberCount, [network], SetTo (f_of_Z count))]
  | NetworkPeerHealthness network percentage => [(pms_desc networkPeerHealthness, [network], SetTo percentage)]
  | KnownPeerStateLatency network node nodePeerID peer peerPeerID latency =>
      [(pms_desc knownPeerStateLatency, [network; node; nodePeerID; peer; peerPeerID], SetTo (milliseconds latency))]
  | PeerStateConnectedness network node nodePeerID knowness connectedness count =>
      [(pms_desc peerStateConnectedness, [network; node; nodePeerID; knowness; connectedness], SetTo (f_of_Z count))]
  | ResolvedState network nodeName peerName peerID peerAddr =>
      [(pms_desc resolvedState, [network; nodeName; peerName; peerID; peerAddr], Inc)]
  end.

(** ** op-ufm *)

Definition ufm_vec (name : string) (labels : list string) : desc := mk_desc Gauge "ufm" name labels.
Inductive ufm_metric :=
| ufm_errorsTotal | ufm_rpcLatency | roundTripLatency | gasUsed | firstSeenLatency | providerToProviderLatency | networkTransactionsInFlight.
Definition ufm_desc (m : ufm_metric) : desc :=
  match m with
  | ufm_errorsTotal => ufm_vec "errors_total" ["provider"; "error"]
  | ufm_rpcLatency => ufm_vec "rpc_latency" ["provider"; "client"; "method"]
  | roundTripLatency => ufm_vec "roundtrip_latency" ["provider"]
  | gasUsed => ufm_vec "gas_used" ["provider"]
  | firstSeenLatency => ufm_vec "first_seen_latency" ["provider_source"; "provider_seen"]
  | providerToProviderLatency => ufm_vec "provider_to_provider_latency" ["provider_source"; "provider_seen"]
  | networkTransactionsInFlight => ufm_vec "transactions_inflight" ["network"]
  end.
Definition ufm_metrics : list desc :=
  ufm_desc <$> [ufm_errorsTotal; ufm_rpcLatency; roundTripLatency; gasUsed; firstSeenLatency; providerToProviderLatency; networkTransactionsInFlight].

Inductive ufm_call :=
| UfmError (provider errorLabel : string) | UfmErrorDetails (provider label err : string)
| UfmRPCLatency (provider client method : string) (latency : Z)
| RoundTripLatency (provider : string) (latency : Z) | GasUsed (provider : string) (val : Z)
| FirstSeenLatency (source seen : string) (latency : Z) | ProviderToProviderLatency (source seen : string) (latency : Z)
| TransactionsInFlight (network : string) (count : Z).
Definition record_ufm (c : ufm_call) : list op :=
  match c with
  | UfmError provider errorLabel => [(ufm_desc ufm_errorsTotal, [provider; errorLabel], Inc)]
  | UfmErrorDetails provider label err => [(ufm_desc ufm_errorsTotal, [provider; label ++ "." ++ error_label err], Inc)]
  | UfmRPCLatency provider client method latency => [(ufm_desc ufm_rpcLatency, [provider; client; method], SetTo (milliseconds latency))]
  | RoundTripLatency provider latency => [(ufm_desc roundTripLatency, [provider], SetTo (milliseconds latency))]
  | GasUsed provider val => [(ufm_desc gasUsed, [provider], SetTo (f_of_Z val))]
  | FirstSeenLatency source seen latency => [(ufm_desc firstSeenLatency, [source; seen], SetTo (milliseconds latency))]
  | ProviderToProviderLatency source seen latency => [(ufm_desc providerToProviderLatency, [source; seen], SetTo (milliseconds latency))]
  | TransactionsInFlight network count => [(ufm_desc networkTransactionsInFlight, [network], SetTo (f_of_Z count))]
  end.

(** ** op-nat: the errors. *)

Definition nat_errorsTotal : desc := mk_desc Counter "nat" "errors_total" ["error"].
Definition nat_metrics : list desc :=
  [nat_errorsTotal; mk_desc Counter "nat" "validations_total" ["network_name"; "run_id"; "name"; "type"; "result"];
   mk_desc Counter "nat" "acceptances_total" ["network_name"; "run_id"; "result"]].
Definition errToLabel (err : option string) : string := match err with None => "nil" | Some err => error_label err end.
Definition nat_RecordErrorDetails (label : string) (err : option string) : list op :=
  match err with None => [] | Some _ => [(nat_errorsTotal, [label ++ "." ++ errToLabel err], Inc)] end.

(** ** What is registered and recorded *)

Inductive program := Proxyd | PeerMgmt | Monitor | Tester.
Definition metrics_of (p : program) : list desc :=
  match p with Proxyd => proxyd_metrics | PeerMgmt => pms_metrics | Monitor => ufm_metrics | Tester => nat_metrics end.

Inductive call :=
| RequestCall (c : request_call) | StateCall (c : state_call) | PmsCall (c : pms_call) | UfmCall (c : ufm_call)
| NatCall (label : string) (err : option string).
Definition program_of (c : call) : program :=
  match c with RequestCall _ | StateCall _ => Proxyd | PmsCall _ => PeerMgmt | UfmCall _ => Monitor | NatCall _ _ => Tester end.
Definition ops_of (c : call) : list op :=
  match c with
  | RequestCall c => record_request c | StateCall c => record_state c | PmsCall c => record_pms c | UfmCall c => record_ufm c
  | NatCall label err => nat_RecordErrorDetails label err
  end.
(** The two functions of the peer manager that give one value for four labels. *)
Definition miscounted (c : call) : bool := match c with PmsCall (PmsError _) | PmsCall (PmsErrorDetails _ _) => true | _ => false end.

Definition samples (n : string) (ws : list string) (ops : list op) : list sample :=
  omap (λ '(d, vs, x), if bool_decide (n = fqName d ∧ ws = vs) then Some x else None) ops.
Definition fits (o : op) : Prop := length o.1.2 = length (d_labels o.1.1).

Section metrics.
Context {P : Type} `{Prometheus P} {registered : P → string → bool} {history : P → string → list string → list sample}
  {utf8 : string → Prop} `{!PrometheusSpec P registered history utf8}.

Lemma register_run ds p : Forall (λ d, well_formed d = true) ds → NoDup (fqName <$> ds) →
  Forall (λ d, registered p (fqName d) = false) ds →
  ∃ p', register ds p = Ret (tt, p') ∧ history p' = history p ∧
    ∀ n, registered p' n = bool_decide (n ∈ fqName <$> ds) || registered p n.
Proof.
  revert p. induction ds as [|d ds IH]; intros p Hw Hn Hr; [by exists p|].
  apply Forall_cons in Hw as [Hd Hw], Hr as [Hrd Hr]. cbn in Hn. apply NoDup_cons in Hn as [Hdn Hn].
  destruct (register_new d p Hd Hrd) as (p1 & E1 & Hh & Hp1). destruct (IH p1 Hw Hn) as (p' & E & Hh' & Hp').
  - apply Forall_forall. intros d' Hin. rewrite Hp1, (proj1 (Forall_forall _ _) Hr d' Hin), orb_false_r.
    apply String.eqb_neq. intros Heq. apply Hdn. rewrite <- Heq. by apply list_elem_of_fmap_2.
  - exists p'. split; [|split; [congruence|]].
    + unfold register. cbn. by rewrite (M_bind_run _ _ _ _ _ E1).
    + intros n. rewrite Hp', Hp1. cbn. destruct (String.eqb_spec n (fqName d)) as [->|Hne].
      * rewrite (bool_decide_eq_true_2 (fqName d ∈ fqName d :: _)) by left. by rewrite orb_true_r.
      * cbn. f_equal. apply bool_decide_ext. rewrite elem_of_cons. naive_solver.
Qed.

Lemma record_run ops p : Forall (λ o : op, registered p (fqName o.1.1) = true) ops → Forall fits ops → Forall (λ o : op, Forall utf8 o.1.2) ops →
  ∃ p', record ops p = Ret (tt, p') ∧ ∀ n ws, history p' n ws = (history p n ws ++ samples n ws ops)%list.
Proof.
  revert p. induction ops as [|[[d vs] x] ops IH]; intros p Hr Hf Hu; [exists p; split; [done|]; intros; by rewrite app_nil_r|].
  apply Forall_cons in Hr as [Hrd Hr], Hf as [Hfd Hf], Hu as [Hud Hu].
  destruct (sample_added d vs x p Hrd Hfd Hud) as (p1 & E1 & Hp & Hh). destruct (IH p1) as (p' & E & Hh'); [by rewrite Hp|done..|].
  exists p'. split; [unfold record; cbn; by rewrite (M_bind_run _ _ _ _ _ E1)|].
  intros n ws. rewrite Hh', Hh, <- app_assoc. f_equal. cbn. by case_bool_decide.
Qed.
End metrics.

Lemma metrics_well_formed p : Forall (λ d, well_formed d = true) (metrics_of p).
Proof. by destruct p; repeat constructor. Qed.

Lemma metrics_distinct p : NoDup (fqName <$> metrics_of p).
Proof. destruct p; apply (bool_decide_unpack _); vm_compute; exact I. Qed.

(** Every call records to metrics of its program; all but two give each label a value. *)
Lemma calls_known c : Forall (λ o : op, o.1.1 ∈ metrics_of (program_of c)) (ops_of c).
Proof.
  assert (∀ user backend method err, Forall (λ o : op, o.1.1 ∈ proxyd_metrics) (RecordRPCError user backend method err)) as Herr.
  { intros. unfold RecordRPCError, MaybeRecordSpecialRPCError. destruct (as_RPCErr err) as [e|]; [destruct (special_error _)|];
      repeat constructor; unfold proxyd_metrics; cbn; rewrite ?elem_of_cons; tauto. }
  destruct c as [c|c|c|c|label [err|]]; [destruct c; try apply Herr|destruct c; cbn; try case_match|destruct c|destruct c|..];
    repeat constructor; cbn; rewrite ?elem_of_cons; tauto.
Qed.

Lemma calls_fit c : miscounted c = false → Forall fits (ops_of c).
Proof.
  assert (∀ user backend method err, Forall fits (RecordRPCError user backend method err)) as Herr.
  { intros. unfold RecordRPCError, MaybeRecordSpecialRPCError. destruct (as_RPCErr err) as [e|]; [destruct (special_error _)|]; by repeat constructor. }
  destruct c as [c|c|c|c|label [err|]]; [destruct c; try (by intros _; apply Herr)|destruct c; cbn; try case_match|destruct c|destruct c|..];
    intros Hm; try discriminate Hm; by repeat constructor.
Qed.


(** ** Special errors *)

Lemma prefix_app a s : String.prefix a s = true ↔ ∃ y, s = a ++ y.
Proof.
  revert s. induction a as [|c a IH]; intros s; [split; [by exists s|by destruct s]|].
  destruct s as [|d s]; cbn; [split; [done|by intros []]|]. destruct (ascii_dec c d) as [->|Hne].
  - rewrite IH. split; intros [y Hy]; exists y; [by rewrite Hy|by injection Hy].
  - split; [done|intros [y Hy]; by injection Hy].
Qed.

Lemma contains_app a s : contains a s = true ↔ ∃ x y, s = x ++ a ++ y.
Proof.
  induction s as [|c s IH]; cbn [contains]; rewrite orb_true_iff, prefix_app.
  - split; [intros [[y Hy]|]; [by exists "", y|done]|]. intros (x & y & E). left. destruct x; [by exists y|done].
  - rewrite IH. split.
    + intros [[y Hy]|(x & y & ->)]; [by exists "", y|by exists (String c x), y].
    + intros (x & y & E). destruct x as [|d x]; [left; by exists y|right]. injection E as _ ->. by exists x, y.
Qed.

Lemma append_assoc (a b c : string) : (a ++ b) ++ c = a ++ b ++ c.
Proof. induction a as [|x a IH]; cbn; [done|by rewrite IH]. Qed.

Lemma contains_trans a b c : contains a b = true → contains b c = true → contains a c = true.
Proof.
  rewrite !contains_app. intros (x & y & ->) (u & v & ->). exists (u ++ x), (y ++ v). by rewrite !append_assoc.
Qed.

(** No error is counted as a full transaction pool: a message that says so also says that the pool is full, which
    comes before it. *)
Lemma transaction_pool_never_full message : special_error message ≠ Some "transaction pool is full".
Proof.
  unfold special_error. intros E. pose proof (List.find_some _ _ E) as [_ Hc]. cbn beta in Hc.
  assert (contains "pool is full" (to_lower message) = true) as Hp by by eapply contains_trans; [|exact Hc].
  unfold rpcSpecialErrors in E. cbn [List.find] in E. rewrite Hp in E. repeat (case_match; [congruence|]). congruence.
Qed.

(** The counter of resolved states has the name, the identity and the address of the peer under the labels for the
    identity of the node, the name and the identity of the peer. *)
Lemma resolved_state_labels network node peerName peerID peerAddr :
  (λ o : op, zip (d_labels o.1.1) o.1.2) <$> record_pms (ResolvedState network node peerName peerID peerAddr) =
  [[("network", network); ("node", node); ("node_peer_id", peerName); ("peer", peerID); ("peer_peer_id", peerAddr)]].
Proof. done. Qed.

(** As many responses as requests are recorded without a panic. *)
Lemma errors_in_responses user backend reqs res : (length res ≤ length reqs)%nat →
  ∃ ops, MaybeRecordErrorsInRPCRes user backend reqs res = Ret ops ∧ Forall fits ops.
Proof.
  revert reqs. induction res as [|r res IH]; intros reqs Hl; [by exists []|]. cbn [MaybeRecordErrorsInRPCRes].
  destruct reqs as [|req reqs]; cbn in Hl; [lia|]. destruct (IH reqs) as (ops & E & Hf); [lia|]. cbn [tail]. rewrite E.
  destruct (rs_Error r) as [e|]; cbn; [|by exists ops].
  eexists. split; [done|]. apply Forall_app. split; [|done]. by apply (calls_fit (RequestCall (RPCError user backend (rq_Method req) (ERPC e)))).
Qed.

(** ** A registry *)

Module metrics_runs.
Record registry := mk_registry { names : list string; log : list (string * list string * sample) }.
#[export] Instance prometheus : Prometheus registry := {
  MustRegister d := λ p, if well_formed d && bool_decide (fqName d ∉ names p) then Ret (tt, mk_registry (fqName d :: names p) (log p))
    else Panic "duplicate metrics collector registration attempted";
  WithLabelValues d vs x := λ p, if bool_decide (length vs = length (d_labels d)) then
      Ret (tt, mk_registry (names p) (log p ++ [(fqName d, vs, x)])%list) else Panic "inconsistent label cardinality";
}.
Definition has (p : registry) (n : string) : bool := bool_decide (n ∈ names p).
Definition series (p : registry) (n : string) (ws : list string) : list sample :=
  omap (λ '(m, vs, x), if bool_decide (n = m ∧ ws = vs) then Some x else None) (log p).
#[export] Instance prometheus_spec : PrometheusSpec registry has series (λ _, True).
Proof.
  split.
  - intros d p Hw Hr. unfold has in *. cbn. rewrite Hw. rewrite bool_decide_eq_false in Hr.
    rewrite bool_decide_eq_true_2 by done. eexists. split; [done|]. split; [done|]. intros n. cbn.
    destruct (String.eqb_spec n (fqName d)) as [->|Hne]; [by rewrite bool_decide_eq_true_2 by left|].
    apply bool_decide_ext. rewrite elem_of_cons. naive_solver.
  - intros d vs x p _ Hl _. cbn. rewrite bool_decide_eq_true_2 by done. eexists. split; [done|]. split; [done|].
    intros n ws. unfold series. cbn [log]. rewrite omap_app. f_equal. cbn. by case_bool_decide.
  - intros d vs x p Hl. eexists. cbn. by rewrite bool_decide_eq_false_2.
Qed.

Definition refused : call := RequestCall (RPCError None "node" "eth_sendRawTransaction" (ERPC (mk_RPCErr (-32000) "Nonce too low" "" 0))).
End metrics_runs.
