(* ===== verification/Clients.v ===== *)
(** The clients that measure the calls they pass on: op-ufm/pkg/metrics/clients (eth.go, signer.go) and
    peer-mgmt-service/pkg/metrics/opp2p_client/opp2p.go. (That of op-conductor-mon is in Mon.v.)

    The call of the library that a method wraps is an argument of it: a function on the world that gives an error
    message or a result. The metrics are a registry beside the world. *)
From stdpp Require Import base numbers list strings.
From S2P Require Import Prelude.
From S2P Require Import GoFloat.
From S2P Require Import Rpc.
From S2P Require Import Metrics.

Local Open Scope string_scope.
Local Open Scope Z_scope.
#[local] Arguments String.append : simpl nomatch.

Class Clock (W : Type) := clock_Now : W → Z * W.

(** The messages of go-ethereum's errors. *)
Class EthErrors := { msg_NotFound : string; msg_AlreadyKnown : string; msg_NonceTooLow : string }.

Record measured (W P : Type) := mk_measured { m_world : W; m_registry : P }.
Arguments mk_measured {W P} _ _.
Arguments m_world {W P} _.
Arguments m_registry {W P} _.

Section clients.
Context {W P : Type} `{Clock W, Prometheus P, EthErrors}.
Notation C := (M (measured W P)).

Definition on_world {A} (f : W → A * W) : C A := λ s, let '(a, w) := f (m_world s) in Ret (a, mk_measured w (m_registry s)).
Definition on_registry (ops : list op) : C unit := λ s,
  match record ops (m_registry s) with Ret (_, p) => Ret (tt, mk_measured (m_world s) p) | Panic why => Panic why end.

(** The body of a method: the clock, the call, and the error or the latency. *)
Definition measure {A} (on_error : string → list op) (on_success : Z → list op) (call : W → (string + A) * W) : C (string + A) :=
  start ← on_world clock_Now;
  r ← on_world call;
  match r with
  | inl err => _ ← on_registry (on_error err); mret (inl err)
  | inr a => now ← on_world clock_Now; _ ← on_registry (on_success (now - start)); mret (inr a)
  end.

(** *** op-ufm: eth.go and signer.go *)

Definition ignorableErrors (msg : string) : bool :=
  String.eqb msg msg_NotFound || String.eqb msg msg_AlreadyKnown || String.eqb msg msg_NonceTooLow.

Definition ufm_measure {A} (ignoring : bool) (provider client method : string) : (W → (string + A) * W) → C (string + A) :=
  measure (λ err, if ignoring && ignorableErrors err then [] else record_ufm (UfmErrorDetails provider (client ++ "." ++ method) err))
    (λ latency, record_ufm (UfmRPCLatency provider client method latency)).

Definition eth_Dial {A} (provider : string) : (W → (string + A) * W) → C (string + A) := ufm_measure false provider "ethclient" "Dial".
Definition eth_TransactionByHash {A} (provider : string) : (W → (string + A) * W) → C (string + A) :=
  ufm_measure true provider "ethclient" "TransactionByHash".
Definition eth_PendingNonceAt {A} (provider : string) : (W → (string + A) * W) → C (string + A) :=
  ufm_measure false provider "ethclient" "PendingNonceAt".
Definition eth_TransactionReceipt {A} (provider : string) : (W → (string + A) * W) → C (string + A) :=
  ufm_measure true provider "ethclient" "TransactionReceipt".
Definition eth_SendTransaction {A} (provider : string) : (W → (string + A) * W) → C (string + A) :=
  ufm_measure true provider "ethclient" "SendTransaction".
Definition eth_EstimateGas {A} (provider : string) : (W → (string + A) * W) → C (string + A) :=
  ufm_measure false provider "ethclient" "EstimateGas".
Definition eth_SuggestGasTipCap {A} (provider : string) : (W → (string + A) * W) → C (string + A) :=
  ufm_measure false provider "ethclient" "SuggestGasTipCap".
Definition eth_HeaderByNumber {A} (provider : string) : (W → (string + A) * W) → C (string + A) :=
  ufm_measure false provider "ethclient" "HeaderByNumber".
Definition signer_NewSignerClient {A} (provider : string) : (W → (string + A) * W) → C (string + A) :=
  ufm_measure false provider "signer" "NewSignerClient".
Definition signer_SignTransaction {A} (provider : string) : (W → (string + A) * W) → C (string + A) :=
  ufm_measure false provider "signer" "SignTransaction".

(** *** peer-mgmt-service: opp2p.go *)

Definition pms_measure {A} (network node method : string) : (W → (string + A) * W) → C (string + A) :=
  measure (λ err, record_pms (NetworkErrorDetails network node method err)) (λ latency, record_pms (PmsRPCLatency network node method latency)).

(** Making the client is not timed, and its error is told with the node. *)
Definition opp2p_New {A} (network nodeName rpcUrl : string) (dial : W → (string + A) * W) : C (string + A) :=
  r ← on_world dial;
  match r with
  | inl err =>
      _ ← on_registry (record_pms (NetworkErrorDetails network nodeName "opp2p.New" err));
      mret (inl ("failed to create p2p rpc client with network [" ++ network ++ "], nodeName [" ++ nodeName ++ "], rpcUrl [" ++ rpcUrl ++ "]: " ++ err))
  | inr c => mret (inr c)
  end.
Definition opp2p_Self {A} (network node : string) : (W → (string + A) * W) → C (string + A) := pms_measure network node "opp2p.Self".
Definition opp2p_Peers {A} (network node : string) : (W → (string + A) * W) → C (string + A) := pms_measure network node "opp2p.Peers".
Definition opp2p_PeerStats {A} (network node : string) : (W → (string + A) * W) → C (string + A) := pms_measure network node "opp2p.PeerStats".
Definition opp2p_ConnectPeer {A} (network node : string) : (W → (string + A) * W) → C (string + A) := pms_measure network node "opp2p.ConnectPeer".
Definition opp2p_DisconnectPeer {A} (network node : string) : (W → (string + A) * W) → C (string + A) := pms_measure network node "opp2p.DisconnectPeer".
Definition opp2p_UnblockPeer {A} (network node : string) : (W → (string + A) * W) → C (string + A) := pms_measure network node "opp2p.UnblockPeer".
Definition opp2p_ProtectPeer {A} (network node : string) : (W → (string + A) * W) → C (string + A) := pms_measure network node "opp2p.ProtectPeer".
Definition opp2p_UnprotectPeer {A} (network node : string) : (W → (string + A) * W) → C (string + A) := pms_measure network node "opp2p.UnprotectPeer".
End clients.

(** ** What the methods do *)

Inductive ufm_method := Dial | TransactionByHash | PendingNonceAt | TransactionReceipt | SendTransaction | EstimateGas
| SuggestGasTipCap | HeaderByNumber | NewSignerClient | SignTransaction.
Inductive pms_method := Self | Peers | PeerStats | ConnectPeer | DisconnectPeer | UnblockPeer | ProtectPeer | UnprotectPeer.
Inductive method := UfmMethod (provider : string) (m : ufm_method) | PmsMethod (network node : string) (m : pms_method).

Section methods.
Context {W P : Type} `{Clock W, Prometheus P, EthErrors}.

Definition invoke {A} (m : method) : (W → (string + A) * W) → M (measured W P) (string + A) :=
  match m with
  | UfmMethod p Dial => eth_Dial p | UfmMethod p TransactionByHash => eth_TransactionByHash p
  | UfmMethod p PendingNonceAt => eth_PendingNonceAt p | UfmMethod p TransactionReceipt => eth_TransactionReceipt p
  | UfmMethod p SendTransaction => eth_SendTransaction p | UfmMethod p EstimateGas => eth_EstimateGas p
  | UfmMethod p SuggestGasTipCap => eth_SuggestGasTipCap p | UfmMethod p HeaderByNumber => eth_HeaderByNumber p
  | UfmMethod p NewSignerClient => signer_NewSignerClient p | UfmMethod p SignTransaction => signer_SignTransaction p
  | PmsMethod nw n Self => opp2p_Self nw n | PmsMethod nw n Peers => opp2p_Peers nw n | PmsMethod nw n PeerStats => opp2p_PeerStats nw n
  | PmsMethod nw n ConnectPeer => opp2p_ConnectPeer nw n | PmsMethod nw n DisconnectPeer => opp2p_DisconnectPeer nw n
  | PmsMethod nw n UnblockPeer => opp2p_UnblockPeer nw n | PmsMethod nw n ProtectPeer => opp2p_ProtectPeer nw n
  | PmsMethod nw n UnprotectPeer => opp2p_UnprotectPeer nw n
  end.

(** The name a method is measured under, and the errors it does not count. *)
Definition ufm_name (m : ufm_method) : string * string :=
  match m with
  | Dial => ("ethclient", "Dial") | TransactionByHash => ("ethclient", "TransactionByHash") | PendingNonceAt => ("ethclient", "PendingNonceAt")
  | TransactionReceipt => ("ethclient", "TransactionReceipt") | SendTransaction => ("ethclient", "SendTransaction")
  | EstimateGas => ("ethclient", "EstimateGas") | SuggestGasTipCap => ("ethclient", "SuggestGasTipCap")
  | HeaderByNumber => ("ethclient", "HeaderByNumber") | NewSignerClient => ("signer", "NewSignerClient") | SignTransaction => ("signer", "SignTransaction")
  end.
Definition pms_name (m : pms_method) : string :=
  match m with
  | Self => "opp2p.Self" | Peers => "opp2p.Peers" | PeerStats => "opp2p.PeerStats" | ConnectPeer => "opp2p.ConnectPeer"
  | DisconnectPeer => "opp2p.DisconnectPeer" | UnblockPeer => "opp2p.UnblockPeer" | ProtectPeer => "opp2p.ProtectPeer"
  | UnprotectPeer => "opp2p.UnprotectPeer"
  end.
Definition uncounted (m : method) (err : string) : bool :=
  match m with
  | UfmMethod _ (TransactionByHash | TransactionReceipt | SendTransaction) => bool_decide (err ∈ [msg_NotFound; msg_AlreadyKnown; msg_NonceTooLow])
  | _ => false
  end.
Definition error_call (m : method) (err : string) : Metrics.call :=
  match m with
  | UfmMethod p m => UfmCall (UfmErrorDetails p ((ufm_name m).1 ++ "." ++ (ufm_name m).2) err)
  | PmsMethod nw n m => PmsCall (NetworkErrorDetails nw n (pms_name m) err)
  end.
Definition latency_call (m : method) (latency : Z) : Metrics.call :=
  match m with
  | UfmMethod p m => UfmCall (UfmRPCLatency p (ufm_name m).1 (ufm_name m).2 latency)
  | PmsMethod nw n m => PmsCall (PmsRPCLatency nw n (pms_name m) latency)
  end.
Definition owner (m : method) : program := match m with UfmMethod _ _ => Monitor | PmsMethod _ _ _ => PeerMgmt end.
Definition error_ops (m : method) (err : string) : list op := if uncounted m err then [] else ops_of (error_call m err).

Lemma uncounted_ignorable err : bool_decide (err ∈ [msg_NotFound; msg_AlreadyKnown; msg_NonceTooLow]) = ignorableErrors err.
Proof.
  unfold ignorableErrors. apply eq_true_iff_eq. rewrite bool_decide_eq_true, !orb_true_iff, !String.eqb_eq, !elem_of_cons, elem_of_nil. tauto.
Qed.

Lemma measure_ext {A} f g h (call : W → (string + A) * W) s : (∀ err, f err = g err) →
  measure (P := P) f h call s = measure g h call s.
Proof.
  intros Hfg. unfold measure. rewrite !M_bind_eq. destruct (on_world _ s) as [[start s1]|]; [|done]. rewrite !M_bind_eq.
  destruct (on_world call s1) as [[[err|a] s2]|]; [by rewrite Hfg|done..].
Qed.

(** The two ways through the body. *)
Lemma measure_error {A} f h (call : W → (string + A) * W) w start w1 err w2 p : clock_Now w = (start, w1) → call w1 = (inl err, w2) →
  measure (P := P) f h call (mk_measured w p) = (on_registry (f err) ≫= λ _, mret (inl err)) (mk_measured w2 p).
Proof. intros E1 E2. unfold measure. rewrite M_bind_eq. unfold on_world at 1. cbn. rewrite E1, M_bind_eq. unfold on_world at 1. cbn. by rewrite E2. Qed.
Lemma measure_success {A} f h (call : W → (string + A) * W) w start w1 a w2 now w3 p :
  clock_Now w = (start, w1) → call w1 = (inr a, w2) → clock_Now w2 = (now, w3) →
  measure (P := P) f h call (mk_measured w p) = (on_registry (h (now - start)) ≫= λ _, mret (inr a)) (mk_measured w3 p).
Proof.
  intros E1 E2 E3. unfold measure. rewrite M_bind_eq. unfold on_world at 1. cbn. rewrite E1, M_bind_eq. unfold on_world at 1. cbn.
  rewrite E2, M_bind_eq. unfold on_world. cbn. by rewrite E3.
Qed.

(** Every method is the one body, with its own labels. *)
Lemma invoke_measure {A} m (call : W → (string + A) * W) s :
  invoke m call s = measure (error_ops m) (λ latency, ops_of (latency_call m latency)) call s.
Proof.
  destruct m as [p m|nw n m]; destruct m; try reflexivity; apply measure_ext; intros err; unfold error_ops, uncounted;
    by rewrite uncounted_ignorable.
Qed.
End methods.

Section transparent.
Context {W P A : Type} `{Clock W, Prometheus P, EthErrors} {registered : P → string → bool}
  {history : P → string → list string → list sample} {utf8 : string → Prop} `{!PrometheusSpec P registered history utf8}.

(** The registry of the program of a method. *)
Definition ready (m : method) (p : P) : Prop := ∀ d, d ∈ metrics_of (owner m) → registered p (fqName d) = true.

(** What a recorded call leaves of the series. *)
Definition grown (p p' : P) (ops : list op) : Prop := ∀ n ws, history p' n ws = (history p n ws ++ samples n ws ops)%list.

Lemma on_registry_run m c s : program_of c = owner m → miscounted c = false → ready m (m_registry s) → Forall (λ o : op, Forall utf8 o.1.2) (ops_of c) →
  ∃ p, on_registry (W := W) (ops_of c) s = Ret (tt, mk_measured (m_world s) p) ∧ grown (m_registry s) p (ops_of c).
Proof.
  intros Hc Hm Hr Hu. destruct (record_run (history := history) (utf8 := utf8) (registered := registered) (ops_of c) (m_registry s)) as (p & E & Hh);
    [|by apply calls_fit|done|exists p; split; [by unfold on_registry; rewrite E|done]].
  apply Forall_forall. intros o Ho. apply Hr. rewrite <- Hc. by apply (proj1 (Forall_forall _ _) (calls_known c)).
Qed.
End transparent.

(** C33: a method of a measuring client gives what the library gave, which is called once, between two readings of
    the clock on success; to the metrics it adds the latency of a success or the count of an error under its name and nothing else, and
    nothing at all for the errors that are part of the normal course. *)
Theorem calls_measured {W P A} `{Clock W, Prometheus P, EthErrors} {registered : P → string → bool}
    {history : P → string → list string → list sample} {utf8 : string → Prop} `{!PrometheusSpec P registered history utf8}
    (m : method) (call : W → (string + A) * W) (s : measured W P) :
  ready (registered := registered) m (m_registry s) →
  (∀ err, Forall (λ o : op, Forall utf8 o.1.2) (ops_of (error_call m err))) →
  (∀ latency, Forall (λ o : op, Forall utf8 o.1.2) (ops_of (latency_call m latency))) →
  let '(start, w1) := clock_Now (m_world s) in
  let '(r, w2) := call w1 in
  ∃ p, match r with
    | inl err => invoke m call s = Ret (r, mk_measured w2 p) ∧ grown (history := history) (m_registry s) p (error_ops m err)
    | inr _ => let '(now, w3) := clock_Now w2 in
        invoke m call s = Ret (r, mk_measured w3 p) ∧ grown (history := history) (m_registry s) p (ops_of (latency_call m (now - start)))
    end.
Proof.
  intros Hr He Hl. destruct s as [w p0]. pose proof (λ call, invoke_measure (A := A) m call (mk_measured w p0)) as Hi.
  cbn [m_world m_registry] in *. destruct (clock_Now w) as [start w1] eqn:E1. destruct (call w1) as [[err|a] w2] eqn:E2.
  - destruct (uncounted m err) eqn:Hun.
    + exists p0. rewrite Hi, (measure_error _ _ _ w start w1 err w2) by done. unfold error_ops. rewrite Hun. split; [done|]. intros n ws. by rewrite app_nil_r.
    + destruct (on_registry_run m (error_call m err) (mk_measured w2 p0)) as (p & E & Hp); [by destruct m as [? []|? ? []]..|done|done|].
      exists p. rewrite Hi, (measure_error _ _ _ w start w1 err w2) by done. unfold error_ops. rewrite Hun. by rewrite M_bind_eq, E.
  - destruct (clock_Now w2) as [now w3] eqn:E3.
    destruct (on_registry_run m (latency_call m (now - start)) (mk_measured w3 p0)) as (p & E & Hp); [by destruct m as [? []|? ? []]..|done|done|].
    exists p. rewrite Hi, (measure_success _ _ _ w start w1 a w2 now w3) by done. by rewrite M_bind_eq, E.
Qed.

(** An error of sending that is not retried is counted by the client and once more, in the same series, by the round
    trip (op-ufm/pkg/provider/roundtrip.go), which records the details again. *)
Lemma send_error_counted_twice `{EthErrors} p err : uncounted (UfmMethod p SendTransaction) err = false →
  samples "ufm_errors_total" [p; "ethclient.SendTransaction." ++ error_label err]
    (error_ops (UfmMethod p SendTransaction) err ++ record_ufm (UfmErrorDetails p "ethclient.SendTransaction" err))%list = [Inc; Inc].
Proof. intros Hu. unfold error_ops. rewrite Hu. cbn. by rewrite !bool_decide_eq_true_2. Qed.

Module client_runs.
Import metrics_runs.
#[export] Instance clock : Clock Z := λ t, (t, t + Millisecond).
#[export] Instance errors : EthErrors := {| msg_NotFound := "not found"; msg_AlreadyKnown := "already known"; msg_NonceTooLow := "nonce too low" |}.
Definition reg : metrics_runs.registry := metrics_runs.mk_registry (fqName <$> ufm_metrics) [].
Definition missing (t : Z) : (string + Z) * Z := (inl "not found", t).

(** A transaction that a provider does not know is no error of the provider. *)
Lemma calls_measured_witness : ∃ p, invoke (UfmMethod "a" TransactionByHash) missing (mk_measured 0 reg) = Ret (inl "not found", mk_measured Millisecond p) ∧
  metrics_runs.series p "ufm_errors_total" ["a"; "ethclient.TransactionByHash.not_found"] = [].
Proof.
  destruct (calls_measured (registered := metrics_runs.has) (history := metrics_runs.series) (utf8 := λ _, True)
    (UfmMethod "a" TransactionByHash) missing (mk_measured 0 reg)) as (p & E & Hp).
  - intros d Hd. apply bool_decide_eq_true_2. by apply list_elem_of_fmap_2.
  - intros err. by repeat constructor.
  - intros latency. by repeat constructor.
  - exists p. split; [exact E|]. rewrite Hp. vm_compute. reflexivity.
Defined.
End client_runs.
