(* ===== verification/Services.v ===== *)
(** The HTTP servers of the programs from start to shutdown: pkg/service (healthz_server.go, metrics_server.go,
    service.go) of op-ufm, op-conductor-mon and peer-mgmt-service, service of op-nat, and proxyd/server.go
    (RPCListenAndServe, WSListenAndServe, Shutdown) with the end of proxyd/proxyd.go.

    A server is started in a goroutine, which first makes it and stores it in a field, and then listens; the main
    goroutine shuts it down through that field. The steps of the goroutines interleave. net/http is modelled as its
    documentation says: Shutdown closes the listener, and a server that is shut down does not listen again. *)
From stdpp Require Import base numbers list relations strings.
From S2P Require Import Prelude.

Local Open Scope string_scope.

Inductive prog := OpUfm | OpConductorMon | PeerMgmtService | OpNat | Proxyd.
Inductive server := HealthzServer | MetricsServer | RPCServer | WSServer.
#[export] Instance server_eq_dec : EqDecision server.
Proof. solve_decision. Defined.
#[export] Instance prog_eq_dec : EqDecision prog.
Proof. solve_decision. Defined.

Inductive goroutine := NotSpawned | Spawned | Made | Listening | Returned.
(** The field of the server, whether the server it holds is shut down, and the goroutine that runs it. *)
Record slot := mk_slot { field : bool; closed : bool; status : goroutine }.

(** Start of a server, up to its ListenAndServe. *)
Definition make_server (x : slot) : slot := mk_slot true (closed x) Made.
(** ListenAndServe; it returns at once when the address cannot be used or the server is shut down. *)
Definition ListenAndServe (usable : bool) (x : slot) : slot :=
  mk_slot (field x) (closed x) (if closed x || negb usable then Returned else Listening).
(** http.Server.Shutdown *)
Definition http_Shutdown (x : slot) : slot :=
  mk_slot (field x) true (match status x with Listening => Returned | st => st end).
(** HealthzServer.Shutdown and MetricsServer.Shutdown use the field as it is; that of proxyd asks whether it is nil. *)
Definition server_Shutdown (p : prog) (x : slot) : go slot :=
  if field x then Ret (http_Shutdown x)
  else if decide (p = Proxyd) then Ret x else Panic "invalid memory address or nil pointer dereference".

Inductive phase := Fresh | Running | Stopping (todo : list server) | Stopped | Crashed.
(** The workers are the providers, pollers and networks that tick. *)
Record service := mk_service { slots : server → slot; workers : bool; main : phase }.

Definition servers_of (p : prog) : list server :=
  match p with Proxyd => [RPCServer; WSServer] | _ => [HealthzServer; MetricsServer] end.
(** Which of its servers a program runs; op-nat has no switch for them. *)
Definition enabled (p : prog) (cfg : server → bool) (k : server) : bool :=
  bool_decide (k ∈ servers_of p) && match p with OpNat => true | _ => cfg k end.

Definition service_New : service := mk_service (λ _, mk_slot false false NotSpawned) false Fresh.
Definition set_slot (k : server) (x : slot) (s : service) : service :=
  mk_service (λ j, if decide (j = k) then x else slots s j) (workers s) (main s).
Definition set_main (m : phase) (s : service) : service := mk_service (slots s) (workers s) m.

(** A goroutine that is to run a server. *)
Definition spawn (on : bool) (k : server) (s : service) : service :=
  if on then set_slot k (mk_slot (field (slots s k)) (closed (slots s k)) Spawned) s else s.
Definition start_workers (s : service) : service := mk_service (slots s) true (main s).

(** Service.Start of each program; proxyd starts its listeners at the end of Start. *)
Definition ufm_Start (cfg : server → bool) (s : service) : service :=
  start_workers (spawn (cfg MetricsServer) MetricsServer (spawn (cfg HealthzServer) HealthzServer s)).
Definition mon_Start (cfg : server → bool) (s : service) : service :=
  start_workers (spawn (cfg MetricsServer) MetricsServer (spawn (cfg HealthzServer) HealthzServer s)).
Definition pms_Start (cfg : server → bool) (s : service) : service :=
  start_workers (spawn (cfg MetricsServer) MetricsServer (spawn (cfg HealthzServer) HealthzServer s)).
Definition nat_Start (s : service) : service := spawn true MetricsServer (spawn true HealthzServer s).
Definition proxyd_listen (cfg : server → bool) (s : service) : service :=
  start_workers (spawn (cfg WSServer) WSServer (spawn (cfg RPCServer) RPCServer s)).
Definition service_Start (p : prog) (cfg : server → bool) (s : service) : service :=
  set_main Running (match p with
    | OpUfm => ufm_Start cfg s | OpConductorMon => mon_Start cfg s | PeerMgmtService => pms_Start cfg s | OpNat => nat_Start s
    | Proxyd => proxyd_listen cfg s
    end).

(** The servers that Shutdown of each program goes through, one after the other. *)
Definition on_list (cfg : server → bool) (l : list server) : list server := filter (λ k, cfg k = true) l.
Definition ufm_Shutdown (cfg : server → bool) : list server := on_list cfg [HealthzServer; MetricsServer].
Definition mon_Shutdown (cfg : server → bool) : list server := on_list cfg [HealthzServer; MetricsServer].
Definition pms_Shutdown (cfg : server → bool) : list server := on_list cfg [HealthzServer; MetricsServer].
Definition nat_Shutdown : list server := [HealthzServer; MetricsServer].
Definition proxyd_Shutdown : list server := [RPCServer; WSServer].
Definition to_stop (p : prog) (cfg : server → bool) : list server :=
  match p with
  | OpUfm => ufm_Shutdown cfg | OpConductorMon => mon_Shutdown cfg | PeerMgmtService => pms_Shutdown cfg | OpNat => nat_Shutdown
  | Proxyd => proxyd_Shutdown
  end.
(** Only op-ufm and proxyd keep what they need to end their workers. *)
Definition ends_workers (p : prog) : bool := match p with OpUfm | Proxyd => true | _ => false end.

Definition stopping (s : service) : bool := match main s with Stopping _ => true | _ => false end.

Inductive step (p : prog) (cfg : server → bool) : service → service → Prop :=
| step_start s : main s = Fresh → step p cfg s (service_Start p cfg s)
| step_make s k : status (slots s k) = Spawned → (p = Proxyd → stopping s = false) →
    step p cfg s (set_slot k (make_server (slots s k)) s)
| step_listen s k usable : status (slots s k) = Made → step p cfg s (set_slot k (ListenAndServe usable (slots s k)) s)
| step_shutdown s : main s = Running → step p cfg s (set_main (Stopping (to_stop p cfg)) s)
| step_stop s k l x : main s = Stopping (k :: l) → server_Shutdown p (slots s k) = Ret x →
    step p cfg s (set_main (Stopping l) (set_slot k x s))
| step_crash s k l why : main s = Stopping (k :: l) → server_Shutdown p (slots s k) = Panic why →
    step p cfg s (set_main Crashed s)
| step_stopped s : main s = Stopping [] →
    step p cfg s (mk_service (slots s) (if ends_workers p then false else workers s) Stopped).

(** ** What holds in every state *)

Lemma start_slots p cfg s k : slots (service_Start p cfg s) k =
  if enabled p cfg k then mk_slot (field (slots s k)) (closed (slots s k)) Spawned else slots s k.
Proof.
  unfold enabled. destruct p, k; cbn; try done; by repeat destruct (cfg _).
Qed.
Lemma start_workers_on p cfg s : p ≠ OpNat → workers (service_Start p cfg s) = true.
Proof. by destruct p. Qed.

(** A server was made by its goroutine, which runs only if it is enabled. *)
Record slot_ok (on : bool) (x : slot) : Prop := mk_slot_ok {
  ok_spawned : on = false → status x = NotSpawned;
  ok_made : status x ∈ [Made; Listening; Returned] → field x = true;
  ok_closed : closed x = true → field x = true ∧ status x ≠ Listening;
}.
Record service_ok (p : prog) (cfg : server → bool) (s : service) : Prop := mk_service_ok {
  ok_slots k : slot_ok (enabled p cfg k) (slots s k);
  ok_fresh : main s = Fresh → ∀ k, status (slots s k) = NotSpawned;
  ok_workers : main s ≠ Fresh → ends_workers p = false → p ≠ OpNat → workers s = true;
  ok_stopped : main s = Stopped → ends_workers p = true → workers s = false;
}.

Lemma make_server_ok x : status x = Spawned → slot_ok true x → slot_ok true (make_server x).
Proof. intros Hs [H1 H2 H3]. split; cbn; [done|done|]. intros Hc. by split. Qed.
Lemma listen_ok on usable x : status x = Made → slot_ok on x → slot_ok on (ListenAndServe usable x).
Proof.
  intros Hs [H1 H2 H3]. assert (field x = true) as Hf by (apply H2; rewrite Hs; left). split; cbn; [intros Ho; by specialize (H1 Ho); rewrite Hs in H1|done|].
  intros ->. by split.
Qed.
Lemma shutdown_ok p on x y : slot_ok on x → server_Shutdown p x = Ret y → slot_ok on y ∧ (field x = true → closed y = true) ∧ (p ≠ Proxyd → field x = true).
Proof.
  intros [H1 H2 H3]. unfold server_Shutdown. destruct (field x) eqn:Hf.
  - injection 1 as <-. split; [|done]. split; cbn; [by intros Ho; rewrite (H1 Ho)|done|]. intros _. split; [done|by destruct (status x)].
  - destruct (decide (p = Proxyd)); [|done]. injection 1 as <-. split; [by split; rewrite ?Hf|done].
Qed.

Lemma service_ok_step p cfg s s' : service_ok p cfg s → step p cfg s s' → service_ok p cfg s'.
Proof.
  intros [Hs Hf Hw He] Hstep. assert (∀ k, status (slots s k) ≠ NotSpawned → enabled p cfg k = true) as Hon.
  { intros k Hk. destruct (enabled p cfg k) eqn:E; [done|]. by destruct Hk, (ok_spawned _ _ (Hs k)). }
  inversion Hstep as [s1 E|s1 k E|s1 k usable E|s1 E|s1 k l x E Ex|s1 k l why E Ex|s1 E]; subst;
    [split; [intros j; rewrite start_slots| | |]|split; cbn; [intros j| |..]..].
  - destruct (enabled p cfg j) eqn:Ej; [|rewrite <- Ej; apply Hs].
    pose proof (Hs j) as [? H2 H3]. split; cbn; [done|by rewrite !elem_of_cons, elem_of_nil; naive_solver|naive_solver].
  - done.
  - intros _ _ Hp. by apply start_workers_on.
  - done.
  - destruct (decide (j = k)) as [->|]; [|apply Hs]. rewrite Hon by congruence. apply make_server_ok; [done|]. rewrite <- (Hon k) by congruence. apply Hs.
  - intros Hm. by rewrite (Hf Hm) in E.
  - exact Hw.
  - exact He.
  - destruct (decide (j = k)) as [->|]; [|apply Hs]. by apply listen_ok.
  - intros Hm. by rewrite (Hf Hm) in E.
  - exact Hw.
  - exact He.
  - apply Hs.
  - done.
  - intros _. apply Hw. congruence.
  - done.
  - destruct (decide (j = k)) as [->|]; [|apply Hs]. by eapply shutdown_ok.
  - done.
  - intros _. apply Hw. congruence.
  - done.
  - apply Hs.
  - done.
  - intros _. apply Hw. congruence.
  - done.
  - apply Hs.
  - done.
  - intros _ Hn. rewrite Hn. apply Hw; congruence.
  - intros _ ->. done.
Qed.

Lemma service_ok_reachable p cfg s : rtc (step p cfg) service_New s → service_ok p cfg s.
Proof.
  intros Hr. remember service_New as s0 eqn:E0. assert (service_ok p cfg s0) as H0.
  { subst. split; [intros k; split; cbn; [done| |done]; rewrite !elem_of_cons, elem_of_nil; naive_solver|done..]. }
  clear E0. induction Hr as [|s1 s2 s3 Hs Hr IH]; [done|]. apply IH. by eapply service_ok_step.
Qed.

(** ** Shutdown *)

(** The servers of proxyd are made before it is told to stop; the other programs crash otherwise. *)
Definition prepared (p : prog) (cfg : server → bool) (s : service) : Prop :=
  p = Proxyd → ∀ k, enabled p cfg k = true → field (slots s k) = true.
(** A server whose turn has passed is shut down. *)
Definition passed (p : prog) (cfg : server → bool) (s : service) : Prop :=
  match main s with
  | Stopping l => ∀ k, enabled p cfg k = true → k ∈ l ∨ closed (slots s k) = true
  | Stopped => ∀ k, enabled p cfg k = true → closed (slots s k) = true
  | _ => True
  end.

Lemma enabled_to_stop p cfg k : enabled p cfg k = true → k ∈ to_stop p cfg.
Proof.
  intros He. pose proof (proj1 (andb_true_iff _ _) He) as [Hk%bool_decide_eq_true_1 _].
  destruct p; cbn [to_stop]; try exact Hk; (apply list_elem_of_filter; split; [|exact Hk]); by apply andb_true_iff in He as [_ He].
Qed.

Lemma set_slot_closed k x s j : closed x = closed (slots s k) → closed (slots (set_slot k x s) j) = closed (slots s j).
Proof. intros Hx. cbn. by destruct (decide (j = k)) as [->|]. Qed.
Lemma passed_set_slot p cfg k x s : closed x = closed (slots s k) → passed p cfg s → passed p cfg (set_slot k x s).
Proof.
  intros Hx. unfold passed. cbn [main set_slot]. destruct (main s); try done; intros Hp j Hj; rewrite set_slot_closed by done; by apply Hp.
Qed.
Lemma prepared_set_slot p cfg k x s : (field (slots s k) = true → field x = true) → prepared p cfg s → prepared p cfg (set_slot k x s).
Proof. intros Hx Hp E j Hj. cbn. destruct (decide (j = k)) as [->|]; [by apply Hx, Hp|by apply Hp]. Qed.

Lemma passed_step p cfg s s' : service_ok p cfg s → prepared p cfg s → passed p cfg s → step p cfg s s' → prepared p cfg s' ∧ passed p cfg s'.
Proof.
  intros Hok Hprep Hpass Hstep.
  inversion Hstep as [s1 E|s1 k E|s1 k usable E|s1 E|s1 k l x E Ex|s1 k l why E Ex|s1 E]; subst.
  - split; [|done]. intros Ep k Hk. rewrite start_slots, Hk. by apply Hprep.
  - split; [by apply prepared_set_slot|by apply passed_set_slot].
  - split; [by apply prepared_set_slot|by apply passed_set_slot].
  - split; [exact Hprep|]. intros k Hk. left. by apply enabled_to_stop.
  - destruct (shutdown_ok p (enabled p cfg k) (slots s k) x (ok_slots _ _ _ Hok k) Ex) as ([_ _ Hc] & Hclosed & Hfield).
    split; [apply (prepared_set_slot p cfg k x s); [intros Hf; by apply Hc, Hclosed|done]|].
    intros j Hj. unfold passed in Hpass. rewrite E in Hpass. cbn. destruct (decide (j = k)) as [->|Hne].
    + right. apply Hclosed. destruct (decide (p = Proxyd)) as [Ep|Ep]; [by apply Hprep|by apply Hfield].
    + destruct (Hpass j Hj) as [[->|Hin]%elem_of_cons|Hcl]; [done|by left|by right].
  - by split.
  - split; [exact Hprep|]. intros k Hk. unfold passed in Hpass. rewrite E in Hpass. by destruct (Hpass k Hk) as [?%elem_of_nil|].
Qed.


(** The pollers of op-conductor-mon and the networks of peer-mgmt-service are not ended by a shutdown: nothing holds them. *)
Lemma pollers_outlive_shutdown p cfg s : p = OpConductorMon ∨ p = PeerMgmtService → rtc (step p cfg) service_New s → main s = Stopped → workers s = true.
Proof. intros Hp Hr%service_ok_reachable Hm. apply Hr; [by rewrite Hm|by destruct Hp as [-> | ->]..]. Qed.

Module service_runs.
Definition all (k : server) : bool := true.

Definition running : service := set_slot RPCServer (make_server (mk_slot false false Spawned))
  (set_slot WSServer (make_server (mk_slot false false Spawned)) (service_Start Proxyd all service_New)).
Definition down (s : service) : service :=
  mk_service (slots (set_slot WSServer (http_Shutdown (slots s WSServer)) (set_slot RPCServer (http_Shutdown (slots s RPCServer)) s))) false Stopped.

Lemma running_reachable : rtc (step Proxyd all) service_New running.
Proof.
  eapply rtc_l; [by apply (step_start Proxyd all service_New)|]. eapply rtc_l; [by apply (step_make Proxyd all _ WSServer)|].
  eapply rtc_l; [by apply (step_make Proxyd all _ RPCServer)|]. apply rtc_refl.
Qed.


(** A program that is stopped before the goroutine of its first server ran crashes. *)
Lemma early_shutdown_crashes p : p ≠ Proxyd → ∃ s, rtc (step p all) service_New s ∧ main s = Crashed.
Proof.
  intros Hp. eexists. split; [|shelve]. eapply rtc_l; [by apply (step_start p all service_New)|].
  eapply rtc_l; [by apply (step_shutdown p all)|]. eapply rtc_l; [|apply rtc_refl].
  eapply (step_crash p all _ HealthzServer [MetricsServer]); [by destruct p|]. unfold server_Shutdown. cbn.
  destruct p; try done. Unshelve. done.
Qed.

(** proxyd that is stopped before a goroutine made its server: it listens after the shutdown. *)
Lemma late_listener : ∃ s, rtc (step Proxyd all) service_New s ∧ main s = Stopped ∧ status (slots s RPCServer) = Listening.
Proof.
  eexists. split; [|shelve]. eapply rtc_l; [by apply (step_start Proxyd all service_New)|]. eapply rtc_l; [by apply (step_shutdown Proxyd all)|].
  eapply rtc_l; [by eapply (step_stop Proxyd all _ RPCServer [WSServer])|]. eapply rtc_l; [by eapply (step_stop Proxyd all _ WSServer [])|].
  eapply rtc_l; [by apply (step_stopped Proxyd all)|]. eapply rtc_l; [by apply (step_make Proxyd all _ RPCServer)|].
  eapply rtc_l; [by apply (step_listen Proxyd all _ RPCServer true)|]. apply rtc_refl. Unshelve. done.
Qed.
End service_runs.
