(* ===== verification/Schedule.v ===== *)
(** The goroutines that tick: [schedule] of op-ufm (pkg/provider/provider.go), op-conductor-mon (pkg/monitor/scheduler.go) and
    peer-mgmt-service (pkg/pms/scheduler.go), and the same loop in proxyd (PollerAsyncHandler.Init in consensus_poller.go and
    RedisConsensusTracker.Init in consensus_tracker.go), with the methods that start them and shut them down.

    A worker is an object that has started some of these loops under one context. Its goroutines interleave with each
    other, with the clock and with a shutdown. A timer fires when the clock has passed its instant; a select of which
    both channels are ready takes either. *)
From stdpp Require Import base numbers list relations strings.
From S2P Require Import Prelude.

Local Open Scope string_scope.
Local Open Scope Z_scope.

(** ** A loop *)

Inductive handler := Heartbeat | RoundTrip | Tick | UpdateBackend (be : string) | UpdateFallback (be : string) | UpdateGroup | StateHeartbeat.
#[export] Instance handler_eq_dec : EqDecision handler.
Proof. solve_decision. Defined.

(** Where the goroutine is: before the timer is made, before the handler is called, in the handler, at the select. *)
Inductive phase := Head | Timed (fire : Z) | Handling (fire : Z) | Waiting (fire : Z) | Ended.
(** A call of the handler. *)
Record run := mk_run { began : Z; ended : option Z }.
(** The runs, the last one first. *)
Record loop := mk_loop { calls : handler; interval : Z; at_ : phase; runs : list run }.

(** The next move of a goroutine, [None] when it has to wait or is over; [first] is what a select takes when both the
    timer and the context are ready. *)
Definition move (now : Z) (done first : bool) (l : loop) : option loop :=
  match at_ l with
  | Head => Some (mk_loop (calls l) (interval l) (Timed (now + interval l)) (runs l))
  | Timed fire => Some (mk_loop (calls l) (interval l) (Handling fire) (mk_run now None :: runs l))
  | Handling fire => Some (mk_loop (calls l) (interval l) (Waiting fire)
      (match runs l with [] => [] | r :: rs => mk_run (began r) (Some now) :: rs end))
  | Waiting fire =>
      if (fire <=? now) && negb (done && first) then Some (mk_loop (calls l) (interval l) Head (runs l))
      else if done then Some (mk_loop (calls l) (interval l) Ended (runs l)) else None
  | Ended => None
  end.

Definition schedule (interval : Z) (handler : handler) : loop := mk_loop handler interval Head [].

(** ** Workers *)

(** The cancel function and the context that it cancels; a tracker has the background context, which nothing cancels. *)
Record worker := mk_worker { clock : Z; cancelFunc : bool; cancelled : bool; loops : list loop }.

Definition worker_New (now : Z) : worker := mk_worker now false false [].
Definition started (ls : list loop) (w : worker) : worker := mk_worker (clock w) true (cancelled w) (loops w ++ ls).

Definition provider_Start (ReadInterval SendInterval : Z) (ReadOnly : bool) : worker → worker :=
  started (schedule ReadInterval Heartbeat :: if ReadOnly then [] else [schedule SendInterval RoundTrip]).
Definition poller_Start (PollInterval : Z) : worker → worker := started [schedule PollInterval Tick].
Definition network_Start (PollInterval : Z) : worker → worker := started [schedule PollInterval Tick].
(** PollerAsyncHandler.Init *)
Definition handler_Init (interval : Z) (Primaries Fallbacks : list string) : worker → worker :=
  started [schedule interval UpdateGroup] ∘
  started ((λ be, schedule interval (UpdateFallback be)) <$> Fallbacks) ∘
  started ((λ be, schedule interval (UpdateBackend be)) <$> Primaries).
(** RedisConsensusTracker.Init *)
Definition tracker_Init (heartbeatInterval : Z) (w : worker) : worker :=
  mk_worker (clock w) (cancelFunc w) (cancelled w) (loops w ++ [schedule heartbeatInterval StateHeartbeat]).

(** Provider.Shutdown, Poller.Shutdown, Network.Shutdown and PollerAsyncHandler.Shutdown. *)
Definition Shutdown (w : worker) : worker :=
  if cancelFunc w then mk_worker (clock w) true true (loops w) else w.

Inductive worker_step : worker → worker → Prop :=
| step_clock w dt : 0 ≤ dt → worker_step w (mk_worker (clock w + dt) (cancelFunc w) (cancelled w) (loops w))
| step_shut w : worker_step w (Shutdown w)
| step_move w i first l l' : loops w !! i = Some l → move (clock w) (cancelled w) first l = Some l' →
    worker_step w (mk_worker (clock w) (cancelFunc w) (cancelled w) (<[i := l']> (loops w))).

(** ** Pace *)

Definition count (l : loop) : Z := Z.of_nat (length (runs l)).

(** From the instant [b] on, the loop has come no further than one turn in every interval. *)
Definition paced (b now : Z) (l : loop) : Prop :=
  match at_ l with
  | Head => interval l * count l ≤ now - b
  | Timed fire => interval l * (count l + 1) ≤ Z.max fire now - b
  | Handling fire | Waiting fire => interval l * count l ≤ Z.max fire now - b
  | Ended => interval l * (count l - 1) ≤ now - b
  end.
(** A timer was made before, for an interval. *)
Definition armed (now : Z) (l : loop) : Prop :=
  match at_ l with Timed fire | Handling fire | Waiting fire => fire ≤ now + interval l | _ => True end.

(** The runs come one after the other; the last one is under way just when the goroutine is in the handler. *)
Fixpoint in_turn (before : Z) (rs : list run) : Prop :=
  match rs with
  | [] => True
  | r :: rs => began r ≤ before ∧ match ended r with Some e => began r ≤ e ≤ before | None => False end ∧ in_turn (began r) rs
  end.
Definition orderly (now : Z) (l : loop) : Prop :=
  match at_ l, runs l with
  | Handling _, r :: rs => began r ≤ now ∧ ended r = None ∧ in_turn (began r) rs
  | Handling _, [] => False
  | _, rs => in_turn now rs
  end.

Lemma in_turn_mono b b' rs : b ≤ b' → in_turn b rs → in_turn b' rs.
Proof. destruct rs as [|r rs]; [done|]. cbn. intros Hb (H1 & H2 & H3). split_and!; [lia| |done]. destruct (ended r); [lia|done]. Qed.

Lemma count_cons l ph r : count (mk_loop (calls l) (interval l) ph (r :: runs l)) = count l + 1.
Proof. unfold count. cbn [runs length]. lia. Qed.

Lemma paced_clock b now now' l : 0 ≤ interval l → now ≤ now' → paced b now l → paced b now' l.
Proof. unfold paced. intros Hd Hn. destruct (at_ l); lia. Qed.
Lemma paced_move b now done first l l' : 0 ≤ interval l → armed now l → paced b now l → move now done first l = Some l' → paced b now l'.
Proof.
  unfold paced, armed, move. intros Hd Ha Hp. destruct (at_ l) as [|fire|fire|fire|] eqn:Ea.
  - intros [= <-]. cbn. unfold count in *. cbn in *. lia.
  - intros [= <-]. cbn [at_ interval]. rewrite count_cons. lia.
  - intros [= <-]. cbn [at_ interval]. unfold count in *. cbn [runs]. by destruct (runs l).
  - destruct (Z.leb_spec fire now), done, first; cbn; intros [= <-]; cbn; unfold count in *; cbn in *; lia.
  - done.
Qed.

(** Every state is on pace from an interval for each of its runs, and one, before it. *)
Lemma paced_from now l : 0 ≤ interval l → armed now l → paced (now - interval l * (count l + 1)) now l.
Proof. unfold paced, armed. intros Hd Ha. destruct (at_ l); lia. Qed.
Lemma paced_count b now l : 0 ≤ interval l → armed now l → paced b now l → interval l * (count l - 1) ≤ now - b.
Proof. unfold paced, armed. intros Hd Ha Hp. destruct (at_ l); lia. Qed.

Lemma armed_clock now now' l : now ≤ now' → armed now l → armed now' l.
Proof. unfold armed. intros Hn. destruct (at_ l); lia. Qed.
Lemma armed_move now done first l l' : 0 ≤ interval l → armed now l → move now done first l = Some l' → armed now l'.
Proof.
  unfold armed, move. intros Hd Ha. destruct (at_ l) as [|fire|fire|fire|]; [intros [= <-]; cbn; lia..| |done].
  destruct (_ && _); [by intros [= <-]|]. destruct done; [|done]. by intros [= <-].
Qed.

Lemma orderly_clock now now' l : now ≤ now' → orderly now l → orderly now' l.
Proof.
  unfold orderly. intros Hn. destruct (at_ l); try by apply in_turn_mono.
  destruct (runs l); [done|]. intros (H1 & H2 & H3). split_and!; [lia|done..].
Qed.
Lemma orderly_move now done first l l' : orderly now l → move now done first l = Some l' → orderly now l'.
Proof.
  unfold orderly, move. destruct (at_ l) as [|fire|fire|fire|] eqn:Ea.
  - by intros Ho [= <-].
  - intros Ho [= <-]. cbn. split_and!; [lia|done..].
  - destruct (runs l) as [|r rs]; [done|]. intros (H1 & H2 & H3) [= <-]. cbn. split_and!; [done|lia..|done].
  - intros Ho. destruct (_ && _); [by intros [= <-]|]. destruct done; [|done]. by intros [= <-].
  - done.
Qed.

(** ** Workers over time *)

Definition sound (now : Z) (l : loop) : Prop := 0 ≤ interval l ∧ armed now l ∧ orderly now l.
Definition worker_ok (w : worker) : Prop := Forall (sound (clock w)) (loops w).

Lemma sound_clock now now' l : now ≤ now' → sound now l → sound now' l.
Proof. intros Hn (Hd & Ha & Ho). split_and!; [done|by eapply armed_clock|by eapply orderly_clock]. Qed.
Lemma move_same now done first l l' : move now done first l = Some l' → calls l' = calls l ∧ interval l' = interval l.
Proof.
  unfold move. destruct (at_ l) as [|fire|fire|fire|]; [by intros [= <-]..| |done].
  destruct (_ && _); [by intros [= <-]|]. destruct done; [|done]. by intros [= <-].
Qed.
Lemma sound_move now done first l l' : sound now l → move now done first l = Some l' → sound now l'.
Proof.
  intros (Hd & Ha & Ho) E. destruct (move_same _ _ _ _ _ E) as [_ Ei].
  split_and!; [by rewrite Ei|by eapply armed_move|by eapply orderly_move].
Qed.

(** What one loop is at the end of some steps. *)
Record later (now : Z) (l : loop) (now' : Z) (l' : loop) : Prop := mk_later {
  later_calls : calls l' = calls l;
  later_interval : interval l' = interval l;
  later_clock : now ≤ now';
  later_paced b : sound now l → paced b now l → paced b now' l';
  later_sound : sound now l → sound now' l';
  later_ended : at_ l = Ended → l' = l;
}.
Lemma later_refl now l : later now l now l.
Proof. by split. Qed.
Lemma later_trans t1 l1 t2 l2 t3 l3 : later t1 l1 t2 l2 → later t2 l2 t3 l3 → later t1 l1 t3 l3.
Proof.
  intros [c1 i1 k1 p1 s1 e1] [c2 i2 k2 p2 s2 e2]. split; [congruence|congruence|lia|auto|auto|].
  intros E. pose proof (e1 E) as ->. by apply e2.
Qed.
Lemma later_pass now now' l : now ≤ now' → later now l now' l.
Proof. intros Hn. split; [done..| | |done]; [intros b (Hd & _); by apply paced_clock|by apply sound_clock]. Qed.
Lemma later_move now done first l l' : move now done first l = Some l' → later now l now l'.
Proof.
  intros E. destruct (move_same _ _ _ _ _ E). split; [done..| | |].
  - intros b (Hd & Ha & _) Hp. by eapply paced_move.
  - intros Hs. by eapply sound_move.
  - intros Ea. unfold move in E. by rewrite Ea in E.
Qed.

(** The loops of a worker are the same ones, later. *)
Definition evolves (w w' : worker) : Prop :=
  clock w ≤ clock w' ∧ Forall2 (λ l l', later (clock w) l (clock w') l') (loops w) (loops w').

Lemma evolves_step w w' : worker_step w w' → evolves w w'.
Proof.
  assert (∀ w0 w1, loops w1 = loops w0 → clock w0 ≤ clock w1 → evolves w0 w1) as Hsame.
  { intros w0 w1 E Hc. split; [done|]. rewrite E. apply Forall_Forall2_diag, Forall_true. intros l. by apply later_pass. }
  intros [w0 dt Hdt|w0|w0 i first l l' Hl Em].
  - apply Hsame; cbn; [done|lia].
  - unfold Shutdown. destruct (cancelFunc w0) eqn:E; by apply Hsame.
  - split; [done|]. cbn. apply Forall2_same_length_lookup. split; [by rewrite length_insert|]. intros j x y Hx Hy.
    destruct (decide (i = j)) as [->|Hne].
    + rewrite list_lookup_insert_eq in Hy by (by eapply lookup_lt_Some). simplify_eq. by eapply later_move.
    + rewrite list_lookup_insert_ne in Hy by done. simplify_eq. apply later_refl.
Qed.
Lemma evolves_rtc w w' : rtc worker_step w w' → evolves w w'.
Proof.
  induction 1 as [w|w1 w2 w3 Hs _ [Hc Hf]].
  - split; [done|]. apply Forall_Forall2_diag, Forall_true. intros l. apply later_refl.
  - destruct (evolves_step _ _ Hs) as [Hc1 Hf1]. split; [lia|].
    apply Forall2_same_length_lookup. split; [by rewrite (Forall2_length _ _ _ Hf1), (Forall2_length _ _ _ Hf)|].
    intros i x z Hx Hz. destruct (Forall2_lookup_l _ _ _ _ _ Hf1 Hx) as (y & Hy & H1).
    destruct (Forall2_lookup_l _ _ _ _ _ Hf Hy) as (z' & Hz' & H2). simplify_eq. by eapply later_trans.
Qed.

(** The workers of the programs, just started. *)
Inductive begun : worker → Prop :=
| begun_provider t ReadInterval SendInterval ReadOnly : begun (provider_Start ReadInterval SendInterval ReadOnly (worker_New t))
| begun_poller t PollInterval : begun (poller_Start PollInterval (worker_New t))
| begun_network t PollInterval : begun (network_Start PollInterval (worker_New t))
| begun_handler t interval Primaries Fallbacks : begun (handler_Init interval Primaries Fallbacks (worker_New t))
| begun_tracker t interval : begun (tracker_Init interval (worker_New t)).

Lemma begun_fresh w l : begun w → l ∈ loops w → at_ l = Head ∧ runs l = [].
Proof.
  intros Hb Hl. destruct Hb; cbn in Hl.
  - destruct ReadOnly; set_solver.
  - set_solver.
  - set_solver.
  - apply elem_of_app in Hl as [[(be & -> & _)%list_elem_of_fmap|(be & -> & _)%list_elem_of_fmap]%elem_of_app| ->%list_elem_of_singleton]; done.
  - set_solver.
Qed.

(** What is known of a loop [l] of a worker that was started at [t0], which is [l'] later. *)
Record kept (t0 : Z) (w : worker) (l : loop) (w' : worker) (l' : loop) : Prop := mk_kept {
  (** no more runs than intervals since the start, and one *)
  kept_since_start : interval l * (count l - 1) ≤ clock w - t0;
  (** no more runs than the intervals that have passed in between, and two *)
  kept_between : interval l * (count l' - count l - 2) ≤ clock w' - clock w;
  kept_orderly : orderly (clock w) l;
  kept_ended : at_ l = Ended → l' = l;
  (** at the select, a context that is done ends it, at once when the timer has not fired *)
  kept_stop fire : at_ l = Waiting fire → cancelled w = true →
    (∃ first e, move (clock w) true first l = Some e ∧ at_ e = Ended) ∧
    (clock w < fire → ∀ first e, move (clock w) true first l = Some e → at_ e = Ended);
}.

(** C24: in every interleaving of the goroutines of a worker with the clock and a shutdown, each of the loops that its start made goes on
    calling its own handler, one call after the other, at most once in an interval, and one more, since the start, and never more
    than twice more often than intervals passed in between; one that has ended makes no more calls, and at its select a loop
    ends when the worker was shut down, unless its timer has fired as well. *)
Theorem ticks_paced w0 w w' : begun w0 → Forall (λ l, 0 ≤ interval l) (loops w0) → rtc worker_step w0 w → rtc worker_step w w' →
  calls <$> loops w' = calls <$> loops w0 ∧
  Forall2 (λ l l', kept (clock w0) w l w' l') (loops w) (loops w').
Proof.
  intros Hb Hd H1%evolves_rtc H2%evolves_rtc.
  assert (∀ x y, evolves x y → calls <$> loops y = calls <$> loops x) as Hcalls.
  { intros x y [_ Hf]. induction Hf as [|l l' ls ls' Hl _ IH]; [done|]. cbn. by rewrite IH, (later_calls _ _ _ _ Hl). }
  split; [by rewrite (Hcalls _ _ H2), (Hcalls _ _ H1)|]. destruct H1 as [_ H1], H2 as [_ H2].
  apply Forall2_same_length_lookup. split; [by apply (Forall2_length _ _ _ H2)|]. intros i l l' Hl Hl'.
  destruct (Forall2_lookup_r _ _ _ _ _ H1 Hl) as (l0 & Hl0 & L1). destruct (Forall2_lookup_l _ _ _ _ _ H2 Hl) as (z & Hz & L2).
  simplify_eq. destruct (begun_fresh w0 l0 Hb) as [Ea Er]; [by apply list_elem_of_lookup_2 in Hl0|].
  assert (sound (clock w0) l0) as S0.
  { split_and!; [exact (Forall_lookup_1 _ _ _ _ Hd Hl0)|unfold armed; by rewrite Ea|unfold orderly; by rewrite Ea, Er]. }
  assert (paced (clock w0) (clock w0) l0) as P0 by (unfold paced, count; rewrite Ea, Er; cbn; lia).
  pose proof (later_sound _ _ _ _ L1 S0) as S1. pose proof S1 as (D1 & A1 & O1). pose proof (later_paced _ _ _ _ L1 _ S0 P0) as P1.
  pose proof (later_sound _ _ _ _ L2 S1) as (D2 & A2 & _). split; [by apply paced_count| |done|by apply L2|].
  - pose proof (paced_count _ _ _ D2 A2 (later_paced _ _ _ _ L2 _ S1 (paced_from _ _ D1 A1))) as Hp.
    rewrite (later_interval _ _ _ _ L2) in Hp. lia.
  - intros fire Ew _. unfold move. rewrite Ew. split.
    + exists true. cbn. rewrite andb_false_r. by eexists.
    + intros Hf first e. destruct (Z.leb_spec fire (clock w)); [lia|]. by intros [= <-].
Qed.

(** Shutting down is remembered; before the start it does nothing. *)
Lemma cancelled_stays w w' : rtc worker_step w w' → cancelled w = true → cancelled w' = true.
Proof. induction 1 as [|w1 w2 w3 [| |] _ IH]; intros Hc; [done|..]; apply IH; try done. unfold Shutdown. by destruct (cancelFunc _). Qed.
Lemma shutdown_before_start t : Shutdown (worker_New t) = worker_New t.
Proof. done. Qed.

(** ** What a shutdown does not end *)

(** A tracker keeps the background context: it is never cancelled. *)
Lemma tracker_outlives_shutdown t interval w : rtc worker_step (tracker_Init interval (worker_New t)) w →
  cancelled w = false ∧ Forall (λ l, at_ l ≠ Ended) (loops w).
Proof.
  set (I := λ w : worker, cancelFunc w = false ∧ cancelled w = false ∧ Forall (λ l, at_ l ≠ Ended) (loops w)).
  assert (∀ w1 w2, worker_step w1 w2 → I w1 → I w2) as Hstep.
  { intros w1 w2 Hs (Hf & Hc & Hl). inversion Hs as [|w3|w3 i first l l' Hi Em]; subst; [done| |].
    - unfold Shutdown. by rewrite Hf.
    - split_and!; [done..|]. apply Forall_insert; [done|]. unfold move in Em. rewrite Hc in Em. cbn in Em.
      destruct (at_ l) as [|fire|fire|fire|]; [by injection Em as <-..| |done]. destruct (_ && _); [by injection Em as <-|done]. }
  intros Hr. enough (I w) as (_ & Hc & Hl) by done.
  assert (I (tracker_Init interval (worker_New t))) as H0 by (split_and!; [done..|by repeat constructor]).
  revert H0. generalize (tracker_Init interval (worker_New t)) Hr. clear Hr. intros w0 Hr. induction Hr; eauto.
Qed.

(** One turn of the loop of a worker that has one. *)
Definition with_loop (w : worker) (l : loop) : worker := mk_worker (clock w) (cancelFunc w) (cancelled w) [l].
Lemma turn_steps w l : loops w = [l] → at_ l = Head → 0 ≤ interval l → ∃ w' l', rtc worker_step w w' ∧ loops w' = [l'] ∧ at_ l' = Head ∧
  interval l' = interval l ∧ count l' = count l + 1 ∧ cancelled w' = cancelled w ∧ clock w' = clock w + interval l.
Proof.
  destruct w as [now cf c ls], l as [h d ph rs]. cbn. intros -> -> Hd.
  eexists. exists (mk_loop h d Head (mk_run now (Some now) :: rs)). split.
  - eapply rtc_l; [by eapply (step_move _ 0 false)|]. cbn. eapply rtc_l; [by eapply (step_move _ 0 false)|]. cbn.
    eapply rtc_l; [by eapply (step_move _ 0 false)|]. cbn. eapply rtc_l; [by apply (step_clock _ d)|]. cbn.
    eapply rtc_l; [eapply (step_move _ 0 false); [done|]|apply rtc_refl]. cbn. rewrite Z.leb_refl, andb_false_r. done.
  - cbn. split_and!; [done..| |done|done]. unfold count. cbn [runs length]. lia.
Qed.
Lemma turns_steps n w l : loops w = [l] → at_ l = Head → 0 ≤ interval l → ∃ w' l', rtc worker_step w w' ∧ loops w' = [l'] ∧
  count l' = count l + Z.of_nat n ∧ cancelled w' = cancelled w ∧ clock w' = clock w + Z.of_nat n * interval l.
Proof.
  revert w l. induction n as [|n IH]; intros w l El Ea Hd; [exists w, l; split_and!; [done..| |done|]; lia|].
  destruct (turn_steps w l El Ea Hd) as (w1 & l1 & R1 & E1 & A1 & I1 & C1 & K1 & T1).
  destruct (IH w1 l1 E1 A1) as (w2 & l2 & R2 & E2 & C2 & K2 & T2); [lia|]. exists w2, l2.
  split_and!; [by etrans|done|lia|congruence|lia].
Qed.

(** When the handler takes as long as the interval, a poller that was shut down may tick any number of times. *)
Lemma ticks_after_shutdown t interval n : 0 ≤ interval → ∃ w l, cancelled (Shutdown (poller_Start interval (worker_New t))) = true ∧
  rtc worker_step (Shutdown (poller_Start interval (worker_New t))) w ∧ loops w = [l] ∧ count l = Z.of_nat n.
Proof.
  intros Hd. destruct (turns_steps n (Shutdown (poller_Start interval (worker_New t))) (schedule interval Tick)) as (w & l & Hr & E & C & _); [done..|].
  by exists w, l.
Qed.

(** The poll interval is not validated: without one the ticks follow each other without a pause. *)
Lemma zero_interval_spins t n : ∃ w l, rtc worker_step (poller_Start 0 (worker_New t)) w ∧ loops w = [l] ∧ count l = Z.of_nat n ∧ clock w = t.
Proof.
  destruct (turns_steps n (poller_Start 0 (worker_New t)) (schedule 0 Tick)) as (w & l & Hr & E & C & _ & T); [done..|].
  exists w, l. split_and!; [done..|]. rewrite T. cbn. lia.
Qed.

Module schedule_runs.
(** A provider that reads every 10 and sends every 100: it has read once when it is shut down, and waits. *)
Definition provider : worker := provider_Start 10 100 false (worker_New 0).
Definition read_loop : loop := mk_loop Heartbeat 10 (Waiting 10) [mk_run 0 (Some 3)].
Definition waiting : worker := mk_worker 3 true true [read_loop; schedule 100 RoundTrip].
Definition stopped : worker := mk_worker 3 true true [mk_loop Heartbeat 10 Ended [mk_run 0 (Some 3)]; schedule 100 RoundTrip].

Lemma waiting_reachable : rtc worker_step provider waiting.
Proof.
  eapply rtc_l; [by apply (step_move provider 0 false (schedule 10 Heartbeat))|]. eapply rtc_l; [by eapply (step_move _ 0 false)|].
  eapply rtc_l; [by apply (step_clock _ 3)|]. eapply rtc_l; [by eapply (step_move _ 0 false)|]. eapply rtc_l; [apply step_shut|]. apply rtc_refl.
Qed.
Lemma stopped_reachable : rtc worker_step waiting stopped.
Proof. eapply rtc_l; [by apply (step_move waiting 0 false read_loop)|]. apply rtc_refl. Qed.

Lemma ticks_paced_witness : calls <$> loops stopped = [Heartbeat; RoundTrip] ∧
  ∀ first e, move 3 true first read_loop = Some e → at_ e = Ended.
Proof.
  destruct (ticks_paced provider waiting stopped) as [Hc Hk].
  - apply begun_provider.
  - by repeat constructor.
  - exact waiting_reachable.
  - exact stopped_reachable.
  - split; [exact Hc|]. inversion Hk as [|l l' ls ls' K _]. destruct K as [_ _ _ _ Hs].
    by destruct (Hs 10 eq_refl eq_refl) as [_ He]; apply He.
Defined.
End schedule_runs.
