(* ===== verification/Mains.v ===== *)
(** The main functions: proxyd/cmd/proxyd/main.go, cmd/ufm of op-ufm, cmd/monitor of op-conductor-mon, cmd/pms of peer-mgmt-service,
    cmd/runner of cci-stats, tools/kmstool of op-ufm, and the command lines of op-nat (cmd/main.go, flags/flags.go and the beginning of
    config.go), op-signer (cmd/main.go, config.go) and op-txproxy (cmd/main.go, cli.go).

    A program that logs at the critical level exits at once, without the calls it has deferred. Reading files, the flags of the
    command line library and the services that are started are parameters, or come from the files that model them. *)
From stdpp Require Import base numbers list gmap strings relations.
From S2P Require Import Prelude.
From S2P Require Import GoFloat.
From S2P Require Import Rpc.
From S2P Require Import Bytes.
From S2P Require Import Signer.
From S2P Require Import TxProxy.
From S2P Require Import AcceptanceTests.
From S2P Require Import Apps.
From S2P Require Import Ufm.
From S2P Require Import Pms.
From S2P Require Import Mon.
From S2P Require Import CciStats.

Local Open Scope string_scope.
Local Open Scope Z_scope.

(** ** proxyd *)

Inductive level := LevelTrace | LevelDebug | LevelInfo | LevelWarn | LevelError | LevelCrit.
#[export] Instance level_eq_dec : EqDecision level.
Proof. solve_decision. Defined.

Definition LevelFromString (lvlString : string) : level * option string :=
  let lvlString := to_lower lvlString in
  if decide (lvlString ∈ ["trace"; "trce"]) then (LevelTrace, None)
  else if decide (lvlString ∈ ["debug"; "dbug"]) then (LevelDebug, None)
  else if decide (lvlString ∈ ["info"]) then (LevelInfo, None)
  else if decide (lvlString ∈ ["warn"]) then (LevelWarn, None)
  else if decide (lvlString ∈ ["error"; "eror"]) then (LevelError, None)
  else if decide (lvlString ∈ ["crit"]) then (LevelCrit, None)
  else (LevelDebug, Some ("unknown level: " ++ lvlString)).

(** What a program does that can be seen. *)
Inductive event := SetLogLevel (l : level) | LogWarn (message : string) | StartPprof (addr : string) | ClosePprof | StartService | GotSignal | ShutdownService.
(** How it ends: [log.Crit], or the return of main. *)
Inductive ending := Fatal (message : string) | Returned.

Definition StartPProf (hostname : string) (port : string) : event := StartPprof (hostname ++ ":" ++ port).

(** The part of the configuration that main reads, and whether proxyd starts with it. *)
Record proxyd_file := mk_file { LogLevel : string; EnablePprof : bool; start_error : option string }.

Definition config_level (name : string) : list event :=
  match LevelFromString name with
  | (l, None) => [SetLogLevel l]
  | (_, Some _) => ((if String.eqb name "" then [] else [LogWarn ("invalid server.log_level set: " ++ name)]) ++ [SetLogLevel LevelInfo])%list
  end.
Definition proxyd_main (decode : string → string + proxyd_file) (args : list string) : list event * ending :=
  let begin := [SetLogLevel LevelInfo] in
  match args with
  | _ :: file :: _ =>
      match decode file with
      | inl err => (begin, Fatal "error reading config file")
      | inr config =>
          let begin := (begin ++ config_level (LogLevel config) ++ if EnablePprof config then [StartPProf "0.0.0.0" "6060"] else [])%list in
          match start_error config with
          | Some err => (begin, Fatal "error starting proxyd")
          | None => ((begin ++ [StartService; GotSignal; ShutdownService] ++ if EnablePprof config then [ClosePprof] else [])%list, Returned)
          end
      end
  | _ => (begin, Fatal "must specify a config file on the command line")
  end.

(** ** op-ufm, op-conductor-mon and peer-mgmt-service *)

Section service_main.
(** config.New, the level a name stands for, the warning about a name that stands for none, the level in a configuration and its
    validation, which may complete it. *)
Context {C W : Type} (warning : string) (config_New : string → string + C) (oplog_LevelFromString : string → option level) (level_of : C → string).
Context (Validate : C → M W (string + C)).

Definition initConfig (cfgFile : string) : M W (list event * (string + C)) :=
  match config_New cfgFile with
  | inl err => mret ([], inl "error reading config file")
  | inr cfg =>
      let events := match oplog_LevelFromString (level_of cfg) with
        | Some l => [SetLogLevel l]
        | None => ((if String.eqb (level_of cfg) "" then [] else [LogWarn warning]) ++ [SetLogLevel LevelInfo])%list
        end in
      r ← Validate cfg;
      mret (events, match r with inl err => inl "invalid config" | inr cfg => inr cfg end)
  end.

Definition service_main (args : list string) : M W (list event * (string + C)) :=
  match args with
  | _ :: file :: _ =>
      '(events, r) ← initConfig file;
      mret (match r with
        | inl message => (SetLogLevel LevelInfo :: events, inl message)
        | inr cfg => ((SetLogLevel LevelInfo :: events ++ [StartService; GotSignal; ShutdownService])%list, inr cfg)
        end)
  | _ => mret ([SetLogLevel LevelInfo], inl "must specify a config file on the command line")
  end.

Definition started (l : list event) : bool := existsb (λ e, match e with StartService => true | _ => false end) l.

(** A service is started only with a configuration that was read and validated, and then it is shut down; it logs at the level
    that its file names, or at the level info. *)
Lemma service_main_starts args w events r w' : service_main args w = Ret ((events, r), w') →
  match r with
  | inr cfg => ∃ file c, args !! 1%nat = Some file ∧ config_New file = inr c ∧ Validate c w = Ret (inr cfg, w') ∧
      SetLogLevel (default LevelInfo (oplog_LevelFromString (level_of c))) ∈ events ∧
      ∃ before, events = (before ++ [StartService; GotSignal; ShutdownService])%list ∧ started before = false
  | inl _ => started events = false
  end.
Proof.
  unfold service_main, initConfig. destruct args as [|prog [|file args]]; [by intros [= <- <- <-]..|].
  destruct (config_New file) as [err|c] eqn:En; [by intros [= <- <- <-]|]. set (set_level := match oplog_LevelFromString _ with Some _ => _ | None => _ end).
  assert (SetLogLevel (default LevelInfo (oplog_LevelFromString (level_of c))) ∈ set_level ∧ started set_level = false) as [Hin Hst].
  { unfold set_level. destruct (oplog_LevelFromString (level_of c)); [set_solver|]. destruct (String.eqb (level_of c) ""); set_solver. }
  unfold mbind, M_bind. destruct (Validate c w) as [[[err|cfg] w1]|] eqn:Ev; cbn; [by intros [= <- <- <-]| |done].
  intros [= <- <- <-]. exists file, c. split_and!; [done..|set_solver|]. by exists (SetLogLevel LevelInfo :: set_level).
Qed.

(** The level is set before the configuration is validated: the level that the validation fills in is never used. *)
Lemma filled_level_unused file c l w events r w' : config_New file = inr c → level_of c = "" → oplog_LevelFromString "" = None →
  service_main ["prog"; file] w = Ret ((events, r), w') → SetLogLevel l ∈ events → l = LevelInfo.
Proof.
  intros En El Ho. unfold service_main, initConfig. rewrite En, El, Ho. unfold mbind, M_bind.
  destruct (Validate c w) as [[[err|cfg] w1]|]; cbn; [|intros [= <- <- <-]; set_solver|done]. intros [= <- <- <-]. set_solver.
Qed.
End service_main.

Section services.
Context {W : Type} `{Order W} (oplog_LevelFromString : string → option level).

Definition ufm_main (config_New : string → string + Ufm.Config) : list string → M W (list event * (string + Ufm.Config)) :=
  service_main "invalid server.log_level" config_New oplog_LevelFromString Ufm.LogLevel Ufm.Validate.
Definition pms_main (config_New : string → string + Pms.Config) : list string → M W (list event * (string + Pms.Config)) :=
  service_main "invalid log_level" config_New oplog_LevelFromString Pms.LogLevel Pms.Validate.
Definition mon_main (config_New : string → string + Mon.Config) : list string → M W (list event * (string + Mon.Config)) :=
  service_main "invalid log_level" config_New oplog_LevelFromString Mon.LogLevel (λ c w,
    let '(order, w) := permute (map_to_list (Mon.Nodes c)) w in r ← Mon.Validate c order; Ret (r, w)).
End services.

(** ** kmstool *)

Section kmstool.
Context `{Pem} (Keccak256 : bytes → bytes) (GetPublicKey : string → string + bytes).

(** [bytes[1:]] of no bytes panics; the array is filled from the front. *)
Definition pubKeyAddr (key : bytes) : go bytes :=
  match key with
  | [] => Panic "slice bounds out of range"
  | _ :: rest => Ret (take 20 (drop 12 (Keccak256 rest) ++ replicate 20 0))
  end.
Definition resolveAddr (keyName : string) : go (string + bytes) :=
  match GetPublicKey keyName with
  | inl err => Ret (inl ("google kms public key lookup: " ++ err))
  | inr keyPem =>
      match (pem_Decode keyPem).1 with
      | None => Ret (inl "google kms public key pem empty")
      | Some block =>
          match unmarshal_key_info block with
          | None => Ret (inl "google kms public key pem block")
          | Some (_, _, (key, _), _) => addr ← pubKeyAddr key; Ret (inr addr)
          end
      end
  end.
Definition kmstool_main (client_error : option string) (args : list string) : go bytes :=
  match args with
  | _ :: keyName :: _ =>
      match client_error with
      | Some err => Panic ("failed to create kms client: " ++ err)
      | None =>
          r ← resolveAddr keyName;
          match r with inl err => Panic ("failed to retrieve the key: " ++ err) | inr addr => Ret addr end
      end
  | _ => Panic "missing <key>"
  end.

Hypothesis Keccak256_length : ∀ b, length (Keccak256 b) = 32%nat.

(** An address has 20 bytes, the last ones of the digest of the key without its first byte. *)
Lemma address_of_key b rest : ∃ addr, pubKeyAddr (b :: rest) = Ret addr ∧ length addr = 20%nat ∧ addr = drop 12 (Keccak256 rest).
Proof.
  eexists. split; [done|]. assert (length (drop 12 (Keccak256 rest)) = 20%nat) as Hl by (rewrite length_drop, Keccak256_length; done).
  rewrite take_app_le by lia. rewrite take_ge by lia. done.
Qed.
End kmstool.

(** ** cci-stats *)

Section cci_main.
Context (Getenv : string → string) (MustCompile : string → option (string → bool)).
(** The errors of the database connection and of the client of CircleCI. *)
Context (db_error client_error : option string).

Definition requiredStrEnv (envVar : string) : go string :=
  let val := Getenv envVar in if String.eqb val "" then Panic (envVar ++ " must be set") else Ret val.
Definition requiredIntEnv (envVar : string) : go Z :=
  let val := Getenv envVar in
  if String.eqb val "" then Panic (envVar ++ " must be set")
  else match Atoi val with None => Panic (envVar ++ " must be an integer") | Some out => Ret out end.
Definition compile (pattern : string) : go (string → bool) :=
  match MustCompile pattern with Some r => Ret r | None => Panic "regexp: Compile" end.

(** run, up to the goroutine that makes the report. *)
Definition cci_setup : go (string + Config) :=
  _ ← requiredStrEnv "CCI_KEY";
  _ ← requiredStrEnv "DATABASE_URI";
  projectSlug ← requiredStrEnv "PROJECT_SLUG";
  branchPattern ← requiredStrEnv "BRANCH_PATTERN";
  workflowPattern ← requiredStrEnv "WORKFLOW_PATTERN";
  fetchLimitDays ← requiredIntEnv "FETCH_LIMIT_DAYS";
  maxConcurrentFetchJobs ← requiredIntEnv "MAX_CONCURRENT_FETCH_JOBS";
  slowTestThresholdSeconds ← requiredIntEnv "SLOW_TEST_THRESHOLD_SECONDS";
  match db_error with
  | Some err => Ret (inl ("failed to connect to db: " ++ err))
  | None =>
      branch ← compile branchPattern;
      workflow ← compile workflowPattern;
      match client_error with
      | Some err => Ret (inl ("failed to create circleci client: " ++ err))
      | None => Ret (inr (mk_config projectSlug branch workflow fetchLimitDays maxConcurrentFetchJobs (f_of_Z slowTestThresholdSeconds)))
      end
  end.
End cci_main.

(** The goroutine that makes the report and sends its error, and the loop of run with its select. *)
Inductive report := Working | Sending (err : option string) | Delivered.
Record runner := mk_runner { cancelled : bool; signalled : bool; interrupted : bool; reporting : report; result : option (option string) }.
Definition runner_New : runner := mk_runner false false false Working None.

(** [possible done err]: the report may end with [err] when its context is done, or not. *)
Inductive runner_step (possible : bool → option string → Prop) : runner → runner → Prop :=
| step_interrupt s : runner_step possible s (mk_runner (cancelled s) true true (reporting s) (result s))
| step_report s err : reporting s = Working → possible (cancelled s) err →
    runner_step possible s (mk_runner (cancelled s) (signalled s) (interrupted s) (Sending err) (result s))
| step_signal s : result s = None → signalled s = true →
    runner_step possible s (mk_runner true false (interrupted s) (reporting s) None)
| step_error s err : result s = None → reporting s = Sending err →
    runner_step possible s (mk_runner (cancelled s) (signalled s) (interrupted s) Delivered (Some err))
| step_done s : result s = None → cancelled s = true →
    runner_step possible s (mk_runner (cancelled s) (signalled s) (interrupted s) (reporting s) (Some None)).
Definition exit_status (err : option string) : Z := match err with None => 0 | Some _ => 1 end.

(** What every state of the loop has. *)
Record runner_ok (possible : bool → option string → Prop) (s : runner) : Prop := mk_runner_ok {
  ok_interrupted : signalled s = true ∨ cancelled s = true → interrupted s = true;
  ok_reported err : reporting s = Sending err → possible false err ∨ interrupted s = true;
  ok_result err : result s = Some err → interrupted s = false → possible false err;
  ok_waiting : result s = None → reporting s ≠ Delivered;
}.
Lemma runner_ok_step possible s s' : runner_ok possible s → runner_step possible s s' → runner_ok possible s'.
Proof.
  intros [H1 H2 H3 H4] Hs. destruct Hs as [s|s err Hw Hp|s Hr Hsig|s err Hr Hrep|s Hr Hc]; split; cbn; try done.
  - intros e He. by right.
  - intros e [= ->]. destruct (cancelled s) eqn:Ec; [right; by apply H1; right|by left].
  - intros _. apply H1. by left.
  - intros _. by apply H4.
  - intros e [= <-] Hi. destruct (H2 _ Hrep) as [|Hi']; [done|congruence].
  - intros e [= <-] Hi. assert (interrupted s = true) as Hi' by (by apply H1; right). congruence.
Qed.
Lemma runner_ok_reachable possible s : rtc (runner_step possible) runner_New s → runner_ok possible s.
Proof.
  intros Hr. remember runner_New as s0 eqn:E0. assert (runner_ok possible s0) as H0 by (subst; split; cbn; naive_solver).
  clear E0. induction Hr as [|s1 s2 s3 Hs _ IH]; [done|]. apply IH. by eapply runner_ok_step.
Qed.

(** Run of cci-stats ends as soon as the report does or it is interrupted: until then it goes on, and afterwards a step of its own ends it
    or brings it there. When it was not interrupted, its status is that of the report, so a status of zero means
    that GenerateReport has returned without an error. *)
Theorem cci_exit_status {W Tx} `{Order W, CircleCI W, Pgx Tx W} fuel config (w : W) (aborted : option string → Prop) s :
  let possible (done : bool) err := if done then aborted err else ∃ w', GenerateReport fuel config w = Ret (Some err, w') in
  rtc (runner_step possible) runner_New s →
  (∀ err, result s = Some err → interrupted s = false → ∃ w', GenerateReport fuel config w = Ret (Some err, w')) ∧
  (result s = None → signalled s = true ∨ cancelled s = true ∨ reporting s ≠ Working →
     ∃ s1 s2 err, runner_step possible s s1 ∧ rtc (runner_step possible) s1 s2 ∧ result s2 = Some err).
Proof.
  intros possible Hr%runner_ok_reachable. destruct Hr as [_ _ Hres Hwait]. split; [intros err Er Hi; exact (Hres err Er Hi)|].
  intros En Hready. assert (cancelled s = true → ∃ s1 err, runner_step possible s s1 ∧ result s1 = Some err) as Hdone.
  { intros Hc. eexists _, None. split; [by apply step_done|done]. }
  destruct Hready as [Hsig|[Hc|Hrep]].
  - eexists _, _, None. split; [by apply step_signal|]. split; [|shelve]. eapply rtc_once. by apply step_done. Unshelve. done.
  - destruct (Hdone Hc) as (s1 & err & Hs & E). by exists s1, s1, err.
  - destruct (reporting s) as [|err|] eqn:Er; [done| |by destruct (Hwait En)]. eexists _, _, err. split; [by eapply step_error|]. by split.
Qed.

(** An interrupted run succeeds, whatever becomes of the report. *)
Lemma interrupted_run_succeeds possible : ∃ s, rtc (runner_step possible) runner_New s ∧ reporting s = Working ∧
  exit_status <$> result s = Some 0.
Proof.
  eexists. split; [|shelve]. eapply rtc_l; [apply step_interrupt|]. eapply rtc_l; [by apply step_signal|]. eapply rtc_l; [by apply step_done|].
  apply rtc_refl. Unshelve. done.
Qed.

(** ** Command lines *)

Inductive flag_value := StringValue (s : string) | BoolValue (b : bool) | Uint64Value (n : Z).
Record flag := mk_flag { flag_Name : string; flag_Value : flag_value; flag_Required : bool; EnvVars : list string }.

(** The context of a command of the library, and the flags of op-service that a program adds to its own. *)
Class Cli := {
  IsSet : string → bool;
  ctx_String : string → string;
  ctx_Bool : string → bool;
  ctx_Uint64 : string → Z;
  PrefixEnvVar : string → string → list string;
  CLIFlags : string → string → list flag; (* of a package of op-service, with the prefix of the program *)
  CheckRequiredXor : option string;
}.
(** A flag that was not set has the value it was declared with. *)
Class CliSpec `{Cli} (flags : list flag) : Prop := {
  unset_string f s : f ∈ flags → flag_Value f = StringValue s → IsSet (flag_Name f) = false → ctx_String (flag_Name f) = s;
  unset_bool f b : f ∈ flags → flag_Value f = BoolValue b → IsSet (flag_Name f) = false → ctx_Bool (flag_Name f) = b;
  unset_uint64 f n : f ∈ flags → flag_Value f = Uint64Value n → IsSet (flag_Name f) = false → ctx_Uint64 (flag_Name f) = n;
  required_set f : f ∈ flags → flag_Required f = true → IsSet (flag_Name f) = true;
}.

Section cli.
Context `{Cli}.

(** op-nat *)
Definition KurtosisDevnetManifest : flag :=
  mk_flag "kurtosis.devnet.manifest" (StringValue "") false (PrefixEnvVar "OP_NAT" "KURTOSIS_DEVNET_MANIFEST").
Definition requiredFlags : list flag := [KurtosisDevnetManifest].
Definition nat_Flags : list flag := (requiredFlags ++ CLIFlags "rpc" "OP_NAT" ++ CLIFlags "log" "OP_NAT" ++ CLIFlags "metrics" "OP_NAT")%list.
Fixpoint check_set (l : list flag) : option string :=
  match l with [] => None | f :: l => if IsSet (flag_Name f) then check_set l else Some ("flag " ++ flag_Name f ++ " is required") end.
Definition CheckRequired : option string := match check_set requiredFlags with Some err => Some err | None => CheckRequiredXor end.

Definition parseManifest {W} (ReadFile : string → W → (string + string) * W) (unmarshal : string → string + SuperchainManifest)
    (manifestPath : string) : M W (string + SuperchainManifest) := λ w,
  Ret (match ReadFile manifestPath w with
    | (inl err, w) => (inl ("failed to read manifest file: " ++ err), w)
    | (inr manifest, w) => (match unmarshal manifest with inl err => inl ("failed to unmarshal manifest: " ++ err) | inr m => inr m end, w)
    end).
(** The run of op-nat up to the tester that it starts. *)
Definition nat_run {C W} (ReadFile : string → W → (string + string) * W) (unmarshal : string → string + SuperchainManifest)
    (NewConfig : SuperchainManifest → M W (string + C)) : M W (string + C) :=
  match CheckRequired with
  | Some err => mret (inl ("failed to create config: missing required flags: " ++ err))
  | None =>
      manifest ← parseManifest ReadFile unmarshal (ctx_String (flag_Name KurtosisDevnetManifest));
      match manifest with
      | inl err => mret (inl ("failed to create config: failed to parse kurtosis-devnet manifest: " ++ err))
      | inr manifest => r ← NewConfig manifest; mret (match r with inl err => inl ("failed to create config: " ++ err) | inr c => inr c end)
      end
  end.

(** op-signer *)
Definition signer_CLIFlags (envPrefix : string) : list flag :=
  mk_flag "config" (StringValue "config.yaml") false (PrefixEnvVar envPrefix "SERVICE_CONFIG") ::
    (["rpc"; "log"; "metrics"; "oppprof"; "tls"] ≫= λ package, CLIFlags package envPrefix).
Definition ClientSignCLIFlags (envPrefix : string) : list flag :=
  [mk_flag "endpoint" (StringValue "http://localhost:8080") false (PrefixEnvVar envPrefix "CLIENT_ENDPOINT")].
(** The parts that op-service reads are those of the given configuration. *)
Definition signer_NewConfig (service : Apps.Config) : Apps.Config :=
  Apps.mk_config (ctx_String "endpoint") (ctx_String "config") (Apps.TLSCaCert service) (Apps.TLSCert service) (Apps.TLSKey service)
    (PprofEnabled service) (MetricsEnabled service) (rpc_check service) (metrics_check service) (pprof_check service) (tls_check service).
Definition MainAppAction {W} `{Host W} (service : Apps.Config) : M W (string + SignerApp) := InitFromConfig (signer_NewConfig service).

(** op-txproxy *)
Definition SendRawTransactionConditionalEnabledFlagName : string := "sendRawTxConditional.enabled".
Definition SendRawTransactionConditionalBackendFlagName : string := "sendRawTxConditional.backend".
Definition SendRawTransactionConditionalRateLimitFlagName : string := "sendRawTxConditional.ratelimit".
Definition txproxy_CLIFlags (envPrefix : string) : list flag :=
  [mk_flag SendRawTransactionConditionalEnabledFlagName (BoolValue true) false (PrefixEnvVar envPrefix "SENDRAWTXCONDITIONAL_ENABLED");
   mk_flag SendRawTransactionConditionalBackendFlagName (StringValue "") true (PrefixEnvVar envPrefix "SENDRAWTXCONDITIONAL_BACKEND");
   mk_flag SendRawTransactionConditionalRateLimitFlagName (Uint64Value 5000) false (PrefixEnvVar envPrefix "SENDRAWTXCONDITIONAL_RATELIMIT")].
Definition ReadCLIConfig : CLIConfig :=
  mk_cli (ctx_Bool SendRawTransactionConditionalEnabledFlagName) (ctx_String SendRawTransactionConditionalBackendFlagName)
    (ctx_Uint64 SendRawTransactionConditionalRateLimitFlagName).
Definition EnvVarPrefix : string := "OP_TXPROXY".
Definition txproxy_Flags : list flag :=
  (((txproxy_CLIFlags EnvVarPrefix ++ CLIFlags "rpc" EnvVarPrefix) ++ CLIFlags "metrics" EnvVarPrefix) ++ CLIFlags "log" EnvVarPrefix)%list.
(** [NewTxProxy] makes the conditional service out of the configuration. *)
Definition TxProxyMain {W} `{Host W} : M W (string + TxProxy) :=
  txproxy ← NewTxProxy;
  mret (match txproxy with inl err => inl ("unable to start superchain backend: " ++ err) | inr txproxy => inr txproxy end).

(** What op-txproxy is told by nothing but the flag it requires. *)
Lemma txproxy_defaults prefix : CliSpec (txproxy_CLIFlags prefix) →
  (∀ n, IsSet n = true → n = SendRawTransactionConditionalBackendFlagName) →
  IsSet SendRawTransactionConditionalBackendFlagName = true ∧
  ReadCLIConfig = mk_cli true (ctx_String SendRawTransactionConditionalBackendFlagName) 5000.
Proof.
  intros Hspec Hset. set (flags := txproxy_CLIFlags prefix) in *. assert (∀ n, n ≠ SendRawTransactionConditionalBackendFlagName → IsSet n = false) as Hu.
  { intros n Hn. destruct (IsSet n) eqn:E; [by apply Hset in E|done]. }
  split; [apply (required_set (flags := flags) (mk_flag SendRawTransactionConditionalBackendFlagName (StringValue "") true
    (PrefixEnvVar prefix "SENDRAWTXCONDITIONAL_BACKEND"))); [set_solver|done]|]. unfold ReadCLIConfig. f_equal.
  - apply (unset_bool (flags := flags) (mk_flag SendRawTransactionConditionalEnabledFlagName (BoolValue true) false
      (PrefixEnvVar prefix "SENDRAWTXCONDITIONAL_ENABLED"))); [set_solver|done|by apply Hu].
  - apply (unset_uint64 (flags := flags) (mk_flag SendRawTransactionConditionalRateLimitFlagName (Uint64Value 5000) false
      (PrefixEnvVar prefix "SENDRAWTXCONDITIONAL_RATELIMIT"))); [set_solver|done|by apply Hu].
Qed.
End cli.

Module main_runs.
Import cci_runs.
#[local] Existing Instances cci order pgx.

Definition env (k : string) : string :=
  if String.eqb k "FETCH_LIMIT_DAYS" then "90" else if String.eqb k "MAX_CONCURRENT_FETCH_JOBS" then "4"
  else if String.eqb k "SLOW_TEST_THRESHOLD_SECONDS" then "-5" else "main".
Lemma setup_run : match cci_setup env (λ p, Some (String.eqb p)) None None with
  | Ret (inr c) => (ProjectSlug c, BranchPatternRegex c "main", FetchLimitDays c) = ("main", true, 90) | _ => False end.
Proof. vm_compute. reflexivity. Qed.
(** A variable that is not set is a panic, before anything is opened. *)
Lemma unset_run : cci_setup (λ k, if String.eqb k "PROJECT_SLUG" then "" else env k) (λ p, Some (String.eqb p)) None None = Panic "PROJECT_SLUG must be set".
Proof. reflexivity. Qed.

Definition may (done : bool) (err : option string) : Prop :=
  if done then err = Some "context canceled" else ∃ w', GenerateReport 2 cfg (w0 "") = Ret (Some err, w').
(** The report has ended when the interrupt comes. *)
Definition late : runner := mk_runner false true true (Sending None) None.
Lemma report_returns : ∃ w', GenerateReport 2 cfg (w0 "") = Ret (Some None, w').
Proof.
  assert (fst <$> returned (GenerateReport 2 cfg (w0 "")) = Some (Some None)) as E by (vm_compute; reflexivity).
  apply returned_fst in E as (e & w' & E & He). exists w'. by rewrite E, <- He.
Qed.
Lemma late_reachable : rtc (runner_step may) runner_New late.
Proof. eapply rtc_l; [apply step_report; [done|exact report_returns]|]. eapply rtc_l; [apply step_interrupt|]. apply rtc_refl. Qed.

Lemma cci_exit_status_witness : ∃ s1 s2 err, runner_step may late s1 ∧ rtc (runner_step may) s1 s2 ∧ result s2 = Some err.
Proof.
  destruct (cci_exit_status (Tx := unit) 2 cfg (w0 "") (λ err, err = Some "context canceled") late) as [_ Hp].
  - exact late_reachable.
  - apply Hp; [reflexivity|left; reflexivity].
Defined.

(** The key that a KMS gives may be empty. *)
Lemma empty_key_panics Keccak256 : pubKeyAddr Keccak256 [] = Panic "slice bounds out of range".
Proof. reflexivity. Qed.

(** proxyd that cannot start leaves its pprof server open, and one that ends closes it. *)
Lemma failed_start_run : proxyd_main (λ _, inr (mk_file "DBUG" true (Some "bad"))) ["proxyd"; "f"] =
  ([SetLogLevel LevelInfo; SetLogLevel LevelDebug; StartPprof "0.0.0.0:6060"], Fatal "error starting proxyd").
Proof. vm_compute. reflexivity. Qed.
Lemma ended_run : proxyd_main (λ _, inr (mk_file "loud" true None)) ["proxyd"; "f"] =
  ([SetLogLevel LevelInfo; LogWarn "invalid server.log_level set: loud"; SetLogLevel LevelInfo; StartPprof "0.0.0.0:6060"; StartService; GotSignal;
    ShutdownService; ClosePprof], Returned).
Proof. vm_compute. reflexivity. Qed.
End main_runs.
